(* ===== verification/_CoqProject ===== *)
-Q . S2P
Prelude.v
GoLib.v
GoFloat.v
Sha256.v
DhtKey.v
DhtTable.v
DhtLookup.v
DhtNetwork.v
MeshTypes.v
Protocol.v
Bootstrap.v
Tunnel.v
NetAddr.v
NetParse.v
GoStrings.v
Routing.v
PortControl.v
PortScan.v
Relay.v
Reselect.v
Dns.v
HolePunch.v
Room.v
Stun.v
StunClient.v
ServerMesh.v
Storage.v
Jwt.v
Api.v
Crypto.v
Identity.v
Config.v
ServerPkg.v
ClientPkg.v
Commands.v
SqlScan.v
HostSystem.v
Programs.v
BootServer.v
DnsProxy.v
HostNets.v
ApiServer.v
ApiSession.v
TunnelPair.v
TunnelUdp.v
DataPlane.v
MeshRouting.v
