(* ===== verification/Prelude.v ===== *)
(** * go-p2pmesh: a verification library

    go-p2pmesh (src/) is a peer-to-peer mesh network in Go.  Nodes get their identity from an
    Ed25519 key, register with bootstrap servers by proving possession of that key, find each
    other through a Kademlia-style hash table, open encrypted tunnels (directly by hole
    punching or through a relay) and route IP packets over them.  Rooms isolate discovery; a
    port controller decides what a peer may reach on a host; a local DNS proxy names the
    nodes.  Servers keep nodes, rooms and rules in an SQL store behind a management API, and issue
    certificates.  This library models these parts as Rocq definitions that can be evaluated, and
    proves what makes them correct.

    ** Conventions

    A Go call that can fail or panic returns an [outcome] ([Ret], [Fail] or [Panic]).  State
    is passed explicitly: a method of a struct takes the struct's record and returns the new
    one.  A call is one step, without its mutex and without interleavings inside it, except where
    the code unlocks in the middle ([Start] in ServerPkg.v and ClientPkg.v, the two statements of a
    registration in Storage.v).  Where goroutines run side by side (BootServer.v, DnsProxy.v,
    ApiServer.v, TunnelPair.v, the loops of ServerMesh.v) the steps are events that may come in
    any order, and the theorems are about all reachable states.  Integers are [Z] (with the wrap
    written out where the width matters), byte slices are [list byte], fixed arrays [vec],
    Go strings are [string], maps are [gmap], times are nanoseconds since Go's zero time.
    A float64 is an IEEE binary64 number (GoFloat.v).  What the code leaves to its
    environment is an argument or a class: the clock, random draws, the order in which
    goroutines answer, whether a write succeeds, what the network or a database returns,
    JSON, Ed25519 and AEAD ciphers.  Classes that carry laws have a concrete instance in the
    witnesses.  SHA-256 is defined (Sha256.v), not assumed.

    ** Files

    - Prelude.v: outcomes, tactics, strict weak orders and sorting, list lemmas.
    - GoLib.v: bytes, big-endian fields, strings, times, [sort.Slice].
    - GoFloat.v: float64 on [SpecFloat]; its operations are exact on integers below 2^53.
    - Sha256.v: SHA-256 with the standard test vectors.
    - DhtKey.v, DhtTable.v, DhtLookup.v: src/internal/dht.  160-bit keys and their XOR
      distance (key.go); buckets and the routing table (bucket.go, table.go); the iterative
      lookup (lookup.go).  The table keeps at most K distinct nodes per bucket, each in the
      bucket of its prefix length, over any history; [Add], eviction and [Nearest] do what
      they promise; a lookup returns a sorted duplicate-free shortlist and, when it converges
      over honest answers, the closest nodes it heard of.
    - DhtNetwork.v: lookups over a network of such tables.  Members that were introduced to each
      other and answer from their own tables find the member closest to any target, within the
      default number of rounds, though buckets keep only K nodes.
    - MeshTypes.v: src/pkg/types.  Node identifiers, room keys and the addresses derived from
      them (id.go, salt.go, addr.go, ipv4.go).
    - Protocol.v: src/internal/protocol/proto.go.  Message framing and its round trip, and
      the challenge payload.
    - Bootstrap.v: src/internal/bootstrap/server.go.  The connection state machine and proof
      of possession: registration is only acknowledged after a valid signature over a nonce
      that is used once, and an honest client succeeds.
    - Reselect.v: src/internal/bootstrap/reselect.go.  Backoff and candidate rotation.
    - Tunnel.v: src/internal/tunnel.  Packet format, the replay window, [Read] and [Write],
      the tunnel manager, MTU checks: what is sent arrives in order, what is delivered was
      sent, nonces do not repeat, and exactly which sequence numbers are accepted.
    - NetAddr.v, NetParse.v, GoStrings.v: IP addresses and their parsing (net/netip, net),
      trimming, splitting, decimal numbers and the line scanner (strings, strconv, bufio).
    - Routing.v: src/internal/routing.  The peer table and the forwarding loop: packets only
      go to the sink wired for their destination.
    - PortControl.v: src/internal/portcontrol (controller.go, forward.go, persist.go, rooms.go,
      rules.go).  The inbound decision, confinement of dials, durable rules.
    - PortScan.v: src/internal/portcontrol/scan.go.  The scan detector refines a
      specification per source; the token bucket keeps its rate.
    - Relay.v: src/internal/relay/relay.go.  What a hub forwards and its byte quota.
    - Dns.v: src/internal/dns.  Wire codec, resolver, and the handling of one datagram.
    - HolePunch.v: src/internal/holepunch.  Candidate order and the strategy ladder.
    - Stun.v: src/internal/stun.  The Binding codec, the server pool and port prediction.
    - StunClient.v: the exchange on a socket, NAT classification and sampling, over any
      network: the verdict as a function of the ports the NAT gives, and how one late answer
      fails every later query.
    - ServerMesh.v: src/internal/servermesh.  The server table and the loops that expire its
      entries: nothing outlives 120 seconds, nothing seen within 90 is expired.
    - Room.v: src/internal/room.  Room manager with paging, address allocator, client cache.
    - Storage.v: src/internal/storage.  The store interface as a class, the SQL statements as
      operations on tables, migrations.  The tables stay typed with unique and existing
      references; a node identifier keeps its first key; the SQL store implements the rule store
      of PortControl.v (rules survive a restart) and the room store of Room.v.
    - Jwt.v, Api.v: src/internal/api.  HMAC tokens byte by byte, the registry of refresh tokens,
      the limiter, every handler and the middleware chain over any store: nothing is read
      or changed without a login, a logout revokes, guesses are limited, and on the SQL store
      only an authorised deletion releases an identifier.
    - Crypto.v: src/internal/crypto.  Certificate bodies, the chain root - authority - node with
      its validity windows, the online authority, the handshake's state machine.  Accepted
      certificates were issued as they are; issued ones are accepted while valid; exactly
      one malformed certificate panics.
    - Identity.v: src/internal/identity.  Fingerprint, key file, start-up: a node keeps its
      identity across restarts.
    - Config.v: src/internal/config.  The INI reader inverts writing; both configurations.
    - ServerPkg.v, ClientPkg.v: src/pkg/server, src/pkg/client.  Options and life cycles: a
      server always shuts down completely, and what a [Stop] that overtakes a [Start] does.
    - Commands.v: src/cmd.  From file and flags to the effective configuration; the client's
      string loops.
    - SqlScan.v: src/scripts/sqlscan.  The exit status says whether the source is clean.
    - HostSystem.v: src/internal/tun and firewall_linux.go.  The TUN device over the open files of
      the process, and which commands the host is asked to run, in which order.
    - Programs.v: the two [main] functions of src/cmd as a whole, src/internal/sysutil and the
      TUN functions outside Linux: how the server program ends for every order of start and
      signal.
    - BootServer.v: the accept loop, connection handlers and shutdown of
      src/internal/bootstrap/server.go: the table holds exactly the live connections, and a
      cancelled and stopped server comes to rest with everything closed.
    - DnsProxy.v: the running proxy of src/internal/dns/proxy.go: each datagram gets the reply
      due to it, whatever the order of the goroutines.
    - HostNets.v: the networks of the host's interfaces (src/internal/portcontrol/rules.go) and
      what a passed startup check excludes.
    - ApiServer.v: [Start] and [Stop] of src/internal/api/router.go.
    - ApiSession.v: an administrator's way through the chain of Api.v: a login opens a session that
      lasts exactly until its token expires, and can be refreshed.
    - TunnelPair.v, TunnelUdp.v: src/internal/tunnel/tunnel.go.  Goroutines on two connected
      tunnels and exactly when they deadlock; [Read] on a UDP socket, which delivers nothing.
    - DataPlane.v: the forwarding loop from the TUN device over tunnels: the peer reads exactly what
      is routed to it.
    - MeshRouting.v: routing by derived addresses, and what colliding addresses do.

    In the larger files a module named after the component holds the definitions, [...Facts]
    the lemmas and [...Properties] the main theorems with their witnesses.  Definitions keep
    the names of the Go functions and fields; a prefix or suffix is added where two would
    clash.

    ** Fuel and bounds

    The lookup's rounds are bounded by the code's own [MaxRounds].  The DNS name decoder
    recurses without a bound in the code, so its model takes fuel and answers [None] when it
    runs out: [parse_termination] gives the fuel that is enough for pointer-free datagrams
    and shows that a self-pointer exhausts any fuel.  The walk over room pages needs one
    request per member plus one.  The theorems on token buckets are stated for clocks of
    whole seconds and integer rates, where float64 is exact; between whole seconds the
    buckets round, and nothing is claimed.

    The INI theorems are for lines below the scanner's limit of 65536 bytes, over-long lines
    being its error.  The client's split loop gets one round per byte plus one, which is shown to
    be enough.  The servers' event systems have no fuel: that a stopped server comes to rest is
    shown by a measure of the work left.

    ** Assumptions

    Unforgeability is stated where it is used, as a hypothesis on the verifier: which
    messages a key verifies (Crypto.v), which tokens were issued (Api.v).  It does
    not speak about the program; the theorems connect it to what is accepted.

    [http.Server] (ApiServer.v) and UDP sockets (StunClient.v, TunnelUdp.v) behave as Go documents
    them: a read takes one datagram and drops what does not fit.  A ticker's tick is handled before
    time passes on (ServerMesh.v).  In StunClient.v the network is a class, and the classification
    theorem assumes servers that report the address they see.

    The runs of BootServer.v have no client that connects from the address of a connection the server
    has not closed yet, and cancel the context before [Stop]; [reused_address] shows what the table
    of connections loses without the first condition, [stop_alone_spins] what happens without the
    second.

    The transport of DHT queries is not part of the sources.  DhtNetwork.v states what a lookup needs
    of the answers ([responsive]) and shows that peers which answer with two or more nodes of their
    own tables provide it; its members have different keys.  The kernel hands out the packets of a TUN
    device one per read, cut to the buffer.

    ** Not modelled

    - What the operating system does behind a call: the TUN device and its ioctl, sockets, the TLS
      handshake; deadlines other than as errors that may happen at any time.
    - Noise, AEAD ciphers, Ed25519, X25519, bcrypt, JSON and the SQL engine, which are other
      packages: classes with the laws that the code relies on.
    - Parsing of the command line by the flag package, log output, and accessors that return
      what a connection reports. *)

From stdpp Require Export base option list list_numbers strings gmap sorting vector.
From Stdlib Require Export ZArith Lia.

Declare Scope mesh_scope.
Delimit Scope mesh_scope with mesh.
Create HintDb mesh.

(** ** Outcomes of Go calls

    A call of the program returns a value, returns an [error], or panics (a run-time
    error: an index or slice bound out of range, a nil dereference). *)
Inductive outcome (E A : Type) : Type :=
| Ret (a : A)
| Fail (e : E)
| Panic.

Arguments Ret {E A} a.
Arguments Fail {E A} e.
Arguments Panic {E A}.

#[export] Instance outcome_ret E : MRet (outcome E) := λ A a, Ret a.
#[export] Instance outcome_bind E : MBind (outcome E) := λ A B f m,
  match m with
  | Ret a => f a
  | Fail e => Fail e
  | Panic => Panic
  end.

Definition is_ret {E A} (m : outcome E A) : bool :=
  match m with Ret _ => true | _ => false end.

Definition is_panic {E A} (m : outcome E A) : bool :=
  match m with Panic => true | _ => false end.

Lemma Ret_inj {E A} (a b : A) : @Ret E A a = Ret b → a = b.
Proof. by injection 1. Qed.

Lemma outcome_bind_ret {E A B} (m : outcome E A) (f : A → outcome E B) b :
  m ≫= f = Ret b ↔ ∃ a, m = Ret a ∧ f a = Ret b.
Proof. destruct m; cbn; naive_solver. Qed.

(** ** Tactics *)

(** Splits every match and boolean test of the goal, then closes what is trivial. *)
Ltac split_matches := repeat (case_match; simplify_eq/=).

(** Turns boolean tests in the context into propositions. *)
Ltac reflect_tests :=
  repeat match goal with
  | H : andb _ _ = true |- _ => apply andb_true_iff in H; destruct H
  | H : orb _ _ = false |- _ => apply orb_false_iff in H; destruct H
  | H : negb _ = true |- _ => apply negb_true_iff in H
  | H : negb _ = false |- _ => apply negb_false_iff in H
  | H : bool_decide _ = true |- _ => apply bool_decide_eq_true in H
  | H : bool_decide _ = false |- _ => apply bool_decide_eq_false in H
  | H : String.eqb _ _ = true |- _ => apply String.eqb_eq in H
  | H : String.eqb _ _ = false |- _ => apply String.eqb_neq in H
  end.

(** ** Strict weak orders and sorting

    [sort.Slice] and [sort.SliceStable] take a "less" callback; the order they sort by is
    given by such a boolean function. *)
Class StrictWeak {A} (less : A → A → bool) : Prop := {
  sw_irrefl x : less x x = false;
  sw_trans x y z : less x y = true → less y z = true → less x z = true;
  sw_cotrans x y z : less x z = true → less x y = true ∨ less y z = true;
}.

(** [x] may stand before [y]: [y] is not less than [x]. *)
Definition not_after {A} (less : A → A → bool) (x y : A) : Prop := less y x = false.

Section Isort.
Context {A : Type} (less : A → A → bool).

(** Insertion before the first element that is not less: equal elements keep their order. *)
Fixpoint ins (x : A) (l : list A) : list A :=
  match l with
  | [] => [x]
  | y :: l' => if less y x then y :: ins x l' else x :: l
  end.

Definition isort (l : list A) : list A := foldr ins [] l.

Lemma ins_perm x l : ins x l ≡ₚ x :: l.
Proof.
  induction l as [|y l IH]; cbn; [done|].
  case_match; [|done]. rewrite IH. constructor.
Qed.

Lemma isort_perm l : isort l ≡ₚ l.
Proof. induction l as [|x l IH]; cbn; [done|]. by rewrite ins_perm, IH. Qed.

Context `{!StrictWeak less}.

Lemma not_after_trans x y z : not_after less x y → not_after less y z → not_after less x z.
Proof.
  unfold not_after. intros Hxy Hyz. destruct (less z x) eqn:E; [|done].
  destruct (sw_cotrans z y x E); congruence.
Qed.

Lemma less_not_after x y : less x y = true → not_after less x y.
Proof.
  unfold not_after. intros H. destruct (less y x) eqn:E; [|done].
  pose proof (sw_trans _ _ _ H E). by rewrite sw_irrefl in *.
Qed.

Lemma ins_sorted x l :
  StronglySorted (not_after less) l → StronglySorted (not_after less) (ins x l).
Proof.
  induction 1 as [|y l Hl IH Hall]; cbn; [repeat constructor|].
  destruct (less y x) eqn:E.
  - constructor; [done|]. rewrite ins_perm.
    constructor; [|done]. by apply less_not_after.
  - constructor; [by constructor|]. constructor; [done|].
    eapply Forall_impl; [done|]. intros z. by apply not_after_trans.
Qed.

Lemma isort_sorted l : StronglySorted (not_after less) (isort l).
Proof. induction l; cbn; [constructor|]. by apply ins_sorted. Qed.

(** In a sorted list nothing of a suffix is less than something of the prefix. *)
Lemma sorted_prefix_least l n x y :
  StronglySorted (not_after less) l → x ∈ take n l → y ∈ drop n l → less y x = false.
Proof.
  intros Hs Hx Hy. rewrite <- (take_drop n l) in Hs.
  eapply (StronglySorted_app_1_elem_of (not_after less)); eauto.
Qed.

(** A sorted list is determined by its elements when no two of them tie. *)
Lemma sorted_unique l1 l2 :
  (∀ x y, x ∈ l1 → y ∈ l1 → less x y = false → less y x = false → x = y) →
  l1 ≡ₚ l2 → StronglySorted (not_after less) l1 → StronglySorted (not_after less) l2 →
  l1 = l2.
Proof.
  intros Htie Hp H1. revert l2 Hp Htie.
  induction H1 as [|x1 l1 H1 IH Hall1]; intros l2 Hp Htie H2.
  { by apply Permutation_nil_l in Hp. }
  destruct H2 as [|x2 l2 H2 Hall2]; [by apply Permutation_nil_r in Hp|].
  rewrite Forall_forall in Hall1, Hall2.
  assert (x1 = x2) as ->.
  { assert (x1 ∈ x2 :: l2) as Hx1 by (rewrite <- Hp; apply list_elem_of_here).
    assert (x2 ∈ x1 :: l1) as Hx2 by (rewrite Hp; apply list_elem_of_here).
    apply elem_of_cons in Hx1 as [?|Hx1]; [done|].
    apply elem_of_cons in Hx2 as [?|Hx2]; [done|].
    apply Htie; [apply list_elem_of_here|by apply list_elem_of_further|by apply Hall2|by apply Hall1]. }
  f_equal. apply IH; [by apply Permutation_cons_inv in Hp| |done].
  intros x y Hx Hy. by apply Htie; apply list_elem_of_further.
Qed.
End Isort.

Lemma sorted_map {A B} (f : A → B) (R : A → A → Prop) (S : B → B → Prop) l :
  (∀ x y, x ∈ l → y ∈ l → R x y → S (f x) (f y)) →
  StronglySorted R l → StronglySorted S (f <$> l).
Proof.
  intros H Hl. induction Hl as [|x l Hl IH Hall]; cbn; [constructor|].
  constructor.
  - apply IH. intros y z Hy Hz. apply H; by right.
  - apply Forall_fmap, Forall_forall. intros y Hy. apply H; [by left|by right|].
    by eapply Forall_forall in Hall.
Qed.

Lemma sorted_take {A} (R : A → A → Prop) n l : StronglySorted R l → StronglySorted R (take n l).
Proof.
  intros Hl. revert n. induction Hl as [|x l Hl IH Hall]; intros [|n]; cbn; try constructor.
  - apply IH.
  - by apply Forall_take.
Qed.

(** A boolean order given by an integer rank is a strict weak order. *)
Lemma rank_strict_weak {A} (rank : A → Z) : StrictWeak (λ x y, (rank x <? rank y)%Z).
Proof. split; intros; lia. Qed.

Lemma strict_weak_ext {A} (less less' : A → A → bool) :
  (∀ x y, less' x y = less x y) → StrictWeak less → StrictWeak less'.
Proof.
  intros E [Hi Ht Hc]. split; intros *; rewrite !E; [apply Hi|apply Ht|apply Hc].
Qed.

(** The lexicographic combination of two orders: ties of the first are decided by the
    second. *)
Definition lex {A} (l1 l2 : A → A → bool) (x y : A) : bool := l1 x y || (negb (l1 y x) && l2 x y).

Lemma lex_strict_weak {A} (l1 l2 : A → A → bool) :
  StrictWeak l1 → StrictWeak l2 → StrictWeak (lex l1 l2).
Proof.
  intros H1 H2. unfold lex.
  assert (Hasym : ∀ x y, l1 x y = true → l1 y x = false).
  { intros x y H. destruct (l1 y x) eqn:E; [|done].
    pose proof (sw_trans x y x H E) as Hx. by rewrite sw_irrefl in Hx. }
  split.
  - intros x. by rewrite !sw_irrefl.
  - intros x y z. rewrite !orb_true_iff, !andb_true_iff, !negb_true_iff.
    intros [Hxy|[Hyx Hxy]] [Hyz|[Hzy Hyz]].
    + left. by apply (sw_trans x y z).
    + left. destruct (sw_cotrans x z y Hxy) as [?|?]; congruence.
    + left. destruct (sw_cotrans y x z Hyz) as [?|?]; congruence.
    + right. split; [|by apply (sw_trans x y z)].
      destruct (l1 z x) eqn:E; [|done]. destruct (sw_cotrans z y x E); congruence.
  - intros x y z. rewrite !orb_true_iff, !andb_true_iff, !negb_true_iff. intros [Hxz|[Hzx Hxz]].
    + destruct (sw_cotrans x y z Hxz); auto.
    + destruct (l1 x y) eqn:Exy; [auto|]. destruct (l1 y z) eqn:Eyz; [auto|].
      destruct (l1 y x) eqn:Eyx.
      { destruct (sw_cotrans y z x Eyx); congruence. }
      destruct (l1 z y) eqn:Ezy.
      { destruct (sw_cotrans z x y Ezy); congruence. }
      destruct (sw_cotrans x y z Hxz); auto.
Qed.

#[export] Hint Resolve isort_perm isort_sorted : mesh.

(** ** Lists *)

(** The first position at which a boolean test holds. *)
Fixpoint find_index {A} (p : A → bool) (l : list A) : option nat :=
  match l with
  | [] => None
  | x :: l' => if p x then Some 0 else S <$> find_index p l'
  end.

Lemma find_index_Some {A} (p : A → bool) l i :
  find_index p l = Some i →
  ∃ x, l !! i = Some x ∧ p x = true ∧ ∀ j y, j < i → l !! j = Some y → p y = false.
Proof.
  revert i. induction l as [|x l IH]; intros i; cbn; [done|].
  destruct (p x) eqn:E.
  - intros [= <-]. exists x. split_and!; [done|done|lia].
  - destruct (find_index p l) as [k|]; [|done]. cbn. intros [= <-].
    destruct (IH k) as (y & Hy & Hp & Hmin); [done|]. exists y. split_and!; [done|done|].
    intros [|j] z Hj Hz; [by simplify_eq/=|]. apply (Hmin j); [lia|done].
Qed.

Lemma find_index_None {A} (p : A → bool) l :
  find_index p l = None ↔ ∀ x, x ∈ l → p x = false.
Proof.
  induction l as [|x l IH]; cbn; [split; [intros _ x Hx; inversion Hx|done]|].
  destruct (p x) eqn:E.
  - split; [done|]. intros H. rewrite (H x) in E; [done|apply list_elem_of_here].
  - rewrite fmap_None, IH. setoid_rewrite elem_of_cons. naive_solver.
Qed.

Lemma find_index_lt {A} (p : A → bool) l i : find_index p l = Some i → i < length l.
Proof. intros (x & H & _)%find_index_Some. by eapply lookup_lt_Some. Qed.

Lemma filter_all {A} (P : A → Prop) `{∀ x, Decision (P x)} (l : list A) :
  Forall P l → filter P l = l.
Proof. induction 1; [done|]. rewrite filter_cons_True by done. congruence. Qed.

(** Go's [append(l[:i], l[i+1:]...)]: the list without its [i]-th element. *)
Definition remove_at {A} (i : nat) (l : list A) : list A := take i l ++ drop (S i) l.

Lemma remove_at_perm {A} i (l : list A) x : l !! i = Some x → l ≡ₚ x :: remove_at i l.
Proof.
  intros H. unfold remove_at. rewrite <- (take_drop_middle l i x H) at 1.
  by rewrite Permutation_middle.
Qed.

Lemma remove_at_sublist {A} i (l : list A) : remove_at i l `sublist_of` l.
Proof.
  unfold remove_at. rewrite <- (take_drop i l) at 3.
  apply sublist_app; [done|].
  replace (drop (S i) l) with (drop 1 (drop i l)) by (rewrite drop_drop; f_equal; lia).
  apply sublist_drop.
Qed.

Lemma length_remove_at {A} i (l : list A) :
  i < length l → length (remove_at i l) = pred (length l).
Proof. intros. unfold remove_at. rewrite length_app, length_take, length_drop. lia. Qed.
