(* ===== verification/GoLib.v ===== *)
(** * The parts of the Go language and standard library the program uses

    Bytes and fixed-size byte arrays, big-endian integers ([encoding/binary]), machine-width
    wrap-around, byte strings ([strings]), times and durations ([time]), and the contract of
    [sort.Slice].  A Go [string] is a sequence of bytes: Rocq's [string].  A Go [int] is a
    [Z]; fixed-width unsigned values are [Z] with their wrap-around written out. *)

From S2P Require Import Prelude.
From stdpp Require Export pretty.
From Stdlib Require Export Strings.Byte.

Open Scope Z_scope.
Open Scope list_scope.

(** ** Bytes *)

Definition bZ (b : byte) : Z := Z.of_N (Byte.to_N b).

(** Go's conversion [byte(z)]: the low eight bits. *)
Definition Zb (z : Z) : byte := default x00 (Byte.of_N (Z.to_N (z mod 256))).

#[export] Instance byte_eq_dec : EqDecision byte := Byte.byte_eq_dec.
#[export] Instance byte_inhabited : Inhabited byte := populate x00.

Lemma bZ_range b : 0 <= bZ b < 256.
Proof. unfold bZ. pose proof (Byte.to_N_bounded b). lia. Qed.

Lemma bZ_Zb z : bZ (Zb z) = z mod 256.
Proof.
  unfold bZ, Zb. pose proof (Z.mod_pos_bound z 256 ltac:(lia)) as Hm.
  destruct (Byte.of_N (Z.to_N (z mod 256))) as [b|] eqn:E; cbn.
  - apply Byte.to_of_N in E. rewrite E. lia.
  - apply Byte.of_N_None_iff in E. lia.
Qed.

Lemma bZ_inj a b : bZ a = bZ b → a = b.
Proof.
  unfold bZ. intros H%N2Z.inj. pose proof (Byte.of_to_N a). pose proof (Byte.of_to_N b). congruence.
Qed.

Lemma Zb_bZ b : Zb (bZ b) = b.
Proof. apply bZ_inj. rewrite bZ_Zb. apply Z.mod_small, bZ_range. Qed.

Lemma bZ_Zb_small z : 0 <= z < 256 → bZ (Zb z) = z.
Proof. intros. rewrite bZ_Zb. by apply Z.mod_small. Qed.

Lemma Zb_mod z : Zb (z mod 256) = Zb z.
Proof. apply bZ_inj. rewrite !bZ_Zb. by apply Z.mod_mod. Qed.

Definition bxor (a b : byte) : byte := Zb (Z.lxor (bZ a) (bZ b)).

(** ** Arrays [[n]byte] *)

(** [var out [n]byte; copy(out[:], l)]: the first [n] bytes, zero filled. *)
Fixpoint arr_copy (n : nat) (l : list byte) : vec byte n :=
  match n with
  | O => [#]
  | S n' =>
      match l with
      | [] => x00 ::: arr_copy n' []
      | b :: l' => b ::: arr_copy n' l'
      end
  end.

Lemma arr_copy_list n l :
  vec_to_list (arr_copy n l) = take n l ++ replicate (n - length l) x00.
Proof.
  revert l. induction n as [|n IH]; intros l; [done|].
  destruct l as [|b l]; cbn; rewrite IH; [|done].
  by rewrite take_nil, Nat.sub_0_r.
Qed.

Lemma arr_copy_exact {n} l : length l = n → vec_to_list (arr_copy n l) = l.
Proof.
  intros <-. rewrite arr_copy_list, Nat.sub_diag, take_ge by lia. apply app_nil_r.
Qed.

Lemma arr_copy_id {n} (v : vec byte n) : arr_copy n v = v.
Proof. apply vec_to_list_inj2, arr_copy_exact, length_vec_to_list. Qed.

(** ** Big-endian integers ([binary.BigEndian]) *)

(** [PutUint8n]: the low [8n] bits of [z], most significant byte first. *)
Fixpoint be_put (n : nat) (z : Z) : list byte :=
  match n with
  | O => []
  | S n' => Zb (Z.shiftr z (8 * Z.of_nat n')) :: be_put n' z
  end.

(** [Uint8n] of the bytes. *)
Definition be_get (l : list byte) : Z := foldl (λ acc b, 256 * acc + bZ b) 0 l.

Lemma length_be_put n z : length (be_put n z) = n.
Proof. induction n; cbn; congruence. Qed.

Lemma be_get_acc l acc :
  foldl (λ acc b, 256 * acc + bZ b) acc l = acc * 256 ^ Z.of_nat (length l) + be_get l.
Proof.
  unfold be_get. revert acc. induction l as [|b l IH]; intros acc; cbn [foldl length].
  { rewrite Z.pow_0_r. lia. }
  rewrite IH, (IH (256 * 0 + bZ b)), Nat2Z.inj_succ, Z.pow_succ_r by lia. lia.
Qed.

Lemma be_get_cons b l : be_get (b :: l) = bZ b * 256 ^ Z.of_nat (length l) + be_get l.
Proof. unfold be_get at 1. cbn [foldl]. by rewrite be_get_acc. Qed.

Lemma be_get_app l k : be_get (l ++ k) = be_get l * 256 ^ Z.of_nat (length k) + be_get k.
Proof. unfold be_get at 1. rewrite foldl_app. apply be_get_acc. Qed.

Lemma be_get_range l : 0 <= be_get l < 256 ^ Z.of_nat (length l).
Proof.
  induction l as [|b l IH]; [done|].
  rewrite be_get_cons. cbn [length]. rewrite Nat2Z.inj_succ, Z.pow_succ_r by lia.
  pose proof (bZ_range b). nia.
Qed.

Lemma be_get_put n z : be_get (be_put n z) = z mod 256 ^ Z.of_nat n.
Proof.
  induction n as [|n IH]; cbn [be_put]; [by rewrite Z.mod_1_r|].
  rewrite be_get_cons, length_be_put, IH, bZ_Zb, Nat2Z.inj_succ, Z.pow_succ_r by lia.
  rewrite Z.shiftr_div_pow2 by lia.
  replace (2 ^ (8 * Z.of_nat n)) with (256 ^ Z.of_nat n) by (rewrite Z.pow_mul_r by lia; done).
  assert (0 < 256 ^ Z.of_nat n) by (apply Z.pow_pos_nonneg; lia).
  rewrite (Z.mul_comm 256), Z.rem_mul_r by lia. lia.
Qed.

Lemma be_get_inj l k : length l = length k → be_get l = be_get k → l = k.
Proof.
  revert k. induction l as [|b l IH]; intros [|c k]; try done. intros [= Hl].
  rewrite !be_get_cons, Hl. intros H.
  pose proof (be_get_range l) as Hr1. pose proof (be_get_range k) as Hr2. rewrite Hl in Hr1.
  assert (bZ b = bZ c) as Hbc by nia. rewrite Hbc in H.
  f_equal; [by apply bZ_inj|]. apply IH; [done|lia].
Qed.

Lemma be_put_get l : be_put (length l) (be_get l) = l.
Proof.
  apply be_get_inj; [apply length_be_put|].
  rewrite be_get_put. apply Z.mod_small, be_get_range.
Qed.

Lemma be_put_get' n l : length l = n → be_put n (be_get l) = l.
Proof. intros <-. apply be_put_get. Qed.

(** Big-endian concatenation, bit by bit. *)
Lemma testbit_concat a r m i :
  0 <= m → 0 <= r < 2 ^ m → 0 <= i →
  Z.testbit (a * 2 ^ m + r) i = if i <? m then Z.testbit r i else Z.testbit a (i - m).
Proof.
  intros Hm Hr Hi. destruct (Z.ltb_spec i m).
  - rewrite <- (Z.mod_pow2_bits_low _ m) by lia.
    rewrite Z.add_comm, Z.mod_add by lia. by rewrite Z.mod_small.
  - replace i with (i - m + m) at 1 by lia. rewrite <- Z.div_pow2_bits by lia.
    rewrite Z.div_add_l, (Z.div_small r) by lia. f_equal. lia.
Qed.

Lemma lxor_range x y n : 0 <= n → 0 <= x < 2 ^ n → 0 <= y < 2 ^ n → 0 <= Z.lxor x y < 2 ^ n.
Proof.
  intros Hn [Hx0 Hx] [Hy0 Hy].
  assert (0 <= Z.lxor x y) by (by apply Z.lxor_nonneg). split; [done|].
  destruct (Z.eq_dec (Z.lxor x y) 0) as [->|]; [by apply Z.pow_pos_nonneg|].
  destruct (Z.eq_dec n 0) as [->|].
  { assert (x = 0) as -> by lia. assert (y = 0) as -> by lia. done. }
  assert (∀ z, 0 <= z < 2 ^ n → Z.log2 z < n) as Hlog.
  { intros z Hz. destruct (Z.eq_dec z 0) as [->|]; [cbn; lia|]. apply Z.log2_lt_pow2; lia. }
  apply Z.log2_lt_pow2; [lia|].
  pose proof (Z.log2_lxor x y Hx0 Hy0). pose proof (Hlog x). pose proof (Hlog y). lia.
Qed.

Lemma lxor_concat a b r s m :
  0 <= m → 0 <= r < 2 ^ m → 0 <= s < 2 ^ m →
  Z.lxor (a * 2 ^ m + r) (b * 2 ^ m + s) = Z.lxor a b * 2 ^ m + Z.lxor r s.
Proof.
  intros Hm Hr Hs. apply Z.bits_inj'. intros i Hi.
  rewrite Z.lxor_spec, !testbit_concat by (done || by apply lxor_range).
  destruct (i <? m); by rewrite Z.lxor_spec.
Qed.

Lemma pow256 n : 256 ^ Z.of_nat n = 2 ^ (8 * Z.of_nat n).
Proof. by rewrite Z.pow_mul_r by lia. Qed.

Lemma bZ_bxor a b : bZ (bxor a b) = Z.lxor (bZ a) (bZ b).
Proof. apply bZ_Zb_small, (lxor_range _ _ 8); [lia|apply bZ_range..]. Qed.

Lemma bxor_comm a b : bxor a b = bxor b a.
Proof. unfold bxor. by rewrite Z.lxor_comm. Qed.

Lemma bxor_nilpotent a : bxor a a = x00.
Proof. apply bZ_inj. by rewrite bZ_bxor, Z.lxor_nilpotent. Qed.

Lemma bxor_eq_0 a b : bxor a b = x00 → a = b.
Proof.
  intros H%(f_equal bZ). rewrite bZ_bxor in H. apply bZ_inj. by apply Z.lxor_eq in H.
Qed.

Lemma be_get_xor l k :
  length l = length k → be_get (zip_with bxor l k) = Z.lxor (be_get l) (be_get k).
Proof.
  revert k. induction l as [|b l IH]; intros [|c k]; try done. intros [= Hl]. cbn [zip_with].
  rewrite !be_get_cons, IH, bZ_bxor, length_zip_with_l by lia. rewrite <- Hl, pow256.
  symmetry. apply lxor_concat; [lia|rewrite <- pow256; apply be_get_range|].
  rewrite <- pow256, Hl. apply be_get_range.
Qed.

(** A finite check over all 256 bytes. *)
Definition all_bytes : list byte := Zb <$> seqZ 0 256.

Lemma all_bytes_complete b : b ∈ all_bytes.
Proof.
  apply list_elem_of_fmap. exists (bZ b). split; [by rewrite Zb_bZ|].
  apply elem_of_seqZ. pose proof (bZ_range b). lia.
Qed.

Lemma byte_check (f : byte → bool) : forallb f all_bytes = true → ∀ b, f b = true.
Proof.
  intros H b. rewrite forallb_forall in H. apply H, list_elem_of_In, all_bytes_complete.
Qed.

(** ** Strings *)

(** [[]byte(s)] and [string(b)]. *)
Definition bytes_of (s : string) : list byte := String.list_byte_of_string s.
Definition string_of (l : list byte) : string := String.string_of_list_byte l.

Lemma string_of_bytes_of s : string_of (bytes_of s) = s.
Proof. apply String.string_of_list_byte_of_string. Qed.

Lemma bytes_of_string_of l : bytes_of (string_of l) = l.
Proof. apply String.list_byte_of_string_of_list_byte. Qed.

Lemma bytes_of_inj s t : bytes_of s = bytes_of t → s = t.
Proof. intros H%(f_equal string_of). by rewrite !string_of_bytes_of in H. Qed.

Lemma bytes_of_app s t : bytes_of (s +:+ t) = bytes_of s ++ bytes_of t.
Proof. induction s as [|c s IH]; [done|]. exact (f_equal (cons (Ascii.byte_of_ascii c)) IH). Qed.

Lemma length_bytes_of s : length (bytes_of s) = String.length s.
Proof. induction s as [|c s IH]; [done|]. exact (f_equal S IH). Qed.

(** Byte-wise string mapping, as the ASCII fast paths of [strings.ToLower]/[ToUpper]. *)
Definition lower_byte (b : byte) : byte :=
  if (65 <=? bZ b) && (bZ b <=? 90) then Zb (bZ b + 32) else b.
Definition upper_byte (b : byte) : byte :=
  if (97 <=? bZ b) && (bZ b <=? 122) then Zb (bZ b - 32) else b.

Definition is_ascii (s : string) : bool := forallb (λ b, bZ b <? 128) (bytes_of s).
Definition ascii_lower (s : string) : string := string_of (lower_byte <$> bytes_of s).
Definition ascii_upper (s : string) : string := string_of (upper_byte <$> bytes_of s).

(** The Unicode tables behind [strings.ToLower], [ToUpper] and [EqualFold] on strings with
    a byte outside ASCII are left abstract; the ASCII fast paths are written out. *)
Class GoUnicode := {
  unicode_lower : string → string;
  unicode_upper : string → string;
  unicode_fold_eq : string → string → bool;
}.

Section Strings.
Context `{GoUnicode}.

Definition ToLower (s : string) : string :=
  if is_ascii s then ascii_lower s else unicode_lower s.
Definition ToUpper (s : string) : string :=
  if is_ascii s then ascii_upper s else unicode_upper s.
Definition EqualFold (s t : string) : bool :=
  if is_ascii s && is_ascii t then bool_decide (ascii_lower s = ascii_lower t)
  else unicode_fold_eq s t.
End Strings.

(** An instance for evaluation: the Unicode tables replaced by the ASCII ones. *)
Definition ascii_only : GoUnicode := {|
  unicode_lower := ascii_lower;
  unicode_upper := ascii_upper;
  unicode_fold_eq := λ s t, bool_decide (ascii_lower s = ascii_lower t);
|}.

(** [s < t] on strings: byte by byte, a prefix first. *)
Fixpoint bytes_less (a b : list byte) : bool :=
  match a, b with
  | [], [] => false
  | [], _ :: _ => true
  | _ :: _, [] => false
  | x :: a, y :: b => if bZ x =? bZ y then bytes_less a b else bZ x <? bZ y
  end.

Definition str_less (s t : string) : bool := bytes_less (bytes_of s) (bytes_of t).

Lemma bytes_less_total a b : bytes_less a b = false → bytes_less b a = false → a = b.
Proof.
  revert b. induction a as [|x a IH]; intros [|y b]; cbn; try done. rewrite (Z.eqb_sym (bZ y)).
  destruct (Z.eqb_spec (bZ x) (bZ y)) as [E|E]; [|lia]. intros H1 H2. apply bZ_inj in E as ->.
  f_equal. by apply IH.
Qed.

#[export] Instance bytes_less_strict_weak : StrictWeak bytes_less.
Proof.
  split.
  - intros a. induction a as [|x a IH]; cbn; [done|]. by rewrite Z.eqb_refl.
  - intros a. induction a as [|x a IH]; intros [|y b] [|z c]; cbn; try done.
    destruct (Z.eqb_spec (bZ x) (bZ y)), (Z.eqb_spec (bZ y) (bZ z)), (Z.eqb_spec (bZ x) (bZ z));
      try lia; eauto.
  - intros a. induction a as [|x a IH]; intros [|y b] [|z c]; cbn; try done; auto.
    destruct (Z.eqb_spec (bZ x) (bZ y)), (Z.eqb_spec (bZ y) (bZ z)), (Z.eqb_spec (bZ x) (bZ z));
      try lia; eauto.
Qed.

Lemma str_less_total s t : str_less s t = false → str_less t s = false → s = t.
Proof. intros H1 H2. apply bytes_of_inj. by apply bytes_less_total. Qed.


(** [strings.HasPrefix], [HasSuffix], [TrimSuffix] and [Contains] on bytes. *)
Definition has_prefix (p l : list byte) : bool := bool_decide (take (length p) l = p).
Definition has_suffix (p l : list byte) : bool :=
  (length p <=? length l)%nat && bool_decide (drop (length l - length p) l = p).
Definition trim_suffix (p l : list byte) : list byte :=
  if has_suffix p l then take (length l - length p) l else l.
Fixpoint contains (p l : list byte) : bool :=
  has_prefix p l || match l with [] => false | _ :: l' => contains p l' end.

Lemma has_suffix_app p l : has_suffix p (l ++ p) = true.
Proof.
  unfold has_suffix. rewrite length_app, Nat.add_sub, drop_app_length.
  apply andb_true_iff. split; [apply Nat.leb_le; lia|by apply bool_decide_eq_true].
Qed.

Lemma trim_suffix_app p l : trim_suffix p (l ++ p) = l.
Proof. unfold trim_suffix. by rewrite has_suffix_app, length_app, Nat.add_sub, take_app_length. Qed.

Lemma has_suffix_true p l : has_suffix p l = true → l = trim_suffix p l ++ p.
Proof.
  intros H. unfold trim_suffix. rewrite H. unfold has_suffix in H. reflect_tests.
  match goal with H : drop _ _ = p |- _ => rewrite <- H at 2 end. by rewrite take_drop.
Qed.

(** ** Times and durations ([time]), in nanoseconds

    A [time.Time] is the number of nanoseconds since Go's zero time (January 1, year 1). *)
Definition Second : Z := 1000000000.
Definition Minute : Z := 60 * Second.
Definition max_duration : Z := 2 ^ 63 - 1.

(** [t.Sub(u)] saturates to the [int64] range of durations. *)
Definition time_sub (t u : Z) : Z := Z.max (- 2 ^ 63) (Z.min max_duration (t - u)).
Definition time_is_zero (t : Z) : bool := t =? 0.
(** [t.Unix()]. *)
Definition time_unix (t : Z) : Z := t / Second - 62135596800.

(** ** The contract of [sort.Slice]

    [sort.Slice] permutes the slice into an order compatible with the callback; the order of
    elements that tie is not specified. *)
Class SliceSort := {
  sort_slice : ∀ {A : Type}, (A → A → bool) → list A → list A;
  sort_slice_perm : ∀ A (less : A → A → bool) l, sort_slice less l ≡ₚ l;
  sort_slice_sorted : ∀ A (less : A → A → bool) l,
    StrictWeak less → StronglySorted (not_after less) (sort_slice less l);
}.

(** One instance: insertion sort.  It is also [sort.SliceStable], whose result is unique. *)
Definition stable_sort : SliceSort := {|
  sort_slice := @isort;
  sort_slice_perm := @isort_perm;
  sort_slice_sorted := λ A less l sw, isort_sorted less l;
|}.
