(* ===== verification/GoFloat.v ===== *)
(** Go's float64: IEEE 754 binary64 as the Standard Library's [SpecFloat] at precision 53 and
    exponent bound 1024, with the operations the sources use, and the lemmas that its
    arithmetic is exact on the integers below 2^53. *)
From S2P Require Export Prelude GoLib.
From Stdlib Require Import Floats.SpecFloat.

Local Open Scope Z_scope.

Abbreviation float64 := spec_float.

Definition f_of_int (z : Z) : float64 := binary_normalize 53 1024 z 0 false.
Definition fadd : float64 → float64 → float64 := SFadd 53 1024.
Definition fsub : float64 → float64 → float64 := SFsub 53 1024.
Definition fmul : float64 → float64 → float64 := SFmul 53 1024.
Definition fdiv : float64 → float64 → float64 := SFdiv 53 1024.
(** [x < y]; false when either is NaN. *)
Definition flt : float64 → float64 → bool := SFltb.

(** The conversion to a signed 64-bit integer truncates; outside the range the result is the
    least integer, which is what amd64 yields (the language leaves it to the platform). *)
Definition f_to_int64 (x : float64) : Z :=
  match x with
  | S754_zero _ => 0
  | S754_finite s m e =>
      let v := if 0 <=? e then Zpos m * 2 ^ e else Zpos m / 2 ^ (- e) in
      let v := if s then - v else v in
      if (- 2 ^ 63 <=? v) && (v <? 2 ^ 63) then v else - 2 ^ 63
  | _ => - 2 ^ 63
  end.

(** [d.Seconds()]: the whole seconds plus the fraction. *)
Definition dur_seconds (d : Z) : float64 :=
  fadd (f_of_int (Z.quot d Second)) (fdiv (f_of_int (Z.rem d Second)) (f_of_int 1000000000)).

(** ** Exactness on integers *)

(** The canonical form of a positive integer below 2^53. *)
Definition canon (v : Z) : float64 :=
  S754_finite false (Z.to_pos (v * 2 ^ (52 - Z.log2 v))) (Z.log2 v - 52).

Lemma digits2_log2 p : Zpos (digits2_pos p) = Z.log2 (Zpos p) + 1.
Proof.
  induction p as [p IH|p IH|]; [..|done]; cbn [digits2_pos]; rewrite Pos2Z.inj_succ, IH.
  - rewrite Pos2Z.inj_xI, Z.log2_succ_double by lia. lia.
  - rewrite Pos2Z.inj_xO, Z.log2_double by lia. lia.
Qed.

Lemma iter_pos_add {A} (f : A → A) p x : iter_pos f p x = Pos.iter f x p.
Proof.
  revert x. induction p as [p IH|p IH|]; intros x; cbn; [..|done].
  - rewrite !IH. by rewrite !Pos.iter_swap.
  - by rewrite !IH.
Qed.

Lemma shr_exact (v : Z) (p : positive) :
  0 < v →
  iter_pos shr_1 p (Build_shr_record (v * 2 ^ Zpos p) false false) = Build_shr_record v false false.
Proof.
  intros Hv. rewrite iter_pos_add. induction p as [|p IH] using Pos.peano_ind.
  - cbn. destruct v; try lia. rewrite Z.mul_comm. done.
  - rewrite Pos.iter_succ_r, Pos2Z.inj_succ, Z.pow_succ_r by lia.
    replace (v * (2 * 2 ^ Z.pos p)) with (2 * (v * 2 ^ Z.pos p)) by lia.
    assert (0 < v * 2 ^ Z.pos p) as Hp by (apply Z.mul_pos_pos; lia).
    destruct (v * 2 ^ Z.pos p) as [|q|q] eqn:E; try lia.
    change (2 * Z.pos q) with (Z.pos q~0). exact IH.
Qed.

Lemma log2_shift v n : 0 < v → 0 <= n → Z.log2 (v * 2 ^ n) = Z.log2 v + n.
Proof. intros. rewrite Z.log2_mul_pow2 by lia. lia. Qed.

Lemma log2_bound v : 0 < v < 2 ^ 53 → 0 <= Z.log2 v <= 52.
Proof. intros [H1 H2]. split; [apply Z.log2_nonneg|]. apply Z.log2_lt_pow2 in H2; lia. Qed.

(** Rounding a number whose excess low bits are zero is exact. *)
Lemma round_aux_exact (v k : Z) (m : positive) :
  0 < v < 2 ^ 53 → 52 - Z.log2 v <= k → k < 1000 → Zpos m = v * 2 ^ k →
  binary_round_aux 53 1024 false (Zpos m) (- k) loc_Exact = canon v.
Proof.
  intros Hv Hk Hk' Hm. pose proof (log2_bound v Hv) as Hl.
  set (w := v * 2 ^ (52 - Z.log2 v)).
  assert (Hw : 0 < w) by (apply Z.mul_pos_pos; lia).
  assert (Hlw : Z.log2 w = 52) by (unfold w; rewrite log2_shift; lia).
  assert (Hshift : Zpos m = w * 2 ^ (k - (52 - Z.log2 v))).
  { unfold w. rewrite <- Z.mul_assoc, <- Z.pow_add_r by lia. rewrite Hm. do 2 f_equal. lia. }
  assert (Hfirst : shr_fexp 53 1024 (Zpos m) (- k) loc_Exact =
    (Build_shr_record w false false, Z.log2 v - 52)).
  { unfold shr_fexp. cbn [Zdigits2]. rewrite digits2_log2.
    rewrite Hm, log2_shift by lia. unfold fexp, emin.
    replace (Z.max (Z.log2 v + k + 1 + - k - 53) (3 - 1024 - 53) - - k) with (k - (52 - Z.log2 v)) by lia.
    rewrite <- Hm, Hshift. cbn [shr_record_of_loc].
    destruct (k - (52 - Z.log2 v)) as [|p|p] eqn:E; cbn [shr]; [|rewrite shr_exact by lia; f_equal; lia|lia].
    rewrite Z.pow_0_r, Z.mul_1_r. f_equal. lia. }
  unfold binary_round_aux. rewrite Hfirst. cbn [shr_m loc_of_shr_record round_nearest_even].
  unfold shr_fexp. destruct w as [|q|q] eqn:Ew; try lia. cbn [Zdigits2]. rewrite digits2_log2, Hlw.
  unfold fexp, emin.
  replace (Z.max (52 + 1 + (Z.log2 v - 52) - 53) (3 - 1024 - 53) - (Z.log2 v - 52)) with 0 by lia.
  cbn [shr shr_record_of_loc shr_m]. destruct (Z.leb_spec (Z.log2 v - 52) (1024 - 53)); [|lia].
  unfold canon. fold w. by rewrite Ew.
Qed.

Lemma iter_xO m d : Zpos (Pos.iter xO m d) = Zpos m * 2 ^ Zpos d.
Proof.
  induction d as [|d IH] using Pos.peano_ind; [cbn; lia|].
  rewrite Pos.iter_succ, Pos2Z.inj_succ, Z.pow_succ_r, (Pos2Z.inj_xO), IH by lia. lia.
Qed.

Lemma normalize_exact (v k : Z) (m : positive) :
  0 < v < 2 ^ 53 → 0 <= k < 1000 → Zpos m = v * 2 ^ k →
  binary_normalize 53 1024 (Zpos m) (- k) false = canon v.
Proof.
  intros Hv Hk Hm. pose proof (log2_bound v Hv) as Hl.
  cbn [binary_normalize]. unfold binary_round. rewrite digits2_log2, Hm, log2_shift by lia.
  unfold fexp, emin, shl_align.
  replace (Z.max (Z.log2 v + k + 1 + - k - 53) (3 - 1024 - 53) - - k) with (k - (52 - Z.log2 v)) by lia.
  destruct (k - (52 - Z.log2 v)) as [|p|p] eqn:E.
  1,2: apply (round_aux_exact v k m); lia.
  replace (Z.max _ _) with (- (52 - Z.log2 v)) by lia.
  apply (round_aux_exact v (52 - Z.log2 v)); [lia..|].
  rewrite iter_xO, Hm, <- Z.mul_assoc, <- Z.pow_add_r by lia. do 2 f_equal. lia.
Qed.

Lemma f_of_int_canon v : 0 < v < 2 ^ 53 → f_of_int v = canon v.
Proof.
  intros Hv. unfold f_of_int. destruct v as [|m|m]; [lia| |lia].
  apply (normalize_exact _ 0 m); [lia..|]. by rewrite Z.mul_1_r.
Qed.

(** The mantissa of a canonical form, brought to a smaller exponent. *)
Lemma align_canon v e :
  0 < v < 2 ^ 53 → -1000 < e <= Z.log2 v - 52 →
  Zpos (fst (shl_align (Z.to_pos (v * 2 ^ (52 - Z.log2 v))) (Z.log2 v - 52) e)) = v * 2 ^ (- e).
Proof.
  intros Hv He. pose proof (log2_bound v Hv) as Hl.
  assert (Hp : 0 < v * 2 ^ (52 - Z.log2 v)) by (apply Z.mul_pos_pos; lia).
  unfold shl_align. destruct (e - (Z.log2 v - 52)) as [|d|d] eqn:E; cbn [fst]; [| lia |].
  - rewrite Z2Pos.id by done. do 2 f_equal. lia.
  - rewrite iter_xO, Z2Pos.id, <- Z.mul_assoc, <- Z.pow_add_r by lia. do 2 f_equal. lia.
Qed.

Lemma normalize_diff (v e : Z) z :
  0 <= v < 2 ^ 53 → -1000 < e <= 0 → z = v * 2 ^ (- e) →
  binary_normalize 53 1024 z e false = f_of_int v.
Proof.
  intros Hv He ->. destruct (Z.eq_dec v 0) as [->|Hne]; [done|].
  rewrite f_of_int_canon by lia.
  assert (0 < v * 2 ^ (- e)) by (apply Z.mul_pos_pos; lia).
  destruct (v * 2 ^ (- e)) as [|m|m] eqn:E; [lia| |lia].
  replace e with (- (- e)) at 1 by lia. apply normalize_exact; lia.
Qed.

Lemma fadd_int a b :
  0 <= a → 0 <= b → a + b < 2 ^ 53 → fadd (f_of_int a) (f_of_int b) = f_of_int (a + b).
Proof.
  intros Ha Hb Hab. destruct (Z.eq_dec a 0) as [->|Hna].
  { destruct (Z.eq_dec b 0) as [->|Hnb]; [done|]. rewrite Z.add_0_l, (f_of_int_canon b) by lia. done. }
  destruct (Z.eq_dec b 0) as [->|Hnb].
  { rewrite Z.add_0_r, (f_of_int_canon a) by lia. done. }
  rewrite (f_of_int_canon a), (f_of_int_canon b) by lia. unfold fadd, SFadd, canon.
  pose proof (log2_bound a ltac:(lia)). pose proof (log2_bound b ltac:(lia)).
  cbn [cond_Zopp]. rewrite !align_canon by lia. apply normalize_diff; lia.
Qed.

Lemma fsub_int a b :
  0 <= b <= a → a < 2 ^ 53 → fsub (f_of_int a) (f_of_int b) = f_of_int (a - b).
Proof.
  intros Hb Ha. destruct (Z.eq_dec a 0) as [->|Hna].
  { replace b with 0 by lia. done. }
  destruct (Z.eq_dec b 0) as [->|Hnb].
  { rewrite Z.sub_0_r, (f_of_int_canon a) by lia. done. }
  rewrite (f_of_int_canon a), (f_of_int_canon b) by lia. unfold fsub, SFsub, canon.
  pose proof (log2_bound a ltac:(lia)). pose proof (log2_bound b ltac:(lia)).
  cbn [cond_Zopp]. rewrite !align_canon by lia. apply normalize_diff; lia.
Qed.

Lemma fmul_int a b :
  0 <= a < 2 ^ 53 → 0 <= b < 2 ^ 53 → a * b < 2 ^ 53 → fmul (f_of_int a) (f_of_int b) = f_of_int (a * b).
Proof.
  intros Ha Hb Hab. destruct (Z.eq_dec a 0) as [->|Hna].
  { destruct (Z.eq_dec b 0) as [->|Hnb]; [done|]. rewrite (f_of_int_canon b) by lia. done. }
  destruct (Z.eq_dec b 0) as [->|Hnb].
  { rewrite Z.mul_0_r, (f_of_int_canon a) by lia. done. }
  assert (0 < a * b) by (apply Z.mul_pos_pos; lia).
  rewrite !f_of_int_canon by lia. unfold fmul, SFmul, canon.
  pose proof (log2_bound a ltac:(lia)). pose proof (log2_bound b ltac:(lia)).
  pose proof (Z.log2_mul_below a b). pose proof (log2_bound (a * b) ltac:(lia)).
  assert (0 < a * 2 ^ (52 - Z.log2 a)) by (apply Z.mul_pos_pos; lia).
  assert (0 < b * 2 ^ (52 - Z.log2 b)) by (apply Z.mul_pos_pos; lia).
  replace (Z.log2 a - 52 + (Z.log2 b - 52)) with (- (104 - Z.log2 a - Z.log2 b)) by lia.
  apply round_aux_exact; [lia..|]. rewrite Pos2Z.inj_mul, !Z2Pos.id by done.
  replace (104 - Z.log2 a - Z.log2 b) with (52 - Z.log2 a + (52 - Z.log2 b)) by lia.
  rewrite Z.pow_add_r by lia. lia.
Qed.

(** Division without remainder. *)
Lemma fdiv_core q b :
  0 < q → 0 < b → q * b < 2 ^ 53 →
  let a := q * b in
  SFdiv_core_binary 53 1024 (a * 2 ^ (52 - Z.log2 a)) (Z.log2 a - 52) (b * 2 ^ (52 - Z.log2 b)) (Z.log2 b - 52) =
  (q * 2 ^ (53 + Z.log2 b - Z.log2 a), - (53 + Z.log2 b - Z.log2 a), loc_Exact).
Proof.
  intros Hq Hb Hmax a. assert (b <= a) by (unfold a; nia). assert (q <= a) by (unfold a; nia).
  pose proof (log2_bound a ltac:(lia)) as Hla. pose proof (log2_bound b ltac:(lia)) as Hlb.
  pose proof (Z.log2_mul_above q b ltac:(lia) ltac:(lia)) as Hl. fold a in Hl.
  pose proof (log2_bound q ltac:(lia)) as Hlq.
  assert (Hda : ∀ v, 0 < v < 2 ^ 53 → Zdigits2 (v * 2 ^ (52 - Z.log2 v)) = 53).
  { intros v Hv. pose proof (log2_bound v Hv).
    assert (0 < v * 2 ^ (52 - Z.log2 v)) by (apply Z.mul_pos_pos; lia).
    destruct (v * 2 ^ (52 - Z.log2 v)) as [|m|m] eqn:E; [lia| |lia]. cbn [Zdigits2].
    rewrite digits2_log2, <- E, log2_shift by lia. lia. }
  unfold SFdiv_core_binary. rewrite !Hda by lia. unfold fexp, emin.
  replace (Z.min _ _) with (- (53 + Z.log2 b - Z.log2 a)) by lia.
  replace (Z.log2 a - 52 - (Z.log2 b - 52) - - (53 + Z.log2 b - Z.log2 a)) with 53 by lia.
  set (k := 53 + Z.log2 b - Z.log2 a).
  set (m2 := b * 2 ^ (52 - Z.log2 b)). assert (0 < m2) by (apply Z.mul_pos_pos; lia).
  assert (Z.shiftl (a * 2 ^ (52 - Z.log2 a)) 53 = q * 2 ^ k * m2) as Hm.
  { rewrite Z.shiftl_mul_pow2 by lia. unfold m2, k.
    transitivity (a * 2 ^ (52 - Z.log2 a + 53)); [rewrite Z.pow_add_r by lia; ring|].
    replace (52 - Z.log2 a + 53) with ((53 + Z.log2 b - Z.log2 a) + (52 - Z.log2 b)) by lia.
    rewrite Z.pow_add_r by lia. unfold a at 1. ring. }
  rewrite Hm, (surjective_pairing (Z.div_eucl _ _)).
  change (fst (Z.div_eucl ?x ?y)) with (x / y). change (snd (Z.div_eucl ?x ?y)) with (x mod y).
  rewrite Z.div_mul, Z.mod_mul by lia. unfold new_location, new_location_even, new_location_odd.
  by destruct (Z.even m2).
Qed.

Lemma fdiv_int q b :
  0 <= q → 0 < b < 2 ^ 53 → q * b < 2 ^ 53 → fdiv (f_of_int (q * b)) (f_of_int b) = f_of_int q.
Proof.
  intros Hq Hb Hmax. destruct (Z.eq_dec q 0) as [->|Hne].
  { rewrite (f_of_int_canon b) by lia. done. }
  assert (q <= q * b) by nia. assert (b <= q * b) by nia.
  rewrite (f_of_int_canon (q * b)), (f_of_int_canon b), (f_of_int_canon q) by lia.
  unfold fdiv, SFdiv. unfold canon at 1. unfold canon at 1.
  pose proof (log2_bound (q * b) ltac:(lia)) as Hla. pose proof (log2_bound b ltac:(lia)) as Hlb.
  pose proof (log2_bound q ltac:(lia)) as Hlq.
  rewrite !Z2Pos.id by (apply Z.mul_pos_pos; lia). rewrite fdiv_core by lia. cbn [xorb].
  set (k := 53 + Z.log2 b - Z.log2 (q * b)).
  pose proof (Z.log2_mul_above q b ltac:(lia) ltac:(lia)).
  pose proof (Z.log2_mul_below q b ltac:(lia) ltac:(lia)).
  assert (0 < q * 2 ^ k) by (apply Z.mul_pos_pos; lia).
  destruct (q * 2 ^ k) as [|m|m] eqn:E; [lia| |lia]. apply round_aux_exact; lia.
Qed.

Lemma flt_int a b : 0 <= a < 2 ^ 53 → 0 <= b < 2 ^ 53 → flt (f_of_int a) (f_of_int b) = (a <? b).
Proof.
  intros Ha Hb. destruct (Z.eq_dec a 0) as [->|Hna].
  { destruct (Z.eq_dec b 0) as [->|Hnb]; [done|]. rewrite (f_of_int_canon b) by lia.
    symmetry. apply Z.ltb_lt. lia. }
  destruct (Z.eq_dec b 0) as [->|Hnb].
  { rewrite (f_of_int_canon a) by lia. symmetry. apply Z.ltb_ge. lia. }
  rewrite !f_of_int_canon by lia. unfold flt, SFltb, SFcompare, canon.
  assert (0 < a * 2 ^ (52 - Z.log2 a)) by (apply Z.mul_pos_pos; [lia|];
    pose proof (log2_bound a ltac:(lia)); lia).
  assert (0 < b * 2 ^ (52 - Z.log2 b)) by (apply Z.mul_pos_pos; [lia|];
    pose proof (log2_bound b ltac:(lia)); lia).
  destruct (Z.compare_spec (Z.log2 a - 52) (Z.log2 b - 52)) as [E|E|E].
  - assert (El : Z.log2 a = Z.log2 b) by lia. rewrite El in *.
    change (Pos.compare_cont Eq ?x ?y) with (Zpos x ?= Zpos y). rewrite !Z2Pos.id by done.
    assert (0 < 2 ^ (52 - Z.log2 b)) by (pose proof (log2_bound b ltac:(lia)); lia).
    destruct (Z.compare_spec (a * 2 ^ (52 - Z.log2 b)) (b * 2 ^ (52 - Z.log2 b))); symmetry;
      [apply Z.ltb_ge|apply Z.ltb_lt|apply Z.ltb_ge]; nia.
  - symmetry. apply Z.ltb_lt. apply Z.log2_lt_cancel. lia.
  - symmetry. apply Z.ltb_ge, Z.lt_le_incl, Z.log2_lt_cancel. lia.
Qed.

Lemma f_to_int64_int v : 0 <= v < 2 ^ 53 → f_to_int64 (f_of_int v) = v.
Proof.
  intros Hv. destruct (Z.eq_dec v 0) as [->|Hne]; [done|]. rewrite f_of_int_canon by lia.
  pose proof (log2_bound v ltac:(lia)) as Hl. unfold f_to_int64, canon.
  assert (0 < v * 2 ^ (52 - Z.log2 v)) by (apply Z.mul_pos_pos; lia).
  rewrite Z2Pos.id by done.
  assert ((if 0 <=? Z.log2 v - 52 then v * 2 ^ (52 - Z.log2 v) * 2 ^ (Z.log2 v - 52)
           else v * 2 ^ (52 - Z.log2 v) / 2 ^ (- (Z.log2 v - 52))) = v) as ->.
  { destruct (Z.leb_spec 0 (Z.log2 v - 52)).
    - replace (Z.log2 v) with 52 by lia. cbn. lia.
    - replace (- (Z.log2 v - 52)) with (52 - Z.log2 v) by lia. apply Z.div_mul. lia. }
  destruct (Z.leb_spec (- 2 ^ 63) v); [|lia]. by destruct (Z.ltb_spec v (2 ^ 63)); [|lia].
Qed.

(** A duration of whole seconds. *)
Lemma dur_seconds_int n : 0 <= n < 2 ^ 53 → dur_seconds (n * Second) = f_of_int n.
Proof.
  intros Hn. unfold dur_seconds, Second. rewrite Z.quot_mul, Z.rem_mul by lia.
  change (fdiv (f_of_int 0) (f_of_int 1000000000)) with (f_of_int 0).
  rewrite fadd_int by lia. by rewrite Z.add_0_r.
Qed.

#[global] Opaque f_of_int fadd fsub fmul fdiv flt f_to_int64.
