(* ===== verification/Sha256.v ===== *)
(** * [crypto/sha256]

    SHA-256 (FIPS 180-4) on byte lists, so that the identifiers the program derives by
    hashing ([dht.KeyForNodeID], the derived addresses of [pkg/types]) are executable
    definitions.  Words are [Z] values below [2^32]; every addition wraps. *)

From S2P Require Import Prelude GoLib.

Open Scope Z_scope.

Module Sha256.

Definition w32 (z : Z) : Z := Z.land z (Z.ones 32).
Definition add32 (x y : Z) : Z := w32 (x + y).
Definition rotr (n x : Z) : Z := Z.lor (Z.shiftr x n) (w32 (Z.shiftl x (32 - n))).

Definition ch (x y z : Z) : Z := Z.lxor (Z.land x y) (Z.land (Z.lxor x (Z.ones 32)) z).
Definition maj (x y z : Z) : Z := Z.lxor (Z.land x y) (Z.lxor (Z.land x z) (Z.land y z)).
Definition bsig0 (x : Z) : Z := Z.lxor (rotr 2 x) (Z.lxor (rotr 13 x) (rotr 22 x)).
Definition bsig1 (x : Z) : Z := Z.lxor (rotr 6 x) (Z.lxor (rotr 11 x) (rotr 25 x)).
Definition ssig0 (x : Z) : Z := Z.lxor (rotr 7 x) (Z.lxor (rotr 18 x) (Z.shiftr x 3)).
Definition ssig1 (x : Z) : Z := Z.lxor (rotr 17 x) (Z.lxor (rotr 19 x) (Z.shiftr x 10)).

(** The constants are the leading 32 fractional bits of roots of the first primes: cube
    roots for the rounds, square roots for the initial state. *)
Definition is_prime (p : Z) : bool :=
  forallb (λ d, negb (p mod d =? 0)) (seqZ 2 (p - 2)).

Definition primes : list Z := Eval vm_compute in filter (λ p, is_prime p = true) (seqZ 2 310).

(** The integer cube root, one bit at a time from bit [n]. *)
Fixpoint cbrt (n : nat) (r x : Z) : Z :=
  let r' := r + 2 ^ Z.of_nat n in
  let r := if r' ^ 3 <=? x then r' else r in
  match n with
  | O => r
  | S n' => cbrt n' r x
  end.

Definition round_constants : list Z :=
  Eval vm_compute in (λ p, w32 (cbrt 40 0 (p * 2 ^ 96))) <$> take 64 primes.

Definition initial_hash : vec Z 8 :=
  Eval vm_compute in vmap (λ p, w32 (Z.sqrt (p * 2 ^ 64))) [# 2; 3; 5; 7; 11; 13; 17; 19].

(** The message schedule, most recent word first; [sched] holds at least sixteen words. *)
Definition next_word (sched : list Z) : Z :=
  add32 (add32 (ssig1 (nth 1 sched 0)) (nth 6 sched 0))
        (add32 (ssig0 (nth 14 sched 0)) (nth 15 sched 0)).

Fixpoint extend (n : nat) (sched : list Z) : list Z :=
  match n with
  | O => sched
  | S n' => extend n' (next_word sched :: sched)
  end.

Fixpoint words (n : nat) (l : list byte) : list Z :=
  match n with
  | O => []
  | S n' => be_get (take 4 l) :: words n' (drop 4 l)
  end.

Definition round (h : vec Z 8) (kw : Z * Z) : vec Z 8 :=
  let '(k, w) := kw in
  let i n := nth n (vec_to_list h) 0 in
  let t1 := add32 (add32 (i 7%nat) (bsig1 (i 4%nat)))
                  (add32 (ch (i 4%nat) (i 5%nat) (i 6%nat)) (add32 k w)) in
  let t2 := add32 (bsig0 (i 0%nat)) (maj (i 0%nat) (i 1%nat) (i 2%nat)) in
  [# add32 t1 t2; i 0%nat; i 1%nat; i 2%nat; add32 (i 3%nat) t1; i 4%nat; i 5%nat; i 6%nat].

Definition compress (h : vec Z 8) (block : list byte) : vec Z 8 :=
  let sched := rev (extend 48 (rev (words 16 block))) in
  vzip_with add32 h (foldl round h (zip round_constants sched)).

(** One 0x80 byte, zeroes up to 56 modulo 64, and the bit length on eight bytes. *)
Definition pad (l : list byte) : list byte :=
  let zeros := Z.to_nat ((55 - Z.of_nat (length l)) mod 64) in
  l ++ x80 :: replicate zeros x00 ++ be_put 8 (8 * Z.of_nat (length l)).

Fixpoint blocks (n : nat) (h : vec Z 8) (l : list byte) : vec Z 8 :=
  match n with
  | O => h
  | S n' => blocks n' (compress h (take 64 l)) (drop 64 l)
  end.

(** [sha256.Sum256]. *)
Definition Sum256 (l : list byte) : vec byte 32 :=
  let m := pad l in
  arr_copy 32 (mjoin (be_put 4 <$> vec_to_list (blocks (length m / 64) initial_hash m))).

(** Padding fills whole blocks: the block loop of [Sum256] consumes every byte. *)
Lemma length_pad l : (length (pad l) mod 64 = 0)%nat.
Proof.
  apply Nat2Z.inj. rewrite Nat2Z.inj_mod. unfold pad.
  rewrite length_app, length_cons, length_app, length_replicate, length_be_put.
  pose proof (Z.mod_pos_bound (55 - Z.of_nat (length l)) 64 ltac:(lia)).
  pose proof (Z.div_mod (55 - Z.of_nat (length l)) 64 ltac:(lia)) as Hd.
  set (r := (55 - Z.of_nat (length l)) mod 64) in *.
  set (q := (55 - Z.of_nat (length l)) / 64) in *.
  replace (Z.of_nat (length l + S (Z.to_nat r + 8))) with ((1 - q) * 64) by lia.
  apply Z.mod_mul. lia.
Qed.

End Sha256.
Export Sha256.

(** The FIPS 180-4 test vectors for the empty message, "abc" and a two-block message. *)
Example sum256_empty :
  be_get (Sum256 (bytes_of "")) =
  0xe3b0c44298fc1c149afbf4c8996fb92427ae41e4649b934ca495991b7852b855.
Proof. vm_compute. reflexivity. Qed.

Example sum256_abc :
  be_get (Sum256 (bytes_of "abc")) =
  0xba7816bf8f01cfea414140de5dae2223b00361a396177a9cb410ff61f20015ad.
Proof. vm_compute. reflexivity. Qed.

Example sum256_two_blocks :
  be_get (Sum256 (bytes_of "abcdbcdecdefdefgefghfghighijhijkijkljklmklmnlmnomnopnopq")) =
  0x248d6a61d20638b8e5c026930c3e6039a33ce45964ff2167f6ecedd419db06c1.
Proof. vm_compute. reflexivity. Qed.
