(* ===== verification/DhtKey.v ===== *)
(** * DHT keys ([internal/dht/key.go])

    160-bit Kademlia keys: derivation from a NodeID, the XOR metric, the common prefix
    length that selects a bucket, the byte-wise order and the hexadecimal text form. *)

From S2P Require Import Prelude GoLib Sha256.

Open Scope Z_scope.

Module DhtKey.

Definition KeySizeBits : nat := 160.

(** [type Key [20]byte]. *)
Definition Key : Type := vec byte 20.

#[export] Instance Key_eq_dec : EqDecision Key := vec_dec.

(** A NodeID is its string ([types.NodeID]); [id.String()] is the identity. *)
Definition KeyForNodeID (id : string) : Key :=
  let sum := Sum256 (bytes_of id) in
  arr_copy 20 (take 20 sum).

Definition Xor (k o : Key) : Key := vzip_with bxor k o.

(** [k.Bit(i)], bit 0 the most significant; [None] is Go's index panic, for [i >= 160]. *)
Definition Bit (k : Key) (i : nat) : option bool :=
  b ← vec_to_list k !! (i / 8)%nat;
  Some (negb (Z.land (bZ b) (Z.shiftl 1 (7 - Z.of_nat i mod 8)) =? 0)).

(** The loop of [CommonPrefixLen] from index [i]; [fuel] is the number of rounds left, so
    the index stays below 160 and [Bit] does not panic (see [Bit_testbit]). *)
Fixpoint prefix_loop (fuel : nat) (x : Key) (i shared : nat) : nat :=
  match fuel with
  | O => shared
  | S fuel' =>
      if bool_decide (Bit x i = Some true) then shared
      else prefix_loop fuel' x (S i) (S shared)
  end.

Definition CommonPrefixLen (k o : Key) : nat :=
  let x := Xor k o in
  prefix_loop KeySizeBits x 0 0.

(** The comparison loop of [Less]: the first byte that differs decides. *)
Fixpoint less_loop (k o : list byte) : bool :=
  match k, o with
  | x :: k', y :: o' => if negb (bZ x =? bZ y) then bZ x <? bZ y else less_loop k' o'
  | _, _ => false
  end.

Definition Less (k o : Key) : bool := less_loop k o.

Definition Distance (a b : Key) : Key := Xor a b.

(** [hexdigits[v]] for [v] below 16. *)
Definition hexdigits : list byte := bytes_of "0123456789abcdef".
Definition hexdigit (v : Z) : byte := nth (Z.to_nat v) hexdigits x00.

(** [k.String()]: two lower-case hexadecimal digits per byte. *)
Definition hex_pair (b : byte) : list byte :=
  [hexdigit (Z.shiftr (bZ b) 4); hexdigit (Z.land (bZ b) 0xF)].

Definition Key_String (k : Key) : string := string_of (vec_to_list k ≫= hex_pair).

Inductive key_error :=
| ErrKeyLength (n : nat)
| ErrHexChar (c : byte).

Definition hexVal (c : byte) : outcome key_error Z :=
  let c' := bZ c in
  if (48 <=? c') && (c' <=? 57) then Ret (c' - 48)
  else if (97 <=? c') && (c' <=? 102) then Ret (c' - 97 + 10)
  else if (65 <=? c') && (c' <=? 70) then Ret (c' - 65 + 10)
  else Fail (ErrHexChar c).

(** The decoding loop of [ParseKey], two characters per byte. *)
Fixpoint parse_pairs (l : list byte) : outcome key_error (list byte) :=
  match l with
  | c :: d :: l' =>
      hi ← hexVal c;
      lo ← hexVal d;
      rest ← parse_pairs l';
      Ret (Zb (Z.lor (Z.shiftl hi 4) lo) :: rest)
  | _ => Ret []
  end.

Definition ParseKey (s : string) : outcome key_error Key :=
  if negb (String.length s =? 40)%nat then Fail (ErrKeyLength (String.length s))
  else l ← parse_pairs (bytes_of s); Ret (arr_copy 20 l).

(** The integer a key denotes. *)
Definition key_num (k : Key) : Z := be_get k.

End DhtKey.
Export DhtKey.

(** ** The metric *)

Lemma key_num_range k : 0 <= key_num k < 2 ^ 160.
Proof. unfold key_num. pose proof (be_get_range k) as H. by rewrite length_vec_to_list in H. Qed.

Lemma key_num_inj k o : key_num k = key_num o → k = o.
Proof. intros H. apply vec_to_list_inj2, be_get_inj; [by rewrite !length_vec_to_list|done]. Qed.

Lemma key_num_Xor k o : key_num (Xor k o) = Z.lxor (key_num k) (key_num o).
Proof.
  unfold key_num, Xor. rewrite vec_to_list_zip_with. apply be_get_xor.
  by rewrite !length_vec_to_list.
Qed.

Lemma Xor_comm k o : Xor k o = Xor o k.
Proof. apply key_num_inj. by rewrite !key_num_Xor, Z.lxor_comm. Qed.

Lemma Xor_cancel k o : Xor k (Xor k o) = o.
Proof. apply key_num_inj. by rewrite !key_num_Xor, <- Z.lxor_assoc, Z.lxor_nilpotent, Z.lxor_0_l. Qed.

Lemma Xor_inj k o o' : Xor k o = Xor k o' → o = o'.
Proof. intros H. by rewrite <- (Xor_cancel k o), <- (Xor_cancel k o'), H. Qed.

Lemma less_loop_spec k o :
  length k = length o → less_loop k o = (be_get k <? be_get o).
Proof.
  revert o. induction k as [|x k IH]; intros [|y o]; try done. intros [= Hl]. cbn [less_loop].
  rewrite !be_get_cons, <- Hl.
  pose proof (be_get_range k) as Hk. pose proof (be_get_range o) as Ho. rewrite <- Hl in Ho.
  destruct (Z.eqb_spec (bZ x) (bZ y)) as [->|Hne]; cbn [negb].
  - rewrite IH by done. destruct (Z.ltb_spec (be_get k) (be_get o)); symmetry;
      [apply Z.ltb_lt|apply Z.ltb_ge]; lia.
  - destruct (Z.ltb_spec (bZ x) (bZ y)); symmetry; [apply Z.ltb_lt|apply Z.ltb_ge]; nia.
Qed.

Lemma Less_num k o : Less k o = (key_num k <? key_num o).
Proof. apply less_loop_spec. by rewrite !length_vec_to_list. Qed.

#[export] Instance Less_strict_weak : StrictWeak Less.
Proof.
  split; intros *; rewrite ?Less_num; [apply Z.ltb_irrefl|rewrite !Z.ltb_lt; lia..].
Qed.

Lemma rank_less_strict_weak {A} (f : A → Key) : StrictWeak (λ x y, Less (f x) (f y)).
Proof. split; intros *; [apply sw_irrefl|apply sw_trans|apply sw_cotrans]. Qed.

(** "Closer to [target]" is a strict weak order on anything that carries a key. *)
#[export] Instance closer_strict_weak {A} (f : A → Key) (target : Key) :
  StrictWeak (λ x y, Less (Distance target (f x)) (Distance target (f y))).
Proof. apply (rank_less_strict_weak (λ x, Distance target (f x))). Qed.

(** ** Bits and prefixes *)

Lemma land_bit x s : 0 <= s → negb (Z.land x (Z.shiftl 1 s) =? 0) = Z.testbit x s.
Proof.
  intros Hs. rewrite Z.shiftl_1_l. destruct (Z.testbit x s) eqn:E.
  - apply negb_true_iff, Z.eqb_neq. intros H%(f_equal (λ z, Z.testbit z s)).
    by rewrite Z.land_spec, E, Z.pow2_bits_true, Z.bits_0 in H.
  - apply negb_false_iff, Z.eqb_eq, Z.bits_inj'. intros i Hi.
    rewrite Z.land_spec, Z.bits_0, Z.pow2_bits_eqb by done.
    destruct (Z.eqb_spec s i) as [<-|]; [by rewrite E|apply andb_false_r].
Qed.

Lemma be_get_testbit l i b :
  l !! (i / 8)%nat = Some b →
  Z.testbit (be_get l) (8 * Z.of_nat (length l) - 1 - Z.of_nat i)
  = Z.testbit (bZ b) (7 - Z.of_nat i mod 8).
Proof.
  revert i. induction l as [|c l IH]; intros i; [done|]. intros Hb.
  pose proof (be_get_range l) as Hr. rewrite pow256 in Hr.
  pose proof (lookup_lt_Some _ _ _ Hb) as Hlt. rewrite length_cons in Hlt |- *.
  pose proof (Nat.div_mod_eq i 8). pose proof (Nat.mod_upper_bound i 8 ltac:(lia)).
  rewrite be_get_cons, pow256, testbit_concat by lia.
  replace (Z.of_nat i mod 8) with (Z.of_nat (i mod 8)) by (rewrite Nat2Z.inj_mod; lia).
  destruct (Z.ltb_spec (8 * Z.of_nat (S (length l)) - 1 - Z.of_nat i)
                       (8 * Z.of_nat (length l))).
  - destruct (i / 8)%nat as [|q] eqn:E; [lia|].
    assert ((i - 8) / 8 = q)%nat as Eq by (symmetry; apply (Nat.div_unique _ _ _ (i mod 8)); lia).
    assert ((i - 8) mod 8 = i mod 8)%nat as Em by (symmetry; apply (Nat.mod_unique _ _ q); lia).
    specialize (IH (i - 8)%nat). rewrite Eq in IH. specialize (IH Hb).
    replace (Z.of_nat (i - 8) mod 8) with (Z.of_nat (i mod 8)) in IH
      by (rewrite <- Em, Nat2Z.inj_mod; lia).
    rewrite <- IH. f_equal. lia.
  - destruct (i / 8)%nat as [|q] eqn:E; [|lia]. injection Hb as ->. f_equal. lia.
Qed.

(** [Bit] reads the bits of the number from the top, and never panics below 160. *)
Lemma Bit_testbit k i :
  (i < KeySizeBits)%nat → Bit k i = Some (Z.testbit (key_num k) (159 - Z.of_nat i)).
Proof.
  unfold KeySizeBits. intros Hi. unfold Bit.
  destruct (lookup_lt_is_Some_2 (vec_to_list k) (i / 8)) as [b Hb].
  { rewrite length_vec_to_list. apply Nat.Div0.div_lt_upper_bound. lia. }
  rewrite Hb. cbn [mbind option_bind].
  pose proof (Z.mod_pos_bound (Z.of_nat i) 8 ltac:(lia)).
  rewrite land_bit by lia. apply be_get_testbit in Hb. rewrite length_vec_to_list in Hb.
  unfold key_num. by rewrite <- Hb.
Qed.

(** The loop stops at the first set bit. *)
Lemma prefix_loop_le fuel x i n :
  (n ≤ prefix_loop fuel x i i ↔
   n ≤ i + fuel ∧ ∀ j, i ≤ j < n → j < i + fuel → Bit x j ≠ Some true)%nat.
Proof.
  revert i. induction fuel as [|fuel IH]; intros i; cbn [prefix_loop].
  { split; [intros; split; [lia|]; intros; lia|lia]. }
  case_bool_decide as Hb.
  - split; [intros; split; [lia|]; intros; lia|].
    intros [Hn H]. destruct (decide (n ≤ i)%nat); [done|]. exfalso. apply (H i); [lia|lia|done].
  - rewrite IH. split; intros [Hn H]; (split; [lia|]); intros j Hj ?.
    + destruct (decide (j = i)) as [->|]; [done|]. apply H; lia.
    + apply H; lia.
Qed.

Lemma CommonPrefixLen_bits k o n :
  (n ≤ KeySizeBits →
   n ≤ CommonPrefixLen k o ↔ ∀ j, j < n → Bit (Xor k o) j ≠ Some true)%nat.
Proof.
  intros Hn. unfold CommonPrefixLen. rewrite prefix_loop_le. split.
  - intros [_ H] j Hj. apply H; lia.
  - intros H. split; [done|]. intros. apply H. lia.
Qed.

Lemma CommonPrefixLen_le k o : (CommonPrefixLen k o ≤ KeySizeBits)%nat.
Proof. by destruct (proj1 (prefix_loop_le KeySizeBits (Xor k o) 0 (CommonPrefixLen k o)) (Nat.le_refl _)). Qed.

(** A set bit below the top [n] of a 160-bit number, or none. *)
Lemma high_bits_zero x n :
  (n ≤ 160)%nat → 0 <= x < 2 ^ 160 →
  (∀ j, (j < n)%nat → Z.testbit x (159 - Z.of_nat j) = false) ↔ Z.shiftr x (160 - Z.of_nat n) = 0.
Proof.
  intros Hn Hx. split.
  - intros H. apply Z.bits_inj'. intros i Hi. rewrite Z.shiftr_spec, Z.bits_0 by done.
    destruct (decide (i + (160 - Z.of_nat n) < 160)).
    + rewrite <- (H (Z.to_nat (159 - (i + (160 - Z.of_nat n))))) by lia. f_equal. lia.
    + destruct (Z.eq_dec x 0) as [->|]; [apply Z.bits_0|].
      apply Z.bits_above_log2; [lia|]. enough (Z.log2 x < 160) by lia. apply Z.log2_lt_pow2; lia.
  - intros H j Hj. replace (159 - Z.of_nat j) with
      ((Z.of_nat n - 1 - Z.of_nat j) + (160 - Z.of_nat n)) by lia.
    by rewrite <- Z.shiftr_spec, H, Z.bits_0 by lia.
Qed.

Lemma CommonPrefixLen_num k o n :
  (n ≤ KeySizeBits)%nat →
  (n ≤ CommonPrefixLen k o)%nat ↔ Z.shiftr (key_num (Xor k o)) (160 - Z.of_nat n) = 0.
Proof.
  intros Hn. rewrite CommonPrefixLen_bits, <- high_bits_zero by (done || apply key_num_range).
  apply forall_proper. intros j. unfold KeySizeBits in Hn.
  split; intros H Hj; specialize (H Hj); rewrite Bit_testbit in * by (unfold KeySizeBits; lia).
  - by destruct (Z.testbit _ _).
  - by rewrite H.
Qed.

Lemma CommonPrefixLen_eq k o : CommonPrefixLen k o = KeySizeBits ↔ k = o.
Proof.
  pose proof (CommonPrefixLen_le k o).
  transitivity (KeySizeBits ≤ CommonPrefixLen k o)%nat; [lia|].
  rewrite CommonPrefixLen_num, key_num_Xor by done. cbn [KeySizeBits].
  change (160 - Z.of_nat 160) with 0. rewrite Z.shiftr_0_r, Z.lxor_eq_0_iff.
  split; [apply key_num_inj|congruence].
Qed.

Lemma CommonPrefixLen_comm k o : CommonPrefixLen k o = CommonPrefixLen o k.
Proof. unfold CommonPrefixLen. by rewrite Xor_comm. Qed.

(** ** Hexadecimal text *)

Lemma hex_pair_parse b :
  (match hex_pair b with
   | [c; d] =>
       match hexVal c, hexVal d with
       | Ret hi, Ret lo => bool_decide (Zb (Z.lor (Z.shiftl hi 4) lo) = b)
       | _, _ => false
       end
   | _ => false
   end) = true.
Proof. revert b. apply byte_check. vm_compute. reflexivity. Qed.

Lemma parse_pairs_hex l : parse_pairs (l ≫= hex_pair) = Ret l.
Proof.
  induction l as [|b l IH]; [done|]. pose proof (hex_pair_parse b) as Hb.
  rewrite bind_cons. unfold hex_pair in Hb. unfold hex_pair at 1. cbn [app parse_pairs].
  rewrite IH. destruct (hexVal _); try done. destruct (hexVal _); try done.
  reflect_tests. cbn. by rewrite Hb.
Qed.

(** What [hexVal] accepts: the lower-cased character is the digit of the value. *)
Lemma hexVal_digit c v : hexVal c = Ret v → 0 <= v < 16 ∧ lower_byte c = hexdigit v.
Proof.
  intros H.
  assert (match hexVal c with
          | Ret v => (0 <=? v) && (v <? 16) && bool_decide (lower_byte c = hexdigit v)
          | _ => true end = true) as Hc.
  { clear. revert c. apply byte_check. vm_compute. reflexivity. }
  rewrite H in Hc. reflect_tests. lia || (split; [lia|done]).
Qed.

Lemma hexVal_no_panic c : hexVal c ≠ Panic.
Proof. unfold hexVal. by repeat case_match. Qed.

(** Combining two digits and taking them apart again. *)
Lemma hex_pair_combine hi lo :
  0 <= hi < 16 → 0 <= lo < 16 →
  hex_pair (Zb (Z.lor (Z.shiftl hi 4) lo)) = [hexdigit hi; hexdigit lo].
Proof.
  intros Hh Hl.
  assert (forallb (λ h, forallb (λ l, bool_decide
    (hex_pair (Zb (Z.lor (Z.shiftl h 4) l)) = [hexdigit h; hexdigit l])) (seqZ 0 16))
    (seqZ 0 16) = true) as H by (vm_compute; reflexivity).
  rewrite forallb_forall in H. specialize (H hi). rewrite forallb_forall in H.
  apply (bool_decide_unpack _). apply Is_true_true, H; by apply list_elem_of_In, elem_of_seqZ.
Qed.

Lemma parse_pairs_sound n l r :
  length l = (2 * n)%nat → parse_pairs l = Ret r →
  length r = n ∧ lower_byte <$> l = r ≫= hex_pair.
Proof.
  revert l r. induction n as [|n IH]; intros l r Hl.
  { apply nil_length_inv in Hl as ->. intros [= <-]. done. }
  destruct l as [|c [|d l]]; cbn [length] in Hl; [lia..|]. cbn [parse_pairs].
  rewrite outcome_bind_ret. intros (hi & Hhi & H). rewrite outcome_bind_ret in H.
  destruct H as (lo & Hlo & H). rewrite outcome_bind_ret in H. destruct H as (rest & Hr & [= <-]).
  apply hexVal_digit in Hhi as [? Hhi], Hlo as [? Hlo]. apply IH in Hr as [? Hr]; [|lia].
  split; [cbn; lia|]. rewrite bind_cons, hex_pair_combine, !fmap_cons, Hr, Hhi, Hlo by done. done.
Qed.

Lemma length_hex_pairs l : length (l ≫= hex_pair) = (2 * length l)%nat.
Proof. induction l as [|b l IH]; [done|]. rewrite bind_cons, length_app, IH. cbn. lia. Qed.

Lemma length_ascii_lower s : String.length (ascii_lower s) = String.length s.
Proof. rewrite <- !length_bytes_of. unfold ascii_lower. by rewrite bytes_of_string_of, length_fmap. Qed.

Lemma hexVal_lower c v : hexVal (lower_byte c) = Ret v → hexVal c = Ret v.
Proof.
  intros H.
  assert (match hexVal (lower_byte c), hexVal c with
          | Ret v, Ret w => v =? w
          | Ret _, _ => false
          | _, _ => true end = true) as Hc.
  { clear. revert c. apply byte_check. vm_compute. reflexivity. }
  rewrite H in Hc. destruct (hexVal c); try done. apply Z.eqb_eq in Hc. by subst.
Qed.

Lemma parse_pairs_lower n l r :
  length l = (2 * n)%nat → parse_pairs (lower_byte <$> l) = Ret r → parse_pairs l = Ret r.
Proof.
  revert l r. induction n as [|n IH]; intros l r Hl.
  { apply nil_length_inv in Hl as ->. done. }
  destruct l as [|c [|d l]]; cbn [length] in Hl; [lia..|]. rewrite !fmap_cons. cbn [parse_pairs].
  rewrite outcome_bind_ret. intros (hi & Hhi & H). rewrite outcome_bind_ret in H.
  destruct H as (lo & Hlo & H). rewrite outcome_bind_ret in H. destruct H as (rest & Hr & [= <-]).
  apply hexVal_lower in Hhi as ->, Hlo as ->. cbn [mbind outcome_bind].
  rewrite (IH l rest) by (done || lia). done.
Qed.

Lemma length_Key_String k : String.length (Key_String k) = 40%nat.
Proof.
  rewrite <- length_bytes_of. unfold Key_String.
  by rewrite bytes_of_string_of, length_hex_pairs, length_vec_to_list.
Qed.

Lemma ParseKey_ret s k :
  ParseKey s = Ret k ↔
  ∃ l, String.length s = 40%nat ∧ parse_pairs (bytes_of s) = Ret l ∧ k = arr_copy 20 l.
Proof.
  unfold ParseKey. destruct (Nat.eqb_spec (String.length s) 40); cbn [negb].
  - rewrite outcome_bind_ret. naive_solver.
  - naive_solver.
Qed.

Lemma ParseKey_Key_String k : ParseKey (Key_String k) = Ret k.
Proof.
  apply ParseKey_ret. exists k. rewrite length_Key_String, arr_copy_id. split_and!; try done.
  unfold Key_String. by rewrite bytes_of_string_of, parse_pairs_hex.
Qed.

Lemma parse_pairs_no_panic n l : length l = (2 * n)%nat → parse_pairs l ≠ Panic.
Proof.
  revert l. induction n as [|n IH]; intros l Hl.
  { by apply nil_length_inv in Hl as ->. }
  destruct l as [|c [|d l]]; cbn [length] in Hl; [lia..|]. cbn [parse_pairs].
  pose proof (hexVal_no_panic c). pose proof (hexVal_no_panic d). specialize (IH l ltac:(lia)).
  destruct (hexVal c), (hexVal d), (parse_pairs l); done.
Qed.

Lemma ParseKey_no_panic s : ParseKey s ≠ Panic.
Proof.
  unfold ParseKey. destruct (Nat.eqb_spec (String.length s) 40) as [E|]; cbn [negb]; [|done].
  rewrite <- length_bytes_of in E. pose proof (parse_pairs_no_panic 20 _ E).
  by destruct (parse_pairs (bytes_of s)).
Qed.

(** The common prefix ends where the distance has its highest bit. *)
Lemma prefix_log2 k o :
  k ≠ o → key_num (Xor k o) ≠ 0 →
  Z.of_nat (CommonPrefixLen k o) = 159 - Z.log2 (key_num (Xor k o)).
Proof.
  intros Hne Hx. set (x := key_num (Xor k o)) in *.
  assert (0 <= x < 2 ^ 160) as Hr by apply key_num_range.
  pose proof (CommonPrefixLen_le k o) as Hle. unfold KeySizeBits in Hle.
  assert (Z.log2 x < 160) as Hlog by (apply Z.log2_lt_pow2; lia).
  pose proof (Z.log2_nonneg x).
  assert (∀ n, (n ≤ 160)%nat → (n ≤ CommonPrefixLen k o)%nat ↔ Z.log2 x < 160 - Z.of_nat n) as Hn.
  { intros n Hn. rewrite CommonPrefixLen_num by done. fold x.
    rewrite Z.shiftr_eq_0_iff. lia. }
  pose proof (Hn (Z.to_nat (159 - Z.log2 x))) as H1.
  pose proof (Hn (Z.to_nat (160 - Z.log2 x))) as H2. lia.
Qed.

(** ** Properties *)

(** [Less] compares keys as 160-bit big-endian numbers, and [Distance] is a metric on
    that number line: zero exactly on equal keys, symmetric, with the triangle inequality,
    and for every key and distance exactly one key lies at that distance. *)
Theorem Distance_metric (a b c : Key) :
  (Less a b = true ↔ key_num a < key_num b) ∧
  (key_num (Distance a b) = 0 ↔ a = b) ∧
  Distance a b = Distance b a ∧
  key_num (Distance a c) <= key_num (Distance a b) + key_num (Distance b c) ∧
  (Distance a (Xor a b) = b ∧ ∀ x, Distance a x = b → x = Xor a b).
Proof.
  unfold Distance. split_and!.
  - by rewrite Less_num, Z.ltb_lt.
  - rewrite key_num_Xor, Z.lxor_eq_0_iff. split; [apply key_num_inj|congruence].
  - apply Xor_comm.
  - rewrite !key_num_Xor, <- Z.add_lxor_2land.
    replace (Z.lxor (Z.lxor (key_num a) (key_num b)) (Z.lxor (key_num b) (key_num c)))
      with (Z.lxor (key_num a) (key_num c)).
    2:{ rewrite Z.lxor_assoc, <- (Z.lxor_assoc (key_num b)), Z.lxor_nilpotent. by rewrite Z.lxor_0_l. }
    enough (0 <= Z.land (Z.lxor (key_num a) (key_num b)) (Z.lxor (key_num b) (key_num c))) by lia.
    rewrite <- !key_num_Xor. apply Z.land_nonneg. left. apply key_num_range.
  - apply Xor_cancel.
  - intros x <-. by rewrite Xor_cancel.
Qed.

(** [CommonPrefixLen] is the length of the longest common bit prefix: two keys share at
    least [n] leading bits exactly when their top [n] bits, read as numbers, agree; the
    result is 160 only for equal keys, and otherwise it is the position of the highest set
    bit of the XOR distance. *)
Theorem CommonPrefixLen_spec (k o : Key) (n : nat) (Hn : (n ≤ KeySizeBits)%nat) :
  ((n ≤ CommonPrefixLen k o)%nat ↔
     Z.shiftr (key_num k) (160 - Z.of_nat n) = Z.shiftr (key_num o) (160 - Z.of_nat n)) ∧
  (CommonPrefixLen k o = KeySizeBits ↔ k = o) ∧
  (k ≠ o → Z.of_nat (CommonPrefixLen k o) = 159 - Z.log2 (key_num (Distance k o))).
Proof.
  split_and!.
  - rewrite CommonPrefixLen_num, key_num_Xor by done.
    by rewrite Z.shiftr_lxor, Z.lxor_eq_0_iff.
  - apply CommonPrefixLen_eq.
  - intros Hne. unfold Distance. apply prefix_log2; [done|].
    intros E. apply Hne. rewrite key_num_Xor in E. by apply key_num_inj, Z.lxor_eq.
Qed.

Lemma CommonPrefixLen_spec_witness :
  CommonPrefixLen (KeyForNodeID "node-3") (KeyForNodeID "node-5") = 6%nat ∧
  Z.of_nat (CommonPrefixLen (KeyForNodeID "node-3") (KeyForNodeID "node-5")) =
    159 - Z.log2 (key_num (Distance (KeyForNodeID "node-3") (KeyForNodeID "node-5"))).
Proof.
  split; [vm_compute; reflexivity|].
  apply (CommonPrefixLen_spec (KeyForNodeID "node-3") (KeyForNodeID "node-5") 3).
  - unfold KeySizeBits. lia.
  - intros E%(f_equal key_num). vm_compute in E. discriminate E.
Defined.

(** [ParseKey] inverts [String]: it accepts exactly the strings that are, up to letter
    case, the hexadecimal text of a key, and returns that key; it never panics. *)
Theorem ParseKey_String (s : string) (k : Key) :
  (ParseKey s = Ret k ↔ ascii_lower s = Key_String k) ∧
  ParseKey (Key_String k) = Ret k ∧
  ParseKey s ≠ Panic.
Proof.
  split_and!; [|apply ParseKey_Key_String|apply ParseKey_no_panic]. split.
  - intros (l & Hlen & Hl & ->)%ParseKey_ret.
    apply parse_pairs_sound with (n := 20%nat) in Hl as [Hr Hl]; [|by rewrite length_bytes_of].
    unfold ascii_lower, Key_String. by rewrite Hl, arr_copy_exact.
  - intros Hs. assert (String.length s = 40%nat) as Hlen.
    { by rewrite <- length_ascii_lower, Hs, length_Key_String. }
    pose proof (ParseKey_Key_String k) as (l & _ & Hl & ->)%ParseKey_ret.
    unfold ParseKey. rewrite Hlen. cbn [negb Nat.eqb].
    rewrite (parse_pairs_lower 20 _ l); [done|by rewrite length_bytes_of|].
    rewrite <- Hs in Hl. unfold ascii_lower in Hl. by rewrite bytes_of_string_of in Hl.
Qed.

(** Clients reason about keys through the lemmas above. *)
#[global] Opaque KeyForNodeID CommonPrefixLen Xor.
