(* ===== verification/DhtTable.v ===== *)
(** * The Kademlia routing table ([internal/dht/bucket.go], [table.go], [node.go], [errors.go])

    160 buckets of at most [K] nodes, indexed by the common prefix length with the local
    key.  A [*Node] is modelled by its value: the table is the only writer of a stored node
    ([seen] refreshes [LastSeen]), and [Add] writes the derived key before storing it.  The
    injected clock [now] is the argument of the operation that reads it. *)

From S2P Require Import Prelude GoLib Sha256 DhtKey.

Open Scope Z_scope.

Module DhtTable.

(** ** Nodes and buckets *)

Record Node := mkNode {
  ID : string;
  NKey : Key;
  Addr : string;
  LastSeen : Z;
}.

#[export] Instance Node_eq_dec : EqDecision Node.
Proof. solve_decision. Defined.

Definition K : nat := 20.

(** [b.entries], most recently seen last. *)
Definition bucket : Type := list Node.

(** [None] stands for the result -1. *)
Definition index (id : string) (b : bucket) : option nat :=
  find_index (λ n, String.eqb (ID n) id) b.

Definition set_key (k : Key) (n : Node) : Node := mkNode (ID n) k (Addr n) (LastSeen n).
Definition touch (now : Z) (n : Node) : Node := mkNode (ID n) (NKey n) (Addr n) now.

(** Moves entry [idx] to the tail and refreshes it; out of range Go panics. *)
Definition seen (idx : nat) (now : Z) (b : bucket) : option bucket :=
  n ← b !! idx; Some (remove_at idx b ++ [touch now n]).

Definition push (n : Node) (b : bucket) : bucket := b ++ [n].

Definition full (b : bucket) : bool := (K <=? length b)%nat.

Definition leastRecentlySeen (b : bucket) : option Node := head b.

Definition bucket_remove (id : string) (b : bucket) : bucket * bool :=
  match index id b with
  | None => (b, false)
  | Some i => (remove_at i b, true)
  end.

(** ** The table *)

Inductive dht_error :=
| errNilNode
| errSelfNode.

(** [buckets] has 160 slots; [None] is a nil [*bucket]. *)
Record RoutingTable := mkTable {
  self : Key;
  buckets : list (option bucket);
}.

Definition NewRoutingTable (localID : string) : RoutingTable :=
  mkTable (KeyForNodeID localID) (replicate KeySizeBits None).

Definition bucketFor (t : RoutingTable) (k : Key) : option nat :=
  let pl := CommonPrefixLen (self t) k in
  if (KeySizeBits <=? pl)%nat then None else Some pl.

(** [t.buckets[bi]]; the slot exists for every [bi] that [bucketFor] returns. *)
Definition slot (t : RoutingTable) (bi : nat) : option bucket := mjoin (buckets t !! bi).

Definition set_slot (bi : nat) (b : bucket) (t : RoutingTable) : RoutingTable :=
  mkTable (self t) (<[bi := Some b]> (buckets t)).

Definition Has (id : string) (t : RoutingTable) : Key * bool :=
  let k := KeyForNodeID id in
  match bucketFor t k with
  | None => (k, true)
  | Some bi =>
      match slot t bi with
      | None => (k, false)
      | Some b => (k, bool_decide (is_Some (index id b)))
      end
  end.

(** The new table and the returned pair: [Ret None] is [(nil, nil)], [Ret (Some c)] an
    eviction candidate. *)
Definition Add (now : Z) (arg : option Node) (t : RoutingTable) :
    RoutingTable * outcome dht_error (option Node) :=
  match arg with
  | None => (t, Fail errNilNode)
  | Some n0 =>
      let k := KeyForNodeID (ID n0) in
      let n := set_key k n0 in
      match bucketFor t k with
      | None => (t, Fail errSelfNode)
      | Some bi =>
          let b := default [] (slot t bi) in
          match index (ID n) b with
          | Some idx =>
              match seen idx now b with
              | Some b' => (set_slot bi b' t, Ret None)
              | None => (t, Panic)
              end
          | None =>
              if negb (full b) then (set_slot bi (push n b) t, Ret None)
              else (set_slot bi b t, Ret (leastRecentlySeen b))
          end
      end
  end.

Definition Remove (id : string) (t : RoutingTable) : RoutingTable * bool :=
  let k := KeyForNodeID id in
  match bucketFor t k with
  | None => (t, false)
  | Some bi =>
      match slot t bi with
      | None => (t, false)
      | Some b => let '(b', r) := bucket_remove id b in (set_slot bi b' t, r)
      end
  end.

(** The nested range loops over the non-nil buckets. *)
Definition entries (t : RoutingTable) : list Node := buckets t ≫= default [].

Section Nearest.
Context `{SliceSort}.

(** A negative [n] makes [make([]scored, 0, n)] panic. *)
Definition Nearest (target : Key) (n : Z) (t : RoutingTable) : outcome dht_error (list Node) :=
  if n <? 0 then Panic
  else
    let cands := (λ e, (e, Distance target (NKey e))) <$> entries t in
    let cands := sort_slice (λ x y : Node * Key, Less x.2 y.2) cands in
    let cands := if Z.of_nat (length cands) >? n then take (Z.to_nat n) cands else cands in
    Ret (fst <$> cands).

(** A negative [c] makes [all[:c]] panic. *)
Definition MultiPathCandidates (target : Key) (c : Z) (t : RoutingTable) :
    outcome dht_error (list Node) :=
  all ← Nearest target (Z.of_nat K) t;
  if Z.of_nat (length all) <=? c then Ret all
  else if c <? 0 then Panic
  else Ret (take (Z.to_nat c) all).
End Nearest.

Definition SizeUnlocked (t : RoutingTable) : nat :=
  foldl (λ total b, match b with Some es => total + length es | None => total end)%nat
        0%nat (buckets t).

Definition Size (t : RoutingTable) : nat := SizeUnlocked t.

(** A copy of every stored node. *)
Definition Peers (t : RoutingTable) : list Node := entries t.

(** ** Executions *)

(** One call that changes the table. *)
Inductive table_step : RoutingTable → RoutingTable → Prop :=
| step_Add now arg t : table_step t (Add now arg t).1
| step_Remove id t : table_step t (Remove id t).1.

Definition reachable (localID : string) (t : RoutingTable) : Prop :=
  rtc table_step (NewRoutingTable localID) t.

(** ** The table invariant *)

(** Bucket [i] of a table around [s]. *)
Record bucket_ok (s : Key) (i : nat) (b : bucket) : Prop := {
  bucket_cap : (length b ≤ K)%nat;
  bucket_nodup : NoDup (ID <$> b);
  bucket_keys n : n ∈ b → NKey n = KeyForNodeID (ID n);
  bucket_prefix n : n ∈ b → CommonPrefixLen s (NKey n) = i;
}.

Record table_ok (t : RoutingTable) : Prop := {
  table_slots : length (buckets t) = KeySizeBits;
  table_buckets i b : slot t i = Some b → bucket_ok (self t) i b;
}.

End DhtTable.
Export DhtTable.

(** ** Buckets *)

Lemma index_Some id b i :
  index id b = Some i → ∃ n, b !! i = Some n ∧ ID n = id.
Proof. intros (n & Hn & Hid & _)%find_index_Some. reflect_tests. eauto. Qed.

Lemma index_None id b : index id b = None ↔ id ∉ ID <$> b.
Proof.
  unfold index. rewrite find_index_None, list_elem_of_fmap. split.
  - intros H (n & -> & Hn). specialize (H n Hn). by rewrite String.eqb_refl in H.
  - intros H n Hn. apply String.eqb_neq. intros <-. eauto.
Qed.

Lemma index_is_Some id b : is_Some (index id b) ↔ id ∈ ID <$> b.
Proof.
  pose proof (index_None id b). rewrite <- not_eq_None_Some.
  destruct (decide (id ∈ ID <$> b)); tauto.
Qed.

Lemma bucket_ok_nil s i : bucket_ok s i [].
Proof. split; cbn; [lia|constructor|intros n Hn; inversion Hn..]. Qed.

Lemma bucket_ok_perm s i b b' :
  map (λ n, (ID n, NKey n)) b ≡ₚ map (λ n, (ID n, NKey n)) b' → bucket_ok s i b → bucket_ok s i b'.
Proof.
  intros Hp [Hc Hd Hk Hl].
  assert (∀ n', n' ∈ b' → ∃ n, n ∈ b ∧ ID n' = ID n ∧ NKey n' = NKey n) as Hin.
  { intros n' Hn'. assert ((ID n', NKey n') ∈ (λ n, (ID n, NKey n)) <$> b) as Hm.
    { change (?f <$> b) with (map f b). rewrite Hp. by apply (list_elem_of_fmap_2 (λ n, (ID n, NKey n))). }
    apply list_elem_of_fmap in Hm as (n & [= -> ->] & ?). eauto. }
  split.
  - apply Permutation_length in Hp. rewrite !length_map in Hp. lia.
  - apply (Permutation_map fst) in Hp. rewrite !map_map in Hp. cbn in Hp.
    change (ID <$> b) with (map ID b) in Hd. by rewrite Hp in Hd.
  - intros n' (n & ? & -> & ->)%Hin. eauto.
  - intros n' (n & ? & _ & ->)%Hin. eauto.
Qed.

Lemma bucket_ok_sublist s i b b' : b' `sublist_of` b → bucket_ok s i b → bucket_ok s i b'.
Proof.
  intros Hs [Hc Hd Hk Hl]. pose proof (sublist_length _ _ Hs). split; [lia| |intros n Hn..].
  - eapply sublist_NoDup; [exact Hd|]. by apply fmap_sublist.
  - eapply Hk, elem_of_submseteq; [exact Hn|by apply sublist_submseteq].
  - eapply Hl, elem_of_submseteq; [exact Hn|by apply sublist_submseteq].
Qed.

Lemma seen_spec idx now b n :
  b !! idx = Some n → seen idx now b = Some (remove_at idx b ++ [touch now n]).
Proof. unfold seen. by intros ->. Qed.

Lemma bucket_ok_seen s i idx now b n :
  b !! idx = Some n → bucket_ok s i b → bucket_ok s i (remove_at idx b ++ [touch now n]).
Proof.
  intros Hn. apply bucket_ok_perm. rewrite map_app. cbn.
  rewrite <- Permutation_cons_append. pose proof (remove_at_perm _ _ _ Hn) as Hp.
  rewrite Hp at 1. done.
Qed.

Lemma bucket_ok_push s i b n :
  bucket_ok s i b → full b = false → index (ID n) b = None →
  NKey n = KeyForNodeID (ID n) → CommonPrefixLen s (NKey n) = i → bucket_ok s i (push n b).
Proof.
  intros [Hc Hd Hk Hl] Hf Hi Hk' Hl'. unfold full in Hf. apply Nat.leb_gt in Hf.
  apply index_None in Hi. unfold push. split.
  - rewrite length_app. cbn. lia.
  - rewrite fmap_app. apply NoDup_app. split_and!; [done| |repeat constructor; by intros ?%elem_of_nil].
    intros x Hx ->%list_elem_of_singleton. done.
  - intros m [Hm| ->%list_elem_of_singleton]%elem_of_app; [exact (Hk m Hm)|exact Hk'].
  - intros m [Hm| ->%list_elem_of_singleton]%elem_of_app; [exact (Hl m Hm)|exact Hl'].
Qed.

Lemma bucket_ok_remove s i b id : bucket_ok s i b → bucket_ok s i (bucket_remove id b).1.
Proof.
  intros H. unfold bucket_remove. case_match; [|done]. cbn.
  by eapply bucket_ok_sublist, H; apply remove_at_sublist.
Qed.

#[export] Hint Resolve bucket_ok_nil bucket_ok_seen bucket_ok_push bucket_ok_remove : mesh.

(** ** Slots *)

Lemma bucketFor_Some t k i :
  bucketFor t k = Some i ↔ CommonPrefixLen (self t) k = i ∧ (i < KeySizeBits)%nat.
Proof. unfold bucketFor. destruct (Nat.leb_spec KeySizeBits (CommonPrefixLen (self t) k)); naive_solver lia. Qed.

Lemma bucketFor_None t k : bucketFor t k = None ↔ k = self t.
Proof.
  unfold bucketFor. pose proof (CommonPrefixLen_le (self t) k).
  pose proof (CommonPrefixLen_eq (self t) k).
  destruct (Nat.leb_spec KeySizeBits (CommonPrefixLen (self t) k)); naive_solver lia.
Qed.

Lemma slot_lookup t i b : buckets t !! i = Some (Some b) → slot t i = Some b.
Proof. intros H. unfold slot. by rewrite H. Qed.

Lemma slot_set_slot t i j b :
  length (buckets t) = KeySizeBits → (i < KeySizeBits)%nat →
  slot (set_slot i b t) j = if decide (i = j) then Some b else slot t j.
Proof.
  intros Hl Hi. unfold slot, set_slot. cbn. case_decide as E.
  - subst j. by rewrite list_lookup_insert_eq by lia.
  - by rewrite list_lookup_insert_ne.
Qed.

Lemma set_slot_ok t i b :
  table_ok t → (i < KeySizeBits)%nat → bucket_ok (self t) i b → table_ok (set_slot i b t).
Proof.
  intros [Hl Hb] Hi Hok. split; [cbn; by rewrite length_insert|].
  intros j b'. rewrite slot_set_slot by done. case_decide as E; [|apply Hb].
  intros [= <-]. by subst j.
Qed.

Lemma slot_ok t i : table_ok t → bucket_ok (self t) i (default [] (slot t i)).
Proof. intros [_ Hb]. destruct (slot t i) eqn:E; cbn; auto with mesh. Qed.

(** The entries of every other bucket. *)
Definition others (i : nat) (t : RoutingTable) : list Node :=
  (take i (buckets t) ≫= default []) ++ (drop (S i) (buckets t) ≫= default []).

Lemma entries_split t i :
  length (buckets t) = KeySizeBits → (i < KeySizeBits)%nat →
  entries t ≡ₚ default [] (slot t i) ++ others i t.
Proof.
  intros Hl Hi. unfold entries, others, slot.
  destruct (lookup_lt_is_Some_2 (buckets t) i) as [o Ho]; [lia|].
  rewrite Ho. cbn. rewrite <- (take_drop_middle _ _ _ Ho) at 1.
  rewrite bind_app, bind_cons, !app_assoc. by apply Permutation_app_tail, Permutation_app_comm.
Qed.

Lemma entries_set_slot t i b :
  length (buckets t) = KeySizeBits → (i < KeySizeBits)%nat →
  entries (set_slot i b t) ≡ₚ b ++ others i t.
Proof.
  intros Hl Hi. rewrite (entries_split _ i) by (done || cbn; by rewrite length_insert).
  rewrite slot_set_slot, decide_True by done. cbn. unfold others, set_slot. cbn.
  by rewrite take_insert_ge, drop_insert_lt by lia.
Qed.

Lemma elem_of_entries t n : n ∈ entries t ↔ ∃ i b, slot t i = Some b ∧ n ∈ b.
Proof.
  unfold entries, slot. rewrite list_elem_of_bind. split.
  - intros ([b|] & Hn & Ho); [|inversion Hn]. apply list_elem_of_lookup in Ho as [i Hi].
    exists i, b. unfold bucket in *. by rewrite Hi.
  - intros (i & b & Hb & Hn). exists (Some b). split; [done|].
    destruct (buckets t !! i) as [o|] eqn:E; [|done]. cbn in Hb. subst o.
    by eapply list_elem_of_lookup_2.
Qed.

Lemma entries_ok t n :
  table_ok t → n ∈ entries t → NKey n = KeyForNodeID (ID n) ∧
  slot t (CommonPrefixLen (self t) (NKey n)) ≠ None ∧
  n ∈ default [] (slot t (CommonPrefixLen (self t) (NKey n))) ∧ NKey n ≠ self t.
Proof.
  intros Hok (i & b & Hb & Hn)%elem_of_entries. pose proof (table_buckets _ Hok _ _ Hb) as Hbk.
  pose proof (bucket_keys _ _ _ Hbk n Hn). pose proof (bucket_prefix _ _ _ Hbk n Hn) as <-.
  split_and!; [done|by rewrite Hb|by rewrite Hb|].
  intros E. assert (CommonPrefixLen (self t) (NKey n) = KeySizeBits) as H160.
  { by apply CommonPrefixLen_eq. }
  unfold slot in Hb. rewrite H160, lookup_ge_None_2 in Hb; [done|]. by rewrite (table_slots _ Hok).
Qed.

(** ** Invariant preservation *)

Lemma NewRoutingTable_ok id : table_ok (NewRoutingTable id).
Proof.
  split; [apply length_replicate|]. intros i b. unfold slot, NewRoutingTable, buckets.
  destruct (replicate KeySizeBits (@None bucket) !! i) as [o|] eqn:E; [|done].
  by apply lookup_replicate in E as [-> _].
Qed.

Lemma bucketFor_prefix t n i :
  bucketFor t (KeyForNodeID (ID n)) = Some i →
  CommonPrefixLen (self t) (NKey (set_key (KeyForNodeID (ID n)) n)) = i ∧ (i < KeySizeBits)%nat.
Proof. by intros H%bucketFor_Some. Qed.

Lemma Add_ok now arg t : table_ok t → table_ok (Add now arg t).1.
Proof.
  intros Hok. destruct arg as [n|]; [|done]. unfold Add.
  destruct (bucketFor t _) as [i|] eqn:Hb; [|done].
  destruct (bucketFor_prefix _ _ _ Hb) as [Hpre Hi].
  pose proof (slot_ok t i Hok) as Hs. set (b := default [] (slot t i)) in *. cbn zeta.
  destruct (index _ b) as [idx|] eqn:Hidx.
  - destruct (index_Some _ _ _ Hidx) as (m & Hm & _). rewrite (seen_spec _ _ _ _ Hm).
    apply set_slot_ok; auto with mesh.
  - destruct (full b) eqn:Hf; cbn [negb fst]; apply set_slot_ok; [exact Hok|exact Hi| |exact Hok|exact Hi|].
    + exact Hs.
    + apply bucket_ok_push; [exact Hs|exact Hf|exact Hidx|reflexivity|exact Hpre].
Qed.

Lemma Remove_ok id t : table_ok t → table_ok (Remove id t).1.
Proof.
  intros Hok. unfold Remove. destruct (bucketFor t _) as [i|] eqn:Hb; [|done].
  apply bucketFor_Some in Hb as [_ Hi]. destruct (slot t i) as [b|] eqn:Hs; [|done].
  pose proof (bucket_ok_remove _ _ _ id (table_buckets _ Hok _ _ Hs)) as Hr.
  destruct (bucket_remove id b). by apply set_slot_ok.
Qed.

Lemma Add_self now arg t : self (Add now arg t).1 = self t.
Proof. unfold Add. repeat (case_match; try done). Qed.

Lemma Remove_self id t : self (Remove id t).1 = self t.
Proof. unfold Remove. repeat (case_match; try done). Qed.

Lemma steps_ok t t' : rtc table_step t t' → table_ok t → table_ok t' ∧ self t' = self t.
Proof.
  induction 1 as [|t t1 t2 Hst _ IH]; [done|]. intros Hok. destruct Hst.
  - rewrite <- (Add_self now arg t). by apply IH, Add_ok.
  - rewrite <- (Remove_self id t). by apply IH, Remove_ok.
Qed.

Lemma reachable_ok localID t : reachable localID t → table_ok t ∧ self t = KeyForNodeID localID.
Proof. intros H. by apply (steps_ok _ _ H), NewRoutingTable_ok. Qed.

(** ** The flat view *)

(** Buckets of different prefix lengths hold different nodes. *)
Lemma NoDup_buckets s off bs :
  (∀ i b, bs !! i = Some (Some b) → bucket_ok s (off + i) b) →
  NoDup (ID <$> (bs ≫= default [])).
Proof.
  revert off. induction bs as [|o bs IH]; intros off H; [constructor|].
  rewrite bind_cons, fmap_app. apply NoDup_app.
  assert (bucket_ok s off (default [] o)) as H0.
  { destruct o as [b|]; [|apply bucket_ok_nil]. cbn. rewrite <- (Nat.add_0_r off). by apply H. }
  split_and!; [apply H0| |apply (IH (S off)); intros i b Hb; exact (eq_rect _ (λ j, bucket_ok s j b) (H (S i) b Hb) _ (Nat.add_succ_r off i))].
  intros id (n & -> & Hn)%list_elem_of_fmap (m & Hid & Hm)%list_elem_of_fmap.
  apply list_elem_of_bind in Hm as ([b|] & Hm & [i Hi]%list_elem_of_lookup); [|inversion Hm].
  specialize (H (S i) b Hi). cbn in Hm.
  pose proof (bucket_prefix _ _ _ H0 n Hn). pose proof (bucket_prefix _ _ _ H m Hm).
  rewrite (bucket_keys _ _ _ H0 n Hn) in *. rewrite (bucket_keys _ _ _ H m Hm), <- Hid in *. lia.
Qed.

Lemma entries_NoDup t : table_ok t → NoDup (ID <$> entries t).
Proof.
  intros Hok. apply (NoDup_buckets (self t) 0). intros i b Hb. cbn.
  by apply (table_buckets _ Hok), slot_lookup.
Qed.

Lemma Size_entries t : Size t = length (entries t).
Proof.
  unfold Size, SizeUnlocked, entries.
  assert (∀ (bs : list (option bucket)) acc, foldl (λ total b, match b with Some es => total + length es | None => total end)%nat
    acc bs = (acc + length (bs ≫= default []))%nat) as H; [|by rewrite H].
  induction bs as [|o bs IH]; intros acc; cbn [foldl]; [cbn; lia|].
  rewrite IH, bind_cons, length_app. destruct o; cbn; lia.
Qed.

Lemma length_entries t : table_ok t → (length (entries t) ≤ KeySizeBits * K)%nat.
Proof.
  intros [Hl Hb]. rewrite <- Hl. unfold entries.
  assert (∀ i b, buckets t !! i = Some (Some b) → (length b ≤ K)%nat) as H.
  { intros i b Hi. by apply (bucket_cap (self t) i), Hb, slot_lookup. }
  clear Hl Hb. induction (buckets t) as [|o bs IH]; [cbn; lia|].
  rewrite bind_cons, length_app, length_cons.
  assert (length (default [] o) ≤ K)%nat.
  { destruct o as [b|]; [apply (H 0%nat b eq_refl)|cbn; lia]. }
  specialize (IH (λ i b Hi, H (S i) b Hi)). lia.
Qed.

(** A stored ID is found in the bucket of its key. *)
Lemma stored_in_slot t id i :
  table_ok t → bucketFor t (KeyForNodeID id) = Some i →
  id ∈ ID <$> entries t ↔ id ∈ ID <$> default [] (slot t i).
Proof.
  intros Hok [Hpre Hi]%bucketFor_Some. rewrite (entries_split t i) by (done || apply Hok).
  rewrite fmap_app, elem_of_app. split; [|by left]. intros [?|Hin]; [done|].
  apply list_elem_of_fmap in Hin as (n & -> & Hn).
  assert (n ∈ entries t) as Hn'.
  { rewrite (entries_split t i) by (done || apply Hok). apply elem_of_app. by right. }
  destruct (entries_ok t n Hok Hn') as (Hk & _ & Hn'' & _). rewrite Hk, Hpre in Hn''.
  by apply list_elem_of_fmap_2.
Qed.

(** ** The operations, branch by branch *)

(** The bucket a NodeID belongs to. *)
Definition home (id : string) (t : RoutingTable) : bucket :=
  default [] (slot t (CommonPrefixLen (self t) (KeyForNodeID id))).

(** The node as [Add] stores it. *)
Definition keyed (n : Node) : Node := set_key (KeyForNodeID (ID n)) n.

Lemma bucketFor_home t id :
  KeyForNodeID id ≠ self t →
  bucketFor t (KeyForNodeID id) = Some (CommonPrefixLen (self t) (KeyForNodeID id)) ∧
  (CommonPrefixLen (self t) (KeyForNodeID id) < KeySizeBits)%nat.
Proof.
  intros Hne. destruct (bucketFor t (KeyForNodeID id)) as [i|] eqn:E.
  - apply bucketFor_Some in E as [<- Hi]. split; [reflexivity|exact Hi].
  - by apply bucketFor_None in E.
Qed.

Lemma stored_home t id :
  table_ok t → KeyForNodeID id ≠ self t → id ∈ ID <$> entries t ↔ id ∈ ID <$> home id t.
Proof. intros Hok [Hb _]%bucketFor_home. by apply stored_in_slot. Qed.

Lemma home_set_slot t id b :
  table_ok t → KeyForNodeID id ≠ self t →
  home id (set_slot (CommonPrefixLen (self t) (KeyForNodeID id)) b t) = b.
Proof.
  intros Hok [_ Hi]%bucketFor_home. unfold home. cbn [set_slot self].
  change (slot _ _) with
    (slot (set_slot (CommonPrefixLen (self t) (KeyForNodeID id)) b t)
          (CommonPrefixLen (self t) (KeyForNodeID id))).
  by rewrite slot_set_slot, decide_True by (done || apply Hok).
Qed.

Lemma Add_known now n t :
  table_ok t → KeyForNodeID (ID n) ≠ self t → ID n ∈ ID <$> entries t →
  ∃ m rest, ID m = ID n ∧ (Add now (Some n) t).2 = Ret None ∧
    entries t ≡ₚ m :: rest ∧ entries (Add now (Some n) t).1 ≡ₚ touch now m :: rest ∧
    last (home (ID n) (Add now (Some n) t).1) = Some (touch now m).
Proof.
  intros Hok Hne Hin. pose proof (bucketFor_home t (ID n) Hne) as [Hb Hi].
  rewrite stored_home in Hin by done. unfold home in Hin.
  unfold Add. rewrite Hb. cbn zeta. fold (home (ID n) t). fold (home (ID n) t) in Hin.
  destruct (index (ID (set_key (KeyForNodeID (ID n)) n)) (home (ID n) t)) as [idx|] eqn:Hidx.
  2:{ by apply index_None in Hidx. }
  destruct (index_Some _ _ _ Hidx) as (m & Hm & Hid). rewrite (seen_spec _ _ _ _ Hm). cbn [fst snd].
  exists m, (remove_at idx (home (ID n) t) ++ others (CommonPrefixLen (self t) (KeyForNodeID (ID n))) t).
  split_and!; [exact Hid|reflexivity| | |].
  - rewrite (entries_split t _ (table_slots _ Hok) Hi). fold (home (ID n) t).
    rewrite (remove_at_perm _ _ _ Hm) at 1. reflexivity.
  - rewrite (entries_set_slot t _ _ (table_slots _ Hok) Hi).
    rewrite <- Permutation_cons_append. reflexivity.
  - rewrite home_set_slot by done. apply last_snoc.
Qed.

Lemma Add_store now n t :
  table_ok t → KeyForNodeID (ID n) ≠ self t → ID n ∉ ID <$> entries t →
  (length (home (ID n) t) < K)%nat →
  (Add now (Some n) t).2 = Ret None ∧
  entries (Add now (Some n) t).1 ≡ₚ keyed n :: entries t ∧
  last (home (ID n) (Add now (Some n) t).1) = Some (keyed n).
Proof.
  intros Hok Hne Hin Hlen. pose proof (bucketFor_home t (ID n) Hne) as [Hb Hi].
  rewrite stored_home in Hin by done.
  unfold Add. rewrite Hb. cbn zeta. fold (home (ID n) t). fold (keyed n).
  change (ID (keyed n)) with (ID n). apply index_None in Hin. rewrite Hin. unfold full.
  rewrite (proj2 (Nat.leb_gt _ _) Hlen). cbn [negb fst snd].
  split_and!; [reflexivity| |].
  - rewrite (entries_set_slot t _ _ (table_slots _ Hok) Hi).
    rewrite (entries_split t _ (table_slots _ Hok) Hi). fold (home (ID n) t).
    unfold push. rewrite <- Permutation_cons_append. reflexivity.
  - rewrite home_set_slot by done. apply last_snoc.
Qed.

Lemma Add_full now n t :
  table_ok t → KeyForNodeID (ID n) ≠ self t → ID n ∉ ID <$> entries t →
  (K ≤ length (home (ID n) t))%nat →
  ∃ c, head (home (ID n) t) = Some c ∧ c ∈ entries t ∧
    (Add now (Some n) t).2 = Ret (Some c) ∧
    entries (Add now (Some n) t).1 ≡ₚ entries t ∧
    home (ID n) (Add now (Some n) t).1 = home (ID n) t.
Proof.
  intros Hok Hne Hin Hlen. pose proof (bucketFor_home t (ID n) Hne) as [Hb Hi].
  rewrite stored_home in Hin by done.
  unfold Add. rewrite Hb. cbn zeta. fold (home (ID n) t).
  change (ID (set_key _ n)) with (ID n). apply index_None in Hin. rewrite Hin. unfold full.
  rewrite (proj2 (Nat.leb_le _ _) Hlen). cbn [negb fst snd].
  destruct (home (ID n) t) as [|c b] eqn:Hh; [cbn in Hlen; unfold K in Hlen; lia|].
  exists c. split_and!; [reflexivity| |reflexivity| |].
  - rewrite (entries_split t _ (table_slots _ Hok) Hi). fold (home (ID n) t). rewrite Hh.
    apply elem_of_app. left. apply list_elem_of_here.
  - rewrite (entries_set_slot t _ _ (table_slots _ Hok) Hi), <- Hh.
    symmetry. exact (entries_split t _ (table_slots _ Hok) Hi).
  - by apply home_set_slot.
Qed.

Lemma Remove_spec_known id t :
  table_ok t → id ∈ ID <$> entries t →
  (Remove id t).2 = true ∧ ∃ m, ID m = id ∧ entries t ≡ₚ m :: entries (Remove id t).1 ∧
  length (home id t) = S (length (home id (Remove id t).1)).
Proof.
  intros Hok Hin. assert (KeyForNodeID id ≠ self t) as Hne.
  { apply list_elem_of_fmap in Hin as (m & -> & Hm).
    destruct (entries_ok t m Hok Hm) as (<- & _ & _ & Hs). exact Hs. }
  pose proof (bucketFor_home t id Hne) as [Hb Hi]. rewrite stored_home in Hin by done.
  unfold Remove. rewrite Hb. unfold home in Hin.
  destruct (slot t _) as [b|] eqn:Hs; [|inversion Hin]. cbn in Hin.
  unfold bucket_remove. destruct (index id b) as [i|] eqn:Hidx; [|by apply index_None in Hidx].
  destruct (index_Some _ _ _ Hidx) as (m & Hm & Hid). cbn [fst snd].
  split; [reflexivity|]. exists m. split_and!; [exact Hid| |].
  - rewrite (entries_set_slot t _ _ (table_slots _ Hok) Hi).
    rewrite (entries_split t _ (table_slots _ Hok) Hi), Hs. cbn [default].
    rewrite (remove_at_perm _ _ _ Hm) at 1. reflexivity.
  - rewrite home_set_slot by done. unfold home. rewrite Hs. cbn [default].
    pose proof (lookup_lt_Some _ _ _ Hm). rewrite length_remove_at by done. cbn. lia.
Qed.

(** ** [Nearest] *)

(** "[x] is closer to the target than [y]". *)
Definition closer (target : Key) (x y : Node) : bool :=
  Less (Distance target (NKey x)) (Distance target (NKey y)).

#[export] Instance closer_sw target : StrictWeak (closer target) := closer_strict_weak NKey target.

Section NearestFacts.
Context `{SliceSort}.

Lemma Nearest_sorted target n t :
  0 <= n →
  ∃ s, s ≡ₚ entries t ∧ StronglySorted (not_after (closer target)) s ∧
       Nearest target n t = Ret (take (Z.to_nat n) s).
Proof.
  intros Hn. unfold Nearest. rewrite (proj2 (Z.ltb_ge _ _) Hn).
  set (f := λ e, (e, Distance target (NKey e))).
  set (c := sort_slice _ (f <$> entries t)). cbn zeta.
  assert (c ≡ₚ f <$> entries t) as Hp by apply sort_slice_perm.
  assert (∀ p, p ∈ c → p.2 = Distance target (NKey p.1)) as Hd.
  { intros p. rewrite Hp. intros (e & -> & _)%list_elem_of_fmap. done. }
  exists (fst <$> c). split_and!.
  - rewrite Hp, <- list_fmap_compose. by rewrite (list_fmap_ext _ id), list_fmap_id.
  - eapply sorted_map, sort_slice_sorted; [|apply (rank_less_strict_weak (λ p : Node * Key, p.2))].
    intros x y Hx Hy. unfold not_after, closer. by rewrite <- (Hd x Hx), <- (Hd y Hy).
  - rewrite <- fmap_take. do 2 f_equal. destruct (Z.gtb_spec (Z.of_nat (length c)) n); [done|].
    symmetry. apply take_ge. lia.
Qed.
End NearestFacts.

(** ** Eviction *)

Lemma Add_candidate now n t t1 c :
  table_ok t → Add now (Some n) t = (t1, Ret (Some c)) →
  KeyForNodeID (ID n) ≠ self t ∧ (ID n ∉ ID <$> entries t) ∧ head (home (ID n) t) = Some c ∧
  c ∈ entries t ∧ entries t1 ≡ₚ entries t ∧ home (ID n) t1 = home (ID n) t.
Proof.
  intros Hok Hadd. assert (KeyForNodeID (ID n) ≠ self t) as Hne.
  { intros Hs%bucketFor_None. unfold Add in Hadd. by rewrite Hs in Hadd. }
  destruct (decide (ID n ∈ ID <$> entries t)) as [Hin|Hin].
  { destruct (Add_known now n t Hok Hne Hin) as (m & rest & _ & Hr & _). by rewrite Hadd in Hr. }
  destruct (decide (length (home (ID n) t) < K)%nat) as [Hlen|Hlen].
  { destruct (Add_store now n t Hok Hne Hin Hlen) as [Hr _]. by rewrite Hadd in Hr. }
  destruct (Add_full now n t Hok Hne Hin ltac:(lia)) as (c' & H1 & H2 & H3 & H4 & H5).
  rewrite Hadd in H3, H4, H5. injection H3 as <-.
  split_and!; [exact Hne|exact Hin|exact H1|exact H2|exact H4|exact H5].
Qed.

Lemma candidate_not_new now n t t1 c :
  table_ok t → Add now (Some n) t = (t1, Ret (Some c)) → ID c ≠ ID n.
Proof.
  intros Hok Hadd E. destruct (Add_candidate now n t t1 c Hok Hadd) as (_ & Hin & _ & Hc & _).
  apply Hin. rewrite <- E. by apply list_elem_of_fmap_2.
Qed.

(** The candidate shares its bucket with the node that was refused. *)
Lemma candidate_prefix now n t t1 c :
  table_ok t → Add now (Some n) t = (t1, Ret (Some c)) →
  CommonPrefixLen (self t1) (KeyForNodeID (ID n)) = CommonPrefixLen (self t1) (KeyForNodeID (ID c)).
Proof.
  intros Hok Hadd. destruct (Add_candidate now n t t1 c Hok Hadd) as (Hne & _ & Hh & _).
  pose proof (slot_ok t (CommonPrefixLen (self t) (KeyForNodeID (ID n))) Hok) as Hb.
  assert (c ∈ home (ID n) t) as Hc by (destruct (home (ID n) t); [done|injection Hh as ->; by left]).
  pose proof (bucket_prefix _ _ _ Hb c Hc) as Hpre. rewrite (bucket_keys _ _ _ Hb c Hc) in Hpre.
  replace (self t1) with (self t); [symmetry; exact Hpre|].
  pose proof (Add_self now (Some n) t) as Hs. rewrite Hadd in Hs. symmetry. exact Hs.
Qed.

(** Removing the candidate leaves room in the bucket of the node that was refused. *)
Lemma candidate_removal now n t t1 c :
  table_ok t → Add now (Some n) t = (t1, Ret (Some c)) →
  KeyForNodeID (ID n) ≠ self t ∧ (Remove (ID c) t1).2 = true ∧
  (∃ m, ID m = ID c ∧ entries t ≡ₚ m :: entries (Remove (ID c) t1).1) ∧
  (ID n ∉ ID <$> entries (Remove (ID c) t1).1) ∧
  (length (home (ID n) (Remove (ID c) t1).1) < K)%nat ∧
  table_ok (Remove (ID c) t1).1 ∧ self (Remove (ID c) t1).1 = self t.
Proof.
  intros Hok Hadd.
  destruct (Add_candidate now n t t1 c Hok Hadd) as (Hne & Hin & _ & Hc & He & Hhome).
  pose proof (Add_ok now (Some n) t Hok) as Hok1. rewrite Hadd in Hok1. cbn [fst] in Hok1.
  pose proof (Add_self now (Some n) t) as Hs. rewrite Hadd in Hs. cbn [fst] in Hs.
  assert (ID c ∈ ID <$> entries t1) as Hc1 by (rewrite He; by apply list_elem_of_fmap_2).
  destruct (Remove_spec_known (ID c) t1 Hok1 Hc1) as (Hr & m & Hm & Hp & Hlen).
  pose proof (Remove_self (ID c) t1) as Hs2.
  assert (∀ b, home (ID n) b = home (ID c) b ∨ self b ≠ self t1) as Hsame.
  { intros b. destruct (decide (self b = self t1)) as [E|]; [left|by right].
    unfold home. by rewrite E, (candidate_prefix now n t t1 c Hok Hadd). }
  split_and!; [exact Hne|exact Hr|exists m; split; [exact Hm|rewrite <- He; exact Hp]| | |by apply Remove_ok|congruence].
  - intros Hn. apply Hin. rewrite <- He, Hp. cbn [fmap list_fmap]. by right.
  - destruct (Hsame (Remove (ID c) t1).1) as [->|]; [|congruence].
    pose proof (bucket_cap _ _ _ (slot_ok t1 (CommonPrefixLen (self t1) (KeyForNodeID (ID c))) Hok1)) as Hcap.
    fold (home (ID c) t1) in Hcap. lia.
Qed.

(** ** Properties *)

(** C1: In every table reachable from [NewRoutingTable] by [Add] and [Remove] calls, each
    bucket holds at most 20 nodes and only nodes whose key shares exactly that many leading
    bits with the local key; every stored key is the hash of its NodeID; no NodeID is stored
    twice; the local node is never stored; and [Size] counts [Peers], at most 3200. *)
Theorem table_invariant localID t (H : reachable localID t) :
  table_ok t ∧ self t = KeyForNodeID localID ∧ NoDup (ID <$> Peers t) ∧
  (∀ n, n ∈ Peers t → NKey n = KeyForNodeID (ID n) ∧ NKey n ≠ self t) ∧
  Size t = length (Peers t) ∧ (Size t ≤ 3200)%nat.
Proof.
  destruct (reachable_ok _ _ H) as [Hok Hself]. split_and!; [exact Hok|exact Hself|..].
  - by apply entries_NoDup.
  - intros n Hn. destruct (entries_ok t n Hok Hn) as (Hk & _ & _ & Hs). split; [exact Hk|exact Hs].
  - apply Size_entries.
  - rewrite Size_entries. exact (length_entries t Hok).
Qed.

Definition peer (id : string) : Node := mkNode id (arr_copy 20 []) "10.0.0.1:4000" 7.

(** A local node that has heard of three peers, refreshed one and dropped another. *)
Definition sample_table : RoutingTable :=
  let add id t := (Add 9 (Some (peer id)) t).1 in
  (Remove "node-5" (add "node-3" (add "node-9" (add "node-5" (add "node-3" (NewRoutingTable "me")))))).1.

Lemma sample_reachable : reachable "me" sample_table.
Proof.
  unfold reachable, sample_table.
  eapply rtc_l; [apply (step_Add 9 (Some (peer "node-3")))|].
  eapply rtc_l; [apply (step_Add 9 (Some (peer "node-5")))|].
  eapply rtc_l; [apply (step_Add 9 (Some (peer "node-9")))|].
  eapply rtc_l; [apply (step_Add 9 (Some (peer "node-3")))|].
  eapply rtc_l; [apply (step_Remove "node-5")|]. constructor.
Qed.

Lemma table_invariant_witness :
  map ID (Peers sample_table) = ["node-9"; "node-3"] ∧ NoDup (ID <$> Peers sample_table).
Proof.
  split; [vm_compute; reflexivity|]. apply (table_invariant "me" sample_table sample_reachable).
Defined.



(** Twenty peers that fill the first bucket of the node "me", and one more for it. *)
Definition full_table : RoutingTable :=
  foldl (λ t id, (Add 9 (Some (peer id)) t).1) (NewRoutingTable "me")
    ["n0"; "n3"; "n4"; "n9"; "n11"; "n13"; "n14"; "n15"; "n19"; "n20"; "n21"; "n22"; "n24"; "n27"; "n29"; "n30"; "n31"; "n32"; "n33"; "n39"].

Lemma fold_Add_ok ids t : table_ok t → table_ok (foldl (λ t id, (Add 9 (Some (peer id)) t).1) t ids).
Proof. revert t. induction ids as [|id ids IH]; intros t Hok; [exact Hok|]. by apply IH, Add_ok. Qed.

(** The eviction protocol makes room.  When [Add] of an unknown node reports an
    eviction candidate, removing that candidate succeeds, and adding the node again then
    stores it: the candidate is gone, the new node is present, and the table has the same
    size as before. *)
Theorem eviction_makes_room now now' n t t1 c
    (Hok : table_ok t) (Hadd : Add now (Some n) t = (t1, Ret (Some c))) :
  let '(t2, removed) := Remove (ID c) t1 in
  let '(t3, r) := Add now' (Some n) t2 in
  removed = true ∧ r = Ret None ∧ (ID c ∉ ID <$> Peers t3) ∧ keyed n ∈ Peers t3 ∧ Size t3 = Size t.
Proof.
  destruct (candidate_removal now n t t1 c Hok Hadd) as (Hne & Hr & Hp & Hn & Hlen & Hok2 & Hself).
  destruct (Remove (ID c) t1) as [t2 removed]. cbn [fst snd] in *.
  rewrite <- Hself in Hne. pose proof (Add_store now' n t2 Hok2 Hne Hn Hlen) as (H1 & H2 & _).
  destruct (Add now' (Some n) t2) as [t3 r]. cbn [fst snd] in *. destruct Hp as (m & Hm & Hp).
  pose proof (entries_NoDup t Hok) as Hnd. rewrite Hp in Hnd.
  split_and!; [exact Hr|exact H1| | |].
  - unfold Peers. rewrite H2. cbn [fmap list_fmap]. intros [Hc|Hc]%elem_of_cons.
    + apply NoDup_cons in Hnd as [_ _]. apply (candidate_not_new now n t t1 c Hok Hadd). exact Hc.
    + apply NoDup_cons in Hnd as [Hnd _]. apply Hnd. rewrite Hm. exact Hc.
  - unfold Peers. rewrite H2. apply list_elem_of_here.
  - rewrite !Size_entries, H2, Hp. reflexivity.
Qed.

Lemma eviction_makes_room_witness :
  let '(t1, r) := Add 10 (Some (peer "n40")) full_table in
  let '(t2, removed) := Remove "n0" t1 in
  removed = true ∧ Size (Add 11 (Some (peer "n40")) t2).1 = Size full_table.
Proof.
  pose proof (eviction_makes_room 10 11 (peer "n40") full_table
    (Add 10 (Some (peer "n40")) full_table).1 (touch 7 (keyed (peer "n0")))
    (fold_Add_ok _ _ (NewRoutingTable_ok "me")) ltac:(vm_compute; reflexivity)) as H.
  change (ID (touch 7 (keyed (peer "n0")))) with "n0" in H.
  destruct (Add 10 (Some (peer "n40")) full_table) as [t1 r]. cbn [fst] in H.
  destruct (Remove "n0" t1) as [t2 removed].
  destruct (Add 11 (Some (peer "n40")) t2) as [t3 r']. cbn [fst].
  destruct H as (H1 & _ & _ & _ & H2). exact (conj H1 H2).
Defined.

(** C6: [Nearest] returns the [n] stored nodes closest to the target by XOR distance: it
    returns [min n Size] distinct stored nodes in order of distance, and no stored node it
    leaves out is closer than one it returns. *)
Theorem Nearest_spec `{SliceSort} target n t (Hok : table_ok t) (Hn : 0 <= n) :
  ∃ l, Nearest target n t = Ret l ∧
    length l = Nat.min (Z.to_nat n) (Size t) ∧ NoDup l ∧ l ⊆ Peers t ∧
    StronglySorted (not_after (closer target)) l ∧
    (∀ x y, x ∈ l → y ∈ Peers t → y ∉ l → key_num (Distance target (NKey x)) <= key_num (Distance target (NKey y))).
Proof.
  destruct (Nearest_sorted target n t Hn) as (s & Hp & Hs & ->).
  exists (take (Z.to_nat n) s). split_and!; [reflexivity|..].
  - by rewrite length_take, Hp, Size_entries.
  - pose proof (entries_NoDup t Hok) as Hnd%NoDup_fmap_1. rewrite <- Hp in Hnd.
    eapply sublist_NoDup; [exact Hnd|apply sublist_take].
  - intros x Hx. unfold Peers. rewrite <- Hp, <- (take_drop (Z.to_nat n) s).
    apply elem_of_app. by left.
  - by apply sorted_take.
  - intros x y Hx Hy Hny. unfold Peers in Hy. rewrite <- Hp, <- (take_drop (Z.to_nat n) s) in Hy.
    apply elem_of_app in Hy as [?|Hy]; [by destruct Hny|].
    pose proof (sorted_prefix_least _ _ _ _ _ Hs Hx Hy) as Hl.
    unfold closer in Hl. rewrite Less_num in Hl. by apply Z.ltb_ge in Hl.
Qed.

Lemma Nearest_spec_witness :
  @Nearest stable_sort (KeyForNodeID "node-5") 1 sample_table
    = Ret [touch 9 (keyed (peer "node-3"))] ∧
  ∃ l, @Nearest stable_sort (KeyForNodeID "node-5") 1 sample_table = Ret l ∧ length l = 1%nat.
Proof.
  split; [vm_compute; reflexivity|].
  pose proof (@Nearest_spec stable_sort (KeyForNodeID "node-5") 1 sample_table
    (proj1 (reachable_ok _ _ sample_reachable)) ltac:(lia)) as (l & Hl & Hlen & _).
  exists l. split; [exact Hl|]. vm_compute in Hlen. exact Hlen.
Defined.
