(* ===== verification/DhtLookup.v ===== *)
(** * The iterative lookup ([internal/dht/lookup.go])

    [Find] starts from the closest nodes of the local table, asks up to [Alpha] of them per
    round, merges their answers into a shortlist of [K] nodes and stops when no one is left
    to ask, when a round brings no candidate, or after [MaxRounds] rounds.

    The transport is the parameter [Query]; its error result is ignored by the code, so the
    nodes it returns are the answer, with an error or without.  The answers of a round arrive through a channel
    in an order the scheduler chooses: the parameter [arrival], a permutation of the round's
    answers. *)

From S2P Require Import Prelude GoLib Sha256 DhtKey DhtTable.

Open Scope Z_scope.

Module DhtLookup.

Record LookupParams := mkParams {
  Alpha : Z;
  PK : Z;
  MaxRounds : Z;
}.

Definition withDefaults (p : LookupParams) : LookupParams :=
  mkParams (if Alpha p <=? 0 then 3 else Alpha p)
           (if PK p <=? 0 then Z.of_nat K else PK p)
           (if MaxRounds p <=? 0 then Z.of_nat KeySizeBits else MaxRounds p).

Inductive lookup_error :=
| ErrNoQuery
| ErrNoTable.

(** The answer to one query: a list of node pointers, [None] for a nil one. *)
Definition answer : Type := list (option Node).

Definition filterSelf (nodes : list Node) (self : Key) : list Node :=
  filter (λ n, NKey n ≠ self) nodes.

(** The state of a running lookup: the shortlist, the set of asked NodeIDs, and the nodes
    handed to [Query] so far, in order. *)
Record search := mkSearch {
  best : list Node;
  queried : gset string;
  asked : list Node;
}.

(** The selection loop: unasked nodes of the shortlist until [alpha] are collected. *)
Fixpoint pick_todo (alpha : nat) (q : gset string) (todo l : list Node) : list Node :=
  match l with
  | [] => todo
  | n :: l' =>
      if bool_decide (ID n ∈ q) then pick_todo alpha q todo l'
      else
        let todo := todo ++ [n] in
        if (length todo =? alpha)%nat then todo else pick_todo alpha q todo l'
  end.

Section Lookup.
Context `{SliceSort}.
Variable Query : Node → Key → answer.
Variable arrival : nat → list answer → list answer.

Definition mergeBest (best : list Node) (n : Node) (target : Key) (cap : nat) : list Node :=
  if existsb (λ e, String.eqb (ID e) (ID n)) best then best
  else
    let best := sort_slice (closer target) (best ++ [n]) in
    if (cap <? length best)%nat then take cap best else best.

(** The inner loop over one answer; the flag is [progressed]. *)
Definition merge_answer (self target : Key) (cap : nat) (q : gset string)
    (st : list Node * bool) (r : answer) : list Node * bool :=
  foldl (λ '(best, progressed) n,
    match n with
    | None => (best, progressed)
    | Some n =>
        if bool_decide (ID n ∈ q) then (best, progressed)
        else if bool_decide (NKey n = self) then (best, progressed)
        else (mergeBest best n target cap, true)
    end) st r.

(** One round: [None] when there is nobody left to ask. *)
Definition round (self target : Key) (p : LookupParams) (i : nat) (s : search) :
    option (search * bool) :=
  let todo := pick_todo (Z.to_nat (Alpha p)) (queried s) [] (best s) in
  if (length todo =? 0)%nat then None
  else
    let q := foldl (λ q n, {[ID n]} ∪ q) (queried s) todo in
    let results := arrival i ((λ from, Query from target) <$> todo) in
    let '(best', progressed) :=
      foldl (merge_answer self target (Z.to_nat (PK p)) q) (best s, false) results in
    Some (mkSearch best' q (asked s ++ todo), progressed).

(** The rounds loop from round [i], [fuel] rounds left. *)
Fixpoint rounds (self target : Key) (p : LookupParams) (fuel i : nat) (s : search) : search :=
  match fuel with
  | O => s
  | S fuel' =>
      match round self target p i s with
      | None => s
      | Some (s', progressed) => if progressed then rounds self target p fuel' (S i) s' else s'
      end
  end.

(** The returned shortlist and the search it came from; the code's [l.Queried] grows by the
    number of asked nodes. *)
Definition Find (has_query : bool) (table : option RoutingTable) (params : LookupParams)
    (target : Key) : outcome lookup_error search :=
  if negb has_query then Fail ErrNoQuery
  else match table with
  | None => Fail ErrNoTable
  | Some t =>
      let p := withDefaults params in
      match Nearest target (PK p) t with
      | Ret l =>
          let best := filterSelf l (self t) in
          Ret (rounds (self t) target p (Z.to_nat (MaxRounds p)) 0 (mkSearch best ∅ []))
      | _ => Panic
      end
  end.

(** [l.Queried] after the call. *)
Definition Queried (before : nat) (s : search) : nat := (before + length (asked s))%nat.

End Lookup.
End DhtLookup.
Export DhtLookup.

(** ** Selecting whom to ask *)

Lemma pick_todo_spec alpha q todo l :
  (length todo < alpha)%nat →
  pick_todo alpha q todo l = todo ++ take (alpha - length todo) (filter (λ n, ID n ∉ q) l).
Proof.
  revert todo. induction l as [|n l IH]; intros todo Hlt; cbn [pick_todo].
  { by rewrite filter_nil, take_nil, app_nil_r. }
  case_bool_decide as Hq.
  { rewrite filter_cons_False by tauto. by apply IH. }
  rewrite filter_cons_True by done.
  replace (alpha - length todo)%nat with (S (alpha - S (length todo))) by lia. cbn [take].
  rewrite length_app, Nat.add_1_r. destruct (Nat.eqb_spec (S (length todo)) alpha) as [<-|].
  { by rewrite Nat.sub_diag. }
  rewrite IH, length_app, Nat.add_1_r, <- app_assoc by (rewrite length_app; cbn; lia). done.
Qed.

(** ** The shortlist *)

Section Shortlist.
Context `{SliceSort}.
Variables (self target : Key) (cap : nat).

(** A well-formed shortlist whose nodes all satisfy [src]. *)
Record shortlist (src : Node → Prop) (l : list Node) : Prop := {
  sl_cap : (length l ≤ cap)%nat;
  sl_nodup : NoDup (ID <$> l);
  sl_sorted : StronglySorted (not_after (closer target)) l;
  sl_self n : n ∈ l → NKey n ≠ self;
  sl_src n : n ∈ l → src n;
}.

(** [m] is on the shortlist, or the shortlist is full of nodes at least as close. *)
Definition dominated (l : list Node) (m : Node) : Prop :=
  ID m ∈ ID <$> l ∨ (length l = cap ∧ ∀ e, e ∈ l → closer target m e = false).

Lemma existsb_ID (l : list Node) id :
  existsb (λ e, String.eqb (ID e) id) l = true ↔ id ∈ ID <$> l.
Proof.
  rewrite existsb_exists, list_elem_of_fmap. setoid_rewrite String.eqb_eq.
  setoid_rewrite <- list_elem_of_In. naive_solver.
Qed.

(** Cutting a sorted list to the capacity. *)
Definition cut (l : list Node) : list Node :=
  if (cap <? length l)%nat then take cap l else l.

Lemma cut_take l : cut l = take cap l.
Proof. unfold cut. destruct (Nat.ltb_spec cap (length l)); [done|]. by rewrite take_ge. Qed.

Lemma mergeBest_cases l n :
  (ID n ∈ ID <$> l ∧ mergeBest l n target cap = l) ∨
  ((ID n ∉ ID <$> l) ∧ ∃ s, s ≡ₚ n :: l ∧ StronglySorted (not_after (closer target)) s ∧
     mergeBest l n target cap = take cap s).
Proof.
  unfold mergeBest. destruct (existsb _ l) eqn:E.
  - left. split; [by apply existsb_ID|done].
  - right. split; [rewrite <- existsb_ID; by rewrite E|].
    exists (sort_slice (closer target) (l ++ [n])). split_and!.
    + rewrite sort_slice_perm. symmetry. apply Permutation_cons_append.
    + apply sort_slice_sorted, _.
    + apply cut_take.
Qed.

Lemma mergeBest_shortlist src l n :
  shortlist src l → NKey n ≠ self → src n → shortlist src (mergeBest l n target cap).
Proof.
  intros Hl Hn Hs. destruct (mergeBest_cases l n) as [[_ ->]|(Hid & s & Hp & Hsort & ->)]; [done|].
  assert (∀ x, x ∈ take cap s → x = n ∨ x ∈ l) as Hin.
  { intros x Hx. assert (x ∈ s) as Hx' by (rewrite <- (take_drop cap s); apply elem_of_app; by left).
    rewrite Hp in Hx'. by apply elem_of_cons in Hx'. }
  split.
  - rewrite length_take. lia.
  - eapply sublist_NoDup; [|apply fmap_sublist, sublist_take].
    rewrite Hp. cbn. constructor; [done|apply Hl].
  - by apply sorted_take.
  - intros x [->|Hx]%Hin; [done|by apply (sl_self _ _ Hl)].
  - intros x [->|Hx]%Hin; [done|by apply (sl_src _ _ Hl)].
Qed.

(** What a cut drops is dominated by what it keeps. *)
Lemma take_dominated s e :
  StronglySorted (not_after (closer target)) s → e ∈ s → dominated (take cap s) e.
Proof.
  intros Hs He. rewrite <- (take_drop cap s) in He. apply elem_of_app in He as [He|He].
  - left. by apply list_elem_of_fmap_2.
  - right. split.
    + apply length_take_le. destruct (decide (cap ≤ length s)%nat); [done|].
      rewrite drop_ge in He by lia. inversion He.
    + intros x Hx. by eapply sorted_prefix_least.
Qed.

Section Honest.
(** Every node seen carries the key of its NodeID. *)
Variable src : Node → Prop.
Hypothesis honest : ∀ n, src n → NKey n = KeyForNodeID (ID n).

Lemma dominated_same_id l m m' :
  src m → src m' → ID m = ID m' → dominated l m' → dominated l m.
Proof.
  intros Hm Hm' Hid. unfold dominated, closer. rewrite Hid, (honest m Hm), (honest m' Hm'), Hid. done.
Qed.

Lemma mergeBest_new l n : shortlist src l → src n → dominated (mergeBest l n target cap) n.
Proof.
  intros Hl Hn. destruct (mergeBest_cases l n) as [[Hin ->]|(_ & s & Hp & Hs & ->)]; [by left|].
  apply take_dominated; [done|]. rewrite Hp. by left.
Qed.

Lemma mergeBest_dominated l n m :
  shortlist src l → src n → src m → dominated l m → dominated (mergeBest l n target cap) m.
Proof.
  intros Hl Hn Hm Hd. destruct (mergeBest_cases l n) as [[_ ->]|(Hid & s & Hp & Hs & ->)]; [done|].
  destruct Hd as [(e & Hide & He)%list_elem_of_fmap|[Hlen Hfar]].
  { apply (dominated_same_id _ m e); [done|by apply (sl_src _ _ Hl)|done|].
    apply take_dominated; [done|]. rewrite Hp. by right. }
  right. assert (length s = S cap) as Hls by (rewrite Hp; cbn; lia).
  split; [rewrite length_take; lia|]. intros x Hx.
  assert (x ∈ n :: l) as [->|Hxl]%elem_of_cons.
  { rewrite <- Hp, <- (take_drop cap s). apply elem_of_app. by left. }
  2:{ by apply Hfar. }
  destruct (drop cap s) as [|y rest] eqn:Hdrop.
  { apply (f_equal length) in Hdrop. rewrite length_drop in Hdrop. cbn in Hdrop. lia. }
  assert (y ∈ drop cap s) as Hy by (rewrite Hdrop; by left).
  assert (y ∈ l) as Hyl.
  { assert (NoDup s) as Hnd.
    { rewrite Hp. constructor; [|apply (NoDup_fmap_1 ID), Hl].
      intros Hnl. apply Hid. by apply list_elem_of_fmap_2. }
    rewrite <- (take_drop cap s) in Hnd. apply NoDup_app in Hnd as (_ & Hdis & _).
    assert (y ∈ n :: l) as [->|]%elem_of_cons; [|by destruct (Hdis _ Hx Hy)|done].
    rewrite <- Hp, <- (take_drop cap s). apply elem_of_app. by right. }
  apply (not_after_trans (closer target) n y m); [|by apply Hfar].
  by eapply sorted_prefix_least.
Qed.
End Honest.
End Shortlist.

(** ** Merging answers *)

Section Merge.
Context `{SliceSort}.
Variables (self target : Key) (cap : nat) (q : gset string) (src : Node → Prop).

Lemma merge_answers_join st (rs : list answer) :
  foldl (merge_answer self target cap q) st rs = merge_answer self target cap q st (mjoin rs).
Proof.
  revert st. induction rs as [|r rs IH]; intros st; [done|].
  cbn [foldl mjoin list_join]. rewrite IH. unfold merge_answer. by rewrite foldl_app.
Qed.

Lemma merge_answer_shortlist l b (r : answer) :
  shortlist self target cap src l → (∀ m, Some m ∈ r → src m) →
  shortlist self target cap src (merge_answer self target cap q (l, b) r).1.
Proof.
  revert l b. induction r as [|[n|] r IH]; intros l b Hl Hr; cbn [merge_answer foldl]; [done|..].
  - assert (∀ m, Some m ∈ r → src m) as Hr' by (intros m Hm; apply Hr; by right).
    case_bool_decide; [by apply IH|]. case_bool_decide; [by apply IH|].
    apply IH; [|done]. apply mergeBest_shortlist; [done|done|apply Hr; by left].
  - apply IH; [done|]. intros m Hm. apply Hr. by right.
Qed.

Hypothesis honest : ∀ n, src n → NKey n = KeyForNodeID (ID n).

Lemma merge_answer_keeps l b (r : answer) m :
  shortlist self target cap src l → (∀ m, Some m ∈ r → src m) → src m →
  dominated target cap l m →
  dominated target cap (merge_answer self target cap q (l, b) r).1 m.
Proof.
  intros Hl Hr Hm. revert l b Hl. induction r as [|[n|] r IH]; intros l b Hl Hd;
    cbn [merge_answer foldl]; [done|..].
  all: assert (∀ m, Some m ∈ r → src m) as Hr' by (intros k Hk; apply Hr; by right).
  - case_bool_decide; [by apply IH|]. case_bool_decide; [by apply IH|].
    assert (src n) by (apply Hr; by left).
    apply IH; [done|by apply mergeBest_shortlist|by eapply mergeBest_dominated].
  - by apply IH.
Qed.

Lemma merge_answer_new l b (r : answer) m :
  shortlist self target cap src l → (∀ m, Some m ∈ r → src m) →
  Some m ∈ r → NKey m ≠ self → (ID m ∈ q → dominated target cap l m) →
  dominated target cap (merge_answer self target cap q (l, b) r).1 m.
Proof.
  intros Hl Hr Hin Hself. revert l b Hl. induction r as [|o r IH]; intros l b Hl Hq; [inversion Hin|].
  assert (∀ m, Some m ∈ r → src m) as Hr' by (intros k Hk; apply Hr; by right).
  apply elem_of_cons in Hin as [<-|Hin]; cbn [merge_answer foldl].
  - assert (src m) by (apply Hr; by left). case_bool_decide as Hmq.
    { apply merge_answer_keeps; auto. }
    rewrite bool_decide_eq_false_2 by done.
    apply merge_answer_keeps; [by apply mergeBest_shortlist|done|done|by eapply mergeBest_new].
  - destruct o as [n|]; [|by apply IH].
    case_bool_decide; [by apply IH|]. case_bool_decide; [by apply IH|].
    assert (src n) by (apply Hr; by left).
    apply IH; [done|done|by apply mergeBest_shortlist|].
    intros Hmq. eapply mergeBest_dominated; eauto.
Qed.
End Merge.

(** ** The search invariant *)

Section Search.
Context `{SliceSort}.
Variable Query : Node → Key → answer.
Variable arrival : nat → list answer → list answer.
Hypothesis arrival_perm : ∀ i rs, arrival i rs ≡ₚ rs.
Variables (t : RoutingTable) (target : Key) (p : LookupParams).
Hypothesis table : table_ok t.
Hypothesis alpha_pos : 0 < Alpha p.

(** A node of the local table, or one reported by a node that was asked. *)
Definition heard (ask : list Node) (n : Node) : Prop :=
  n ∈ Peers t ∨ ∃ from, from ∈ ask ∧ Some n ∈ Query from target.

Record search_ok (s : search) : Prop := {
  so_best : shortlist (self t) target (Z.to_nat (PK p)) (heard (asked s)) (best s);
  so_nodup : NoDup (ID <$> asked s);
  so_queried id : id ∈ queried s ↔ id ∈ ID <$> asked s;
  so_asked n : n ∈ asked s → heard (asked s) n ∧ NKey n ≠ self t;
}.

Lemma heard_mono ask ask' n : ask ⊆ ask' → heard ask n → heard ask' n.
Proof. intros Hsub [?|(from & Hf & Hn)]; [by left|]. right. exists from. auto. Qed.

Lemma shortlist_mono s tg cap (P Q : Node → Prop) l :
  (∀ n, P n → Q n) → shortlist s tg cap P l → shortlist s tg cap Q l.
Proof. intros HPQ [H1 H2 H3 H4 H5]. split; auto. Qed.

Lemma queried_fold (q : gset string) (l : list Node) id :
  id ∈ foldl (λ q n, {[ID n]} ∪ q) q l ↔ id ∈ q ∨ id ∈ ID <$> l.
Proof.
  revert q. induction l as [|n l IH]; intros q; cbn [foldl fmap list_fmap].
  - rewrite elem_of_nil. tauto.
  - rewrite IH, elem_of_cons. set_solver.
Qed.

(** What one round does, unfolded once. *)
Lemma round_Some i s s' b :
  round Query arrival (self t) target p i s = Some (s', b) →
  let todo := take (Z.to_nat (Alpha p)) (filter (λ n, ID n ∉ queried s) (best s)) in
  let q := foldl (λ q n, {[ID n]} ∪ q) (queried s) todo in
  todo ≠ [] ∧ asked s' = asked s ++ todo ∧ queried s' = q ∧
  ∃ r : answer, (∀ o, o ∈ r ↔ ∃ from, from ∈ todo ∧ o ∈ Query from target) ∧
    best s' = (merge_answer (self t) target (Z.to_nat (PK p)) q (best s, false) r).1.
Proof.
  unfold round. rewrite pick_todo_spec by (cbn; lia). rewrite Nat.sub_0_r. cbn [app].
  set (todo := take _ _). set (q := foldl _ _ todo). cbn zeta.
  destruct (Nat.eqb_spec (length todo) 0) as [|Hne]; [done|].
  rewrite merge_answers_join. destruct (merge_answer _ _ _ _ _ _) as [b' pr] eqn:E.
  intros [= <- _]. cbn [asked queried best].
  split_and!; [by destruct todo|done|done|]. eexists. split; [|by rewrite E].
  intros o. rewrite list_elem_of_join. setoid_rewrite arrival_perm.
  setoid_rewrite list_elem_of_fmap. naive_solver.
Qed.

Lemma todo_facts s todo :
  search_ok s → todo = take (Z.to_nat (Alpha p)) (filter (λ n, ID n ∉ queried s) (best s)) →
  NoDup (ID <$> asked s ++ todo) ∧ (∀ n, n ∈ todo → n ∈ best s).
Proof.
  intros Hs Htodo.
  assert (todo `sublist_of` filter (λ n, ID n ∉ queried s) (best s)) as Hsub
    by (rewrite Htodo; apply sublist_take).
  assert (∀ n, n ∈ todo → n ∈ best s ∧ ID n ∉ queried s) as Hin.
  { intros n Hn. eapply elem_of_submseteq in Hn; [|by apply sublist_submseteq].
    apply list_elem_of_filter in Hn. tauto. }
  split; [|intros n Hn; by apply Hin]. rewrite fmap_app. apply NoDup_app. split_and!.
  - apply Hs.
  - intros id Ha (n & -> & [_ Hq]%Hin)%list_elem_of_fmap. apply Hq. by apply (so_queried _ Hs).
  - eapply sublist_NoDup; [apply (sl_nodup _ _ _ _ _ (so_best _ Hs))|].
    apply fmap_sublist. etrans; [exact Hsub|apply sublist_filter].
Qed.

Lemma asked_heard s todo n : search_ok s → n ∈ best s → heard (asked s ++ todo) n.
Proof.
  intros Hs Hn. eapply heard_mono, (sl_src _ _ _ _ _ (so_best _ Hs)); [|done]. set_solver.
Qed.

Lemma round_ok i s s' b :
  search_ok s → round Query arrival (self t) target p i s = Some (s', b) → search_ok s'.
Proof.
  intros Hs Hr. destruct (round_Some i s s' b Hr) as (_ & Hask & Hq & r & Hans & Hbest).
  destruct (todo_facts s _ Hs eq_refl) as [Hnd Hin].
  set (todo := take _ _) in *. split.
  - rewrite Hbest, Hask. apply merge_answer_shortlist.
    + eapply shortlist_mono, (so_best _ Hs). intros n. apply heard_mono. set_solver.
    + intros m (from & Hf & Hm)%Hans. right. exists from. split; [set_solver|done].
  - by rewrite Hask.
  - intros id. rewrite Hq, queried_fold, (so_queried _ Hs), Hask, fmap_app, elem_of_app. done.
  - intros n. rewrite Hask. intros [Hn|Hn]%elem_of_app.
    + destruct (so_asked _ Hs n Hn) as [Hh ?]. split; [|done]. eapply heard_mono, Hh. set_solver.
    + split; [by apply asked_heard, Hin|]. apply (sl_self _ _ _ _ _ (so_best _ Hs)), Hin, Hn.
Qed.

(** Everything the search heard of is dominated by the shortlist. *)
Definition converged (s : search) : Prop :=
  ∀ m, heard (asked s) m → NKey m ≠ self t → dominated target (Z.to_nat (PK p)) (best s) m.

Hypothesis honest : ∀ from n, Some n ∈ Query from target → NKey n = KeyForNodeID (ID n).

Lemma heard_honest ask n : heard ask n → NKey n = KeyForNodeID (ID n).
Proof. intros [Hn|(from & _ & Hn)]; [|by eapply honest]. by apply (entries_ok t n table Hn). Qed.

Lemma round_converged i s s' b :
  search_ok s → converged s →
  round Query arrival (self t) target p i s = Some (s', b) → converged s'.
Proof.
  intros Hs Hc Hr. destruct (round_Some i s s' b Hr) as (_ & Hask & Hq & r & Hans & Hbest).
  destruct (todo_facts s _ Hs eq_refl) as [_ Hin].
  set (todo := take _ _) in *. set (q := foldl _ _ todo) in *.
  assert (shortlist (self t) target (Z.to_nat (PK p)) (heard (asked s ++ todo)) (best s)) as Hl.
  { eapply shortlist_mono, (so_best _ Hs). intros n. apply heard_mono. set_solver. }
  assert (∀ m, Some m ∈ r → heard (asked s ++ todo) m) as Hsrc.
  { intros m (from & Hf & Hm)%Hans. right. exists from. split; [set_solver|done]. }
  (* a node already asked, or about to be, is dominated before the answers arrive *)
  assert (∀ m, heard (asked s ++ todo) m → ID m ∈ q →
            dominated target (Z.to_nat (PK p)) (best s) m) as Hold.
  { intros m Hm Hmq. unfold q in Hmq. rewrite queried_fold, (so_queried _ Hs), !list_elem_of_fmap in Hmq.
    destruct Hmq as [(a & Hid & Ha)|(a & Hid & Ha)].
    - destruct (so_asked _ Hs a Ha) as [Hh Hself].
      eapply (dominated_same_id _ _ _ (heard_honest _) _ m a); [done| |done|by apply Hc].
      eapply heard_mono, Hh. set_solver.
    - left. rewrite Hid. by apply list_elem_of_fmap_2, Hin. }
  intros m Hm Hself. rewrite Hbest. rewrite Hask in Hm.
  destruct Hm as [Hm|(from & [Hf|Hf]%elem_of_app & Hm)].
  - eapply merge_answer_keeps; [apply heard_honest|done..|by left|]. apply Hc; [by left|done].
  - eapply merge_answer_keeps; [apply heard_honest|done..| |].
    + right. exists from. split; [set_solver|done].
    + apply Hc; [right; by exists from|done].
  - eapply merge_answer_new; [apply heard_honest|done..| |done|].
    + apply Hans. by exists from.
    + apply Hold. right. exists from. split; [set_solver|done].
Qed.

(** A round invariant is an invariant of the whole loop. *)
Lemma rounds_inv (P : search → Prop) fuel i s :
  (∀ i s s' b, P s → round Query arrival (self t) target p i s = Some (s', b) → P s') →
  P s → P (rounds Query arrival (self t) target p fuel i s).
Proof.
  intros HP. revert i s. induction fuel as [|fuel IH]; intros i s Hs; cbn [rounds]; [done|].
  destruct (round _ _ _ _ _ _ _) as [[s' b]|] eqn:E; [|done].
  pose proof (HP _ _ _ _ Hs E). destruct b; [by apply IH|done].
Qed.

Lemma rounds_asked fuel i s :
  (length (asked (rounds Query arrival (self t) target p fuel i s)) ≤
   length (asked s) + fuel * Z.to_nat (Alpha p))%nat.
Proof.
  revert i s. induction fuel as [|fuel IH]; intros i s; cbn [rounds]; [lia|].
  destruct (round _ _ _ _ _ _ _) as [[s' b]|] eqn:E; [|lia].
  destruct (round_Some _ _ _ _ E) as (_ & Hask & _).
  assert (length (asked s') ≤ length (asked s) + Z.to_nat (Alpha p))%nat.
  { rewrite Hask, length_app, length_take. lia. }
  destruct b; [|lia]. specialize (IH (S i) s'). lia.
Qed.

(** The start: the local table's own closest nodes. *)
Lemma start_ok l :
  0 <= PK p → Nearest target (PK p) t = Ret l →
  let s := mkSearch (filterSelf l (self t)) ∅ [] in search_ok s ∧ converged s.
Proof using table.
  clear honest arrival_perm arrival alpha_pos.
  intros Hk Hl. destruct (Nearest_sorted target (PK p) t Hk) as (o & Hp & Hsort & Hn).
  rewrite Hl in Hn. injection Hn as ->.
  assert (∀ n, n ∈ take (Z.to_nat (PK p)) o → n ∈ Peers t) as Hin.
  { intros n Hn. unfold Peers. rewrite <- Hp, <- (take_drop (Z.to_nat (PK p)) o).
    apply elem_of_app. by left. }
  assert (filterSelf (take (Z.to_nat (PK p)) o) (self t) = take (Z.to_nat (PK p)) o) as ->.
  { apply filter_all, Forall_forall. intros n Hn.
    by destruct (entries_ok t n table (Hin n Hn)) as (_ & _ & _ & ?). }
  split.
  - split; cbn [best asked queried]; [|constructor|set_solver|intros n Hn; inversion Hn]. split.
    + rewrite length_take. lia.
    + eapply sublist_NoDup; [|apply fmap_sublist, sublist_take]. rewrite Hp. by apply entries_NoDup.
    + by apply sorted_take.
    + intros n Hn. by destruct (entries_ok t n table (Hin n Hn)) as (_ & _ & _ & ?).
    + intros n Hn. left. by apply Hin.
  - intros m [Hm|(from & Hf & _)] _; [|inversion Hf]. cbn [best].
    apply take_dominated; [done|]. by rewrite Hp.
Qed.
End Search.

Lemma withDefaults_pos p :
  0 < Alpha (withDefaults p) ∧ 0 < PK (withDefaults p) ∧ 0 < MaxRounds (withDefaults p).
Proof.
  unfold withDefaults. cbn. unfold K, KeySizeBits.
  destruct (Z.leb_spec (Alpha p) 0), (Z.leb_spec (PK p) 0), (Z.leb_spec (MaxRounds p) 0); lia.
Qed.

Lemma Find_unfold `{SliceSort} Query arrival t params target :
  ∃ l, Nearest target (PK (withDefaults params)) t = Ret l ∧
  Find Query arrival true (Some t) params target =
    Ret (rounds Query arrival (self t) target (withDefaults params)
           (Z.to_nat (MaxRounds (withDefaults params))) 0 (mkSearch (filterSelf l (self t)) ∅ [])).
Proof.
  pose proof (withDefaults_pos params) as (_ & Hk & _).
  destruct (Nearest_sorted target (PK (withDefaults params)) t) as (s & _ & _ & E); [lia|].
  exists (take (Z.to_nat (PK (withDefaults params))) s). split; [exact E|]. unfold Find. by rewrite E.
Qed.

(** ** Properties *)

(** C3: [Find] always returns a shortlist, whatever the peers answer and in whatever order:
    at most [K] nodes with distinct NodeIDs in order of distance to the target, never one
    with the local key, each taken from the local table or from an answer of a node that was
    asked.  No NodeID is asked twice, at most [MaxRounds * Alpha] queries are issued, and the
    hop counter grows by exactly the number of queries. *)
Theorem Find_shortlist `{SliceSort} Query arrival t params target before
    (Harr : ∀ i rs, arrival i rs ≡ₚ rs) (Hok : table_ok t) :
  let p := withDefaults params in
  ∃ s, Find Query arrival true (Some t) params target = Ret s ∧
    (Z.of_nat (length (best s)) <= PK p) ∧ NoDup (ID <$> best s) ∧
    StronglySorted (not_after (closer target)) (best s) ∧
    (∀ n, n ∈ best s → NKey n ≠ self t ∧
       (n ∈ Peers t ∨ ∃ from, from ∈ asked s ∧ Some n ∈ Query from target)) ∧
    NoDup (ID <$> asked s) ∧ (Z.of_nat (length (asked s)) <= MaxRounds p * Alpha p) ∧
    Queried before s = (before + length (asked s))%nat.
Proof.
  cbn zeta. destruct (withDefaults_pos params) as (Ha & Hk & Hm).
  destruct (Find_unfold Query arrival t params target) as (l & Hl & ->). set (p := withDefaults params) in *.
  destruct (start_ok Query t target p Hok l ltac:(lia) Hl) as [Hs0 _]. eexists. split; [reflexivity|].
  pose proof (rounds_asked Query arrival Harr t target p Ha (Z.to_nat (MaxRounds p)) 0
    (mkSearch (filterSelf l (self t)) ∅ [])) as Hlen.
  pose proof (rounds_inv Query arrival t target p (search_ok Query t target p) (Z.to_nat (MaxRounds p)) 0
    _ (round_ok Query arrival Harr t target p Hok Ha) Hs0) as Hs.
  set (s := rounds _ _ _ _ _ _ _ _) in *. cbn [asked length] in Hlen.
  destruct (so_best _ _ _ _ _ Hs) as [H1 H2 H3 H4 H5].
  split_and!; [lia|done|done| |apply Hs|nia|done]. intros n Hn. split; [by apply H4|by apply H5].
Qed.

(** C4: When peers answer with nodes that carry the key of their NodeID, [Find] returns the
    [K] closest of everything it heard of: a node of the local table or of an answer is on
    the returned shortlist, or the shortlist is full of nodes at least as close. *)
Theorem Find_closest `{SliceSort} Query arrival t params target s m
    (Harr : ∀ i rs, arrival i rs ≡ₚ rs) (Hok : table_ok t)
    (Hhonest : ∀ from n, Some n ∈ Query from target → NKey n = KeyForNodeID (ID n))
    (Hfind : Find Query arrival true (Some t) params target = Ret s)
    (Hself : NKey m ≠ self t)
    (Hheard : m ∈ Peers t ∨ ∃ from, from ∈ asked s ∧ Some m ∈ Query from target) :
  ID m ∈ ID <$> best s ∨
  (Z.of_nat (length (best s)) = PK (withDefaults params) ∧
   ∀ e, e ∈ best s → key_num (Distance target (NKey e)) <= key_num (Distance target (NKey m))).
Proof.
  destruct (withDefaults_pos params) as (Ha & Hk & Hm).
  destruct (Find_unfold Query arrival t params target) as (l & Hl & E).
  rewrite Hfind in E. apply Ret_inj in E as ->. set (p := withDefaults params) in *.
  pose proof (start_ok Query t target p Hok l ltac:(lia) Hl) as Hs0.
  pose proof (rounds_inv Query arrival t target p
    (λ s, search_ok Query t target p s ∧ converged Query t target p s)
    (Z.to_nat (MaxRounds p)) 0 (mkSearch (filterSelf l (self t)) ∅ [])) as Hinv.
  edestruct Hinv as [_ Hc]; [|exact Hs0|].
  { intros i s s' b [Hs Hc] Hr. split; [by eapply round_ok|by eapply round_converged]. }
  destruct (Hc m Hheard Hself) as [?|[Hlen Hfar]]; [by left|right]. split; [lia|].
  intros e He. specialize (Hfar e He). unfold closer in Hfar. rewrite Less_num in Hfar.
  by apply Z.ltb_ge in Hfar.
Qed.

(** A small network: "node-3" knows "node-5", nobody else knows anyone. *)
Definition sample_query (from : Node) (_ : Key) : answer :=
  if String.eqb (ID from) "node-3" then [None; Some (keyed (peer "node-5"))] else [].

Definition sample_find : outcome lookup_error search :=
  @Find stable_sort sample_query (λ _ rs, rs) true (Some sample_table) (mkParams 0 0 0)
    (KeyForNodeID "node-5").

Lemma Find_shortlist_witness :
  (∃ s, sample_find = Ret s ∧ map ID (best s) = ["node-5"; "node-3"; "node-9"] ∧
        map ID (asked s) = ["node-3"; "node-9"; "node-5"]) ∧
  ∃ s, sample_find = Ret s ∧ Z.of_nat (length (best s)) <= 20 ∧ NoDup (ID <$> asked s).
Proof.
  split; [eexists; split_and!; vm_compute; reflexivity|].
  destruct (@Find_shortlist stable_sort sample_query (λ _ rs, rs) sample_table (mkParams 0 0 0)
    (KeyForNodeID "node-5") 0 (λ _ rs, reflexivity rs)
    (proj1 (reachable_ok _ _ sample_reachable))) as (s & Hs & H1 & _ & _ & _ & H2 & _).
  exists s. split_and!; [exact Hs|exact H1|exact H2].
Defined.

Lemma Find_closest_witness :
  ∃ s, sample_find = Ret s ∧
    (ID (keyed (peer "node-5")) ∈ ID <$> best s ∨
     Z.of_nat (length (best s)) = 20).
Proof.
  eexists. split; [vm_compute; reflexivity|].
  destruct (@Find_closest stable_sort sample_query (λ _ rs, rs) sample_table (mkParams 0 0 0)
    (KeyForNodeID "node-5")
    (match sample_find with Ret s => s | _ => mkSearch [] ∅ [] end) (keyed (peer "node-5"))
    (λ _ rs, reflexivity rs) (proj1 (reachable_ok _ _ sample_reachable))) as [H|[H _]].
  - intros from n. unfold sample_query. destruct (String.eqb _ _); [|intros Hn; inversion Hn].
    intros [Hn|[Hn|Hn]%elem_of_cons]%elem_of_cons; [done| |inversion Hn].
    injection Hn as ->. reflexivity.
  - vm_compute. reflexivity.
  - intros E%(f_equal key_num). vm_compute in E. discriminate E.
  - right. exists (touch 9 (keyed (peer "node-3"))). vm_compute. split; [left|right; left].
  - left. vm_compute in H. vm_compute. exact H.
  - vm_compute in H. discriminate H.
Defined.
