(* ===== verification/DhtNetwork.v ===== *)
(** * Lookups over a network of routing tables ([internal/dht])

    The iterative lookup of DhtLookup.v run against peers that hold routing tables of their own
    (DhtTable.v).  Every round asks the closest node known so far; the table of that node has a
    node that shares one more leading bit with the closest node of all, so the lookup reaches it
    within as many rounds as a key has bits. *)

From S2P Require Import Prelude GoLib Sha256 DhtKey DhtTable DhtLookup.

Open Scope Z_scope.

Module DhtNetwork.

(** The members with their tables, by NodeID. *)
Abbreviation Network := (gmap string RoutingTable).

Definition dist (target k : Key) : Z := key_num (Distance target k).

(** A table built by [Add] alone: the nodes its owner was told of, with the times. *)
Definition told (localID : string) (adds : list (Z * Node)) : RoutingTable :=
  foldl (λ t a, (Add a.1 (Some a.2) t).1) (NewRoutingTable localID) adds.

(** The network in which every member was told of the nodes listed for it. *)
Definition network_of (h : gmap string (list (Z * Node))) : Network :=
  map_imap (λ id adds, Some (told id adds)) h.

(** A peer that answers from its own table with up to [m] nodes. *)
Definition served `{SliceSort} (net : Network) (m : Z) (from : Node) (target : Key) : answer :=
  match net !! ID from with
  | Some t => match Nearest target m t with Ret l => Some <$> l | _ => [] end
  | None => []
  end.

(** Every table belongs to its member, lists members only, and has an entry in each bucket to which
    some member belongs. *)
Record connected (net : Network) : Prop := {
  c_table id t : net !! id = Some t → table_ok t ∧ self t = KeyForNodeID id;
  c_members id t n : net !! id = Some t → n ∈ Peers t → is_Some (net !! ID n);
  c_reach id t id' : net !! id = Some t → is_Some (net !! id') → KeyForNodeID id' ≠ self t → home id' t ≠ [];
}.

(** What the lookup relies on: answers name members under their own keys, and for every node in the
    table of an asked member, other than the local one, the answer has one that is not farther. *)
Record responsive (net : Network) (local target : Key) (Query : Node → Key → answer) : Prop := {
  r_members from n : Some n ∈ Query from target → is_Some (net !! ID n) ∧ NKey n = KeyForNodeID (ID n);
  r_useful from t d : net !! ID from = Some t → d ∈ Peers t → NKey d ≠ local →
    ∃ e, Some e ∈ Query from target ∧ NKey e ≠ local ∧ dist target (NKey e) <= dist target (NKey d);
}.
End DhtNetwork.

Module DhtNetworkFacts.
Import DhtNetwork.

#[local] Opaque KeyForNodeID CommonPrefixLen.

(** ** Leading bits and distances *)

(** The leading [n] of 160 bits. *)
Definition top (n : nat) (x : Z) : Z := Z.shiftr x (160 - Z.of_nat n).

Lemma top_mono n x y : (n ≤ 160)%nat → x <= y → top n x <= top n y.
Proof.
  intros Hn Hxy. unfold top. rewrite !Z.shiftr_div_pow2 by lia. apply Z.div_le_mono; [|done]. lia.
Qed.

Lemma top_S n x : (n < 160)%nat → top (S n) x = 2 * top n x ∨ top (S n) x = 2 * top n x + 1.
Proof.
  intros Hn. unfold top. replace (160 - Z.of_nat n) with (160 - Z.of_nat (S n) + 1) by lia.
  rewrite <- Z.shiftr_shiftr, (Z.shiftr_div_pow2 (Z.shiftr _ _)) by lia. change (2 ^ 1) with 2.
  pose proof (Z.div_mod (Z.shiftr x (160 - Z.of_nat (S n))) 2 ltac:(lia)).
  pose proof (Z.mod_pos_bound (Z.shiftr x (160 - Z.of_nat (S n))) 2 ltac:(lia)). lia.
Qed.

(** A common prefix of two keys is one of their distances to any target. *)
Lemma prefix_top target k o n :
  (n ≤ KeySizeBits)%nat → (n ≤ CommonPrefixLen k o)%nat ↔ top n (dist target k) = top n (dist target o).
Proof.
  intros Hn. rewrite CommonPrefixLen_num, key_num_Xor by done. unfold top, dist, Distance.
  rewrite !key_num_Xor, !Z.shiftr_lxor, Z.lxor_eq_0_iff. split; [by intros ->|].
  intros E%(f_equal (Z.lxor (Z.shiftr (key_num target) (160 - Z.of_nat n)))).
  by rewrite <- !Z.lxor_assoc, Z.lxor_nilpotent, !Z.lxor_0_l in E.
Qed.

Lemma dist_inj target k o : dist target k = dist target o → k = o.
Proof. intros E%key_num_inj. by apply Xor_inj in E. Qed.

Lemma dist_self target k : dist target k = 0 ↔ target = k.
Proof.
  unfold dist, Distance. rewrite key_num_Xor, Z.lxor_eq_0_iff. split; [apply key_num_inj|congruence].
Qed.

(** If [c] is closer than [b] then so is everything in the bucket of [b] that [c] belongs to, and it
    shares a longer prefix with [c] than [b] does; and so does all that lies between it and [c]. *)
Lemma bucket_closer target b c d :
  dist target c < dist target b → CommonPrefixLen b d = CommonPrefixLen b c →
  dist target d < dist target b ∧ (CommonPrefixLen b c < CommonPrefixLen c d)%nat ∧
  ∀ h, dist target c <= dist target h <= dist target d → (CommonPrefixLen b c < CommonPrefixLen c h)%nat.
Proof.
  intros Hlt Hd. set (i := CommonPrefixLen b c) in *.
  assert (i < KeySizeBits)%nat as Hi.
  { pose proof (CommonPrefixLen_le b c). destruct (decide (i = KeySizeBits)) as [E%CommonPrefixLen_eq|]; [|lia].
    rewrite E in Hlt. lia. }
  pose proof (prefix_top target b c i ltac:(lia)) as Hc0. pose proof (prefix_top target b c (S i) Hi) as Hc1.
  pose proof (prefix_top target b d i ltac:(lia)) as Hd0. pose proof (prefix_top target b d (S i) Hi) as Hd1.
  unfold KeySizeBits in *.
  pose proof (top_S i (dist target b) Hi). pose proof (top_S i (dist target c) Hi). pose proof (top_S i (dist target d) Hi).
  pose proof (top_mono (S i) (dist target c) (dist target b) Hi ltac:(lia)).
  assert (top (S i) (dist target d) < top (S i) (dist target b)) as Hbit by lia. split_and!.
  - apply Z.nle_gt. intros Hle%(top_mono (S i)); lia.
  - apply (prefix_top target c d (S i) Hi). lia.
  - intros h [Hh1 Hh2]. apply (prefix_top target c h (S i) Hi).
    apply (top_mono (S i)) in Hh1; [|lia]. apply (top_mono (S i)) in Hh2; [|lia]. lia.
Qed.

Lemma prefix_ultra b l d :
  (CommonPrefixLen b l < CommonPrefixLen l d)%nat → CommonPrefixLen b d = CommonPrefixLen b l.
Proof.
  intros Hlt. set (i := CommonPrefixLen b l) in *. pose proof (CommonPrefixLen_le l d).
  assert (∀ n, n ≤ S i → n ≤ CommonPrefixLen b d ↔ n ≤ i)%nat as Hn.
  { intros n Hn. unfold i. rewrite !(prefix_top b) by lia.
    assert (top n (dist b l) = top n (dist b d)) as -> by (apply prefix_top; lia). done. }
  pose proof (Hn i ltac:(lia)). pose proof (Hn (S i) ltac:(lia)). lia.
Qed.

Lemma closer_dist target x y : closer target x y = false ↔ dist target (NKey y) <= dist target (NKey x).
Proof. unfold closer. by rewrite Less_num, Z.ltb_ge. Qed.

Lemma list_least {A} (f : A → Z) (l : list A) x : x ∈ l → ∃ y, y ∈ l ∧ ∀ z, z ∈ l → f y <= f z.
Proof.
  revert x. induction l as [|a l IH]; intros x Hx; [inversion Hx|]. destruct l as [|b l].
  { exists a. split; [by left|]. by intros z ->%list_elem_of_singleton. }
  destruct (IH b) as (y & Hy & Hmin); [by left|]. destruct (Z.le_gt_cases (f a) (f y)) as [Hle|Hgt].
  - exists a. split; [by left|]. intros z [->|Hz]%elem_of_cons; [done|]. specialize (Hmin z Hz). lia.
  - exists y. split; [by right|]. intros z [->|Hz]%elem_of_cons; [lia|by apply Hmin].
Qed.

(** ** Tables of a connected network *)

Section Connected.
Context (net : Network) (Hnet : connected net).

(** The bucket of a member that another belongs to has an entry. *)
Lemma bucket_entry id t c :
  net !! id = Some t → is_Some (net !! c) → KeyForNodeID c ≠ KeyForNodeID id →
  ∃ d, d ∈ Peers t ∧ CommonPrefixLen (KeyForNodeID id) (NKey d) = CommonPrefixLen (KeyForNodeID id) (KeyForNodeID c).
Proof.
  intros Ht Hc Hne. destruct (c_table _ Hnet _ _ Ht) as [Hok Hself]. rewrite <- Hself in *.
  pose proof (c_reach _ Hnet _ _ _ Ht Hc Hne) as Hh. unfold home in Hh.
  destruct (slot t _) as [b|] eqn:Hb; [|done]. destruct b as [|d b]; [done|]. exists d.
  split; [apply elem_of_entries; eexists _, _; split; [exact Hb|apply list_elem_of_here]|].
  eapply bucket_prefix; [by eapply table_buckets|]. apply list_elem_of_here.
Qed.

Lemma peer_key id t n : net !! id = Some t → n ∈ Peers t → NKey n = KeyForNodeID (ID n) ∧ NKey n ≠ self t.
Proof. intros Ht Hn. destruct (c_table _ Hnet _ _ Ht) as [Hok _]. by destruct (entries_ok t n Hok Hn) as (?&_&_&?). Qed.

(** ** One hop *)

Context `{SliceSort} (localID : string) (t : RoutingTable) (Ht : net !! localID = Some t).
Context (target : Key) (Query : Node → Key → answer) (Hq : responsive net (self t) target Query).

Lemma heard_member ask n : heard Query t target ask n → is_Some (net !! ID n) ∧ NKey n = KeyForNodeID (ID n).
Proof using All.
  intros [Hn|(from & _ & Hn)]; [|by eapply r_members].
  split; [by eapply c_members|by eapply peer_key].
Qed.

(** Once [b] is asked, a node closer than it is known, and what lies between that node and a member [c]
    closer than [b] shares a longer prefix with [c]. *)
Lemma hop ask b c :
  ID b ∈ ID <$> ask → is_Some (net !! ID b) → NKey b = KeyForNodeID (ID b) →
  is_Some (net !! c) → KeyForNodeID c ≠ self t → dist target (KeyForNodeID c) < dist target (NKey b) →
  ∃ e, heard Query t target ask e ∧ NKey e ≠ self t ∧ dist target (NKey e) < dist target (NKey b) ∧
    ∀ h, dist target (KeyForNodeID c) <= dist target h <= dist target (NKey e) →
      (CommonPrefixLen (NKey b) (KeyForNodeID c) < CommonPrefixLen (KeyForNodeID c) h)%nat.
Proof using All.
  intros (a & Hab & Ha)%list_elem_of_fmap [tb Htb] Hkb Hc Hcs Hlt. rewrite Hkb in *.
  destruct (bucket_entry _ _ c Htb Hc) as (d & Hd & Hpd); [intros E; rewrite E in Hlt; lia|].
  destruct (bucket_closer target _ _ _ Hlt Hpd) as (Hdb & Hcd & Hbetween).
  destruct (decide (NKey d = self t)) as [E|Hds].
  - destruct (c_table _ Hnet _ _ Ht) as [_ Hself].
    destruct (bucket_entry _ _ c Ht Hc) as (d' & Hd' & Hpd'); [by rewrite <- Hself|].
    rewrite <- Hself in Hpd'. rewrite E, (CommonPrefixLen_comm (KeyForNodeID c)), <- Hpd' in Hcd.
    assert (CommonPrefixLen (KeyForNodeID (ID b)) (NKey d') = CommonPrefixLen (KeyForNodeID (ID b)) (KeyForNodeID c)) as Hp.
    { rewrite <- Hpd, E. apply prefix_ultra. by rewrite <- E, Hpd, E. }
    destruct (bucket_closer target _ _ _ Hlt Hp) as (Hd'b & _ & Hbetween').
    exists d'. split_and!; [by left|by eapply peer_key|done|done].
  - destruct (r_useful _ _ _ _ Hq a tb d ltac:(by rewrite <- Hab) Hd Hds) as (e & He & Hes & Hed).
    exists e. split_and!; [right; exists a; by split|exact Hes|by eapply Z.le_lt_trans|].
    intros h [Hh1 Hh2]. apply Hbetween. split; [exact Hh1|by etrans].
Qed.
(** ** The rounds *)

Context (arrival : nat → list answer → list answer) (Harr : ∀ i rs, arrival i rs ≡ₚ rs).
Context (p : LookupParams) (Halpha : 0 < Alpha p) (Hcap : 0 < PK p).

Definition inv (s : search) : Prop := search_ok Query t target p s ∧ converged Query t target p s.

Lemma inv_round i s s' b : inv s → round Query arrival (self t) target p i s = Some (s', b) → inv s'.
Proof using All.
  intros [Hs Hc] Hr. destruct (c_table _ Hnet _ _ Ht) as [Hok _].
  split; [by eapply round_ok|]. eapply round_converged; try done. intros from n Hn. by eapply r_members.
Qed.

(** The head of the shortlist is as close as anything heard of. *)
Lemma head_least s m :
  inv s → heard Query t target (asked s) m → NKey m ≠ self t →
  ∃ b rest, best s = b :: rest ∧ dist target (NKey b) <= dist target (NKey m).
Proof using All.
  intros [Hs Hc] Hm Hself. pose proof (so_best _ _ _ _ _ Hs) as Hl.
  assert (∃ e, e ∈ best s ∧ dist target (NKey e) <= dist target (NKey m)) as (e & He & Hem).
  { destruct (Hc m Hm Hself) as [(e & Hid & He)%list_elem_of_fmap|[Hlen Hfar]].
    - exists e. split; [done|]. destruct (heard_member _ _ Hm) as [_ ->].
      destruct (heard_member _ _ (sl_src _ _ _ _ _ Hl e He)) as [_ ->]. by rewrite Hid.
    - destruct (best s) as [|e l]; [cbn in Hlen; lia|]. exists e. split; [apply list_elem_of_here|].
      apply closer_dist, Hfar, list_elem_of_here. }
  destruct (best s) as [|b rest] eqn:Eb; [inversion He|]. exists b, rest. split; [done|].
  pose proof (sl_sorted _ _ _ _ _ Hl) as Hsort. apply elem_of_cons in He as [->|He]; [done|].
  apply StronglySorted_inv in Hsort as [_ Hall]. rewrite Forall_forall in Hall.
  etrans; [|exact Hem]. by apply closer_dist, Hall.
Qed.

Lemma head_facts s b rest :
  inv s → best s = b :: rest →
  heard Query t target (asked s) b ∧ NKey b ≠ self t ∧ is_Some (net !! ID b) ∧ NKey b = KeyForNodeID (ID b).
Proof using All.
  intros [Hs _] Hb. pose proof (so_best _ _ _ _ _ Hs) as Hl.
  assert (b ∈ best s) as Hin by (rewrite Hb; apply list_elem_of_here).
  pose proof (sl_src _ _ _ _ _ Hl b Hin) as Hh. split; [done|]. split; [by eapply sl_self|by eapply heard_member].
Qed.

(** An asked head is the closest member. *)
Lemma asked_head s b rest c :
  inv s → best s = b :: rest → ID b ∈ ID <$> asked s → is_Some (net !! c) → KeyForNodeID c ≠ self t →
  dist target (NKey b) <= dist target (KeyForNodeID c).
Proof using All.
  intros Hs Hb Hask Hc Hcs. apply Z.nlt_ge. intros Hlt. destruct (head_facts _ _ _ Hs Hb) as (_ & _ & Hmem & Hkey).
  destruct (hop (asked s) b c Hask Hmem Hkey Hc Hcs Hlt) as (e & He & Hes & Heb & _).
  destruct (head_least s e Hs He Hes) as (b' & rest' & Hb' & Hle). rewrite Hb in Hb'. simplify_eq. lia.
Qed.

(** A round without progress leaves the shortlist as it is. *)
Lemma merge_stalled self cap q l pr (r : answer) :
  (merge_answer self target cap q (l, pr) r).2 = false →
  pr = false ∧ (merge_answer self target cap q (l, pr) r).1 = l.
Proof.
  revert l pr. induction r as [|[n|] r IH]; intros l pr; cbn [merge_answer foldl]; [done|..].
  - repeat case_bool_decide; [apply IH|apply IH|]. intros [? _]%IH. done.
  - apply IH.
Qed.

Lemma round_stalled i s s' : round Query arrival (self t) target p i s = Some (s', false) → best s' = best s.
Proof.
  unfold round. case_match; [done|]. rewrite merge_answers_join.
  destruct (merge_answer _ _ _ _ _ _) as [l pr] eqn:E. intros [= <- ->]. cbn [best].
  pose proof (merge_stalled (self t) (Z.to_nat (PK p)) _ _ _ _ (f_equal snd E)) as [_ Hl]. by rewrite E in Hl.
Qed.

(** Every round asks the head, unless it was asked before. *)
Lemma round_asks_head i s s' pr b rest :
  inv s → best s = b :: rest → round Query arrival (self t) target p i s = Some (s', pr) →
  ID b ∈ ID <$> asked s'.
Proof using All.
  intros [Hs _] Hb Hr. destruct (round_Some Query arrival Harr t target p Halpha _ _ _ _ Hr) as (_ & -> & _).
  rewrite fmap_app, elem_of_app, <- (so_queried _ _ _ _ _ Hs).
  destruct (decide (ID b ∈ queried s)) as [|Hn]; [by left|right].
  rewrite Hb, filter_cons_True by done. replace (Z.to_nat (Alpha p)) with (S (Z.to_nat (Alpha p) - 1)) by lia.
  apply list_elem_of_here.
Qed.

Lemma idle_asked i s b rest :
  inv s → best s = b :: rest → round Query arrival (self t) target p i s = None → ID b ∈ ID <$> asked s.
Proof using Halpha.
  intros [Hs _] Hb. unfold round. rewrite pick_todo_spec by (cbn; lia). rewrite Nat.sub_0_r, Hb. cbn [app].
  rewrite <- (so_queried _ _ _ _ _ Hs). destruct (decide (ID b ∈ queried s)) as [|Hn]; [done|].
  rewrite filter_cons_True by done. replace (Z.to_nat (Alpha p)) with (S (Z.to_nat (Alpha p) - 1)) by lia.
  cbn. by destruct (foldl _ _ _).
Qed.

(** The closest member, other than the local node. *)
Definition closest (c : string) : Prop :=
  is_Some (net !! c) ∧ KeyForNodeID c ≠ self t ∧
  ∀ c', is_Some (net !! c') → KeyForNodeID c' ≠ self t → dist target (KeyForNodeID c) <= dist target (KeyForNodeID c').

Lemma closest_exists other :
  is_Some (net !! other) → KeyForNodeID other ≠ self t → ∃ c, closest c.
Proof.
  intros Ho Hne. set (l := filter (λ c, KeyForNodeID c ≠ self t) (elements (dom net))).
  assert (∀ c, c ∈ l ↔ is_Some (net !! c) ∧ KeyForNodeID c ≠ self t) as Hl.
  { intros c. unfold l. rewrite list_elem_of_filter, elem_of_elements, elem_of_dom. tauto. }
  destruct (list_least (λ c, dist target (KeyForNodeID c)) l other) as (c & Hc%Hl & Hmin); [by apply Hl|].
  exists c. destruct Hc. split_and!; [done|done|]. intros c' Hc' Hne'. by apply Hmin, Hl.
Qed.

Lemma closest_head c s b rest :
  closest c → inv s → best s = b :: rest → dist target (KeyForNodeID c) <= dist target (NKey b).
Proof using All.
  intros (_ & _ & Hmin) Hs Hb. destruct (head_facts _ _ _ Hs Hb) as (_ & Hbs & Hmem & Hkey).
  rewrite Hkey in *. by apply Hmin.
Qed.

(** In every round the head reaches the closest member or shares a longer prefix with it. *)
Lemma round_gains i s s' pr b rest c :
  closest c → inv s → best s = b :: rest → round Query arrival (self t) target p i s = Some (s', pr) →
  ∃ b' rest', best s' = b' :: rest' ∧
    (NKey b' = KeyForNodeID c ∨
     (CommonPrefixLen (KeyForNodeID c) (NKey b) < CommonPrefixLen (KeyForNodeID c) (NKey b'))%nat).
Proof using All.
  intros Hc Hs Hb Hr. pose proof (inv_round _ _ _ _ Hs Hr) as Hs'.
  pose proof (round_asks_head _ _ _ _ _ _ Hs Hb Hr) as Hask.
  destruct (head_facts _ _ _ Hs Hb) as (Hbh & Hbs & Hmem & Hkey).
  destruct (Z.lt_ge_cases (dist target (KeyForNodeID c)) (dist target (NKey b))) as [Hlt|Hge].
  - destruct Hc as (Hcm & Hcs & Hmin).
    destruct (hop (asked s') b c Hask Hmem Hkey Hcm Hcs Hlt) as (e & He & Hes & _ & Hbetween).
    destruct (head_least s' e Hs' He Hes) as (b' & rest' & Hb' & Hle). exists b', rest'. split; [done|right].
    rewrite (CommonPrefixLen_comm _ (NKey b)). apply Hbetween. split; [|done]. by eapply closest_head.
  - destruct (head_least s' b Hs') as (b' & rest' & Hb' & Hle); [|done|].
    { eapply heard_mono, Hbh. destruct (round_Some Query arrival Harr t target p Halpha _ _ _ _ Hr) as (_ & -> & _). set_solver. }
    exists b', rest'. split; [done|left]. apply (dist_inj target), Z.le_antisymm; [by etrans|]. by eapply closest_head.
Qed.

(** So as many rounds as the key has bits are enough. *)
Lemma rounds_closest fuel i s b rest c :
  closest c → inv s → best s = b :: rest →
  (KeySizeBits ≤ CommonPrefixLen (KeyForNodeID c) (NKey b) + fuel)%nat →
  ∃ b' rest', best (rounds Query arrival (self t) target p fuel i s) = b' :: rest' ∧
    dist target (NKey b') <= dist target (KeyForNodeID c).
Proof using All.
  intros Hc. revert i s b rest. induction fuel as [|fuel IH]; intros i s b rest Hs Hb Hfuel; cbn [rounds].
  { exists b, rest. split; [done|]. pose proof (CommonPrefixLen_le (KeyForNodeID c) (NKey b)).
    assert (KeyForNodeID c = NKey b) as -> by (apply CommonPrefixLen_eq; lia). done. }
  destruct (round _ _ _ _ _ _ _) as [[s' [|]]|] eqn:Hr.
  - destruct (round_gains _ _ _ _ _ _ _ Hc Hs Hb Hr) as (b' & rest' & Hb' & Hgain).
    eapply IH; [by eapply inv_round|exact Hb'|]. destruct Hgain as [->|]; [|lia].
    pose proof (proj2 (CommonPrefixLen_eq (KeyForNodeID c) _) eq_refl). lia.
  - pose proof (round_stalled _ _ _ Hr) as Hsame. rewrite Hb in Hsame. exists b, rest. split; [done|].
    eapply asked_head; [by eapply inv_round|done|by eapply round_asks_head|apply Hc..].
  - exists b, rest. split; [done|]. eapply asked_head; [exact Hs|exact Hb|by eapply idle_asked|apply Hc..].
Qed.

(** The whole search, from the nodes of the local table. *)
Lemma search_closest l fuel other :
  Nearest target (PK p) t = Ret l → is_Some (net !! other) → KeyForNodeID other ≠ self t → (KeySizeBits ≤ fuel)%nat →
  ∃ b rest, best (rounds Query arrival (self t) target p fuel 0 (mkSearch (filterSelf l (self t)) ∅ [])) = b :: rest ∧
    NKey b ≠ self t ∧ is_Some (net !! ID b) ∧ NKey b = KeyForNodeID (ID b) ∧
    ∀ c, is_Some (net !! c) → KeyForNodeID c ≠ self t → dist target (NKey b) <= dist target (KeyForNodeID c).
Proof using All.
  intros Hl Ho Hne Hfuel. destruct (c_table _ Hnet _ _ Ht) as [Hok Hself].
  pose proof (start_ok Query t target p Hok l ltac:(lia) Hl) as Hs0. set (s0 := mkSearch _ _ _) in *.
  destruct (closest_exists other Ho Hne) as [c Hc].
  destruct (bucket_entry localID t c Ht (proj1 Hc)) as (d & Hd & _); [rewrite <- Hself; apply Hc|].
  destruct (head_least s0 d Hs0) as (b0 & rest0 & Hb0 & _); [by left|by eapply peer_key|].
  destruct (rounds_closest fuel 0 s0 b0 rest0 c Hc Hs0 Hb0) as (b & rest & Hb & Hle); [lia|].
  assert (inv (rounds Query arrival (self t) target p fuel 0 s0)) as Hs.
  { apply rounds_inv; [|exact Hs0]. intros i s1 s2 pr. apply inv_round. }
  destruct (head_facts _ b rest Hs Hb) as (_ & Hbs & Hmem & Hkey). exists b, rest. split_and!; try done.
  intros c' Hc' Hne'. etrans; [exact Hle|]. by apply Hc.
Qed.
End Connected.

(** ** Tables built by [Add] *)

(** [Add] keeps the keys that are stored, and stores no NodeID but the one it is given. *)
Lemma Add_keeps now n t d :
  table_ok t → d ∈ entries t → ∃ d', d' ∈ entries (Add now (Some n) t).1 ∧ NKey d' = NKey d.
Proof.
  intros Hok Hd. destruct (decide (KeyForNodeID (ID n) = self t)) as [E|Hne].
  { exists d. split; [|done]. unfold Add. by rewrite (proj2 (bucketFor_None _ _) E). }
  destruct (decide (ID n ∈ ID <$> entries t)) as [Hin|Hin].
  - destruct (Add_known now n t Hok Hne Hin) as (m & rest & _ & _ & He & He' & _).
    rewrite He in Hd. apply elem_of_cons in Hd as [->|Hd]; [exists (touch now m)|exists d]; rewrite He'; split; try done; [by left|by right].
  - exists d. split; [|done]. destruct (decide (length (home (ID n) t) < K)%nat) as [Hlen|Hlen].
    + destruct (Add_store now n t Hok Hne Hin Hlen) as (_ & -> & _). by right.
    + destruct (Add_full now n t Hok Hne Hin) as (c & _ & _ & _ & -> & _); [lia|done].
Qed.

Lemma Add_only now n t d :
  table_ok t → d ∈ entries (Add now (Some n) t).1 → ID d = ID n ∨ ID d ∈ ID <$> entries t.
Proof.
  intros Hok. destruct (decide (KeyForNodeID (ID n) = self t)) as [E|Hne].
  { unfold Add. rewrite (proj2 (bucketFor_None _ _) E). intros Hd. right. by apply list_elem_of_fmap_2. }
  destruct (decide (ID n ∈ ID <$> entries t)) as [Hin|Hin].
  - destruct (Add_known now n t Hok Hne Hin) as (m & rest & Hm & _ & -> & -> & _).
    intros [->|Hd]%elem_of_cons; [by left|right]. apply list_elem_of_fmap_2. by right.
  - destruct (decide (length (home (ID n) t) < K)%nat) as [Hlen|Hlen].
    + destruct (Add_store now n t Hok Hne Hin Hlen) as (_ & -> & _).
      intros [->|Hd]%elem_of_cons; [by left|right]. by apply list_elem_of_fmap_2.
    + destruct (Add_full now n t Hok Hne Hin) as (c & _ & _ & _ & -> & _); [lia|].
      intros Hd. right. by apply list_elem_of_fmap_2.
Qed.

(** [Add] leaves no bucket empty that was not, and stores nothing but the node it is given. *)
Lemma Add_home now n id t :
  table_ok t → KeyForNodeID id ≠ self t → home id t ≠ [] → home id (Add now (Some n) t).1 ≠ [].
Proof.
  intros Hok Hne Hh. destruct (home id t) as [|d b] eqn:Eb; [done|].
  assert (d ∈ Peers t ∧ CommonPrefixLen (self t) (NKey d) = CommonPrefixLen (self t) (KeyForNodeID id)) as [Hd Hp].
  { unfold home in Eb. destruct (slot t _) as [b'|] eqn:Hb; [|done]. cbn in Eb. subst b'.
    split; [apply elem_of_entries; eexists _, _; split; [exact Hb|apply list_elem_of_here]|].
    eapply bucket_prefix; [by eapply table_buckets|]. apply list_elem_of_here. }
  assert (∃ d', d' ∈ entries (Add now (Some n) t).1 ∧ NKey d' = NKey d) as (d' & Hd' & Hk).
  { by apply Add_keeps. }
  pose proof (Add_ok now (Some n) t Hok) as Hok'. pose proof (Add_self now (Some n) t) as Hself.
  destruct (entries_ok _ _ Hok' Hd') as (_ & _ & Hin & _). rewrite Hself, Hk, Hp in Hin.
  unfold home. rewrite Hself. intros E. rewrite E in Hin. inversion Hin.
Qed.

Lemma Add_home_new now n t :
  table_ok t → KeyForNodeID (ID n) ≠ self t → home (ID n) (Add now (Some n) t).1 ≠ [].
Proof.
  intros Hok Hne. assert (∀ l (x : Node), last l = Some x → l ≠ []) as Hlast by (by intros [|??]).
  destruct (decide (ID n ∈ ID <$> entries t)) as [Hin|Hin].
  - destruct (Add_known now n t Hok Hne Hin) as (m & rest & _ & _ & _ & _ & Hl). by eapply Hlast.
  - destruct (decide (length (home (ID n) t) < K)%nat) as [Hlen|Hlen].
    + destruct (Add_store now n t Hok Hne Hin Hlen) as (_ & _ & Hl). by eapply Hlast.
    + destruct (Add_full now n t Hok Hne Hin) as (c & Hc & _ & _ & _ & ->); [lia|]. by destruct (home (ID n) t).
Qed.

(** A table lists only what it was told of, and nobody it was told of falls into an empty bucket. *)
Lemma told_spec localID adds :
  let t := told localID adds in
  table_ok t ∧ self t = KeyForNodeID localID ∧
  (∀ n, n ∈ Peers t → ID n ∈ (λ a, ID a.2) <$> adds) ∧
  (∀ c, c ∈ (λ a, ID a.2) <$> adds → KeyForNodeID c ≠ KeyForNodeID localID → home c t ≠ []).
Proof.
  cbn zeta. induction adds as [|[now n] adds IH] using rev_ind.
  { split_and!; [apply NewRoutingTable_ok|done| |intros c Hc; inversion Hc].
    intros n (i & b & Hb & _)%elem_of_entries. unfold slot in Hb. cbn [told foldl NewRoutingTable buckets] in Hb.
    destruct (replicate _ _ !! i) as [o|] eqn:E; [|done]. apply lookup_replicate_1 in E as [-> _]. done. }
  unfold told in *. rewrite foldl_app. cbn [foldl fst snd]. set (t := foldl _ _ adds) in *.
  destruct IH as (Hok & Hself & Honly & Hhome). split_and!.
  - by apply Add_ok.
  - by rewrite Add_self.
  - intros d Hd. rewrite fmap_app, elem_of_app. apply Add_only in Hd as [->|(m & -> & Hm)%list_elem_of_fmap]; [|left; by apply Honly|done].
    right. apply list_elem_of_here.
  - intros c Hc Hne. rewrite <- Hself in Hne. rewrite fmap_app, elem_of_app in Hc. destruct Hc as [Hc|Hc%list_elem_of_singleton].
    + apply Add_home; [done..|]. apply Hhome; [done|]. by rewrite <- Hself.
    + cbn in Hc. subst c. by apply Add_home_new.
Qed.

(** Everybody was told of everybody else, and of nobody else. *)
Definition introduced (h : gmap string (list (Z * Node))) : Prop :=
  ∀ id adds, h !! id = Some adds →
    (∀ c, is_Some (h !! c) → c ≠ id → c ∈ (λ a, ID a.2) <$> adds) ∧
    (∀ c, c ∈ (λ a, ID a.2) <$> adds → is_Some (h !! c)).

Lemma network_lookup h id : network_of h !! id = told id <$> h !! id.
Proof. unfold network_of. rewrite map_lookup_imap. by destruct (h !! id). Qed.

Lemma network_member h id : is_Some (network_of h !! id) ↔ is_Some (h !! id).
Proof. by rewrite network_lookup, fmap_is_Some. Qed.

Lemma introduced_connected h : introduced h → connected (network_of h).
Proof.
  intros Hh. split; intros id t; rewrite (network_lookup h id).
  - intros (adds & _ & ->)%fmap_Some. by destruct (told_spec id adds) as (? & ? & _).
  - intros n (adds & Hadds & ->)%fmap_Some Hn. rewrite network_member. destruct (told_spec id adds) as (_ & _ & Honly & _).
    eapply Hh; [done|]. by apply Honly.
  - intros c (adds & Hadds & ->)%fmap_Some Hc%network_member Hne. destruct (told_spec id adds) as (_ & Hself & _ & Hhome).
    rewrite Hself in Hne. apply Hhome; [|done]. eapply Hh; [done..|]. by intros ->.
Qed.

(** ** Answers from a table *)

(** Different members have different keys. *)
Definition distinct_keys (net : Network) : Prop :=
  ∀ a b, is_Some (net !! a) → is_Some (net !! b) → KeyForNodeID a = KeyForNodeID b → a = b.

(** Of the first two nodes of a table one is not the local node. *)
Lemma other_of_two net id t (local : Key) x y l :
  connected net → distinct_keys net → net !! id = Some t → x :: y :: l ≡ₚ entries t →
  ∃ e, e ∈ [x; y] ∧ NKey e ≠ local.
Proof.
  intros Hnet Hinj Ht Hp. destruct (c_table _ Hnet _ _ Ht) as [Hok _].
  assert (∀ n, n ∈ [x; y] → n ∈ Peers t) as Hin.
  { intros n Hn. unfold Peers. rewrite <- Hp. set_solver. }
  destruct (decide (NKey x = local)) as [Hx|]; [|exists x; by split; [left|]].
  destruct (decide (NKey y = local)) as [Hy|]; [|exists y; by split; [right; left|]].
  pose proof (entries_NoDup t Hok) as Hnd. rewrite <- Hp in Hnd. cbn in Hnd. apply NoDup_cons in Hnd as [Hxy _].
  destruct Hxy. apply elem_of_cons. left.
  destruct (peer_key net Hnet _ _ x Ht) as [Hkx _]; [apply Hin; by left|].
  destruct (peer_key net Hnet _ _ y Ht) as [Hky _]; [apply Hin; by right; left|].
  apply Hinj; [eapply c_members; [done|exact Ht|apply Hin; by left]|
    eapply c_members; [done|exact Ht|apply Hin; by right; left]|congruence].
Qed.

Lemma served_responsive `{SliceSort} net m local target :
  connected net → distinct_keys net → 2 <= m → responsive net local target (served net m).
Proof.
  intros Hnet Hinj Hm. unfold served. split.
  - intros from n Hn. destruct (net !! ID from) as [t|] eqn:Ht; [|inversion Hn].
    destruct (Nearest_sorted target m t) as (s & Hp & _ & E); [lia|]. rewrite E in Hn.
    apply list_elem_of_fmap in Hn as (n' & [= <-] & Hn). apply elem_of_take in Hn as (i & Hi & _).
    assert (n ∈ Peers t) as Hpeer by (unfold Peers; rewrite <- Hp; by eapply list_elem_of_lookup_2).
    split; [by eapply c_members|by eapply peer_key].
  - intros from t d Ht Hd Hself. rewrite Ht. destruct (Nearest_sorted target m t) as (s & Hp & Hs & ->); [lia|].
    unfold Peers in Hd. rewrite <- Hp, <- (take_drop (Z.to_nat m) s) in Hd. apply elem_of_app in Hd as [Hd|Hd].
    { exists d. split_and!; [by apply list_elem_of_fmap_2|done|done]. }
    destruct s as [|x [|y l]]; [by rewrite drop_nil in Hd; inversion Hd| |].
    { rewrite drop_ge in Hd by (cbn; lia). inversion Hd. }
    destruct (other_of_two net _ t local x y l Hnet Hinj Ht Hp) as (e & He & Hes).
    assert (e ∈ take (Z.to_nat m) (x :: y :: l)) as Htake.
    { replace (Z.to_nat m) with (S (S (Z.to_nat m - 2))) by lia. cbn [take]. set_solver. }
    exists e. split_and!; [by apply list_elem_of_fmap_2|done|].
    apply closer_dist. by eapply sorted_prefix_least.
Qed.

End DhtNetworkFacts.

Module DhtNetworkProperties.
Import DhtNetwork DhtNetworkFacts.

(** C5: Lookups find their target.  Take a network in which every member was at some time told of every
    other one, in any order, and keeps what its buckets of [K] have room for; members answer a query from
    their own tables with two nodes or more.  Then a lookup from any member, for any target and in whatever
    order the answers arrive, puts the member closest to the target first, the local one aside, within as
    many rounds as a key has bits, the default bound.  So a lookup for the key of a member finds it. *)
Theorem lookup_finds_closest `{SliceSort} h localID other m arrival params target
    (Harr : ∀ i rs, arrival i rs ≡ₚ rs) (Hintro : introduced h) (Hinj : distinct_keys (network_of h))
    (Hlocal : is_Some (h !! localID)) (Hother : is_Some (h !! other)) (Hne : other ≠ localID)
    (Hm : 2 <= m) (Hrounds : Z.of_nat KeySizeBits <= MaxRounds (withDefaults params)) :
  ∃ s b rest,
    Find (served (network_of h) m) arrival true (network_of h !! localID) params target = Ret s ∧
    best s = b :: rest ∧ is_Some (h !! ID b) ∧ ID b ≠ localID ∧
    (∀ c, is_Some (h !! c) → c ≠ localID → dist target (NKey b) <= dist target (KeyForNodeID c)) ∧
    (target = KeyForNodeID other → ID b = other).
Proof.
  pose proof (introduced_connected h Hintro) as Hnet. rewrite <- network_member in Hlocal, Hother.
  destruct Hlocal as [t Ht]. rewrite Ht. destruct (c_table _ Hnet _ _ Ht) as [Hok Hself].
  assert (∀ c, is_Some (network_of h !! c) → c ≠ localID → KeyForNodeID c ≠ self t) as Hkeys.
  { intros c Hc Hcl E. rewrite Hself in E. by apply Hinj in E. }
  pose proof (served_responsive (network_of h) m (self t) target Hnet Hinj Hm) as Hq.
  destruct (withDefaults_pos params) as (Ha & Hk & _).
  destruct (Find_unfold (served (network_of h) m) arrival t params target) as (l & Hl & ->).
  destruct (search_closest _ Hnet localID t Ht target _ Hq arrival Harr _ Ha Hk l
    (Z.to_nat (MaxRounds (withDefaults params))) other Hl Hother (Hkeys _ Hother Hne) ltac:(lia))
    as (b & rest & Hb & Hbs & Hmem & Hkey & Hmin).
  eexists _, b, rest. split_and!; [reflexivity|exact Hb|by rewrite <- network_member| | |].
  - intros E. rewrite Hkey, E in Hbs. by apply Hbs.
  - intros c. rewrite <- network_member. intros Hc Hcl. apply Hmin; [done|by apply Hkeys].
  - intros Htgt. specialize (Hmin other Hother (Hkeys _ Hother Hne)). rewrite (proj2 (dist_self _ _) Htgt) in Hmin.
    pose proof (key_num_range (Distance target (NKey b))) as Hpos. fold (dist target (NKey b)) in Hpos.
    assert (dist target (NKey b) = 0) as E%dist_self by lia. apply Hinj; [done|done|]. by rewrite <- Hkey, <- E.
Qed.

(** Everybody is introduced to all of [ids]. *)
Definition everyone (ids : list string) : gmap string (list (Z * Node)) :=
  list_to_map ((λ id, (id, (λ c, (0, peer c)) <$> ids)) <$> ids).

Lemma everyone_lookup ids id adds :
  everyone ids !! id = Some adds → adds = (λ c, (0, peer c)) <$> ids.
Proof. intros E%elem_of_list_to_map_2. apply list_elem_of_fmap in E as (c & [= _ ->] & _). done. Qed.

Lemma everyone_member ids id : is_Some (everyone ids !! id) ↔ id ∈ ids.
Proof.
  assert (everyone ids !! id = None ↔ id ∉ ids) as Hn.
  { unfold everyone. rewrite <- not_elem_of_list_to_map, <- list_fmap_compose. unfold compose. cbn [fst]. by rewrite list_fmap_id. }
  rewrite <- not_eq_None_Some, Hn. split; [intros Hin; by apply dec_stable|tauto].
Qed.

Lemma everyone_introduced ids : introduced (everyone ids).
Proof.
  intros id adds ->%everyone_lookup. setoid_rewrite everyone_member.
  rewrite <- list_fmap_compose. unfold compose. cbn [snd ID peer]. rewrite list_fmap_id. by split.
Qed.

Definition five : list string := ["node-1"; "node-2"; "node-3"; "node-4"; "node-5"].

Lemma lookup_finds_closest_witness :
  ∃ s b rest, @Find stable_sort (@served stable_sort (network_of (everyone five)) 2) (λ _ rs, rs) true
    (network_of (everyone five) !! "node-1") (mkParams 0 0 0) (KeyForNodeID "node-4") = Ret s ∧
    best s = b :: rest ∧ ID b = "node-4".
Proof.
  destruct (@lookup_finds_closest stable_sort (everyone five) "node-1" "node-4" 2 (λ _ rs, rs) (mkParams 0 0 0)
    (KeyForNodeID "node-4") (λ _ rs, reflexivity rs) (everyone_introduced five)) as (s & b & rest & Hs & Hb & _ & _ & _ & Hid).
  - intros x y. rewrite !network_member, !everyone_member. intros Hx Hy Hxy.
    assert (NoDup (KeyForNodeID <$> five)) as Hnd by (apply (bool_decide_unpack _); vm_compute; exact I).
    apply list_elem_of_lookup in Hx as [i Hi], Hy as [j Hj].
    assert (i = j) as ->; [|congruence].
    eapply NoDup_lookup; [exact Hnd|rewrite list_lookup_fmap, Hi; reflexivity|]. by rewrite list_lookup_fmap, Hj, Hxy.
  - apply everyone_member, (bool_decide_unpack _). vm_compute. exact I.
  - apply everyone_member, (bool_decide_unpack _). vm_compute. exact I.
  - done.
  - lia.
  - vm_compute. done.
  - exists s, b, rest. split_and!; [exact Hs|exact Hb|by apply Hid].
Defined.
End DhtNetworkProperties.
