(* ===== verification/MeshTypes.v ===== *)
(** * Identifiers and derived addresses ([pkg/types])

    NodeIDs derived from a fingerprint, the format check of identifiers, room keys, and the
    IPv4 and IPv6 mesh addresses every node derives from a room key and a NodeID. *)

From S2P Require Import Prelude GoLib Sha256.

Open Scope Z_scope.

Module MeshTypes.

(** ** base32 ([encoding/base32.StdEncoding]) *)

Definition b32_alphabet : list byte := bytes_of "ABCDEFGHIJKLMNOPQRSTUVWXYZ234567".

(** The character of a five-bit value. *)
Definition b32_char (v : Z) : byte := nth (Z.to_nat v) b32_alphabet x00.

(** The eight characters of a 40-bit group. *)
Definition b32_group (l : list byte) : list byte :=
  (λ i, b32_char (Z.land (Z.shiftr (be_get l) (35 - 5 * i)) 31)) <$> seqZ 0 8.

(** A short last group is zero filled, and the characters past its bits are '='. *)
Definition b32_tail (l : list byte) : list byte :=
  let chars := Z.to_nat ((8 * Z.of_nat (length l) + 4) / 5) in
  take chars (b32_group (l ++ replicate (5 - length l) x00)) ++ replicate (8 - chars) x3d.

Fixpoint b32_encode (groups : nat) (l : list byte) : list byte :=
  match groups with
  | O => match l with [] => [] | _ => b32_tail l end
  | S g => b32_group (take 5 l) ++ b32_encode g (drop 5 l)
  end.

Definition EncodeToString (l : list byte) : string := string_of (b32_encode (length l / 5) l).

(** ** NodeIDs (id.go) *)

(** [type NodeID string]. *)
Definition NodeID : Type := string.

Definition dash : byte := x2d.

Definition segment_lengths : list nat := [8; 4; 4; 4; 6]%nat.

(** The slicing loop of [formatSegments] at position [pos]. *)
Fixpoint segments (raw : list byte) (pos : nat) (ns : list nat) : list (list byte) :=
  match ns with
  | [] => []
  | n :: ns' =>
      if (length raw <=? pos)%nat then []
      else
        let e := if (length raw <? pos + n)%nat then length raw else (pos + n)%nat in
        take (e - pos) (drop pos raw) :: segments raw e ns'
  end.

(** [strings.Join(parts, "-")]. *)
Fixpoint join (parts : list (list byte)) : list byte :=
  match parts with
  | [] => []
  | [p] => p
  | p :: ps => p ++ dash :: join ps
  end.

Definition formatSegments (raw : string) : string :=
  string_of (join (segments (bytes_of raw) 0 segment_lengths)).

(** [strings.ReplaceAll(s, "-", "")]. *)
Definition strip_dashes (l : list byte) : list byte := filter (λ b, b ≠ dash) l.

Definition is_alnum (b : byte) : bool :=
  ((97 <=? bZ b) && (bZ b <=? 122)) || ((48 <=? bZ b) && (bZ b <=? 57)).

(** The automaton of the pattern [^[a-z0-9]+(?:-[a-z0-9]+)*$]; [in_seg] says that the
    current segment has a character. *)
Fixpoint nodeIDPattern (in_seg : bool) (l : list byte) : bool :=
  match l with
  | [] => in_seg
  | b :: l' =>
      if is_alnum b then nodeIDPattern true l'
      else if bool_decide (b = dash) && in_seg then nodeIDPattern false l'
      else false
  end.

Definition minIDLen : nat := 16.
Definition maxIDLen : nat := 52.

Inductive id_error :=
| ErrIDEmpty
| ErrIDPattern
| ErrIDLength (raw : nat).

Definition Validate (n : NodeID) : outcome id_error () :=
  if String.eqb n "" then Fail ErrIDEmpty
  else if negb (nodeIDPattern false (bytes_of n)) then Fail ErrIDPattern
  else
    let raw := length (strip_dashes (bytes_of n)) in
    if (raw <? minIDLen)%nat || (maxIDLen <? raw)%nat then Fail (ErrIDLength raw)
    else Ret ().

Section Unicode.
Context `{GoUnicode}.

Definition NewNodeIDFromFingerprint (fingerprint : list byte) : NodeID :=
  let hash := Sum256 fingerprint in
  let encoded := ToLower (EncodeToString hash) in
  let raw := string_of (take 26 (bytes_of encoded)) in
  formatSegments raw.

Definition NodeID_Equal (n other : NodeID) : bool := EqualFold n other.

Definition Raw (n : NodeID) : string := ToUpper (string_of (strip_dashes (bytes_of n))).
End Unicode.

(** ** Room keys (salt.go) *)

Definition RoomID : Type := string.
Definition DefaultRoomID : RoomID := "default".
Definition saltDomain : list byte := bytes_of "gop2pmesh/addr-salt/v1".

(** [type RoomKey [32]byte]. *)
Definition RoomKey : Type := vec byte 32.

Section Salt.
Context `{GoUnicode}.

Definition DeriveRoomKey (meshSecret : list byte) (roomID : RoomID) (explicitKey : list byte) : RoomKey :=
  let h := bytes_of "gop2pmesh/room-key/v1" in
  let h := if (0 <? length explicitKey)%nat then h ++ [x01] ++ explicitKey
           else h ++ [x00] ++ meshSecret in
  Sum256 (h ++ bytes_of (ToLower roomID)).

Definition saltedDigest (k : RoomKey) (nodeID : NodeID) : vec byte 32 :=
  Sum256 (saltDomain ++ k ++ bytes_of (ToLower nodeID)).

Definition saltedSubnetIndex (k : RoomKey) : Z :=
  let sum := Sum256 (saltDomain ++ bytes_of "subnet" ++ k) in
  Z.land (be_get (take 4 sum)) 0x000FFFFF.

(** ** Addresses (addr.go, ipv4.go) *)

(** [netip.Addr]: the zero value, an IPv4 address, or an IPv6 address with its zone. *)
Inductive Addr :=
| AddrZero
| Addr4 (b : vec byte 4)
| Addr6 (b : vec byte 16) (zone : string).

(** The value of [netip.ParseAddr("fd00:9bd8::")]. *)
Definition IPv6ULA : vec byte 16 := arr_copy 16 [xfd; x00; x9b; xd8].

(** The array assignments of [DeriveIPv6Addr]: eight prefix bytes, [addr[8] |= 2], a zero
    byte, and six digest bytes from index ten. *)
Definition DeriveIPv6Addr (nodeID : NodeID) (roomKey : RoomKey) : Addr :=
  let d := saltedDigest roomKey nodeID in
  let addr := take 8 IPv6ULA ++ [Zb (Z.lor 0 2); x00] ++ take 6 d in
  Addr6 (arr_copy 16 addr) "".

Record RoomSubnet := mkSubnet {
  Base : Addr;
  Plen : Z;
}.

Definition DeriveRoomSubnet (roomKey : RoomKey) : RoomSubnet :=
  let subnetIndex := saltedSubnetIndex roomKey in
  let firstOctet := Zb (240 + bZ (Zb (Z.shiftr subnetIndex 16))) in
  let secondOctet := Zb (Z.land (Z.shiftr subnetIndex 8) 0xFF) in
  let thirdOctet := Zb (Z.land subnetIndex 0xFF) in
  mkSubnet (Addr4 [# firstOctet; secondOctet; thirdOctet; x00]) 24.

(** [addr.As4()] of a subnet base, an IPv4 address; [d[6]] is the seventh digest byte. *)
Definition As4 (a : Addr) : vec byte 4 :=
  match a with Addr4 b => b | _ => arr_copy 4 [] end.

Definition DeriveNodeIPv4 (nodeID : NodeID) (roomKey : RoomKey) : Addr :=
  let subnet := DeriveRoomSubnet roomKey in
  let d := saltedDigest roomKey nodeID in
  let hostByte := Zb (bZ (nth 6 (vec_to_list d) x00) mod 254 + 1) in
  let base := vec_to_list (As4 (Base subnet)) in
  Addr4 (arr_copy 4 (take 3 base ++ [hostByte])).
End Salt.

Definition IsMeshIPv4 (addr : Addr) : bool :=
  match addr with
  | Addr4 b => 240 <=? bZ (nth 0 (vec_to_list b) x00)
  | _ => false
  end.

(** The prefix loop compares the first eight bytes. *)
Definition IsMeshIPv6 (addr : Addr) : bool :=
  match addr with
  | Addr6 b _ => forallb (λ '(x, y), bool_decide (x = y)) (zip (take 8 IPv6ULA) (take 8 b))
  | _ => false
  end.

Record PublicAddr := mkPublicAddr {
  IP : string;
  Port : Z;
}.

Definition PublicAddr_String (p : PublicAddr) : string := IP p +:+ ":" +:+ pretty (Port p).

End MeshTypes.
Export MeshTypes.

(** ** The identifier pattern *)

Definition alnum (s : list byte) : Prop := Forall (λ b, is_alnum b = true) s.
Definition segment (s : list byte) : Prop := s ≠ [] ∧ alnum s.

Lemma dash_not_alnum : is_alnum dash = false.
Proof. reflexivity. Qed.

Lemma pattern_run b s l :
  alnum s → s ≠ [] → nodeIDPattern b (s ++ l) = nodeIDPattern true l.
Proof.
  intros Hs. revert b. induction Hs as [|c s Hc Hs IH]; intros b; [done|]. intros _.
  cbn [app nodeIDPattern]. rewrite Hc. destruct s as [|c' s]; [done|]. by apply IH.
Qed.

Lemma pattern_join b segs :
  Forall segment segs → segs ≠ [] → nodeIDPattern b (join segs) = true.
Proof.
  intros Hs. revert b. induction Hs as [|s segs [Hne Hs] Hall IH]; intros b; [done|]. intros _.
  cbn [join]. destruct segs as [|s' segs].
  - rewrite <- (app_nil_r s). by rewrite pattern_run.
  - rewrite pattern_run by done. cbn [nodeIDPattern]. rewrite dash_not_alnum. by apply IH.
Qed.

Lemma pattern_split b l :
  nodeIDPattern b l = true →
  ∃ s segs, l = join (s :: segs) ∧ alnum s ∧ (b = false → s ≠ []) ∧ Forall segment segs.
Proof.
  revert b. induction l as [|c l IH]; intros b; cbn [nodeIDPattern].
  { intros ->. exists [], []. by split_and!; try constructor. }
  destruct (is_alnum c) eqn:Hc.
  - intros (s & segs & -> & Hs & _ & Hall)%IH. exists (c :: s), segs.
    split_and!; [by destruct segs|by constructor|done|done].
  - destruct (bool_decide (c = dash) && b) eqn:E; [|done]. reflect_tests. subst c b.
    intros (s & segs & -> & Hs & Hne & Hall)%IH. exists [], (s :: segs).
    split_and!; [done|constructor|done|]. constructor; [split; auto|done].
Qed.

(** The pattern accepts exactly non-empty dash-separated runs of lower-case letters and digits. *)
Lemma pattern_spec l :
  nodeIDPattern false l = true ↔ ∃ segs, segs ≠ [] ∧ Forall segment segs ∧ l = join segs.
Proof.
  split.
  - intros (s & segs & -> & Hs & Hne & Hall)%pattern_split. exists (s :: segs).
    split_and!; [done| |done]. constructor; [split; auto|done].
  - intros (segs & Hne & Hall & ->). by apply pattern_join.
Qed.

Lemma strip_alnum s : alnum s → strip_dashes s = s.
Proof.
  intros Hs. apply filter_all. eapply Forall_impl; [exact Hs|]. cbn.
  intros b Hb ->. by rewrite dash_not_alnum in Hb.
Qed.

Lemma strip_join segs : Forall alnum segs → strip_dashes (join segs) = mjoin segs.
Proof.
  induction 1 as [|s segs Hs Hall IH]; [done|]. cbn [join mjoin list_join]. destruct segs as [|s' segs].
  - cbn. by rewrite app_nil_r, strip_alnum.
  - unfold strip_dashes in *. rewrite filter_app, filter_cons_False by tauto.
    rewrite IH. f_equal. by apply strip_alnum.
Qed.

(** ** base32 text *)

Lemma b32_char_lower v : 0 <= v < 32 → is_alnum (lower_byte (b32_char v)) = true.
Proof.
  intros Hv.
  assert (forallb (λ v, is_alnum (lower_byte (b32_char v))) (seqZ 0 32) = true) as H
    by (vm_compute; reflexivity).
  rewrite forallb_forall in H. apply H, list_elem_of_In, elem_of_seqZ. lia.
Qed.

Lemma length_b32_group l : length (b32_group l) = 8%nat.
Proof. unfold b32_group. by rewrite length_fmap, length_seqZ. Qed.

Lemma b32_group_lower l : alnum (lower_byte <$> b32_group l).
Proof.
  unfold alnum, b32_group. rewrite !Forall_fmap. apply Forall_forall. intros i Hi. cbn.
  apply b32_char_lower. change 31 with (Z.ones 5). rewrite Z.land_ones by lia.
  apply Z.mod_pos_bound. lia.
Qed.

Lemma b32_encode_prefix g l :
  (g ≤ length l / 5)%nat → ∃ r, b32_encode (length l / 5) l = r ∧ alnum (lower_byte <$> take (8 * g) r) ∧
  (8 * g ≤ length r)%nat.
Proof.
  generalize (length l / 5)%nat as n. intros n. revert g l.
  induction n as [|n IH]; intros g l Hg; eexists; (split; [reflexivity|]).
  - replace g with 0%nat by lia. split; [constructor|lia].
  - destruct g as [|g]; [split; [constructor|lia]|].
    destruct (IH g (drop 5 l) ltac:(lia)) as (r & Hr & Ha & Hlen). cbn [b32_encode]. rewrite Hr.
    replace (8 * S g)%nat with (length (b32_group (take 5 l)) + 8 * g)%nat
      by (rewrite length_b32_group; lia).
    rewrite take_app_add, fmap_app by done. split; [|rewrite length_app; lia].
    apply Forall_app_2; [apply b32_group_lower|exact Ha].
Qed.

Lemma b32_ascii_char v : (bZ (b32_char v) <? 128) = true.
Proof.
  apply Z.ltb_lt. unfold b32_char. destruct (decide (Z.to_nat v < 32)%nat) as [Hv|Hv].
  - assert (forallb (λ b, bZ b <? 128) b32_alphabet = true) as H by (vm_compute; reflexivity).
    rewrite forallb_forall in H. apply Z.ltb_lt, H, nth_In. exact Hv.
  - rewrite nth_overflow; [done|]. change (length b32_alphabet) with 32%nat. lia.
Qed.

Lemma b32_ascii n l : forallb (λ b, bZ b <? 128) (b32_encode n l) = true.
Proof.
  assert (∀ k, forallb (λ b, bZ b <? 128) (b32_group k) = true) as Hg.
  { intros k. apply forallb_forall. intros b (i & <- & _)%in_map_iff. apply b32_ascii_char. }
  revert l. induction n as [|n IH]; intros l; cbn [b32_encode].
  - destruct l as [|b l]; [done|]. unfold b32_tail. rewrite forallb_app.
    apply andb_true_iff. split.
    + apply forallb_forall. intros c Hc. specialize (Hg ((b :: l) ++ replicate (5 - length (b :: l)) x00)).
      rewrite forallb_forall in Hg. apply Hg. apply list_elem_of_In in Hc. apply list_elem_of_In.
      rewrite <- (take_drop (Z.to_nat ((8 * Z.of_nat (length (b :: l)) + 4) / 5))).
      apply elem_of_app. by left.
    + apply forallb_forall. intros c [-> _]%list_elem_of_In%elem_of_replicate. done.
  - by rewrite forallb_app, Hg, IH.
Qed.

(** ** Derived identifiers *)

(** The 26 characters a NodeID is made of. *)
Definition raw_id (fingerprint : list byte) : list byte :=
  take 26 (lower_byte <$> b32_encode 6 (Sum256 fingerprint)).

Lemma raw_id_alnum fp : alnum (raw_id fp) ∧ length (raw_id fp) = 26%nat.
Proof.
  destruct (b32_encode_prefix 4 (Sum256 fp)) as (r & Hr & Ha & Hlen).
  { rewrite length_vec_to_list. cbn. lia. }
  rewrite length_vec_to_list in Hr. change (32 / 5)%nat with 6%nat in Hr.
  unfold raw_id. rewrite Hr, <- fmap_take. split.
  - replace (take 26 r) with (take 26 (take (8 * 4) r)) by (rewrite take_take; done).
    rewrite fmap_take. by apply Forall_take.
  - rewrite length_fmap, length_take. lia.
Qed.

Lemma EncodeToString_lower `{GoUnicode} fp :
  bytes_of (ToLower (EncodeToString (Sum256 fp))) = lower_byte <$> b32_encode 6 (Sum256 fp).
Proof.
  unfold ToLower, EncodeToString, is_ascii. rewrite bytes_of_string_of, length_vec_to_list.
  change (32 / 5)%nat with 6%nat. rewrite b32_ascii. unfold ascii_lower. by rewrite !bytes_of_string_of.
Qed.

Lemma NewNodeID_raw `{GoUnicode} fp :
  NewNodeIDFromFingerprint fp = string_of (join (segments (raw_id fp) 0 segment_lengths)).
Proof.
  unfold NewNodeIDFromFingerprint, formatSegments, raw_id.
  by rewrite EncodeToString_lower, bytes_of_string_of.
Qed.

(** Slicing 26 characters gives five full segments. *)
Lemma segments_26 l :
  length l = 26%nat →
  segments l 0 segment_lengths =
    [take 8 l; take 4 (drop 8 l); take 4 (drop 12 l); take 4 (drop 16 l); take 6 (drop 20 l)].
Proof. intros Hl. unfold segment_lengths, segments. rewrite !Hl. cbn [Nat.leb Nat.ltb Nat.add]. done. Qed.

Lemma alnum_slice l n m : alnum l → alnum (take n (drop m l)).
Proof. intros Hl. by apply Forall_take, Forall_drop. Qed.

Lemma mjoin_slices l :
  length l = 26%nat → mjoin (segments l 0 segment_lengths) = l.
Proof.
  intros Hl. rewrite segments_26 by done. cbn [mjoin list_join]. rewrite app_nil_r.
  rewrite !app_assoc. do 4 (rewrite take_take_drop; cbn [Nat.add]). apply take_ge. lia.
Qed.

Lemma Validate_ok n :
  Validate n = Ret () ↔
  nodeIDPattern false (bytes_of n) = true ∧
  (minIDLen ≤ length (strip_dashes (bytes_of n)) ≤ maxIDLen)%nat.
Proof.
  unfold Validate. destruct (String.eqb_spec n "") as [->|Hne]; [by split; [|intros [? _]]|].
  destruct (nodeIDPattern false (bytes_of n)); cbn [negb]; [|by split; [|intros [? _]]].
  set (r := length _).
  destruct (Nat.ltb_spec r minIDLen), (Nat.ltb_spec maxIDLen r); cbn [orb];
    (split; [try done|intros [_ ?]; try done; lia]).
Qed.

(** ** Properties *)

(** A NodeID derived from any fingerprint is valid and in canonical form: five
    dash-separated segments of 8, 4, 4, 4 and 6 characters, 26 letters and digits in all. *)
Theorem NewNodeID_valid `{GoUnicode} (fingerprint : list byte) :
  Validate (NewNodeIDFromFingerprint fingerprint) = Ret () ∧
  ∃ segs, bytes_of (NewNodeIDFromFingerprint fingerprint) = join segs ∧
    Forall alnum segs ∧ (length <$> segs) = [8; 4; 4; 4; 6]%nat.
Proof.
  destruct (raw_id_alnum fingerprint) as [Ha Hl]. rewrite NewNodeID_raw, Validate_ok, bytes_of_string_of.
  pose proof (mjoin_slices _ Hl) as Hj. pose proof (segments_26 _ Hl) as Hs. rewrite Hs in *.
  set (r := raw_id fingerprint) in *.
  assert (Forall alnum [take 8 r; take 4 (drop 8 r); take 4 (drop 12 r); take 4 (drop 16 r); take 6 (drop 20 r)])
    as Hall.
  { rewrite !Forall_cons. split_and!; [exact (alnum_slice r 8 0 Ha)|by apply alnum_slice..|constructor]. }
  assert ((length <$> [take 8 r; take 4 (drop 8 r); take 4 (drop 12 r); take 4 (drop 16 r); take 6 (drop 20 r)])
    = [8; 4; 4; 4; 6]%nat) as Hlens.
  { cbn [fmap list_fmap]. by rewrite !length_take, !length_drop, Hl. }
  split; [split|by eexists].
  - apply pattern_join; [|done]. apply Forall_forall. intros s Hin. rewrite Forall_forall in Hall.
    split; [|by apply Hall]. intros ->. apply (list_elem_of_fmap_2 length) in Hin. rewrite Hlens in Hin.
    cbn in Hin. apply list_elem_of_In in Hin. cbn in Hin. lia.
  - rewrite strip_join by done. rewrite Hj, Hl. unfold minIDLen, maxIDLen. lia.
Qed.

(** [Validate] accepts exactly the non-empty dash-separated runs of lower-case letters
    and digits with 16 to 52 characters besides the dashes. *)
Theorem Validate_spec (n : NodeID) :
  Validate n = Ret () ↔
  ∃ segs, Forall segment segs ∧ bytes_of n = join segs ∧ (16 ≤ length (mjoin segs) ≤ 52)%nat.
Proof.
  rewrite Validate_ok, pattern_spec. split.
  - intros [(segs & Hne & Hall & E) Hlen]. rewrite E in *. exists segs. split_and!; [done|done|..].
    all: rewrite strip_join in Hlen by (eapply Forall_impl; [exact Hall|by intros ? []]).
    all: unfold minIDLen, maxIDLen in Hlen; lia.
  - intros (segs & Hall & -> & Hlen). split.
    + exists segs. split_and!; [|done|done]. intros ->. cbn in Hlen. lia.
    + rewrite strip_join by (eapply Forall_impl; [exact Hall|by intros ? []]). exact Hlen.
Qed.

Lemma subnet_index_range `{GoUnicode} k : 0 <= saltedSubnetIndex k < 2 ^ 20.
Proof.
  unfold saltedSubnetIndex. change 0x000FFFFF with (Z.ones 20). rewrite Z.land_ones by lia.
  by apply Z.mod_pos_bound.
Qed.

(** The three octets of a 20-bit index, without loss. *)
Lemma subnet_octets i :
  0 <= i < 2 ^ 20 →
  let a := Zb (240 + bZ (Zb (Z.shiftr i 16))) in
  let b := Zb (Z.land (Z.shiftr i 8) 0xFF) in
  let c := Zb (Z.land i 0xFF) in
  240 <= bZ a ∧ i = (bZ a - 240) * 65536 + bZ b * 256 + bZ c.
Proof.
  intros Hi. cbn zeta. rewrite !bZ_Zb. change 0xFF with (Z.ones 8).
  rewrite !Z.land_ones, !Z.shiftr_div_pow2 by lia. change (2 ^ 8) with 256. change (2 ^ 16) with 65536.
  pose proof (Z.div_mod i 256 ltac:(lia)). pose proof (Z.div_mod (i / 256) 256 ltac:(lia)) as H2.
  pose proof (Z.mod_pos_bound i 256 ltac:(lia)). pose proof (Z.mod_pos_bound (i / 256) 256 ltac:(lia)).
  rewrite Z.div_div in H2 by lia. change (256 * 256) with 65536 in H2.
  rewrite !Z.mod_mod by lia. rewrite (Z.mod_small (i / 65536)) by lia.
  rewrite (Z.mod_small (240 + i / 65536)) by lia. lia.
Qed.

Lemma digest_case `{GoUnicode} k n m :
  is_ascii n = true → is_ascii m = true → NodeID_Equal n m = true → saltedDigest k n = saltedDigest k m.
Proof.
  intros Hn Hm. unfold NodeID_Equal, EqualFold, saltedDigest, ToLower. rewrite Hn, Hm. cbn [andb].
  intros E. reflect_tests. by rewrite E.
Qed.

(** C28: The addresses derived for a node in a room.  The room's subnet is a /24 inside
    240.0.0.0/4 from which the 20-bit subnet index can be read back; the node's IPv4 address
    lies in that subnet with a host byte from 1 to 254; its IPv6 address has the mesh /64
    prefix and carries six digest bytes; and NodeIDs that differ in letter case only derive
    the same addresses. *)
Theorem derived_addresses `{GoUnicode} (n : NodeID) (k : RoomKey) :
  (∃ a b c h : byte,
    DeriveRoomSubnet k = mkSubnet (Addr4 [# a; b; c; x00]) 24 ∧
    DeriveNodeIPv4 n k = Addr4 [# a; b; c; h] ∧
    saltedSubnetIndex k = (bZ a - 240) * 65536 + bZ b * 256 + bZ c ∧
    1 <= bZ h <= 254 ∧
    IsMeshIPv4 (DeriveNodeIPv4 n k) = true) ∧
  (∃ b6, DeriveIPv6Addr n k = Addr6 b6 "" ∧
    take 8 b6 = take 8 IPv6ULA ∧ drop 10 b6 = take 6 (saltedDigest k n) ∧
    IsMeshIPv6 (DeriveIPv6Addr n k) = true) ∧
  (∀ m, is_ascii n = true → is_ascii m = true → NodeID_Equal n m = true →
    DeriveNodeIPv4 n k = DeriveNodeIPv4 m k ∧ DeriveIPv6Addr n k = DeriveIPv6Addr m k).
Proof.
  split_and!.
  - destruct (subnet_octets _ (subnet_index_range k)) as [Ha Hi]. cbn zeta in Hi, Ha.
    do 3 eexists. exists (Zb (bZ (nth 6 (vec_to_list (saltedDigest k n)) x00) mod 254 + 1)).
    split_and!; [reflexivity|reflexivity|exact Hi|..].
    1-2: rewrite bZ_Zb; set (d := bZ _);
      pose proof (Z.mod_pos_bound d 254 ltac:(lia)); rewrite Z.mod_small; lia.
    apply Z.leb_le. exact Ha.
  - assert (length (vec_to_list (saltedDigest k n)) = 32%nat) as Hd by apply length_vec_to_list.
    eexists. unfold DeriveIPv6Addr. split; [reflexivity|].
    rewrite arr_copy_exact by (rewrite !length_app, !length_take, Hd; done).
    split_and!; [done|done|].
    unfold IsMeshIPv6. rewrite arr_copy_exact by (rewrite !length_app, !length_take, Hd; done).
    vm_compute. reflexivity.
  - intros m Hn Hm He. unfold DeriveNodeIPv4, DeriveIPv6Addr. by rewrite (digest_case k n m Hn Hm He).
Qed.

(** Two different pairs of mesh secret and room ID can denote the same room key: the
    hash input has no delimiter between them, so moving a prefix of the room ID to the end
    of the secret changes nothing. *)
Theorem DeriveRoomKey_ambiguous `{GoUnicode} (secret : list byte) (a b : string)
    (Ha : is_ascii a = true) (Hb : is_ascii b = true) (Hlow : ascii_lower a = a) :
  DeriveRoomKey (secret ++ bytes_of a) b [] = DeriveRoomKey secret (a +:+ b) [].
Proof.
  assert (is_ascii (a +:+ b) = true) as Hab.
  { unfold is_ascii in *. by rewrite bytes_of_app, forallb_app, Ha, Hb. }
  unfold DeriveRoomKey, ToLower. rewrite Hb, Hab. cbn [length Nat.ltb Nat.leb].
  f_equal. rewrite <- !app_assoc. do 3 f_equal.
  unfold ascii_lower in *. rewrite !bytes_of_string_of, bytes_of_app, fmap_app. f_equal.
  by rewrite <- (bytes_of_string_of (lower_byte <$> bytes_of a)), Hlow.
Qed.

Lemma DeriveRoomKey_ambiguous_witness :
  @DeriveRoomKey ascii_only (bytes_of "mesh-secretlab-") "1" []
  = @DeriveRoomKey ascii_only (bytes_of "mesh-secret") "lab-1" [].
Proof.
  exact (@DeriveRoomKey_ambiguous ascii_only (bytes_of "mesh-secret") "lab-" "1"
    eq_refl eq_refl eq_refl).
Defined.
