(* ===== verification/Protocol.v ===== *)
(** * The control-plane protocol ([internal/protocol/proto.go])

    Message types, payload records and the length-prefixed framing: four bytes of type, four
    bytes of length, and a JSON body.  [encoding/json] is a parameter: a partial marshaller
    and unmarshaller of payloads.  A reader is the byte sequence it will still deliver before
    it ends; a writer is a state with a write operation that may fail. *)

From S2P Require Import Prelude GoLib.

Open Scope Z_scope.

Module Protocol.

(** ** Message types *)

(** [type MessageType uint32]. *)
Definition MessageType : Type := Z.

Definition MsgHello : MessageType := 1.
Definition MsgChallenge : MessageType := 2.
Definition MsgAuth : MessageType := 3.
Definition MsgAuthOK : MessageType := 4.
Definition MsgNATProbe : MessageType := 5.
Definition MsgNATResult : MessageType := 6.
Definition MsgPunchReq : MessageType := 7.
Definition MsgPunchInfo : MessageType := 8.
Definition MsgKeepalive : MessageType := 9.
Definition MsgPeerList : MessageType := 10.
Definition MsgRoomMembers : MessageType := 11.
Definition MsgRoomJoin : MessageType := 12.
Definition MsgRoomLeave : MessageType := 13.
Definition MsgPortRuleSync : MessageType := 14.

Definition message_names : list string :=
  [""; "HELLO"; "CHALLENGE"; "AUTH"; "AUTH_OK"; "NAT_PROBE"; "NAT_RESULT"; "PUNCH_REQ";
   "PUNCH_INFO"; "KEEPALIVE"; "PEER_LIST"; "ROOM_MEMBERS"; "ROOM_JOIN"; "ROOM_LEAVE";
   "PORT_RULE_SYNC"].

Definition MessageType_String (m : MessageType) : string :=
  if (Z.of_nat (length message_names) <=? m) || (m =? 0) then "UNKNOWN"
  else nth (Z.to_nat m) message_names "".

(** ** Payloads *)

Record Hello := mkHello {
  hello_NodeID : string;
  hello_PubKey : list byte;
  hello_Cert : list byte;
  hello_Version : string;
}.

Record ServerEntry := mkServerEntry {
  se_Addr : string;
  se_PubKey : list byte;
  se_ID : string;
}.

Record Challenge := mkChallenge {
  ch_Nonce : list byte;
  ch_ServerCert : list byte;
  ch_Servers : list ServerEntry;
}.

Record Auth := mkAuth {
  auth_HandshakeMsg : list byte;
  auth_NodeID : string;
  auth_Signature : list byte;
}.

Record AuthOK := mkAuthOK {
  ok_IPv6Addr : string;
  ok_IPv4Addr : string;
  ok_RoomSubnet : string;
  ok_BootstrapPeers : list ServerEntry;
}.

Record NATProbe := mkNATProbe {
  np_NodeID : string;
  np_NATType : string;
  np_PublicAddr : string;
  np_PublicV6Addr : string;
  np_PortSamples : list Z;
}.

Record NATResult := mkNATResult {
  nr_NodeID : string;
  nr_NATType : string;
  nr_PublicAddr : string;
}.

Record PunchReq := mkPunchReq { pr_TargetNodeID : string }.

Record PunchInfo := mkPunchInfo {
  pi_TargetNodeID : string;
  pi_PublicAddr : string;
  pi_NATType : string;
  pi_PredictRange : Z * Z;
  pi_FireAt : Z;
}.

Record Keepalive := mkKeepalive { ka_Timestamp : Z }.

Record PeerEntry := mkPeerEntry {
  pe_NodeID : string;
  pe_IPv6Addr : string;
  pe_IPv4Addr : string;
  pe_PublicAddr : string;
  pe_NATType : string;
  pe_RoomID : string;
}.

Record PeerList := mkPeerList { pl_Peers : list PeerEntry }.
Record RoomMembers := mkRoomMembers { rm_RoomID : string; rm_Members : list PeerEntry }.
Record RoomJoin := mkRoomJoin { rj_RoomID : string; rj_Password : string }.
Record RoomLeave := mkRoomLeave { rl_RoomID : string }.

Record PortRule := mkPortRule {
  rule_ID : string;
  rule_Protocol : string;
  rule_LocalPort : Z;
  rule_VirtualPort : Z;
  rule_Description : string;
  rule_Enabled : bool;
}.

Record PortRuleSync := mkPortRuleSync { prs_Rules : list PortRule }.

(** The payload structs, one constructor each. *)
Inductive payload :=
| PHello (p : Hello)
| PChallenge (p : Challenge)
| PAuth (p : Auth)
| PAuthOK (p : AuthOK)
| PNATProbe (p : NATProbe)
| PNATResult (p : NATResult)
| PPunchReq (p : PunchReq)
| PPunchInfo (p : PunchInfo)
| PKeepalive (p : Keepalive)
| PPeerList (p : PeerList)
| PRoomMembers (p : RoomMembers)
| PRoomJoin (p : RoomJoin)
| PRoomLeave (p : RoomLeave)
| PPortRuleSync (p : PortRuleSync).

(** The struct a message type is decoded into. *)
Definition payload_kind (p : payload) : MessageType :=
  match p with
  | PHello _ => MsgHello | PChallenge _ => MsgChallenge | PAuth _ => MsgAuth
  | PAuthOK _ => MsgAuthOK | PNATProbe _ => MsgNATProbe | PNATResult _ => MsgNATResult
  | PPunchReq _ => MsgPunchReq | PPunchInfo _ => MsgPunchInfo | PKeepalive _ => MsgKeepalive
  | PPeerList _ => MsgPeerList | PRoomMembers _ => MsgRoomMembers | PRoomJoin _ => MsgRoomJoin
  | PRoomLeave _ => MsgRoomLeave | PPortRuleSync _ => MsgPortRuleSync
  end.

Definition ChallengeNonceLen : nat := 32.

Definition ChallengePayload (nonce : list byte) (nodeID : string) : list byte :=
  bytes_of "gop2pmesh/pop/v1:" ++ nonce ++ [x3a] ++ bytes_of nodeID.

(** ** Framing *)

(** [encoding/json] on these structs: [unmarshal k b] fills the struct of kind [k]. *)
Class Json := {
  marshal : payload → option (list byte);
  unmarshal : MessageType → list byte → option payload;
}.

(** [io.Writer]: the new state and whether the whole slice was written. *)
Record Writer (W : Type) := mkWriter { w_write : W → list byte → W * bool }.
Arguments w_write {W} _ _ _.

(** [bytes.Buffer]. *)
Definition buffer_writer : Writer (list byte) := mkWriter _ (λ out b, (out ++ b, true)).

Inductive codec_error :=
| ErrMarshal
| ErrWriteHeader
| ErrWriteBody
| ErrReadHeader
| ErrTooLarge (n : Z)
| ErrReadBody
| ErrUnmarshal.

Definition header (msgType : MessageType) (n : nat) : list byte :=
  be_put 4 msgType ++ be_put 4 (Z.of_nat n).

Section Framing.
Context `{Json}.

Definition Encode {W} (wr : Writer W) (w : W) (msgType : MessageType) (p : option payload) :
    W * outcome codec_error () :=
  match (match p with None => Some [] | Some p => marshal p end) with
  | None => (w, Fail ErrMarshal)
  | Some body =>
      let '(w, ok) := w_write wr w (header msgType (length body)) in
      if negb ok then (w, Fail ErrWriteHeader)
      else if (0 <? length body)%nat then
        let '(w, ok) := w_write wr w body in
        if negb ok then (w, Fail ErrWriteBody) else (w, Ret ())
      else (w, Ret ())
  end.

(** [io.ReadFull(r, make([]byte, n))]: [None] when the stream ends early. *)
Definition ReadFull (n : nat) (r : list byte) : option (list byte * list byte) :=
  if (n <=? length r)%nat then Some (take n r, drop n r) else None.

Definition max_payload : Z := 16 * 1024 * 1024.

(** The message type, the body and the rest of the stream. *)
Definition Decode (r : list byte) : outcome codec_error (MessageType * list byte * list byte) :=
  match ReadFull 8 r with
  | None => Fail ErrReadHeader
  | Some (h, r) =>
      let msgType := be_get (take 4 h) in
      let bodyLen := be_get (take 4 (drop 4 h)) in
      if bodyLen >? max_payload then Fail (ErrTooLarge bodyLen)
      else if bodyLen >? 0 then
        match ReadFull (Z.to_nat bodyLen) r with
        | None => Fail ErrReadBody
        | Some (body, r) => Ret (msgType, body, r)
        end
      else Ret (msgType, [], r)
  end.

(** [payload == nil] is [None]; otherwise the kind of the struct to fill. *)
Definition DecodeTo (r : list byte) (kind : option MessageType) :
    outcome codec_error (MessageType * option payload * list byte) :=
  '(msgType, body, r) ← Decode r;
  match kind with
  | None => Ret (msgType, None, r)
  | Some k =>
      if (length body =? 0)%nat then Ret (msgType, None, r)
      else match unmarshal k body with
           | None => Fail ErrUnmarshal
           | Some p => Ret (msgType, Some p, r)
           end
  end.

Definition EncodeToBuffer (msgType : MessageType) (p : option payload) : outcome codec_error (list byte) :=
  let '(out, res) := Encode buffer_writer [] msgType p in
  match res with
  | Ret _ => Ret out
  | Fail e => Fail e
  | Panic => Panic
  end.
End Framing.

End Protocol.
Export Protocol.

(** ** Frames *)

(** The bytes of one message on the wire. *)
Definition frame (msgType : MessageType) (body : list byte) : list byte :=
  header msgType (length body) ++ body.

(** A message the framing can carry. *)
Definition message_ok (m : MessageType * list byte) : Prop :=
  0 <= m.1 < 2 ^ 32 ∧ Z.of_nat (length m.2) <= max_payload.

(** Reads messages until the stream is exhausted, as a connection's read loop does. *)
Fixpoint decode_all (fuel : nat) (r : list byte) : outcome codec_error (list (MessageType * list byte)) :=
  match fuel with
  | O => Panic
  | S fuel' =>
      match r with
      | [] => Ret []
      | _ => '(t, b, r') ← Decode r; ms ← decode_all fuel' r'; Ret ((t, b) :: ms)
      end
  end.

Lemma length_header t n : length (header t n) = 8%nat.
Proof. unfold header. by rewrite length_app, !length_be_put. Qed.

Lemma header_fields h :
  length h = 8%nat → h = be_put 4 (be_get (take 4 h)) ++ be_put 4 (be_get (take 4 (drop 4 h))).
Proof.
  intros Hl.
  assert (length (take 4 h) = 4%nat) as H1 by (rewrite length_take; lia).
  assert (length (take 4 (drop 4 h)) = 4%nat) as H2 by (rewrite length_take, length_drop; lia).
  rewrite !be_put_get', take_take_drop by done. symmetry. apply take_ge. cbn. lia.
Qed.

Lemma take_header t n r : take 4 (header t n ++ r) = be_put 4 t.
Proof. unfold header. rewrite <- app_assoc. apply take_app_length'. by rewrite length_be_put. Qed.

Lemma Decode_frame t b r :
  message_ok (t, b) → Decode (frame t b ++ r) = Ret (t, b, r).
Proof.
  intros [Ht Hb]. cbn [fst snd] in *. unfold Decode, ReadFull, frame. rewrite <- app_assoc.
  rewrite !length_app, length_header, (proj2 (Nat.leb_le _ _)) by lia.
  rewrite (take_app_length' (header _ _)), (drop_app_length' (header _ _)) by (by rewrite length_header).
  unfold header. rewrite (take_app_length' (be_put 4 t)), (drop_app_length' (be_put 4 t))
    by (by rewrite length_be_put).
  rewrite (take_ge (be_put 4 (Z.of_nat _))) by (rewrite length_be_put; lia).
  rewrite !be_get_put, !Z.mod_small by (unfold max_payload in Hb; cbn; lia).
  rewrite Z.gtb_ltb, (proj2 (Z.ltb_ge _ _)) by lia.
  destruct (Z.gtb_spec (Z.of_nat (length b)) 0).
  - rewrite Nat2Z.id, length_app, (proj2 (Nat.leb_le _ _)) by lia.
    by rewrite take_app_length, drop_app_length.
  - destruct b; [done|cbn in *; lia].
Qed.

Lemma Decode_inv s t b r : Decode s = Ret (t, b, r) → s = frame t b ++ r ∧ message_ok (t, b).
Proof.
  unfold Decode, ReadFull. destruct (Nat.leb_spec 8 (length s)) as [Hl|]; [|done].
  set (h := take 8 s). assert (length h = 8%nat) as Hh by (unfold h; rewrite length_take; lia).
  pose proof (header_fields h Hh) as Hhdr.
  pose proof (be_get_range (take 4 h)) as R1. pose proof (be_get_range (take 4 (drop 4 h))) as R2.
  rewrite length_take, Hh in R1. rewrite length_take, length_drop, Hh in R2.
  set (ty := be_get (take 4 h)) in *. set (n := be_get (take 4 (drop 4 h))) in *. cbn zeta.
  destruct (Z.gtb_spec n max_payload); [done|].
  assert (s = be_put 4 ty ++ be_put 4 n ++ drop 8 s) as Es.
  { rewrite <- (take_drop 8 s) at 1. fold h. rewrite Hhdr, <- app_assoc. done. }
  unfold frame, header, message_ok. cbn [fst snd]. destruct (Z.gtb_spec n 0).
  - destruct (Nat.leb_spec (Z.to_nat n) (length (drop 8 s))); [|done]. intros [= <- <- <-].
    rewrite length_take, (Nat.min_l _ _ H1), Z2Nat.id, <- !app_assoc, take_drop by lia.
    split; [exact Es|]. cbn in R1. lia.
  - intros [= <- <- <-]. assert (n = 0) as Hn by lia. rewrite Hn in Es.
    rewrite app_nil_r, <- app_assoc. split; [exact Es|]. cbn in R1. cbn. unfold max_payload. lia.
Qed.

Lemma Encode_buffer `{Json} t p out :
  Encode buffer_writer out t p =
  match (match p with None => Some [] | Some p => marshal p end) with
  | None => (out, Fail ErrMarshal)
  | Some body => (out ++ frame t body, Ret ())
  end.
Proof.
  unfold Encode, frame. destruct (match p with None => _ | Some _ => _ end) as [body|]; [|done].
  cbn [w_write buffer_writer negb]. destruct body as [|b body]; cbn [length Nat.ltb Nat.leb].
  - by rewrite app_nil_r.
  - by rewrite <- app_assoc.
Qed.

Lemma frames_decode ms fuel :
  Forall message_ok ms → (length ms < fuel)%nat →
  decode_all fuel (mjoin ((λ m, frame m.1 m.2) <$> ms)) = Ret ms.
Proof.
  intros Hok. revert fuel. induction Hok as [|[t b] ms Hm Hok IH]; intros [|fuel] Hf;
    cbn [length] in Hf; try lia; [done|].
  cbn [fmap list_fmap mjoin list_join decode_all fst snd].
  destruct (frame t b ++ _) as [|c s] eqn:E.
  { unfold frame, header in E. cbn in E. done. }
  rewrite <- E, Decode_frame by done. cbn. rewrite IH by lia. done.
Qed.

(** ** Properties *)

(** C40: [Decode] returns a message exactly when the stream starts with its frame: type and
    length as big-endian 32-bit numbers, then that many bytes, at most 16 MiB; it leaves the
    rest of the stream unread, and it never panics. *)
Theorem Decode_exact (s : list byte) (t : MessageType) (b r : list byte) :
  (Decode s = Ret (t, b, r) ↔
     s = header t (length b) ++ b ++ r ∧ 0 <= t < 2 ^ 32 ∧ Z.of_nat (length b) <= 16777216) ∧
  Decode s ≠ Panic.
Proof.
  split; [split|].
  - intros [-> [Ht Hb]]%Decode_inv. unfold frame. by rewrite <- app_assoc.
  - intros (-> & Ht & Hb). rewrite app_assoc. by apply (Decode_frame t b r).
  - unfold Decode. repeat (case_match; try done).
Qed.

(** Encoding and decoding are inverse.  What [EncodeToBuffer] writes for a payload that
    JSON can represent is decoded by [DecodeTo] to the same type and payload, whatever
    follows in the stream; and a stream of any number of frames is decoded message by
    message to the sequence that was sent. *)
Theorem Encode_DecodeTo `{Json} (t : MessageType) (p : payload) (b r : list byte)
    (ms : list (MessageType * list byte))
    (Hm : marshal p = Some b) (Hu : unmarshal (payload_kind p) b = Some p) (Hne : b ≠ [])
    (Hok : message_ok (t, b)) (Hms : Forall message_ok ms) :
  (∃ out, EncodeToBuffer t (Some p) = Ret out ∧
     DecodeTo (out ++ r) (Some (payload_kind p)) = Ret (t, Some p, r)) ∧
  decode_all (S (length ms)) (mjoin ((λ m, header m.1 (length m.2) ++ m.2) <$> ms)) = Ret ms.
Proof.
  split; [|apply frames_decode; [done|lia]].
  exists (frame t b). unfold EncodeToBuffer. rewrite Encode_buffer, Hm. split; [done|].
  unfold DecodeTo. rewrite Decode_frame by done. cbn [mbind outcome_bind].
  destruct b; [done|]. cbn [length Nat.eqb]. by rewrite Hu.
Qed.

(** A codec for one struct, as [encoding/json] would give with another text. *)
Definition sample_json : Json := {|
  marshal p := match p with PRoomLeave m => Some (x7b :: bytes_of (rl_RoomID m)) | _ => None end;
  unmarshal k b :=
    match b with
    | x7b :: b' => if k =? MsgRoomLeave then Some (PRoomLeave (mkRoomLeave (string_of b'))) else None
    | _ => None
    end;
|}.

Lemma Encode_DecodeTo_witness :
  ∃ out, @EncodeToBuffer sample_json MsgRoomLeave (Some (PRoomLeave (mkRoomLeave "lab"))) = Ret out ∧
    @DecodeTo sample_json (out ++ [x01]) (Some MsgRoomLeave)
      = Ret (MsgRoomLeave, Some (PRoomLeave (mkRoomLeave "lab")), [x01]).
Proof.
  apply (@Encode_DecodeTo sample_json MsgRoomLeave (PRoomLeave (mkRoomLeave "lab"))
    (x7b :: bytes_of "lab") [x01] []); try reflexivity; try discriminate.
  - vm_compute. split; [split|]; discriminate || reflexivity.
  - constructor.
Defined.

(** The signed challenge payload binds both the nonce and the NodeID: payloads built
    from nonces of one length are equal only for the same nonce and the same NodeID, so a
    proof for one identity or one challenge is never a proof for another. *)
Theorem ChallengePayload_binds (nonce nonce' : list byte) (id id' : string)
    (Hlen : length nonce = length nonce')
    (Heq : ChallengePayload nonce id = ChallengePayload nonce' id') :
  nonce = nonce' ∧ id = id'.
Proof.
  unfold ChallengePayload in Heq. apply app_inj_1 in Heq as [_ Heq]; [|done].
  apply app_inj_1 in Heq as [-> Heq]; [|done]. split; [done|].
  apply app_inj_1 in Heq as [_ Heq]; [|done]. by apply bytes_of_inj.
Qed.

Lemma ChallengePayload_binds_witness :
  replicate ChallengeNonceLen x07 = replicate ChallengeNonceLen x07 ∧ "a" = "a".
Proof.
  apply (ChallengePayload_binds (replicate ChallengeNonceLen x07) (replicate ChallengeNonceLen x07)
    "a" "a" eq_refl eq_refl).
Defined.
