(* ===== verification/Bootstrap.v ===== *)
(** * The control-plane server and client ([internal/bootstrap/server.go])

    One client connection on the server is a state machine driven by decoded messages: HELLO
    fixes an identity and issues a random challenge, AUTH must carry an Ed25519 signature
    over that challenge, and only then AUTH_OK is sent.  The model keeps the connection
    record, the payloads sent on it, and the server's table of live connections; the network
    (accept, dial, deadlines), logging and goroutine scheduling are the environment.

    Ed25519 and [crypto/rand] are parameters: a signature scheme with its correctness law,
    and the random bytes (or failure) each call delivers. *)

From S2P Require Import Prelude GoLib Sha256 MeshTypes Protocol.

Open Scope Z_scope.

(** [crypto/ed25519]: what [Sign] produces under a key verifies under its public key. *)
Class Ed25519 := {
  PrivateKey : Type;
  public_of : PrivateKey → list byte;
  ed_sign : PrivateKey → list byte → list byte;
  ed_verify : list byte → list byte → list byte → bool;
}.

Class Ed25519Laws `{Ed25519} : Prop := {
  public_length k : length (public_of k) = 32%nat;
  verify_sign k m : ed_verify (public_of k) m (ed_sign k m) = true;
}.

Module Bootstrap.

(** ** The server's view of one connection *)

Record clientConn := mkConn {
  nodeID : string;
  pubKey : list byte;
  nonce : list byte;
  sent : list payload;
}.

Definition new_conn : clientConn := mkConn "" [] [] [].

Inductive boot_error :=
| ErrDecode (t : MessageType)
| ErrRejectHello (e : id_error)
| ErrRand
| ErrSend
| ErrAuthBeforeChallenge
| ErrKeyLength (n : nat)
| ErrProofNodeID
| ErrSignature
| ErrDeriveAddresses
| ErrUnknownType (t : MessageType).

(** What the environment supplies to one message: the outcome of [rand.Read], and whether
    writing and flushing the reply succeeds. *)
Record env := mkEnv {
  e_rand : option (vec byte ChallengeNonceLen);
  e_write : bool;
}.

Definition ed25519_PublicKeySize : nat := 32.

Section Server.
Context `{Json} `{Ed25519}.

(** [AddrResolver]; the field is nil until [SetAddrResolver] installs one. *)
Variable addrFn : option (string → option (string * string * string)).

(** [s.send]: encode and flush. *)
Definition send (e : env) (p : payload) (cc : clientConn) : clientConn * outcome boot_error () :=
  match marshal p with
  | None => (cc, Fail ErrSend)
  | Some _ =>
      if e_write e then (mkConn (nodeID cc) (pubKey cc) (nonce cc) (sent cc ++ [p]), Ret ())
      else (cc, Fail ErrSend)
  end.

Definition sendChallenge (e : env) (cc : clientConn) : clientConn * outcome boot_error () :=
  match e_rand e with
  | None => (cc, Fail ErrRand)
  | Some n =>
      let cc := mkConn (nodeID cc) (pubKey cc) n (sent cc) in
      send e (PChallenge (mkChallenge n [] [])) cc
  end.

Definition verifyProofOfPossession (cc : clientConn) (auth : Auth) : clientConn * outcome boot_error () :=
  if (length (nonce cc) =? 0)%nat then (cc, Fail ErrAuthBeforeChallenge)
  else if negb (length (pubKey cc) =? ed25519_PublicKeySize)%nat then
    (cc, Fail (ErrKeyLength (length (pubKey cc))))
  else if negb (String.eqb (auth_NodeID auth) "") && negb (String.eqb (auth_NodeID auth) (nodeID cc)) then
    (cc, Fail ErrProofNodeID)
  else
    let payload := ChallengePayload (nonce cc) (nodeID cc) in
    if negb (ed_verify (pubKey cc) payload (auth_Signature auth)) then (cc, Fail ErrSignature)
    else (mkConn (nodeID cc) (pubKey cc) [] (sent cc), Ret ()).

Definition sendAuthOK (e : env) (cc : clientConn) : clientConn * outcome boot_error () :=
  match addrFn with
  | None => send e (PAuthOK (mkAuthOK "" "" "" [])) cc
  | Some fn =>
      match fn (nodeID cc) with
      | None => (cc, Fail ErrDeriveAddresses)
      | Some (ipv6, ipv4, subnet) => send e (PAuthOK (mkAuthOK ipv6 ipv4 subnet [])) cc
      end
  end.

Definition handleMessage (e : env) (msgType : MessageType) (body : list byte) (cc : clientConn) :
    clientConn * outcome boot_error () :=
  if msgType =? MsgHello then
    match unmarshal MsgHello body with
    | Some (PHello hello) =>
        match Validate (hello_NodeID hello) with
        | Ret _ => sendChallenge e (mkConn (hello_NodeID hello) (hello_PubKey hello) (nonce cc) (sent cc))
        | Fail err => (cc, Fail (ErrRejectHello err))
        | Panic => (cc, Panic)
        end
    | _ => (cc, Fail (ErrDecode MsgHello))
    end
  else if msgType =? MsgAuth then
    match unmarshal MsgAuth body with
    | Some (PAuth auth) =>
        match verifyProofOfPossession cc auth with
        | (cc, Ret _) => sendAuthOK e cc
        | (cc, err) => (cc, err)
        end
    | _ => (cc, Fail (ErrDecode MsgAuth))
    end
  else if msgType =? MsgKeepalive then (cc, Ret ())
  else if msgType =? MsgNATProbe then
    match unmarshal MsgNATProbe body with
    | Some (PNATProbe _) => (cc, Ret ())
    | _ => (cc, Fail (ErrDecode MsgNATProbe))
    end
  else if msgType =? MsgRoomJoin then
    match unmarshal MsgRoomJoin body with
    | Some (PRoomJoin _) => (cc, Ret ())
    | _ => (cc, Fail (ErrDecode MsgRoomJoin))
    end
  else if msgType =? MsgRoomLeave then (cc, Ret ())
  else if msgType =? MsgPunchReq then
    match unmarshal MsgPunchReq body with
    | Some (PPunchReq _) => (cc, Ret ())
    | _ => (cc, Fail (ErrDecode MsgPunchReq))
    end
  else (cc, Fail (ErrUnknownType msgType)).

(** The message loop of [handleConn] on the bytes the peer sends: each round takes the next
    element of [envs] (their end is the cancelled context), and the loop returns on the first
    decoding or handling error. *)
Fixpoint message_loop (envs : list env) (r : list byte) (cc : clientConn) : clientConn :=
  match envs with
  | [] => cc
  | e :: envs' =>
      match Decode r with
      | Ret (t, body, r') =>
          match handleMessage e t body cc with
          | (cc', Ret _) => message_loop envs' r' cc'
          | (cc', _) => cc'
          end
      | _ => cc
      end
  end.

(** ** The client *)

(** [out] holds the bytes written to the server. *)
Record Client := mkClient {
  connected : bool;
  out : list byte;
}.

Definition NewClient : Client := mkClient false [].

Inductive client_error :=
| ErrAlreadyConnected
| ErrDial
| ErrNotConnected
| ErrCodec (e : codec_error).

Definition Connect (dial_ok : bool) (c : Client) : Client * outcome client_error () :=
  if connected c then (c, Fail ErrAlreadyConnected)
  else if negb dial_ok then (c, Fail ErrDial)
  else (mkClient true (out c), Ret ()).

Definition client_send (t : MessageType) (p : payload) (c : Client) : Client * outcome client_error () :=
  if negb (connected c) then (c, Fail ErrNotConnected)
  else
    let '(w, res) := Encode buffer_writer (out c) t (Some p) in
    match res with
    | Ret _ => (mkClient true w, Ret ())
    | Fail e => (mkClient true w, Fail (ErrCodec e))
    | Panic => (c, Panic)
    end.

Definition SendHello (id : string) (pub : list byte) (c : Client) :=
  client_send MsgHello (PHello (mkHello id pub [] "0.1.0")) c.

Definition SendNATProbe (natType publicAddr : string) (samples : list Z) (c : Client) :=
  client_send MsgNATProbe (PNATProbe (mkNATProbe "" natType publicAddr "" samples)) c.

Definition SendRoomJoin (roomID password : string) (c : Client) :=
  client_send MsgRoomJoin (PRoomJoin (mkRoomJoin roomID password)) c.

Definition SendKeepalive (now : Z) (c : Client) :=
  client_send MsgKeepalive (PKeepalive (mkKeepalive (time_unix now))) c.

Definition SendAuth (id : string) (n : list byte) (signPriv : PrivateKey) (c : Client) :=
  let payload := ChallengePayload n id in
  let sig := ed_sign signPriv payload in
  client_send MsgAuth (PAuth (mkAuth [] id sig)) c.

Definition RecvMessage (r : list byte) (c : Client) : outcome client_error (MessageType * list byte * list byte) :=
  if negb (connected c) then Fail ErrNotConnected
  else match Decode r with
       | Ret m => Ret m
       | Fail e => Fail (ErrCodec e)
       | Panic => Panic
       end.

Definition Close (c : Client) : Client := mkClient false (out c).
Definition IsConnected (c : Client) : bool := connected c.

End Server.
End Bootstrap.
Export Bootstrap.

(** ** Handling one message *)

Definition is_challenge (p : payload) : bool := match p with PChallenge _ => true | _ => false end.
Definition is_auth_ok (p : payload) : bool := match p with PAuthOK _ => true | _ => false end.

Section ServerFacts.
Context `{Json} `{Ed25519}.
Variable addrFn : option (string → option (string * string * string)).

(** The proof an AUTH message must carry. *)
Definition valid_proof (cc : clientConn) (auth : Auth) : Prop :=
  nonce cc ≠ [] ∧ length (pubKey cc) = 32%nat ∧
  (auth_NodeID auth = "" ∨ auth_NodeID auth = nodeID cc) ∧
  ed_verify (pubKey cc) (ChallengePayload (nonce cc) (nodeID cc)) (auth_Signature auth) = true.

(** The addresses AUTH_OK reports. *)
Definition reported (id : string) (ok : AuthOK) : Prop :=
  match addrFn with
  | None => ok = mkAuthOK "" "" "" []
  | Some fn => ∃ v6 v4 sub, fn id = Some (v6, v4, sub) ∧ ok = mkAuthOK v6 v4 sub []
  end.

Lemma send_ret e p cc cc' :
  send e p cc = (cc', Ret ()) →
  cc' = mkConn (nodeID cc) (pubKey cc) (nonce cc) (sent cc ++ [p]).
Proof. unfold send. repeat case_match; by intros [= <-]. Qed.

Lemma verify_ret cc auth cc' :
  verifyProofOfPossession cc auth = (cc', Ret ()) →
  valid_proof cc auth ∧ cc' = mkConn (nodeID cc) (pubKey cc) [] (sent cc).
Proof.
  unfold verifyProofOfPossession, valid_proof.
  destruct (Nat.eqb_spec (length (nonce cc)) 0) as [|Hn]; [done|].
  destruct (Nat.eqb_spec (length (pubKey cc)) ed25519_PublicKeySize) as [Hp|]; cbn [negb]; [|done].
  destruct (String.eqb_spec (auth_NodeID auth) ""), (String.eqb_spec (auth_NodeID auth) (nodeID cc));
    cbn [negb andb]; try done; destruct (ed_verify _ _ _) eqn:Hv; cbn [negb]; try done;
    intros [= <-]; (split; [|done]); split_and!; auto; intros E; by rewrite E in Hn.
Qed.

Lemma sendAuthOK_ret e cc cc' :
  sendAuthOK addrFn e cc = (cc', Ret ()) →
  ∃ ok, reported (nodeID cc) ok ∧
    cc' = mkConn (nodeID cc) (pubKey cc) (nonce cc) (sent cc ++ [PAuthOK ok]).
Proof.
  unfold sendAuthOK, reported. destruct addrFn as [fn|].
  - destruct (fn (nodeID cc)) as [[[v6 v4] sub]|] eqn:E; [|done].
    intros Hs%send_ret. eexists. split; [|exact Hs]. eauto.
  - intros Hs%send_ret. eexists. split; [|exact Hs]. done.
Qed.

(** The three ways a message is handled without error. *)
Lemma handleMessage_ret e t b cc cc' :
  handleMessage addrFn e t b cc = (cc', Ret ()) →
  (cc' = cc) ∨
  (∃ hello (n : vec byte ChallengeNonceLen),
     t = MsgHello ∧ unmarshal MsgHello b = Some (PHello hello) ∧ Validate (hello_NodeID hello) = Ret () ∧
     e_rand e = Some n ∧
     cc' = mkConn (hello_NodeID hello) (hello_PubKey hello) n
             (sent cc ++ [PChallenge (mkChallenge n [] [])])) ∨
  (∃ auth ok,
     t = MsgAuth ∧ unmarshal MsgAuth b = Some (PAuth auth) ∧ valid_proof cc auth ∧
     reported (nodeID cc) ok ∧
     cc' = mkConn (nodeID cc) (pubKey cc) [] (sent cc ++ [PAuthOK ok])).
Proof.
  unfold handleMessage. destruct (Z.eqb_spec t MsgHello) as [->|_].
  { destruct (unmarshal MsgHello b) as [[]|] eqn:E; try done.
    destruct (Validate _) as [[]| |] eqn:Ev; try done. unfold sendChallenge.
    destruct (e_rand e) as [n|]; [|done]. intros ->%send_ret. right. left. exists p, n. done. }
  destruct (Z.eqb_spec t MsgAuth) as [->|_].
  { destruct (unmarshal MsgAuth b) as [[]|] eqn:E; try done.
    destruct (verifyProofOfPossession cc p) as [cc1 [[]| |]] eqn:Ev; try done.
    apply verify_ret in Ev as [Hp ->]. intros (ok & Hok & ->)%sendAuthOK_ret.
    right. right. exists p, ok. done. }
  intros Hr. left. repeat (case_match; try done); by injection Hr.
Qed.

(** One message handled without error. *)
Definition conn_step (cc cc' : clientConn) : Prop :=
  ∃ e t b, handleMessage addrFn e t b cc = (cc', Ret ()).

(** ** The connection invariant *)

Definition challenges (l : list payload) : nat := length (filter (λ p, is_challenge p = true) l).
Definition auth_oks (l : list payload) : nat := length (filter (λ p, is_auth_ok p = true) l).

Record conn_ok (cc : clientConn) : Prop := {
  co_pending : nonce cc ≠ [] →
    length (nonce cc) = 32%nat ∧ Validate (nodeID cc) = Ret () ∧
    last (filter (λ p, is_challenge p = true) (sent cc))
      = Some (PChallenge (mkChallenge (nonce cc) [] []));
  co_balance : nonce cc ≠ [] → (auth_oks (sent cc) < challenges (sent cc))%nat;
  co_prefix k : (auth_oks (take k (sent cc)) ≤ challenges (take k (sent cc)))%nat;
}.

Lemma counts_snoc l p :
  challenges (l ++ [p]) = (challenges l + if is_challenge p then 1 else 0)%nat ∧
  auth_oks (l ++ [p]) = (auth_oks l + if is_auth_ok p then 1 else 0)%nat.
Proof.
  unfold challenges, auth_oks. rewrite !filter_app, !length_app.
  destruct p; cbn; by rewrite ?Nat.add_0_r.
Qed.

Lemma take_snoc_cases {A} k (l : list A) x : take k (l ++ [x]) = take k l ∨ take k (l ++ [x]) = l ++ [x].
Proof.
  destruct (decide (k ≤ length l)%nat).
  - left. by rewrite take_app_le.
  - right. apply take_ge. rewrite length_app. cbn. lia.
Qed.

Lemma co_total cc : conn_ok cc → (auth_oks (sent cc) ≤ challenges (sent cc))%nat.
Proof. intros Hcc. pose proof (co_prefix _ Hcc (length (sent cc))) as Hk. by rewrite take_ge in Hk. Qed.

Lemma conn_step_ok cc cc' : conn_ok cc → conn_step cc cc' → conn_ok cc'.
Proof.
  intros Hcc (e & t & b & Hh). pose proof (co_total cc Hcc) as Htot.
  apply handleMessage_ret in Hh
    as [->|[(hello & n & _ & _ & Hv & _ & ->)|(auth & ok & _ & _ & (Hn & _) & _ & ->)]]; [done|..].
  - destruct (counts_snoc (sent cc) (PChallenge (mkChallenge n [] []))) as [Hc Ha]. cbn in Hc, Ha.
    split; cbn [nonce sent nodeID].
    + intros _. split_and!; [apply length_vec_to_list|done|]. by rewrite filter_app, last_app.
    + intros _. rewrite Hc, Ha. lia.
    + intros k. destruct (take_snoc_cases k (sent cc) (PChallenge (mkChallenge n [] []))) as [->| ->];
        [apply Hcc|rewrite Hc, Ha; lia].
  - destruct (counts_snoc (sent cc) (PAuthOK ok)) as [Hc Ha]. cbn in Hc, Ha.
    pose proof (co_balance _ Hcc Hn). split; cbn [nonce sent]; [done|done|].
    intros k. destruct (take_snoc_cases k (sent cc) (PAuthOK ok)) as [->| ->];
      [apply Hcc|rewrite Hc, Ha; lia].
Qed.

Lemma new_conn_ok : conn_ok new_conn.
Proof. split; cbn; [done|done|intros k; by rewrite take_nil]. Qed.

Lemma reachable_conn_ok cc : rtc conn_step new_conn cc → conn_ok cc.
Proof.
  enough (∀ c, conn_ok c → rtc conn_step c cc → conn_ok cc) as Hi by (apply Hi, new_conn_ok).
  intros c Hc Hr. induction Hr; [done|]. eauto using conn_step_ok.
Qed.

(** A failed message adds nothing to what was sent. *)
Lemma handleMessage_fail e t b cc cc' r :
  handleMessage addrFn e t b cc = (cc', r) → r ≠ Ret () → sent cc' = sent cc.
Proof.
  intros Hh Hr. unfold handleMessage, sendChallenge, sendAuthOK, verifyProofOfPossession, send in Hh.
  repeat (case_match; simplify_eq/=; try done).
Qed.

(** Everything the loop sends was sent by handled messages. *)
Lemma message_loop_sent envs r cc :
  ∃ cc', rtc conn_step cc cc' ∧ sent (message_loop addrFn envs r cc) = sent cc'.
Proof.
  revert r cc. induction envs as [|e envs IH]; intros r cc; cbn [message_loop].
  { exists cc. split; [constructor|done]. }
  destruct (Decode r) as [[[t b] r']| |]; [|exists cc; split; [constructor|done]..].
  destruct (handleMessage addrFn e t b cc) as [cc1 [[]|err|]] eqn:Hh.
  - destruct (IH r' cc1) as (cc2 & Hr & Hs). exists cc2. split; [|done].
    eapply rtc_l, Hr. by exists e, t, b.
  - exists cc. split; [constructor|]. by eapply handleMessage_fail.
  - exists cc. split; [constructor|]. by eapply handleMessage_fail.
Qed.
End ServerFacts.

(** ** An honest registration *)

(** A payload that survives JSON and fits a frame. *)
Definition json_ok `{Json} (p : payload) : Prop :=
  ∃ b, marshal p = Some b ∧ unmarshal (payload_kind p) b = Some p ∧
       Z.of_nat (length b) <= max_payload.

Lemma client_send_frame `{Json} t p c b :
  connected c = true → marshal p = Some b →
  client_send t p c = (mkClient true (out c ++ frame t b), Ret ()).
Proof. intros Hc Hm. unfold client_send. rewrite Hc. cbn [negb]. by rewrite Encode_buffer, Hm. Qed.

Section Registration.
Context `{Json} `{Ed25519} `{!Ed25519Laws}.
Variables (id v6 v4 sub : string) (k : PrivateKey) (n : vec byte ChallengeNonceLen).
Variable fn : string → option (string * string * string).
Hypothesis Hid : Validate id = Ret ().
Hypothesis Hfn : fn id = Some (v6, v4, sub).

Lemma loop_hello e envs r cc b :
  marshal (PHello (mkHello id (public_of k) [] "0.1.0")) = Some b →
  unmarshal MsgHello b = Some (PHello (mkHello id (public_of k) [] "0.1.0")) →
  Z.of_nat (length b) <= max_payload → json_ok (PChallenge (mkChallenge n [] [])) →
  e_rand e = Some n → e_write e = true →
  message_loop (Some fn) (e :: envs) (frame MsgHello b ++ r) cc =
  message_loop (Some fn) envs r
    (mkConn id (public_of k) n (sent cc ++ [PChallenge (mkChallenge n [] [])])).
Proof.
  intros Hm Hu Hb (bc & Hmc & _) Hr Hw. cbn [message_loop].
  rewrite Decode_frame by (split; [cbn [fst]; unfold MsgHello, MsgAuth; lia|exact Hb]). unfold handleMessage.
  rewrite Z.eqb_refl, Hu. cbn [hello_NodeID hello_PubKey]. rewrite Hid. unfold sendChallenge.
  rewrite Hr. unfold send. by rewrite Hmc, Hw.
Qed.

Lemma loop_auth e envs r cc b :
  nodeID cc = id → pubKey cc = public_of k → nonce cc = n →
  unmarshal MsgAuth b = Some (PAuth (mkAuth [] id (ed_sign k (ChallengePayload n id)))) →
  Z.of_nat (length b) <= max_payload → json_ok (PAuthOK (mkAuthOK v6 v4 sub [])) →
  e_write e = true →
  message_loop (Some fn) (e :: envs) (frame MsgAuth b ++ r) cc =
  message_loop (Some fn) envs r
    (mkConn id (public_of k) [] (sent cc ++ [PAuthOK (mkAuthOK v6 v4 sub [])])).
Proof.
  intros Hi Hp Hn Hu Hb (bo & Hmo & _) Hw. cbn [message_loop].
  rewrite Decode_frame by (split; [cbn [fst]; unfold MsgHello, MsgAuth; lia|exact Hb]). unfold handleMessage.
  cbn [Z.eqb MsgAuth MsgHello Pos.eqb]. rewrite Hu. unfold verifyProofOfPossession.
  rewrite Hn, Hp, Hi, length_vec_to_list, public_length. cbn [auth_NodeID auth_Signature].
  rewrite String.eqb_refl, verify_sign. cbn. rewrite andb_false_r. unfold sendAuthOK. cbn. rewrite Hfn.
  unfold send. by rewrite Hmo, Hw.
Qed.
End Registration.

(** ** Properties *)

(** C7: AUTH_OK is sent only on a valid proof of possession.  If handling a message on a
    connection, after any messages handled before, sends AUTH_OK, the message is an AUTH
    whose signature verifies, under the 32-byte public key given in the HELLO, over the
    32-byte nonce of the last challenge issued on this connection and the valid NodeID given
    in the HELLO; the nonce is consumed, and the reported addresses are the resolver's. *)
Theorem auth_ok_requires_proof `{Json} `{Ed25519} addrFn cc e t body cc' r ok
    (Hreach : rtc (conn_step addrFn) new_conn cc)
    (Hh : handleMessage addrFn e t body cc = (cc', r))
    (Hsent : sent cc' = sent cc ++ [PAuthOK ok]) :
  ∃ auth n, t = MsgAuth ∧ unmarshal MsgAuth body = Some (PAuth auth) ∧
    last (filter (λ p, is_challenge p = true) (sent cc)) = Some (PChallenge (mkChallenge n [] [])) ∧
    length n = ChallengeNonceLen ∧ length (pubKey cc) = 32%nat ∧ Validate (nodeID cc) = Ret () ∧
    ed_verify (pubKey cc) (ChallengePayload n (nodeID cc)) (auth_Signature auth) = true ∧
    nonce cc' = [] ∧ reported addrFn (nodeID cc) ok.
Proof.
  pose proof (reachable_conn_ok _ _ Hreach) as Hok.
  assert (∀ l : list payload, sent cc ≠ sent cc ++ [PAuthOK ok]) as Hne.
  { intros _ E. apply (f_equal length) in E. rewrite length_app in E. cbn in E. lia. }
  destruct r as [[]|err|]; [|by pose proof (handleMessage_fail _ _ _ _ _ _ _ Hh ltac:(done)) as E;
    rewrite Hsent in E; destruct (Hne []); symmetry..].
  apply handleMessage_ret in Hh
    as [->|[(hello & n & _ & _ & _ & _ & ->)|(auth & ok' & -> & Hu & (Hn & Hp & _ & Hv) & Hrep & ->)]].
  - by destruct (Hne []).
  - cbn in Hsent. by apply app_inv_head in Hsent.
  - cbn in Hsent. apply app_inv_head in Hsent. injection Hsent as ->.
    destruct (co_pending _ Hok Hn) as (Hlen & Hval & Hlast). exists auth, (nonce cc). done.
Qed.

(** Whatever bytes a client sends, at every moment the server has sent at most as many
    AUTH_OK messages on the connection as challenges: one challenge admits one
    registration, and none is admitted before a challenge. *)
Theorem auth_ok_per_challenge `{Json} `{Ed25519} addrFn (envs : list env) (r : list byte) (k : nat) :
  let s := take k (sent (message_loop addrFn envs r new_conn)) in
  (length (filter (λ p, is_auth_ok p = true) s) ≤ length (filter (λ p, is_challenge p = true) s))%nat.
Proof.
  destruct (message_loop_sent addrFn envs r new_conn) as (cc & Hr & ->). cbn zeta.
  exact (co_prefix _ (reachable_conn_ok _ _ Hr) k).
Qed.

(** C39: An honest client registers.  With a valid NodeID, the bytes a client writes by
    [SendHello] and, on the nonce it was challenged with, [SendAuth] drive the server to
    send exactly that challenge and then AUTH_OK with the addresses of the NodeID. *)
Theorem honest_registration `{Json} `{Ed25519} `{!Ed25519Laws} (id v6 v4 sub : string)
    (k : PrivateKey) (n : vec byte ChallengeNonceLen) (fn : string → option (string * string * string))
    (Hid : Validate id = Ret ()) (Hfn : fn id = Some (v6, v4, sub))
    (Hhello : json_ok (PHello (mkHello id (public_of k) [] "0.1.0")))
    (Hchal : json_ok (PChallenge (mkChallenge n [] [])))
    (Hauth : json_ok (PAuth (mkAuth [] id (ed_sign k (ChallengePayload n id)))))
    (Hauthok : json_ok (PAuthOK (mkAuthOK v6 v4 sub []))) :
  let c0 := (Connect true NewClient).1 in
  let c1 := (SendHello id (public_of k) c0).1 in
  let c2 := (SendAuth id n k c1).1 in
  sent (message_loop (Some fn) [mkEnv (Some n) true; mkEnv None true] (out c2) new_conn)
    = [PChallenge (mkChallenge n [] []); PAuthOK (mkAuthOK v6 v4 sub [])].
Proof.
  destruct Hhello as (bh & Hmh & Huh & Hlh), Hauth as (ba & Hma & Hua & Hla).
  cbn zeta. unfold SendHello. rewrite (client_send_frame _ _ _ bh) by done. cbn [fst].
  unfold SendAuth. rewrite (client_send_frame _ _ _ ba) by done. cbn [fst out app].
  rewrite (loop_hello id k n fn Hid _ _ _ _ bh) by done.
  rewrite <- (app_nil_r (frame MsgAuth ba)).
  rewrite (loop_auth id v6 v4 sub k n fn Hfn _ _ _ _ ba) by done. done.
Qed.

(** ** A concrete run *)

(** A signature scheme that satisfies the law (and hides nothing). *)
Definition toy_ed : Ed25519 := {|
  PrivateKey := vec byte 32;
  public_of k := vec_to_list k;
  ed_sign k m := vec_to_list k ++ m;
  ed_verify p m s := bool_decide (s = p ++ m);
|}.

Lemma toy_ed_laws : @Ed25519Laws toy_ed.
Proof. split; intros; cbn; [apply length_vec_to_list|by apply bool_decide_eq_true]. Qed.

Definition run_id : string := "a3f9k2m8-7p1q-x4r6-9m2p-abc123".
Definition run_key : vec byte 32 := arr_copy 32 [x11; x22].
Definition run_nonce : vec byte ChallengeNonceLen := arr_copy 32 [x2a].
Definition run_hello : payload := PHello (mkHello run_id run_key [] "0.1.0").
Definition run_auth : payload :=
  PAuth (mkAuth [] run_id (@ed_sign toy_ed run_key (ChallengePayload run_nonce run_id))).

(** A codec that knows the messages of this run, one byte of text each. *)
Definition run_json : Json := {|
  marshal p := Some [Zb (payload_kind p)];
  unmarshal k b :=
    if k =? MsgHello then Some run_hello
    else if k =? MsgAuth then Some run_auth
    else if k =? MsgChallenge then Some (PChallenge (mkChallenge run_nonce [] []))
    else if k =? MsgAuthOK then Some (PAuthOK (mkAuthOK "v6" "v4" "net" []))
    else None;
|}.

Definition run_fn (id : string) : option (string * string * string) := Some ("v6", "v4", "net").
Definition run_env : env := mkEnv (Some run_nonce) true.

(** The connection after the HELLO of the run. *)
Definition run_conn : clientConn :=
  (@handleMessage run_json toy_ed (Some run_fn) run_env MsgHello [x01] new_conn).1.

Lemma run_conn_reachable : rtc (@conn_step run_json toy_ed (Some run_fn)) new_conn run_conn.
Proof. apply rtc_once. exists run_env, MsgHello, [x01]. vm_compute. reflexivity. Qed.

Lemma auth_ok_requires_proof_witness :
  nonce (@handleMessage run_json toy_ed (Some run_fn) run_env MsgAuth [x03] run_conn).1 = [].
Proof.
  destruct (@auth_ok_requires_proof run_json toy_ed (Some run_fn) run_conn run_env MsgAuth [x03]
    (@handleMessage run_json toy_ed (Some run_fn) run_env MsgAuth [x03] run_conn).1 (Ret ())
    (mkAuthOK "v6" "v4" "net" []) run_conn_reachable)
    as (auth & n & _ & _ & _ & _ & _ & _ & _ & Hn & _).
  - vm_compute. reflexivity.
  - vm_compute. reflexivity.
  - exact Hn.
Defined.

Lemma honest_registration_witness :
  let c0 := (Connect true NewClient).1 in
  let c1 := (@SendHello run_json run_id run_key c0).1 in
  let c2 := (@SendAuth run_json toy_ed run_id run_nonce run_key c1).1 in
  length (sent (@message_loop run_json toy_ed (Some run_fn)
    [mkEnv (Some run_nonce) true; mkEnv None true] (out c2) new_conn))
  = length [PChallenge (mkChallenge run_nonce [] []); PAuthOK (mkAuthOK "v6" "v4" "net" [])].
Proof.
  cbn zeta. apply (f_equal length).
  apply (@honest_registration run_json toy_ed toy_ed_laws run_id "v6" "v4" "net" run_key run_nonce run_fn);
    [vm_compute; reflexivity|reflexivity|..];
    (eexists; split_and!; [reflexivity|vm_compute; reflexivity|vm_compute; discriminate]).
Defined.
