(* ===== verification/Tunnel.v ===== *)
(** * The encrypted tunnel ([internal/tunnel/tunnel.go], [mtu.go])

    A tunnel frames each packet as [seq(8) clen(2) ciphertext] over a connection, with the
    sequence number as AEAD nonce and additional data, and drops packets whose sequence
    number its sliding window has passed.  The AEAD cipher is a parameter with its documented
    laws; the connection is the bytes still to be received and the bytes written so far.

    The manager maps NodeIDs to tunnels.  Tunnels are shared by pointer, so they live in a
    heap of their own and the manager stores locations. *)

From S2P Require Import Prelude GoLib.

Open Scope Z_scope.

(** [crypto/cipher.AEAD]. *)
Class AEAD := {
  aead_seal : list byte → list byte → list byte → list byte;
  aead_open : list byte → list byte → list byte → option (list byte);
  Overhead : nat;
}.

(** What [Seal] produces opens under the same nonce and data; it is [Overhead] bytes longer. *)
Class AEADLaws `{AEAD} : Prop := {
  open_seal nonce p ad : aead_open nonce (aead_seal nonce p ad) ad = Some p;
  length_seal nonce p ad : length (aead_seal nonce p ad) = (length p + Overhead)%nat;
}.

Module Tunnel.

(** ** The replay window *)

Record replayWindow := mkWindow {
  bitmap : list Z;
  size : Z;
  last : Z;
}.

Definition newReplayWindow (size : Z) : replayWindow :=
  let size := if size <=? 0 then 1024 else size in
  mkWindow (replicate (Z.to_nat ((size + 63) / 64)) 0) size 0.

(** The shifting loop of [allow], [i] counting down; [k] is [shift/64]. *)
Fixpoint shift_loop (i : nat) (k : Z) (bm : list Z) : list Z :=
  let v := if 0 <=? Z.of_nat i - k then bm !!! Z.to_nat (Z.of_nat i - k) else 0 in
  let bm := <[i := v]> bm in
  match i with
  | O => bm
  | S i' => shift_loop i' k bm
  end.

Definition set_bit (word : nat) (bit : Z) (bm : list Z) : list Z :=
  <[word := Z.lor (bm !!! word) (Z.shiftl 1 bit)]> bm.

(** [seq] and [last] are [uint64]; [None] is an index panic. *)
Definition allow (seq : Z) (w : replayWindow) : option (replayWindow * bool) :=
  if (seq <=? last w) && (last w - seq <? size w) then
    let idx := last w - seq in
    let word := Z.to_nat (idx / 64) in
    let bit := idx mod 64 in
    v ← bitmap w !! word;
    if negb (Z.land v (Z.shiftl 1 bit) =? 0) then Some (w, false)
    else Some (mkWindow (set_bit word bit (bitmap w)) (size w) (last w), false)
  else
    let w :=
      if last w <? seq then
        let diff := seq - last w in
        let bm :=
          if size w <=? diff then replicate (length (bitmap w)) 0
          else match bitmap w with
               | [] => []
               | _ => shift_loop (pred (length (bitmap w))) (diff / 64) (bitmap w)
               end in
        mkWindow bm (size w) seq
      else w in
    _ ← bitmap w !! 0%nat;
    Some (mkWindow (set_bit 0 0 (bitmap w)) (size w) (last w), true).

(** ** The tunnel *)

Inductive Transport :=
| TransportKCP
| TransportUDP
| TransportTCP.

(** A connection: bytes to be received, bytes written, closed. *)
Record Conn := mkConn {
  rx : list byte;
  tx : list byte;
  conn_closed : bool;
}.

Record Tunnel := mkTunnel {
  conn : Conn;
  transport : Transport;
  mtu : Z;
  closed : bool;
  sendSeq : Z;
  recvWindow : replayWindow;
}.

Inductive tunnel_error :=
| ErrClosedPipe
| ErrReadHeader
| ErrCiphertextLength (n : Z)
| ErrReadCiphertext
| ErrDecrypt
| ErrPacketSize (n : Z)
| ErrWrite.

Definition NewTunnel (c : Conn) (tr : Transport) (m : Z) : Tunnel :=
  mkTunnel c tr (if m <=? 0 then 1280 else m) false 0 (newReplayWindow 1024).

Definition set_rx (l : list byte) (t : Tunnel) : Tunnel :=
  mkTunnel (mkConn l (tx (conn t)) (conn_closed (conn t))) (transport t) (mtu t) (closed t)
    (sendSeq t) (recvWindow t).
Definition set_tx (l : list byte) (t : Tunnel) : Tunnel :=
  mkTunnel (mkConn (rx (conn t)) l (conn_closed (conn t))) (transport t) (mtu t) (closed t)
    (sendSeq t) (recvWindow t).
Definition set_window (w : replayWindow) (t : Tunnel) : Tunnel :=
  mkTunnel (conn t) (transport t) (mtu t) (closed t) (sendSeq t) w.
Definition set_seq (s : Z) (t : Tunnel) : Tunnel :=
  mkTunnel (conn t) (transport t) (mtu t) (closed t) s (recvWindow t).

(** [io.ReadFull(t.conn, buf)]: a short stream is consumed and the call fails. *)
Definition read_full (n : nat) (l : list byte) : option (list byte) * list byte :=
  if (n <=? length l)%nat then (Some (take n l), drop n l) else (None, []).

(** [var nonce [12]byte; PutUint64(nonce[:8], seq)]. *)
Definition nonce_of (seq : Z) : list byte := be_put 8 seq ++ replicate 4 x00.

Section Cipher.
Context `{AEAD}.

(** Reads into a buffer of [plen] bytes: the returned count and the bytes copied. *)
Definition Read (plen : nat) (t : Tunnel) : Tunnel * outcome tunnel_error (nat * list byte) :=
  if closed t then (t, Fail ErrClosedPipe)
  else
    match read_full 10 (rx (conn t)) with
    | (None, r) => (set_rx r t, Fail ErrReadHeader)
    | (Some hdr, r) =>
        let t := set_rx r t in
        let seq := be_get (take 8 hdr) in
        let clen := be_get (drop 8 hdr) in
        if clen >? mtu t + Z.of_nat Overhead then (t, Fail (ErrCiphertextLength clen))
        else
          match allow seq (recvWindow t) with
          | None => (t, Panic)
          | Some (w, false) =>
              let t := set_window w t in
              let '(_, r) := read_full (Z.to_nat clen) (rx (conn t)) in
              (set_rx r t, Ret (0%nat, []))
          | Some (w, true) =>
              let t := set_window w t in
              match read_full (Z.to_nat clen) (rx (conn t)) with
              | (None, r) => (set_rx r t, Fail ErrReadCiphertext)
              | (Some cipherBuf, r) =>
                  let t := set_rx r t in
                  match aead_open (nonce_of seq) cipherBuf (take 8 hdr) with
                  | None => (t, Fail ErrDecrypt)
                  | Some plaintext => (t, Ret (length plaintext, take plen plaintext))
                  end
              end
          end
    end.

(** The wire bytes of packet [p] under sequence number [seq]. *)
Definition packet (seq : Z) (p : list byte) : list byte :=
  let ciphertext := aead_seal (nonce_of seq) p (be_put 8 seq) in
  be_put 8 seq ++ be_put 2 (Z.of_nat (length ciphertext)) ++ ciphertext.

(** [fault]: [None] when [conn.Write] succeeds, otherwise how many bytes it wrote before
    failing. *)
Definition Write (fault : option nat) (p : list byte) (t : Tunnel) :
    Tunnel * outcome tunnel_error nat :=
  if closed t then (t, Fail ErrClosedPipe)
  else if Z.of_nat (length p) >? mtu t then (t, Fail (ErrPacketSize (Z.of_nat (length p))))
  else
    let seq := (sendSeq t + 1) mod 2 ^ 64 in
    let t := set_seq seq t in
    let buf := packet seq p in
    match fault with
    | Some n => (set_tx (tx (conn t) ++ take n buf) t, Fail ErrWrite)
    | None => (set_tx (tx (conn t) ++ buf) t, Ret (length p))
    end.
End Cipher.

Definition Close (t : Tunnel) : Tunnel :=
  mkTunnel (mkConn (rx (conn t)) (tx (conn t)) true) (transport t) (mtu t) true
    (sendSeq t) (recvWindow t).

(** ** Transport selection *)

(** The dynamic type of the [net.Conn]. *)
Inductive conn_kind :=
| UDPConn
| TCPConn
| OtherConn.

Inductive select_error :=
| ErrNilConn
| ErrNilAEAD
| ErrNoReliableTransport.

Definition TransportSelect (c : option (conn_kind * Conn)) (has_aead : bool) (m : Z)
    (allowUnreliableFallback : bool) : outcome select_error Tunnel :=
  match c with
  | None => Fail ErrNilConn
  | Some (kind, c) =>
      if negb has_aead then Fail ErrNilAEAD
      else match kind with
           | UDPConn =>
               if negb allowUnreliableFallback then Fail ErrNoReliableTransport
               else Ret (NewTunnel c TransportUDP m)
           | TCPConn => Ret (NewTunnel c TransportTCP m)
           | OtherConn => Ret (NewTunnel c TransportUDP m)
           end
  end.

(** ** MTU arithmetic (mtu.go) *)

Definition IPv4HeaderLen : Z := 20.
Definition IPv6HeaderLen : Z := 40.
Definition UDPHeaderLen : Z := 8.
Definition KCPOverhead : Z := 24.
Definition NoiseOverhead : Z := 8 + 16.

Definition OuterHeaderLen (isIPv6 : bool) : Z := if isIPv6 then IPv6HeaderLen else IPv4HeaderLen.

Definition EncapsulationOverhead (isIPv6 : bool) : Z :=
  OuterHeaderLen isIPv6 + UDPHeaderLen + NoiseOverhead + KCPOverhead.

Definition InnerMTU (pathMTU : Z) (outerIsIPv6 : bool) : Z :=
  pathMTU - EncapsulationOverhead outerIsIPv6.

Inductive mtu_error :=
| ErrMTUNotPositive
| ErrMTUExceedsPath (maxInner : Z).

Definition ValidateMTU (innerMTU pathMTU : Z) (outerIsIPv6 : bool) : outcome mtu_error () :=
  if innerMTU <? 1 then Fail ErrMTUNotPositive
  else
    let maxInner := InnerMTU pathMTU outerIsIPv6 in
    if innerMTU >? maxInner then Fail (ErrMTUExceedsPath maxInner) else Ret ().

(** [Some] stands for a non-empty advisory. *)
Definition MTUAdvisory (innerMTU : Z) : option Z :=
  if innerMTU <? 1280 then Some (InnerMTU 1500 true) else None.

(** ** The manager *)

(** The heap of tunnels, and the manager's map from NodeID to tunnel. *)
Abbreviation loc := nat (only parsing).
Abbreviation heap := (gmap loc Tunnel).
Abbreviation Manager := (gmap string loc).

Definition NewManager : Manager := ∅.

Definition Get (nodeID : string) (m : Manager) : option loc := m !! nodeID.

(** [old.Close()] on a stored pointer. *)
Definition close_at (l : loc) (h : heap) : heap := alter Close l h.

Definition Add (nodeID : string) (l : loc) (m : Manager) (h : heap) : Manager * heap :=
  let h := match m !! nodeID with Some old => close_at old h | None => h end in
  (<[nodeID := l]> m, h).

Definition Remove (nodeID : string) (m : Manager) (h : heap) : Manager * heap :=
  match m !! nodeID with
  | Some l => (delete nodeID m, close_at l h)
  | None => (m, h)
  end.

(** [range] over a map visits the keys in no specified order: the result is a set. *)
Definition All (m : Manager) : gset string := dom m.
Definition Count (m : Manager) : nat := base.size m.

Definition CloseAll (m : Manager) (h : heap) : Manager * heap :=
  (∅, map_fold (λ _ l h, close_at l h) h m).

End Tunnel.

(** * Facts about tunnels *)

Module TunnelFacts.
Import Tunnel.

(** ** The window accepts by position only *)

Record window_ok (w : replayWindow) : Prop := {
  wo_size : 0 < size w;
  wo_bitmap : length (bitmap w) = Z.to_nat ((size w + 63) / 64);
  wo_last : 0 <= last w < 2 ^ 64;
}.

(** The decision of [allow]: ahead of the window, or behind all of it. *)
Definition accepts (w : replayWindow) (seq : Z) : bool :=
  (last w <? seq) || (size w <=? last w - seq).

Lemma accepts_true w seq : accepts w seq = true ↔ last w < seq ∨ size w <= last w - seq.
Proof. unfold accepts. by rewrite orb_true_iff, Z.ltb_lt, Z.leb_le. Qed.

Lemma length_shift_loop i k bm : length (shift_loop i k bm) = length bm.
Proof.
  revert bm. induction i as [|i IH]; intros bm; cbn [shift_loop]; [apply length_insert|].
  by rewrite IH, length_insert.
Qed.

Lemma newReplayWindow_ok n : window_ok (newReplayWindow n).
Proof.
  unfold newReplayWindow. split; cbn [size bitmap last].
  - destruct (Z.leb_spec n 0); lia.
  - by rewrite length_replicate.
  - lia.
Qed.

Lemma bitmap_nonempty w : window_ok w → (0 < length (bitmap w))%nat.
Proof.
  intros Hw. rewrite (wo_bitmap _ Hw). pose proof (wo_size _ Hw).
  enough (1 <= (size w + 63) / 64) by lia. apply Z.div_le_lower_bound; lia.
Qed.

Lemma set_bit_ok w word bit :
  window_ok w → window_ok (mkWindow (set_bit word bit (bitmap w)) (size w) (last w)).
Proof. intros [Hs Hb Hl]. split; cbn [size last bitmap]; [done| |done]. unfold set_bit. by rewrite length_insert. Qed.

(** The word of an in-window index exists. *)
Lemma window_word w idx :
  window_ok w → 0 <= idx < size w → is_Some (bitmap w !! Z.to_nat (idx / 64)).
Proof.
  intros [Hs Hb _] Hidx. apply lookup_lt_is_Some_2. rewrite Hb.
  pose proof (Z.div_mod (size w + 63) 64 ltac:(lia)).
  pose proof (Z.mod_pos_bound (size w + 63) 64 ltac:(lia)).
  pose proof (Z.div_pos idx 64 ltac:(lia) ltac:(lia)).
  enough (idx / 64 < (size w + 63) / 64) by lia. apply Z.div_lt_upper_bound; lia.
Qed.

(** Moving the window forward to [seq]. *)
Lemma advance_ok w seq :
  window_ok w → last w < seq < 2 ^ 64 →
  window_ok (mkWindow
    (if size w <=? seq - last w then replicate (length (bitmap w)) 0
     else match bitmap w with
          | [] => []
          | _ => shift_loop (pred (length (bitmap w))) ((seq - last w) / 64) (bitmap w)
          end) (size w) seq).
Proof.
  intros [Hs Hb Hl] Hseq. split; cbn [size last bitmap]; [done| |lia]. rewrite <- Hb.
  destruct (_ <=? _); [by rewrite length_replicate|].
  destruct (bitmap w); [done|]. by rewrite length_shift_loop.
Qed.

Lemma mark_newest w :
  window_ok w →
  (_ ← bitmap w !! 0%nat; Some (mkWindow (set_bit 0 0 (bitmap w)) (size w) (last w), true)) =
  Some (mkWindow (set_bit 0 0 (bitmap w)) (size w) (last w), true).
Proof. intros Hw. destruct (lookup_lt_is_Some_2 _ _ (bitmap_nonempty w Hw)) as [v ->]. done. Qed.

Lemma allow_spec w seq :
  window_ok w → 0 <= seq < 2 ^ 64 →
  ∃ w', allow seq w = Some (w', accepts w seq) ∧ window_ok w' ∧
        size w' = size w ∧ last w' = Z.max (last w) seq.
Proof.
  intros Hw Hseq. unfold allow, accepts.
  destruct (Z.leb_spec seq (last w)) as [Hle|Hgt]; cbn [andb].
  - rewrite (proj2 (Z.ltb_ge (last w) seq)) by lia. cbn [orb].
    destruct (Z.ltb_spec (last w - seq) (size w)) as [Hin|Hout].
    + destruct (window_word w (last w - seq) Hw ltac:(lia)) as [v Hv]. rewrite Hv. cbn [mbind option_bind].
      rewrite (proj2 (Z.leb_gt _ _)) by lia.
      destruct (negb _); eexists; (split; [reflexivity|]); cbn [size last];
        (split_and!; [|done|lia]); [done|by apply set_bit_ok].
    + rewrite mark_newest by done. rewrite (proj2 (Z.leb_le (size w) _)) by lia.
      eexists. split; [reflexivity|]. cbn [size last]. split_and!; [by apply set_bit_ok|done|lia].
  - rewrite (proj2 (Z.ltb_lt (last w) seq)) by lia. cbn [orb].
    pose proof (advance_ok w seq Hw ltac:(lia)) as Ha. rewrite mark_newest by done.
    eexists. split; [reflexivity|]. split_and!; [exact (set_bit_ok _ 0 0 Ha)|done|cbn; lia].
Qed.

(** A window fed with any sequence numbers. *)
Fixpoint allow_all (seqs : list Z) (w : replayWindow) : option replayWindow :=
  match seqs with
  | [] => Some w
  | s :: seqs' => '(w', _) ← allow s w; allow_all seqs' w'
  end.

Lemma allow_all_spec seqs w :
  window_ok w → Forall (λ s, 0 <= s < 2 ^ 64) seqs →
  ∃ w', allow_all seqs w = Some w' ∧ window_ok w' ∧ size w' = size w ∧ last w <= last w'.
Proof.
  intros Hw Hs. revert w Hw. induction Hs as [|s seqs Hs Hall IH]; intros w Hw; cbn [allow_all].
  { exists w. split_and!; [done..|lia]. }
  destruct (allow_spec w s Hw Hs) as (w1 & -> & Hw1 & Hsz & Hl). cbn [mbind option_bind].
  destruct (IH w1 Hw1) as (w2 & Hw2 & Hok & Hsz2 & Hl2). exists w2. split_and!; [done|done|congruence|lia].
Qed.

(** ** Packets *)

Section Packets.
Context `{AEAD} `{!AEADLaws}.

Lemma read_full_app n (l r : list byte) : length l = n → read_full n (l ++ r) = (Some l, r).
Proof.
  intros <-. unfold read_full. rewrite length_app, (proj2 (Nat.leb_le _ _)) by lia.
  by rewrite take_app_length, drop_app_length.
Qed.

Lemma length_packet seq p : length (packet seq p) = (length p + Overhead + 10)%nat.
Proof. unfold packet. rewrite !length_app, !length_be_put, length_seal. lia. Qed.

(** The header and the ciphertext of a packet that fits the length field. *)
Lemma packet_header seq p :
  0 <= seq < 2 ^ 64 → Z.of_nat (length p + Overhead) < 2 ^ 16 →
  ∃ hdr, packet seq p = hdr ++ aead_seal (nonce_of seq) p (be_put 8 seq) ∧
    length hdr = 10%nat ∧ take 8 hdr = be_put 8 seq ∧
    be_get (take 8 hdr) = seq ∧ be_get (drop 8 hdr) = Z.of_nat (length p + Overhead).
Proof.
  intros Hseq Hlen. unfold packet. rewrite length_seal.
  exists (be_put 8 seq ++ be_put 2 (Z.of_nat (length p + Overhead))).
  rewrite length_app, !length_be_put, take_app_length', drop_app_length' by (by rewrite length_be_put).
  rewrite !be_get_put, !Z.mod_small by (cbn; lia). by rewrite <- app_assoc.
Qed.

(** Reading a packet ahead of the window delivers its plaintext. *)
Lemma Read_packet plen t seq p r :
  closed t = false → window_ok (recvWindow t) →
  rx (conn t) = packet seq p ++ r → last (recvWindow t) < seq < 2 ^ 64 →
  Z.of_nat (length p) <= mtu t → Z.of_nat (length p + Overhead) < 2 ^ 16 →
  ∃ w, window_ok w ∧ last w = seq ∧ size w = size (recvWindow t) ∧
       Read plen t = (set_rx r (set_window w t), Ret (length p, take plen p)).
Proof.
  intros Hc Hw Hrx Hseq Hmtu Hlen. pose proof (wo_last _ Hw).
  destruct (packet_header seq p ltac:(lia) Hlen) as (hdr & Hp & Hh & Ht & Hs & Hd).
  destruct (allow_spec (recvWindow t) seq Hw ltac:(lia)) as (w & Ha & Hwok & Hsz & Hl).
  unfold accepts in Ha. rewrite (proj2 (Z.ltb_lt _ _)) in Ha by lia. cbn [orb] in Ha.
  exists w. split_and!; [done|lia|done|].
  unfold Read. rewrite Hc, Hrx, Hp, <- app_assoc, read_full_app by done.
  cbn [mtu set_rx recvWindow]. rewrite Hd, Z.gtb_ltb, (proj2 (Z.ltb_ge _ _)) by lia.
  rewrite Hs, Ha. cbn [set_window set_rx conn rx]. rewrite Nat2Z.id, read_full_app by apply length_seal.
  by rewrite Ht, open_seal.
Qed.

(** The bytes written for a sequence of packets after sequence number [s]. *)
Fixpoint packets (s : Z) (ps : list (list byte)) : list byte :=
  match ps with
  | [] => []
  | p :: ps' => packet (s + 1) p ++ packets (s + 1) ps'
  end.

Definition write_all (ps : list (list byte)) (t : Tunnel) : Tunnel :=
  foldl (λ t p, (Write None p t).1) t ps.

Lemma Write_ok p t :
  closed t = false → Z.of_nat (length p) <= mtu t → 0 <= sendSeq t < 2 ^ 64 - 1 →
  Write None p t =
    (set_tx (tx (conn t) ++ packet (sendSeq t + 1) p) (set_seq (sendSeq t + 1) t), Ret (length p)).
Proof.
  intros Hc Hm Hs. unfold Write. rewrite Hc, Z.gtb_ltb, (proj2 (Z.ltb_ge _ _)) by lia.
  by rewrite Z.mod_small by lia.
Qed.

Lemma write_all_spec ps t :
  closed t = false → Forall (λ p, Z.of_nat (length p) <= mtu t) ps →
  0 <= sendSeq t → sendSeq t + Z.of_nat (length ps) < 2 ^ 64 →
  tx (conn (write_all ps t)) = tx (conn t) ++ packets (sendSeq t) ps ∧
  sendSeq (write_all ps t) = sendSeq t + Z.of_nat (length ps).
Proof.
  intros Hc Hps. revert t Hc Hps. induction ps as [|p ps IH]; intros t Hc Hps Hs0 Hs.
  { cbn. rewrite app_nil_r. split; [done|lia]. }
  apply Forall_cons in Hps as [Hp Hps]. rewrite length_cons in Hs. unfold write_all. cbn [foldl].
  rewrite Write_ok by (done || lia). cbn [fst]. set (t1 := set_tx _ _).
  destruct (IH t1) as [Htx Hseq]; [done|done|cbn; lia|cbn; lia|].
  unfold write_all in Htx, Hseq. rewrite Htx, Hseq. cbn. rewrite <- app_assoc. split; [done|lia].
Qed.

(** [n] calls of [Read]. *)
Fixpoint read_n (n plen : nat) (t : Tunnel) : Tunnel * list (outcome tunnel_error (nat * list byte)) :=
  match n with
  | O => (t, [])
  | S n' => let '(t1, o) := Read plen t in let '(t2, os) := read_n n' plen t1 in (t2, o :: os)
  end.

Lemma read_packets plen s ps r t :
  closed t = false → window_ok (recvWindow t) → rx (conn t) = packets s ps ++ r →
  0 <= s → last (recvWindow t) <= s → s + Z.of_nat (length ps) < 2 ^ 64 →
  Forall (λ p, Z.of_nat (length p) <= mtu t ∧ Z.of_nat (length p + Overhead) < 2 ^ 16 ∧
               (length p ≤ plen)%nat) ps →
  (read_n (length ps) plen t).2 = (λ p, Ret (length p, p)) <$> ps ∧
  rx (conn (read_n (length ps) plen t).1) = r.
Proof.
  intros Hc Hw Hrx Hs0 Hl Hs Hps. revert s t Hc Hw Hrx Hs0 Hl Hs Hps.
  induction ps as [|p ps IH]; intros s t Hc Hw Hrx Hs0 Hl Hs Hps; [done|].
  apply Forall_cons in Hps as [(Hm & Hlen & Hpl) Hps]. rewrite length_cons in Hs.
  cbn [packets] in Hrx. rewrite <- app_assoc in Hrx.
  destruct (Read_packet plen t (s + 1) p (packets (s + 1) ps ++ r)) as (w & Hwok & Hlw & _ & HR);
    [done|done|done|lia|done|done|].
  cbn [length read_n]. rewrite HR.
  destruct (IH (s + 1) (set_rx (packets (s + 1) ps ++ r) (set_window w t))) as [H1 H2];
    [done|done|done|lia|cbn; lia|lia|done|].
  destruct (read_n (length ps) plen _) as [t2 os]. cbn in *. split; [|done].
  rewrite H1. rewrite take_ge by done. done.
Qed.

(** A header decoded from ten bytes. *)
Lemma header_split (hdr : list byte) :
  length hdr = 10%nat →
  hdr = be_put 8 (be_get (take 8 hdr)) ++ be_put 2 (be_get (drop 8 hdr)).
Proof.
  intros Hl. rewrite !be_put_get' by (rewrite ?length_take, ?length_drop; lia). by rewrite take_drop.
Qed.

Lemma read_full_Some n l a r : read_full n l = (Some a, r) → l = a ++ r ∧ length a = n.
Proof.
  unfold read_full. destruct (Nat.leb_spec n (length l)); [|done]. intros [= <- <-].
  by rewrite take_drop, length_take, Nat.min_l by lia.
Qed.

Lemma Read_inv plen t t' n d :
  window_ok (recvWindow t) → Read plen t = (t', Ret (n, d)) → n ≠ 0%nat →
  closed t = false ∧ ∃ seq ct plain r,
    0 <= seq < 2 ^ 64 ∧
    rx (conn t) = be_put 8 seq ++ be_put 2 (Z.of_nat (length ct)) ++ ct ++ r ∧
    rx (conn t') = r ∧ accepts (recvWindow t) seq = true ∧
    aead_open (nonce_of seq) ct (be_put 8 seq) = Some plain ∧
    n = length plain ∧ d = take plen plain ∧ last (recvWindow t') = Z.max (last (recvWindow t)) seq.
Proof.
  intros Hw. unfold Read. destruct (closed t); [done|]. intros HR Hn. split; [done|]. revert HR.
  destruct (read_full 10 (rx (conn t))) as [[hdr|] r0] eqn:E; [|done].
  apply read_full_Some in E as [Erx Hlen]. set (t1 := set_rx r0 t).
  pose proof (header_split hdr Hlen) as Hh.
  assert (0 <= be_get (take 8 hdr) < 2 ^ 64) as Hseq.
  { pose proof (be_get_range (take 8 hdr)) as Hr. by rewrite length_take, Hlen in Hr. }
  assert (0 <= be_get (drop 8 hdr)) as Hc by apply be_get_range.
  set (seq := be_get (take 8 hdr)) in *. set (clen := be_get (drop 8 hdr)) in *.
  assert (take 8 hdr = be_put 8 seq) as Htake.
  { unfold seq. rewrite be_put_get'; [done|]. rewrite length_take. lia. }
  destruct (_ >? _); [done|].
  destruct (allow_spec (recvWindow t) seq Hw Hseq) as (w & Ha & _ & _ & Hl).
  change (recvWindow t1) with (recvWindow t). rewrite Ha. destruct (accepts (recvWindow t) seq) eqn:Hacc.
  2:{ destruct (read_full _ _). intros [= _ <- _]. done. }
  destruct (read_full _ (rx (conn (set_window w t1)))) as [[ct|] r] eqn:E2; [|done].
  apply read_full_Some in E2 as [Er0 Hct]. cbn in Er0. rewrite Htake.
  destruct (aead_open _ _ _) as [plain|] eqn:Ho; [|done]. intros [= <- <- <-].
  exists seq, ct, plain, r. split_and!; [lia|lia| |done|done|done|done|done|exact Hl].
  rewrite Erx, Hh, Er0, Hct, Z2Nat.id by done. by rewrite <- app_assoc.
Qed.

(** A packet inside or behind the window is drained and dropped, unless it is far behind. *)
Lemma Read_dropped plen t seq p r :
  closed t = false → window_ok (recvWindow t) → rx (conn t) = packet seq p ++ r →
  0 <= seq <= last (recvWindow t) → last (recvWindow t) - seq < size (recvWindow t) →
  Z.of_nat (length p) <= mtu t → Z.of_nat (length p + Overhead) < 2 ^ 16 →
  (Read plen t).2 = Ret (0%nat, []) ∧ rx (conn (Read plen t).1) = r.
Proof.
  intros Hc Hw Hrx Hseq Hin Hmtu Hlen. pose proof (wo_last _ Hw).
  destruct (packet_header seq p ltac:(lia) Hlen) as (hdr & Hp & Hh & Ht & Hs & Hd).
  destruct (allow_spec (recvWindow t) seq Hw ltac:(lia)) as (w & Ha & _).
  unfold accepts in Ha. rewrite (proj2 (Z.ltb_ge _ _)), (proj2 (Z.leb_gt _ _)) in Ha by lia.
  cbn [orb] in Ha. unfold Read. rewrite Hc, Hrx, Hp, <- app_assoc, read_full_app by done.
  cbn [mtu set_rx recvWindow]. rewrite Hd, Z.gtb_ltb, (proj2 (Z.ltb_ge _ _)) by lia.
  rewrite Hs, Ha. cbn [set_window set_rx conn rx]. by rewrite Nat2Z.id, read_full_app by apply length_seal.
Qed.

(** A frame that does not authenticate is refused, but the window has moved. *)
Lemma Read_forged plen t seq ct r :
  closed t = false → window_ok (recvWindow t) →
  rx (conn t) = be_put 8 seq ++ be_put 2 (Z.of_nat (length ct)) ++ ct ++ r →
  last (recvWindow t) < seq < 2 ^ 64 → Z.of_nat (length ct) < 2 ^ 16 →
  Z.of_nat (length ct) <= mtu t + Z.of_nat Overhead →
  aead_open (nonce_of seq) ct (be_put 8 seq) = None →
  ∃ w, window_ok w ∧ last w = seq ∧ size w = size (recvWindow t) ∧
       Read plen t = (set_rx r (set_window w t), Fail ErrDecrypt).
Proof.
  intros Hc Hw Hrx Hseq Hlen Hm Ho. pose proof (wo_last _ Hw).
  destruct (allow_spec (recvWindow t) seq Hw ltac:(lia)) as (w & Ha & Hwok & Hsz & Hl).
  unfold accepts in Ha. rewrite (proj2 (Z.ltb_lt _ _)) in Ha by lia. cbn [orb] in Ha.
  exists w. split_and!; [done|lia|done|].
  unfold Read. rewrite Hc, Hrx, app_assoc, read_full_app by (rewrite length_app, !length_be_put; done).
  rewrite take_app_length', drop_app_length' by (by rewrite length_be_put).
  rewrite !be_get_put, !Z.mod_small by (cbn; lia).
  cbn [mtu set_rx recvWindow]. rewrite Z.gtb_ltb, (proj2 (Z.ltb_ge _ _)) by lia.
  rewrite Ha. cbn [set_window set_rx conn rx]. rewrite Nat2Z.id, read_full_app by done. by rewrite Ho.
Qed.
End Packets.
End TunnelFacts.

Module TunnelProperties.
Import Tunnel TunnelFacts.

(** Writes with the faults the connection shows, one after the other. *)
Definition write_run `{AEAD} (ops : list (option nat * list byte)) (t : Tunnel) : Tunnel :=
  foldl (λ t op, (Write op.1 op.2 t).1) t ops.

(** A write takes a sequence number, or is refused before taking one. *)
Lemma Write_seq `{AEAD} f p t :
  sendSeq (Write f p t).1 = (sendSeq t + 1) mod 2 ^ 64 ∨
  ((Write f p t).1 = t ∧ ∃ e, (Write f p t).2 = Fail e ∧ e ≠ ErrWrite).
Proof.
  unfold Write. destruct (closed t); [right; naive_solver|].
  destruct (_ >? _); [right; naive_solver|]. left. by destruct f.
Qed.

Lemma write_run_seq `{AEAD} ops t :
  0 <= sendSeq t < 2 ^ 64 →
  ∃ k, 0 <= k <= Z.of_nat (length ops) ∧ sendSeq (write_run ops t) = (sendSeq t + k) mod 2 ^ 64.
Proof.
  revert t. induction ops as [|[f p] ops IH]; intros t Ht; cbn [write_run foldl fst snd length].
  { exists 0. rewrite Z.add_0_r, Z.mod_small by lia. split; [lia|done]. }
  destruct (Write_seq f p t) as [Hs|[-> _]].
  - assert (0 <= (sendSeq t + 1) mod 2 ^ 64 < 2 ^ 64) by (apply Z.mod_pos_bound; lia).
    destruct (IH (Write f p t).1) as (k & Hk & Hr); [lia|]. exists (k + 1). split; [lia|].
    unfold write_run in Hr. rewrite Hr, Hs, Z.add_mod_idemp_l by lia. f_equal. lia.
  - destruct (IH t Ht) as (k & Hk & Hr). exists k. split; [lia|]. exact Hr.
Qed.

Lemma nonce_of_inj s s' : 0 <= s < 2 ^ 64 → 0 <= s' < 2 ^ 64 → nonce_of s = nonce_of s' → s = s'.
Proof.
  intros Hs Hs' E. unfold nonce_of in E. apply app_inj_1 in E as [E _]; [|by rewrite !length_be_put].
  apply (f_equal be_get) in E. rewrite !be_get_put, !Z.mod_small in E by (cbn; lia). done.
Qed.

(** ** An AEAD to evaluate with: the tag is the nonce *)

Definition toy_aead : AEAD := {|
  aead_seal nonce p _ := p ++ arr_copy 16 nonce;
  aead_open nonce c _ :=
    if has_suffix (arr_copy 16 nonce) c then Some (trim_suffix (arr_copy 16 nonce) c) else None;
  Overhead := 16;
|}.

Lemma toy_aead_laws : @AEADLaws toy_aead.
Proof.
  split; intros; cbn.
  - by rewrite has_suffix_app, trim_suffix_app.
  - by rewrite length_app, length_vec_to_list.
Qed.

Definition toy_tunnel (r : list byte) : Tunnel := NewTunnel (mkConn r [] false) TransportUDP 1280.

(** ** Properties *)

(** C19: The replay window, fed with any sequence numbers, accepts a number exactly when it
    is ahead of the newest accepted one or at least 1024 behind it, and never panics.  So an
    accepted number is rejected on replay while fewer than 1024 newer numbers have passed,
    and accepted again after that. *)
Theorem replay_window_decision (seqs mid : list Z) (seq : Z)
    (Hseqs : Forall (λ s, 0 <= s < 2 ^ 64) seqs) (Hmid : Forall (λ s, 0 <= s < 2 ^ 64) mid)
    (Hseq : 0 <= seq < 2 ^ 64) :
  ∃ w w1 w2 w3 ok ok', allow_all seqs (newReplayWindow 1024) = Some w ∧
    allow seq w = Some (w1, ok) ∧ (ok = true ↔ last w < seq ∨ 1024 <= last w - seq) ∧
    allow_all mid w1 = Some w2 ∧ seq <= last w2 ∧
    allow seq w2 = Some (w3, ok') ∧ (ok' = true ↔ 1024 <= last w2 - seq).
Proof.
  destruct (allow_all_spec seqs _ (newReplayWindow_ok 1024) Hseqs) as (w & Hw & Hok & Hsz & _).
  destruct (allow_spec w seq Hok Hseq) as (w1 & H1 & Hok1 & Hsz1 & Hl1).
  destruct (allow_all_spec mid w1 Hok1 Hmid) as (w2 & H2 & Hok2 & Hsz2 & Hl2).
  destruct (allow_spec w2 seq Hok2 Hseq) as (w3 & H3 & _).
  cbn in Hsz. exists w, w1, w2, w3, (accepts w seq), (accepts w2 seq).
  rewrite !accepts_true. split_and!; [done|done|lia|done|lia|done|lia].
Qed.

Lemma replay_window_decision_witness :
  ∃ w w1 w2 w3 ok ok', allow_all [1; 2] (newReplayWindow 1024) = Some w ∧
    allow 3 w = Some (w1, ok) ∧ (ok = true ↔ last w < 3 ∨ 1024 <= last w - 3) ∧
    allow_all [1027] w1 = Some w2 ∧ 3 <= last w2 ∧
    allow 3 w2 = Some (w3, ok') ∧ (ok' = true ↔ 1024 <= last w2 - 3).
Proof. apply (replay_window_decision [1; 2] [1027] 3); [repeat constructor..|]; lia. Defined.

(** C16: Packets written on one end arrive on the other.  If both ends share the cipher, the
    receiver's window has not passed the sender's counter, and the packets fit the MTU and
    the 16-bit length field, then as many reads as writes return exactly the written
    packets, in order, and leave the rest of the stream. *)
Theorem tunnel_delivery `{AEAD} `{!AEADLaws} (a b : Tunnel) (ps : list (list byte)) (r : list byte) (plen : nat)
    (Ha : closed a = false) (Hb : closed b = false) (Hw : window_ok (recvWindow b))
    (Hseq : 0 <= sendSeq a) (Hwin : last (recvWindow b) <= sendSeq a)
    (Hcount : sendSeq a + Z.of_nat (length ps) < 2 ^ 64) (Htx : tx (conn a) = [])
    (Hps : Forall (λ p, Z.of_nat (length p) <= mtu a ∧ (length p ≤ plen)%nat) ps)
    (Hmtu : mtu a <= mtu b) (Hfield : mtu a + Z.of_nat Overhead < 2 ^ 16) :
  let b' := set_rx (tx (conn (write_all ps a)) ++ r) b in
  (read_n (length ps) plen b').2 = (λ p, Ret (length p, p)) <$> ps ∧
  rx (conn (read_n (length ps) plen b').1) = r.
Proof.
  destruct (write_all_spec ps a Ha) as [-> _]; [|done|done|].
  { eapply Forall_impl; [exact Hps|]. by intros p [Hp _]. }
  rewrite Htx. cbn zeta. apply (read_packets plen (sendSeq a)); try done.
  eapply Forall_impl; [exact Hps|]. intros p [Hp Hpl]. cbn [mtu set_rx]. split_and!; [lia|lia|done].
Qed.

Lemma tunnel_delivery_witness :
  (@read_n toy_aead 2 1500 (set_rx
     (tx (conn (@write_all toy_aead [bytes_of "hello"; bytes_of "world"] (toy_tunnel []))) ++ []) (toy_tunnel []))).2
  = [Ret (5%nat, bytes_of "hello"); Ret (5%nat, bytes_of "world")].
Proof.
  apply (@tunnel_delivery toy_aead toy_aead_laws (toy_tunnel []) (toy_tunnel [])
    [bytes_of "hello"; bytes_of "world"] [] 1500); try reflexivity; try apply newReplayWindow_ok;
    try (cbn; lia).
  repeat constructor; cbn; lia.
Defined.

(** C17: [Read] delivers only authenticated packets.  If it returns a non-empty packet, the
    stream started with a frame whose ciphertext the cipher opens under the nonce and the
    additional data of the frame's own sequence number, that number was accepted by the
    window, the returned count is the plaintext's length, the copied bytes are its prefix,
    and exactly that frame was consumed. *)
Theorem Read_authentic `{AEAD} `{!AEADLaws} (plen : nat) (t t' : Tunnel) (n : nat) (d : list byte)
    (Hw : window_ok (recvWindow t)) (HR : Read plen t = (t', Ret (n, d))) (Hn : n ≠ 0%nat) :
  ∃ seq ct plain r,
    rx (conn t) = be_put 8 seq ++ be_put 2 (Z.of_nat (length ct)) ++ ct ++ r ∧
    aead_open (nonce_of seq) ct (be_put 8 seq) = Some plain ∧
    (last (recvWindow t) < seq ∨ size (recvWindow t) <= last (recvWindow t) - seq) ∧
    n = length plain ∧ d = take plen plain ∧ rx (conn t') = r.
Proof.
  destruct (Read_inv plen t t' n d Hw HR Hn)
    as (_ & seq & ct & plain & r & _ & Hrx & Hr & Hacc%accepts_true & Ho & -> & -> & _).
  exists seq, ct, plain, r. done.
Qed.

Lemma Read_authentic_witness :
  ∃ seq ct plain r,
    rx (conn (toy_tunnel (@packet toy_aead 1 (bytes_of "hi")))) =
      be_put 8 seq ++ be_put 2 (Z.of_nat (length ct)) ++ ct ++ r ∧
    @aead_open toy_aead (nonce_of seq) ct (be_put 8 seq) = Some plain.
Proof.
  destruct (@Read_authentic toy_aead toy_aead_laws 10 (toy_tunnel (@packet toy_aead 1 (bytes_of "hi")))
    (@Read toy_aead 10 (toy_tunnel (@packet toy_aead 1 (bytes_of "hi")))).1 2 (bytes_of "hi"))
    as (seq & ct & plain & r & H1 & H2 & _).
  - apply newReplayWindow_ok.
  - vm_compute. reflexivity.
  - discriminate.
  - exists seq, ct, plain, r. split; [exact H1|exact H2].
Defined.

(** A tunnel does not reuse a nonce: two writes that both take a sequence number, with
    fewer than 2^64 - 1 write calls between them, failing ones included, encrypt under
    different nonces. *)
Theorem nonces_distinct `{AEAD} (t : Tunnel) (f g : option nat) (p q : list byte)
    (ops : list (option nat * list byte)) (Ht : 0 <= sendSeq t < 2 ^ 64)
    (Hp : ∀ e, (Write f p t).2 = Fail e → e = ErrWrite)
    (Hops : Z.of_nat (length ops) < 2 ^ 64 - 1)
    (Hq : ∀ e, (Write g q (write_run ops (Write f p t).1)).2 = Fail e → e = ErrWrite) :
  let t1 := (Write f p t).1 in
  let t2 := (Write g q (write_run ops t1)).1 in
  nonce_of (sendSeq t1) ≠ nonce_of (sendSeq t2).
Proof.
  cbn zeta. destruct (Write_seq f p t) as [H1|(_ & e & He & Hne)]; [|by apply Hp in He].
  set (t1 := (Write f p t).1) in *.
  destruct (Write_seq g q (write_run ops t1)) as [H2|(_ & e & He & Hne)]; [|by apply Hq in He].
  assert (0 <= sendSeq t1 < 2 ^ 64) as Hr1 by (rewrite H1; apply Z.mod_pos_bound; lia).
  destruct (write_run_seq ops t1 Hr1) as (k & Hk & Hs).
  rewrite Hs, Z.add_mod_idemp_l in H2 by lia. intros E. apply nonce_of_inj in E; [|done|].
  2:{ rewrite H2. apply Z.mod_pos_bound. lia. }
  rewrite H2 in E. destruct (Z.le_gt_cases (2 ^ 64) (sendSeq t1 + k + 1)).
  - rewrite <- (Z.mod_add _ (-1)), Z.mod_small in E by lia. lia.
  - rewrite Z.mod_small in E by lia. lia.
Qed.

Lemma nonces_distinct_witness :
  let t1 := (@Write toy_aead None (bytes_of "a") (toy_tunnel [])).1 in
  let t2 := (@Write toy_aead None (bytes_of "a") (@write_run toy_aead [(Some 3%nat, bytes_of "b")] t1)).1 in
  nonce_of (sendSeq t1) ≠ nonce_of (sendSeq t2).
Proof.
  apply (@nonces_distinct toy_aead (toy_tunnel []) None None (bytes_of "a") (bytes_of "a")
    [(Some 3%nat, bytes_of "b")]); [cbn; lia|intros e; vm_compute; discriminate|cbn; lia|
    intros e; vm_compute; discriminate].
Defined.

(** The window moves before the packet is authenticated.  One injected frame that does
    not decrypt, with a sequence number ahead of the genuine ones, is refused with an error,
    but the next genuine packet is then silently dropped. *)
Theorem forged_packet_blocks `{AEAD} `{!AEADLaws} (plen : nat) (t : Tunnel) (seq fake : Z)
    (p ct r : list byte) (Hc : closed t = false) (Hw : window_ok (recvWindow t))
    (Hseq : last (recvWindow t) < seq) (Hfake : seq <= fake < 2 ^ 64)
    (Hnear : fake - seq < size (recvWindow t))
    (Hp : Z.of_nat (length p) <= mtu t) (Hfield : Z.of_nat (length p + Overhead) < 2 ^ 16)
    (Hct : Z.of_nat (length ct) <= mtu t + Z.of_nat Overhead) (Hct' : Z.of_nat (length ct) < 2 ^ 16)
    (Hforged : aead_open (nonce_of fake) ct (be_put 8 fake) = None)
    (Hrx : rx (conn t) = be_put 8 fake ++ be_put 2 (Z.of_nat (length ct)) ++ ct ++ packet seq p ++ r) :
  (read_n 2 plen t).2 = [Fail ErrDecrypt; Ret (0%nat, [])].
Proof.
  pose proof (wo_last _ Hw).
  destruct (Read_forged plen t fake ct _ Hc Hw Hrx ltac:(lia) Hct' Hct Hforged) as (w & Hwok & Hl & Hs & HR).
  destruct (Read_dropped plen (set_rx (packet seq p ++ r) (set_window w t)) seq p r) as [HD _];
    [done|done|done|cbn; lia|cbn; lia|done|done|].
  cbn [read_n]. rewrite HR.
  destruct (Read plen (set_rx (packet seq p ++ r) (set_window w t))) as [t2 o] eqn:E.
  cbn [snd] in HD |- *. by rewrite HD.
Qed.

Lemma forged_packet_blocks_witness :
  (@read_n toy_aead 2 100 (toy_tunnel
     (be_put 8 9 ++ be_put 2 1 ++ [x00] ++ @packet toy_aead 1 (bytes_of "hi") ++ []))).2
  = [Fail ErrDecrypt; Ret (0%nat, [])].
Proof.
  apply (@forged_packet_blocks toy_aead toy_aead_laws 100 _ 1 9 (bytes_of "hi") [x00] []);
    try apply newReplayWindow_ok; try reflexivity; cbn; lia.
Defined.

(** ** The manager *)

Definition open_at (h : heap) (l : loc) : Prop := ∃ t, h !! l = Some t ∧ closed t = false.
Definition closed_at (h : heap) (l : loc) : Prop := ∃ t, h !! l = Some t ∧ closed t = true.

(** Every registered tunnel is open, and registered once. *)
Record managed (m : Manager) (h : heap) : Prop := {
  mg_open id l : m !! id = Some l → open_at h l;
  mg_inj id id' l : m !! id = Some l → m !! id' = Some l → id = id';
}.

Lemma close_at_ne h l l' : l ≠ l' → close_at l h !! l' = h !! l'.
Proof. intros. unfold close_at. by rewrite lookup_alter_ne. Qed.

Lemma close_at_closed h l t : h !! l = Some t → closed_at (close_at l h) l.
Proof. intros Ht. exists (Close t). unfold close_at in *. by rewrite lookup_alter_eq, Ht. Qed.

Lemma open_at_ne h l l' : l ≠ l' → open_at h l' → open_at (close_at l h) l'.
Proof. intros Hne (t & Ht & Ho). exists t. by rewrite close_at_ne. Qed.

Lemma Add_managed id l m h :
  managed m h → open_at h l → (∀ id', m !! id' ≠ Some l) →
  managed (Add id l m h).1 (Add id l m h).2.
Proof.
  intros [Ho Hi] Hl Hfresh. unfold Add. cbn [fst snd].
  assert (∀ l', open_at h l' → m !! id ≠ Some l' →
    open_at (match m !! id with Some old => close_at old h | None => h end) l') as Hkeep.
  { intros l' Hl' Hne. destruct (m !! id) as [old|]; [|done]. apply open_at_ne; [congruence|done]. }
  split.
  - intros id' l' [[-> ->]|[Hne Hl']]%lookup_insert_Some; [by apply Hkeep|].
    apply Hkeep; [by eapply Ho|]. intros Hid. destruct Hne. by eapply Hi.
  - intros i1 i2 l'. rewrite !lookup_insert_Some.
    intros [[Ea Eb]|[Ea H1]] [[Ec Ed]|[Ec H2]]; subst; try done.
    + by destruct (Hfresh _ H2).
    + by destruct (Hfresh _ H1).
    + by eapply Hi.
Qed.

Lemma Remove_managed id m h : managed m h → managed (Remove id m h).1 (Remove id m h).2.
Proof.
  intros [Ho Hi]. unfold Remove. destruct (m !! id) as [l|] eqn:E; [|done]. cbn [fst snd]. split.
  - intros id' l' [Hne Hl']%lookup_delete_Some. apply open_at_ne; [|by eapply Ho].
    intros <-. destruct Hne. by eapply Hi.
  - intros i1 i2 l' [_ H1]%lookup_delete_Some [_ H2]%lookup_delete_Some. by eapply Hi.
Qed.

Lemma close_at_keeps l h l' : closed_at h l' → closed_at (close_at l h) l'.
Proof.
  intros (t & Ht & Hc). destruct (decide (l = l')) as [<-|Hne].
  - by eapply close_at_closed.
  - exists t. by rewrite close_at_ne.
Qed.

Lemma CloseAll_closed m h id l :
  m !! id = Some l → open_at h l → closed_at (CloseAll m h).2 l.
Proof.
  intros Hl (t & Ht & _). unfold CloseAll. cbn [snd]. rewrite map_fold_foldr.
  apply elem_of_map_to_list in Hl. induction (map_to_list m) as [|[id' l'] es IH]; [inversion Hl|].
  cbn [foldr uncurry]. apply elem_of_cons in Hl as [[= <- <-]|Hl]; [|by apply close_at_keeps, IH].
  assert (∀ es, is_Some (foldr (uncurry (λ (_ : string) l h, close_at l h)) h es !! l)) as Hs.
  { clear - Ht. intros es. induction es as [|[i k] es IH']; [exists t; exact Ht|]. cbn [foldr uncurry].
    unfold close_at in *. apply lookup_alter_is_Some. exact IH'. }
  destruct (Hs es) as [t' Ht']. by eapply close_at_closed.
Qed.

(** The manager keeps its promises about shared tunnels.  While every registered tunnel
    is open and registered once: adding a new open tunnel registers it, closes the peer's
    previous one and touches no other peer; removing closes and unregisters; closing all
    closes everything; and each keeps the invariant.  Adding the very tunnel that is already
    registered, however, leaves it registered and closed. *)
Theorem manager_spec (m : Manager) (h : heap) (id : string) (l : loc) (Hm : managed m h) :
  (open_at h l → (∀ id', m !! id' ≠ Some l) →
     let '(m', h') := Add id l m h in
     managed m' h' ∧ Get id m' = Some l ∧ (∀ old, m !! id = Some old → closed_at h' old) ∧
     (∀ id' l', id' ≠ id → m !! id' = Some l' → Get id' m' = Some l' ∧ h' !! l' = h !! l')) ∧
  (let '(m', h') := Remove id m h in
   managed m' h' ∧ Get id m' = None ∧ (∀ old, m !! id = Some old → closed_at h' old)) ∧
  (let '(m', h') := CloseAll m h in
   Count m' = 0%nat ∧ ∀ id' l', m !! id' = Some l' → closed_at h' l') ∧
  (m !! id = Some l →
     let '(m', h') := Add id l m h in Get id m' = Some l ∧ closed_at h' l).
Proof.
  assert (∀ old, m !! id = Some old → closed_at (close_at old h) old) as Hclose.
  { intros old Hold. destruct (mg_open _ _ Hm _ _ Hold) as (t & Ht & _). by eapply close_at_closed. }
  split_and!.
  - intros Ho Hf. pose proof (Add_managed id l m h Hm Ho Hf) as Hma. unfold Add in *. cbn [fst snd] in Hma.
    split_and!; [done|apply lookup_insert_eq|intros old Hold; rewrite Hold; by apply Hclose|].
    intros id' l' Hne Hl'. unfold Get. rewrite lookup_insert_ne by done. split; [done|].
    destruct (m !! id) as [old|] eqn:E; [|done]. apply close_at_ne.
    intros ->. destruct Hne. by eapply (mg_inj _ _ Hm).
  - pose proof (Remove_managed id m h Hm) as Hmr. unfold Remove in *.
    destruct (m !! id) as [old|] eqn:E; cbn [fst snd] in Hmr.
    + split_and!; [done|apply lookup_delete_eq|]. intros old' [= <-]. by apply Hclose.
    + split_and!; [done|done|done].
  - destruct (CloseAll m h) as [m' h'] eqn:E. split; [by injection E as <- _|].
    intros id' l' Hl'. pose proof (CloseAll_closed m h id' l' Hl' (mg_open _ _ Hm _ _ Hl')) as Hc.
    by rewrite E in Hc.
  - intros Hl. unfold Add. rewrite Hl. split; [apply lookup_insert_eq|by apply Hclose].
Qed.

Lemma manager_spec_witness :
  let h : heap := {[0%nat := toy_tunnel []; 1%nat := toy_tunnel []]} in
  let m : Manager := {["peer" := 0%nat]} in
  let '(m', h') := Add "peer" 1%nat m h in
  Get "peer" m' = Some 1%nat ∧ closed_at h' 0%nat.
Proof.
  cbn zeta.
  assert (managed {["peer" := 0%nat]} ({[0%nat := toy_tunnel []; 1%nat := toy_tunnel []]} : heap)) as Hm.
  { split.
    - intros id l [_ <-]%lookup_singleton_Some. by exists (toy_tunnel []).
    - intros id id' l [<- _]%lookup_singleton_Some [<- _]%lookup_singleton_Some. done. }
  destruct (manager_spec _ _ "peer" 1%nat Hm) as [Hadd _].
  destruct (Add "peer" 1%nat _ _) as [m' h'].
  destruct Hadd as (_ & Hg & Hc & _).
  - by exists (toy_tunnel []).
  - intros id' [_ E]%lookup_singleton_Some. discriminate E.
  - split; [exact Hg|]. apply Hc. apply lookup_singleton_eq.
Defined.

(** ** Transport selection and MTU *)

(** The chosen transport is reported, and an unreliable one is never chosen on a UDP path
    without permission. *)
Lemma TransportSelect_visible k c m fb t :
  TransportSelect (Some (k, c)) true m fb = Ret t →
  conn t = c ∧ closed t = false ∧ sendSeq t = 0 ∧ window_ok (recvWindow t) ∧
  match k with
  | UDPConn => fb = true ∧ transport t = TransportUDP
  | TCPConn => transport t = TransportTCP
  | OtherConn => transport t = TransportUDP
  end.
Proof.
  unfold TransportSelect, NewTunnel. cbn [negb].
  destruct k, fb; cbn [negb]; intros [= <-]; split_and!; try done; apply (newReplayWindow_ok 1024).
Qed.

(** An inner MTU is accepted exactly when a full packet with all headers fits the path. *)
Lemma ValidateMTU_spec inner path v6 :
  ValidateMTU inner path v6 = Ret () ↔
  1 <= inner ∧ inner + OuterHeaderLen v6 + UDPHeaderLen + NoiseOverhead + KCPOverhead <= path.
Proof.
  unfold ValidateMTU, InnerMTU, EncapsulationOverhead.
  destruct (Z.ltb_spec inner 1); [split; [done|lia]|].
  destruct (Z.gtb_spec inner (path - (OuterHeaderLen v6 + UDPHeaderLen + NoiseOverhead + KCPOverhead)));
    (split; [try done; lia|try done; lia]).
Qed.

(** The framing of a packet costs two bytes more than [NoiseOverhead] accounts for. *)
Lemma packet_overhead `{AEAD} `{!AEADLaws} seq p :
  Overhead = 16%nat → Z.of_nat (length (packet seq p)) = Z.of_nat (length p) + NoiseOverhead + 2.
Proof. intros Ho. rewrite length_packet, Ho. unfold NoiseOverhead. lia. Qed.

End TunnelProperties.
