(* ===== verification/NetAddr.v ===== *)
(** * Textual addresses ([net/netip])

    [netip.Addr.String] on the addresses of [MeshTypes.Addr]: dotted decimal for IPv4, and
    for IPv6 the compressed form of RFC 5952 with the first longest run of at least two zero
    groups written as "::".  The text determines the address, which is what makes it usable
    as a map key. *)

From S2P Require Import Prelude GoLib MeshTypes.

Open Scope Z_scope.

Module NetAddr.

Definition colon : byte := x3a.
Definition dot : byte := x2e.

(** [strings.Join] with a one-byte separator. *)
Fixpoint join_with (sep : byte) (parts : list (list byte)) : list byte :=
  match parts with
  | [] => []
  | [p] => p
  | p :: ps => p ++ sep :: join_with sep ps
  end.

(** Decimal digits of a byte, without leading zeros. *)
Definition dec_digit (v : Z) : byte := Zb (48 + v).
Definition dec_byte (b : byte) : list byte :=
  let v := bZ b in
  if v <? 10 then [dec_digit v]
  else if v <? 100 then [dec_digit (v / 10); dec_digit (v mod 10)]
  else [dec_digit (v / 100); dec_digit (v / 10 mod 10); dec_digit (v mod 10)].

Definition string4 (b : list byte) : list byte := join_with dot (dec_byte <$> b).

(** Hexadecimal digits of a 16-bit group, without leading zeros. *)
Definition hex_lower (v : Z) : byte := nth (Z.to_nat v) (bytes_of "0123456789abcdef") x00.
Definition nibble (v i : Z) : Z := Z.land (Z.shiftr v (4 * i)) 15.
Definition hex_group (v : Z) : list byte :=
  if v <? 16 then [hex_lower (nibble v 0)]
  else if v <? 256 then [hex_lower (nibble v 1); hex_lower (nibble v 0)]
  else if v <? 4096 then [hex_lower (nibble v 2); hex_lower (nibble v 1); hex_lower (nibble v 0)]
  else [hex_lower (nibble v 3); hex_lower (nibble v 2); hex_lower (nibble v 1); hex_lower (nibble v 0)].

(** The eight 16-bit groups of an IPv6 address. *)
Fixpoint groups (n : nat) (b : list byte) : list Z :=
  match n with
  | O => []
  | S n' => be_get (take 2 b) :: groups n' (drop 2 b)
  end.

(** The number of leading zero groups. *)
Fixpoint zeros (l : list Z) : nat :=
  match l with
  | [] => 0
  | v :: l' => if v =? 0 then S (zeros l') else 0
  end.

(** The scan for the run to compress: the first start with the longest run of two or more;
    a pair of start and length, length 0 when there is none. *)
Definition zero_run (l : list Z) : nat * nat :=
  foldl (λ best i,
    let len := zeros (drop i l) in
    if (2 <=? len)%nat && (best.2 <? len)%nat then (i, len) else best) (0, 0)%nat (seq 0 8).

Definition string6 (b : list byte) : list byte :=
  let l := groups 8 b in
  let '(s, n) := zero_run l in
  if (n =? 0)%nat then join_with colon (hex_group <$> l)
  else join_with colon (hex_group <$> take s l) ++ [colon; colon]
         ++ join_with colon (hex_group <$> drop (s + n) l).

(** IPv4-mapped IPv6 addresses ([Is4In6]). *)
Definition mapped_prefix : list byte := replicate 10 x00 ++ [xff; xff].

Definition Addr_bytes (a : Addr) : list byte :=
  match a with
  | AddrZero => bytes_of "invalid IP"
  | Addr4 b => string4 b
  | Addr6 b zone =>
      let z := if String.eqb zone "" then [] else x25 :: bytes_of zone in
      (if has_prefix mapped_prefix b then bytes_of "::ffff:" ++ string4 (drop 12 b) else string6 b) ++ z
  end.

Definition Addr_String (a : Addr) : string := string_of (Addr_bytes a).

End NetAddr.
Export NetAddr.

Example String_v4 : Addr_String (Addr4 [# xf0; x0a; x14; x00]) = "240.10.20.0".
Proof. vm_compute. reflexivity. Qed.

Example String_v6 :
  Addr_String (Addr6 (arr_copy 16 [xfd; x00; x9b; xd8; x00; x00; x00; x00; x02; x00; x0a; xbc; x00; x00; x00; x01]) "")
  = "fd00:9bd8::200:abc:0:1".
Proof. vm_compute. reflexivity. Qed.

Example String_unspecified : Addr_String (Addr6 (arr_copy 16 []) "") = "::".
Proof. vm_compute. reflexivity. Qed.

Example String_mapped :
  Addr_String (Addr6 (arr_copy 16 (mapped_prefix ++ [x0a; x00; x00; x01])) "") = "::ffff:10.0.0.1".
Proof. vm_compute. reflexivity. Qed.

(** ** Splitting at a separator *)

(** The pieces between separators, as [strings.Split]. *)
Fixpoint split_on (sep : byte) (cur : list byte) (l : list byte) : list (list byte) :=
  match l with
  | [] => [cur]
  | b :: l' => if bool_decide (b = sep) then cur :: split_on sep [] l' else split_on sep (cur ++ [b]) l'
  end.

Definition free (sep : byte) (p : list byte) : Prop := sep ∉ p.

Lemma split_on_free sep cur p l :
  free sep p → split_on sep cur (p ++ l) = split_on sep (cur ++ p) l.
Proof.
  revert cur. induction p as [|b p IH]; intros cur Hp; [by rewrite app_nil_r|].
  apply not_elem_of_cons in Hp as [Hb Hp]. cbn [app split_on].
  rewrite bool_decide_eq_false_2 by congruence. rewrite IH by done. by rewrite <- app_assoc.
Qed.

Lemma split_on_sep sep cur l : split_on sep cur (sep :: l) = cur :: split_on sep [] l.
Proof. cbn. by rewrite bool_decide_eq_true_2. Qed.

Lemma split_on_join sep parts l :
  Forall (free sep) parts → parts ≠ [] →
  split_on sep [] (join_with sep parts ++ sep :: l) = parts ++ split_on sep [] l.
Proof.
  induction 1 as [|p parts Hp Hall IH]; [done|]. intros _. cbn [join_with]. destruct parts as [|q parts].
  - by rewrite split_on_free, split_on_sep.
  - rewrite <- app_assoc. cbn [app]. rewrite split_on_free, split_on_sep by done. cbn [app].
    f_equal. by apply IH.
Qed.

Lemma split_on_join_end sep parts :
  Forall (free sep) parts → parts ≠ [] → split_on sep [] (join_with sep parts) = parts.
Proof.
  induction 1 as [|p parts Hp Hall IH]; [done|]. intros _. cbn [join_with]. destruct parts as [|q parts].
  - rewrite <- (app_nil_r p) at 1. by rewrite split_on_free.
  - rewrite split_on_free, split_on_sep by done. f_equal. by apply IH.
Qed.

(** ** The parts *)

Lemma fmap_inj_free {A} (f : A → list byte) sep (l : list A) :
  (∀ x, x ∈ l → free sep (f x)) → Forall (free sep) (f <$> l).
Proof. intros H. apply Forall_fmap, Forall_forall. exact H. Qed.

(** Reading decimal digits back. *)
Definition dec_value (l : list byte) : Z := foldl (λ acc c, 10 * acc + (bZ c - 48)) 0 l.

Lemma dec_byte_facts b :
  dec_value (dec_byte b) = bZ b ∧ free dot (dec_byte b) ∧ free colon (dec_byte b).
Proof.
  assert ((dec_value (dec_byte b) =? bZ b) && forallb (λ c, negb (bool_decide (c = dot)) &&
    negb (bool_decide (c = colon))) (dec_byte b) = true) as H.
  { revert b. apply byte_check. vm_compute. reflexivity. }
  reflect_tests. rewrite forallb_forall in *. split_and!; [by apply Z.eqb_eq|..];
    intros Hin%list_elem_of_In; apply H0 in Hin; reflect_tests; done.
Qed.

Definition hex_digit_value (c : byte) : Z := if bZ c <? 97 then bZ c - 48 else bZ c - 87.
Definition hex_value (l : list byte) : Z := foldl (λ acc c, 16 * acc + hex_digit_value c) 0 l.

Lemma hex_lower_facts d :
  0 <= d < 16 → hex_digit_value (hex_lower d) = d ∧ hex_lower d ≠ dot ∧ hex_lower d ≠ colon.
Proof.
  intros Hd. assert (forallb (λ d, (hex_digit_value (hex_lower d) =? d) &&
    negb (bool_decide (hex_lower d = dot)) && negb (bool_decide (hex_lower d = colon))) (seqZ 0 16) = true) as H
    by (vm_compute; reflexivity).
  rewrite forallb_forall in H. specialize (H d). rewrite <- list_elem_of_In in H.
  assert (d ∈ seqZ 0 16) as Hin by (apply elem_of_seqZ; lia). specialize (H Hin). reflect_tests.
  by split_and!; [apply Z.eqb_eq|..].
Qed.

Lemma nibble_range v i : 0 <= nibble v i < 16.
Proof. unfold nibble. change 15 with (Z.ones 4). rewrite Z.land_ones by lia. by apply Z.mod_pos_bound. Qed.

Lemma nibbles_value v :
  0 <= v < 65536 →
  v = 4096 * nibble v 3 + 256 * nibble v 2 + 16 * nibble v 1 + nibble v 0 ∧
  (v < 4096 → nibble v 3 = 0) ∧ (v < 256 → nibble v 2 = 0) ∧ (v < 16 → nibble v 1 = 0).
Proof.
  intros Hv. unfold nibble. change 15 with (Z.ones 4). rewrite !Z.land_ones, !Z.shiftr_div_pow2 by lia.
  change (2 ^ (4 * 3)) with 4096. change (2 ^ (4 * 2)) with 256. change (2 ^ (4 * 1)) with 16.
  change (2 ^ (4 * 0)) with 1. change (2 ^ 4) with 16. rewrite Z.div_1_r.
  Z.to_euclidean_division_equations. lia.
Qed.

Lemma hex_group_facts v :
  0 <= v < 65536 →
  hex_value (hex_group v) = v ∧ hex_group v ≠ [] ∧ free dot (hex_group v) ∧ free colon (hex_group v).
Proof.
  intros Hv. destruct (nibbles_value v Hv) as (Hval & H3 & H2 & H1). unfold hex_group, free.
  pose proof (hex_lower_facts _ (nibble_range v 0)) as (V0 & ? & ?).
  pose proof (hex_lower_facts _ (nibble_range v 1)) as (V1 & ? & ?).
  pose proof (hex_lower_facts _ (nibble_range v 2)) as (V2 & ? & ?).
  pose proof (hex_lower_facts _ (nibble_range v 3)) as (V3 & ? & ?).
  destruct (Z.ltb_spec v 16); [|destruct (Z.ltb_spec v 256); [|destruct (Z.ltb_spec v 4096)]];
    (split_and!; [unfold hex_value; cbn [foldl]; rewrite ?V0, ?V1, ?V2, ?V3; lia|done|..]);
    rewrite !elem_of_cons, elem_of_nil; naive_solver.
Qed.

Lemma string4_inj b b' : b ≠ [] → b' ≠ [] → string4 b = string4 b' → b = b'.
Proof.
  intros Hb Hb' E%(f_equal (split_on dot [])). unfold string4 in E.
  rewrite !split_on_join_end in E; try (by intros ?%fmap_nil_inv);
    try (apply fmap_inj_free; intros x _; apply dec_byte_facts).
  assert (Inj (=) (=) dec_byte) as Hinj; [|by apply (inj (fmap dec_byte)) in E].
  intros x y Hxy%(f_equal dec_value). destruct (dec_byte_facts x) as [Hx _], (dec_byte_facts y) as [Hy _].
  apply bZ_inj. congruence.
Qed.

Lemma join_free sep c parts : sep ≠ c → Forall (free c) parts → free c (join_with sep parts).
Proof.
  intros Hne. induction 1 as [|p parts Hp Hall IH]; [by intros ?%elem_of_nil|]. cbn [join_with].
  destruct parts; [done|]. unfold free in *. rewrite elem_of_app, elem_of_cons. naive_solver.
Qed.

Lemma string4_no_colon b : free colon (string4 b).
Proof. apply join_free; [done|]. apply fmap_inj_free. intros x _. apply dec_byte_facts. Qed.

(** ** Groups and runs of zeros *)

Lemma groups_range n b v : v ∈ groups n b → 0 <= v < 65536.
Proof.
  revert b. induction n as [|n IH]; intros b; cbn [groups]; [intros H; inversion H|].
  intros [->|H]%elem_of_cons; [|by apply (IH (drop 2 b))].
  pose proof (be_get_range (take 2 b)) as Hr. rewrite length_take in Hr.
  assert (256 ^ Z.of_nat (Nat.min 2 (length b)) <= 256 ^ 2) by (apply Z.pow_le_mono_r; lia). lia.
Qed.

Lemma length_groups n b : length (groups n b) = n.
Proof. revert b. induction n as [|n IH]; intros b; cbn; [done|]. by rewrite IH. Qed.

Lemma groups_inj n b b' :
  length b = (2 * n)%nat → length b' = (2 * n)%nat → groups n b = groups n b' → b = b'.
Proof.
  revert b b'. induction n as [|n IH]; intros b b' Hb Hb' E.
  { by rewrite (nil_length_inv b), (nil_length_inv b'). }
  cbn [groups] in E. injection E as E1 E2.
  rewrite <- (take_drop 2 b), <- (take_drop 2 b'). f_equal.
  - apply be_get_inj; [rewrite !length_take; lia|done].
  - apply IH; [rewrite length_drop; lia..|done].
Qed.

Lemma zeros_spec l : take (zeros l) l = replicate (zeros l) 0 ∧ (zeros l ≤ length l)%nat.
Proof.
  induction l as [|v l [IH1 IH2]]; cbn [zeros]; [done|].
  destruct (Z.eqb_spec v 0) as [->|]; cbn; [|split; [done|lia]]. split; [by f_equal|lia].
Qed.

Lemma zero_run_spec l s n :
  zero_run l = (s, n) → n = 0%nat ∨ (take n (drop s l) = replicate n 0 ∧ (0 < n)%nat ∧ (s + n ≤ length l)%nat).
Proof.
  unfold zero_run. generalize (seq 0 8) as idx. intros idx.
  assert (∀ acc, (acc.2 = 0%nat ∨ (take acc.2 (drop acc.1 l) = replicate acc.2 0 ∧ (0 < acc.2)%nat ∧
    (acc.1 + acc.2 ≤ length l)%nat)) →
    foldl (λ best i, let len := zeros (drop i l) in
      if (2 <=? len)%nat && (best.2 <? len)%nat then (i, len) else best) acc idx = (s, n) →
    n = 0%nat ∨ (take n (drop s l) = replicate n 0 ∧ (0 < n)%nat ∧ (s + n ≤ length l)%nat)) as H.
  { induction idx as [|i idx IH]; intros acc Hacc; cbn [foldl]; [by intros ->|].
    apply IH. destruct ((2 <=? zeros (drop i l))%nat && _) eqn:E; [|done]. right. cbn.
    reflect_tests. apply Nat.leb_le in H. destruct (zeros_spec (drop i l)) as [H1 H2].
    rewrite length_drop in H2. split_and!; [done|lia|lia]. }
  apply H. by left.
Qed.

(** ** Reading the compressed form back *)

Definition non_empty (p : list byte) : bool := match p with [] => false | _ => true end.

Fixpoint leading (ps : list (list byte)) : list (list byte) :=
  match ps with
  | [] => []
  | p :: ps' => if non_empty p then p :: leading ps' else []
  end.

(** The groups named by the pieces between colons: an empty piece marks the zero run. *)
Definition expand (ps : list (list byte)) : list Z :=
  let pre := leading ps in
  let post := List.filter non_empty (drop (length pre) ps) in
  if (length pre =? length ps)%nat then hex_value <$> pre
  else (hex_value <$> pre) ++ replicate (8 - length pre - length post) 0 ++ (hex_value <$> post).

Lemma leading_app ps qs :
  Forall (λ p, non_empty p = true) ps → leading (ps ++ [] :: qs) = ps.
Proof. induction 1 as [|p ps Hp Hall IH]; [done|]. cbn. rewrite Hp. by f_equal. Qed.

Lemma leading_all ps : Forall (λ p, non_empty p = true) ps → leading ps = ps.
Proof. induction 1 as [|p ps Hp Hall IH]; [done|]. cbn. rewrite Hp. by f_equal. Qed.

Lemma filter_non_empty ps : Forall (λ p, non_empty p = true) ps → List.filter non_empty ps = ps.
Proof. induction 1 as [|p ps Hp Hall IH]; [done|]. cbn. rewrite Hp. by f_equal. Qed.

Section Groups.
Variable l : list Z.
Hypothesis Hl : ∀ v, v ∈ l → 0 <= v < 65536.

Lemma hex_parts (k : list Z) : k ⊆ l →
  Forall (free colon) (hex_group <$> k) ∧ Forall (free dot) (hex_group <$> k) ∧
  Forall (λ p, non_empty p = true) (hex_group <$> k) ∧ hex_value <$> (hex_group <$> k) = k.
Proof.
  intros Hk. split_and!.
  1-3: apply Forall_fmap, Forall_forall; intros v Hv; cbn;
    destruct (hex_group_facts v (Hl v (Hk v Hv))) as (_ & ? & ? & ?); try done; by destruct (hex_group v).
  - rewrite <- list_fmap_compose. rewrite <- (list_fmap_id k) at 2. apply list_fmap_ext.
    intros i v Hv. cbn. by apply hex_group_facts, Hl, Hk, (list_elem_of_lookup_2 _ i).
Qed.

Lemma expand_full : l ≠ [] → expand (split_on colon [] (join_with colon (hex_group <$> l))) = l.
Proof.
  intros Hne. destruct (hex_parts l) as (Hc & _ & Hn & Hv); [done|].
  rewrite split_on_join_end by (done || by intros ?%fmap_nil_inv). unfold expand.
  by rewrite leading_all, Nat.eqb_refl by done.
Qed.

(** The pieces around a zero run. *)
Lemma split_run (pre post : list Z) : pre ⊆ l → post ⊆ l →
  ∃ ps, split_on colon [] (join_with colon (hex_group <$> pre) ++ [colon; colon] ++
          join_with colon (hex_group <$> post)) = (hex_group <$> pre) ++ [] :: ps ∧
        List.filter non_empty ps = hex_group <$> post.
Proof.
  intros Hpre Hpost. destruct (hex_parts pre Hpre) as (Hc & _). destruct (hex_parts post Hpost) as (Hc' & _ & Hn' & _).
  assert (∃ ps, split_on colon [] (join_with colon (hex_group <$> post)) = ps ∧
    List.filter non_empty ps = hex_group <$> post) as (ps & Hps & Hf).
  { destruct post as [|v post]; [by eexists|]. eexists. split; [reflexivity|].
    rewrite split_on_join_end by done. by apply filter_non_empty. }
  destruct pre as [|v pre].
  - exists ([] :: ps). cbn [fmap list_fmap join_with app]. rewrite !split_on_sep, Hps. done.
  - exists ps. split; [|done]. cbn [app]. rewrite split_on_join by done. by rewrite split_on_sep, Hps.
Qed.

Lemma expand_run s n :
  length l = 8%nat → take n (drop s l) = replicate n 0 → (0 < n)%nat → (s + n ≤ 8)%nat →
  expand (split_on colon [] (join_with colon (hex_group <$> take s l) ++ [colon; colon] ++
            join_with colon (hex_group <$> drop (s + n) l))) = l.
Proof.
  intros H8 Hz Hn Hs.
  assert (take s l ⊆ l) as Hpre by (intros v Hv; rewrite <- (take_drop s l); apply elem_of_app; by left).
  assert (drop (s + n) l ⊆ l) as Hpost
    by (intros v Hv; rewrite <- (take_drop (s + n) l); apply elem_of_app; by right).
  destruct (split_run _ _ Hpre Hpost) as (ps & -> & Hf).
  destruct (hex_parts _ Hpre) as (_ & _ & Hne & Hv). destruct (hex_parts _ Hpost) as (_ & _ & _ & Hv').
  unfold expand. rewrite leading_app by done. rewrite drop_app_length. cbn [List.filter non_empty].
  rewrite Hf, Hv, Hv', length_app, length_cons, (proj2 (Nat.eqb_neq _ _)) by lia.
  rewrite !length_fmap, length_take, length_drop, H8.
  replace (8 - Nat.min s 8 - (8 - (s + n)))%nat with n by lia. rewrite <- Hz, app_assoc, take_take_drop.
  apply take_drop.
Qed.
End Groups.

Lemma string6_inj b b' :
  length b = 16%nat → length b' = 16%nat → string6 b = string6 b' → b = b'.
Proof.
  intros Hb Hb' E. apply (groups_inj 8); [done|done|].
  assert (∀ c, expand (split_on colon [] (string6 c)) = groups 8 c) as He.
  { intros c. unfold string6. pose proof (groups_range 8 c) as Hr. pose proof (length_groups 8 c) as H8.
    destruct (zero_run (groups 8 c)) as [s n] eqn:Ez. apply zero_run_spec in Ez.
    destruct (Nat.eqb_spec n 0) as [->|Hn].
    - apply expand_full; [exact Hr|]. intros E0. by rewrite E0 in H8.
    - destruct Ez as [?|(Hz & H0 & Hs)]; [done|]. rewrite H8 in Hs. by apply expand_run. }
  by rewrite <- He, E, He.
Qed.

Lemma string6_marks b : colon ∈ string6 b ∧ free dot (string6 b).
Proof.
  pose proof (groups_range 8 b) as Hr. pose proof (length_groups 8 b) as H8. unfold string6.
  assert (∀ k, k ⊆ groups 8 b → free dot (join_with colon (hex_group <$> k))) as Hd.
  { intros k Hk. apply join_free; [done|]. by apply (hex_parts _ Hr). }
  destruct (zero_run _) as [s n]. destruct (n =? 0)%nat; split.
  - destruct (groups 8 b) as [|v [|v' k]]; [done|done|]. cbn [fmap list_fmap join_with].
    apply elem_of_app. right. by left.
  - by apply Hd.
  - apply elem_of_app. right. by left.
  - unfold free. rewrite !elem_of_app. intros [H|[H|H]].
    + eapply Hd, H. intros v Hv. rewrite <- (take_drop s (groups 8 b)). apply elem_of_app. by left.
    + apply list_elem_of_In in H. cbn in H. naive_solver.
    + eapply Hd, H. intros v Hv. rewrite <- (take_drop (s + n) (groups 8 b)). apply elem_of_app. by right.
Qed.

(** ** The text determines the address *)

(** An address as packet headers carry it: valid, without a zone. *)
Definition plain (a : Addr) : Prop :=
  match a with
  | AddrZero => False
  | Addr4 _ => True
  | Addr6 _ zone => zone = ""
  end.

Lemma has_prefix_split p l : has_prefix p l = true → l = p ++ drop (length p) l.
Proof.
  unfold has_prefix. intros H. apply bool_decide_eq_true in H. rewrite <- H at 1. by rewrite take_drop.
Qed.

Lemma mapped_inj (b b' : vec byte 16) :
  has_prefix mapped_prefix b = true → has_prefix mapped_prefix b' = true →
  string4 (drop 12 b) = string4 (drop 12 b') → b = b'.
Proof.
  intros H%has_prefix_split H'%has_prefix_split E. apply vec_to_list_inj2. rewrite H, H'. f_equal.
  pose proof (length_vec_to_list b). pose proof (length_vec_to_list b').
  apply string4_inj; [..|exact E]; intros E0%(f_equal length); rewrite length_drop in E0; cbn in E0; lia.
Qed.

Lemma string4_dot b : length b = 4%nat → dot ∈ string4 b.
Proof.
  intros Hb. destruct b as [|x [|y b]]; [done|done|]. unfold string4. cbn [fmap list_fmap join_with].
  apply elem_of_app. right. by left.
Qed.

Lemma vec4_ne (b : vec byte 4) : vec_to_list b ≠ [].
Proof. intros E%(f_equal length). rewrite length_vec_to_list in E. done. Qed.

Lemma Addr_String_inj a a' : plain a → plain a' → Addr_String a = Addr_String a' → a = a'.
Proof.
  intros Ha Ha' E%(f_equal bytes_of). unfold Addr_String in E. rewrite !bytes_of_string_of in E.
  assert (∀ b : vec byte 4, free colon (Addr_bytes (Addr4 b))) as H4 by (intros b; apply string4_no_colon).
  assert (∀ b : vec byte 16, colon ∈ Addr_bytes (Addr6 b "")) as H6.
  { intros b. unfold Addr_bytes. rewrite app_nil_r. destruct (has_prefix _ _); [by left|]. apply string6_marks. }
  destruct a as [|b|b z], a' as [|b'|b' z']; cbn [plain] in Ha, Ha'; try done; subst.
  - f_equal. apply vec_to_list_inj2. apply string4_inj; [apply vec4_ne..|exact E].
  - destruct (H4 b). rewrite E. apply H6.
  - destruct (H4 b'). rewrite <- E. apply H6.
  - f_equal. unfold Addr_bytes in E. rewrite !app_nil_r in E.
    destruct (has_prefix mapped_prefix b) eqn:M, (has_prefix mapped_prefix b') eqn:M'.
    + by apply mapped_inj, (app_inv_head (bytes_of "::ffff:")).
    + destruct (string6_marks b') as [_ Hd]. destruct Hd. rewrite <- E. apply elem_of_app. right.
      apply string4_dot. rewrite length_drop, length_vec_to_list. done.
    + destruct (string6_marks b) as [_ Hd]. destruct Hd. rewrite E. apply elem_of_app. right.
      apply string4_dot. rewrite length_drop, length_vec_to_list. done.
    + apply vec_to_list_inj2, string6_inj; [apply length_vec_to_list..|exact E].
Qed.
