(* ===== verification/NetParse.v ===== *)
(** Parsing of textual addresses: [netip.ParseAddr] and [net.ParseIP], and the byte-slice
    addresses of package [net] ([To4], [To16]). *)
From S2P Require Import Prelude GoLib MeshTypes NetAddr.

Open Scope Z_scope.

Module NetParse.
Import NetAddr.

Definition is_digit (c : byte) : bool := (48 <=? bZ c) && (bZ c <=? 57).

(** [parseIPv4Fields]: [fields] are the octets read so far (reversed), [val] and [digLen]
    the current one, [fresh] holds at the start and after a dot. *)
Fixpoint parse4_loop (fields : list Z) (val : Z) (digLen : nat) (s : list byte) : option (list byte) :=
  match s with
  | [] => if (length fields =? 3)%nat then Some (Zb <$> reverse (val :: fields)) else None
  | c :: s' =>
      if is_digit c then
        if (digLen =? 1)%nat && (val =? 0) then None
        else
          let val := val * 10 + (bZ c - 48) in
          if 255 <? val then None else parse4_loop fields val (S digLen) s'
      else if bool_decide (c = dot) then
        if (digLen =? 0)%nat || match s' with [] => true | _ => false end then None
        else if (length fields =? 3)%nat then None
        else parse4_loop (val :: fields) 0 0 s'
      else None
  end.

Definition parseIPv4Fields (s : list byte) : option (list byte) := parse4_loop [] 0 0 s.

Definition hex_of (c : byte) : option Z :=
  if is_digit c then Some (bZ c - 48)
  else if (97 <=? bZ c) && (bZ c <=? 102) then Some (bZ c - 87)
  else if (65 <=? bZ c) && (bZ c <=? 70) then Some (bZ c - 55)
  else None.

(** The hex digits at the head of [s]: their number, value and the rest; [None] when there
    are more than four. *)
Fixpoint hex_run (off : nat) (acc : Z) (s : list byte) : option (nat * Z * list byte) :=
  match s with
  | [] => Some (off, acc, [])
  | c :: s' =>
      match hex_of c with
      | None => Some (off, acc, s)
      | Some d => if (3 <? off)%nat then None else hex_run (S off) (acc * 16 + d) s'
      end
  end.

(** The loop of [parseIPv6]: the bytes so far, the position of "::" and the rest of the
    text.  Each round adds at least two bytes, so eight rounds are all there can be. *)
Fixpoint parse6_loop (fuel : nat) (ip : list byte) (ellipsis : option nat) (s : list byte) :
    option (list byte * option nat * list byte) :=
  match fuel with
  | O => Some (ip, ellipsis, s)
  | S fuel =>
      match hex_run 0 0 s with
      | None => None
      | Some (off, acc, rest) =>
          if (off =? 0)%nat then None
          else if match rest with c :: _ => bool_decide (c = dot) | [] => false end then
            if match ellipsis with None => negb (length ip =? 12)%nat | Some _ => false end then None
            else if (16 <? length ip + 4)%nat then None
            else match parseIPv4Fields s with
                 | None => None
                 | Some b => Some (ip ++ b, ellipsis, [])
                 end
          else
            let ip := ip ++ be_put 2 acc in
            match rest with
            | [] => Some (ip, ellipsis, [])
            | c :: s1 =>
                if negb (bool_decide (c = colon)) then None
                else match s1 with
                     | [] => None
                     | c1 :: s2 =>
                         if bool_decide (c1 = colon) then
                           match ellipsis with
                           | Some _ => None
                           | None =>
                               match s2 with
                               | [] => Some (ip, Some (length ip), [])
                               | _ => parse6_loop fuel ip (Some (length ip)) s2
                               end
                           end
                         else parse6_loop fuel ip ellipsis s1
                     end
            end
      end
  end.

(** [parseIPv6] without a zone. *)
Definition parseIPv6 (s : list byte) : option (list byte) :=
  let start := match s with
               | c :: c' :: s' => if bool_decide (c = colon) && bool_decide (c' = colon) then (Some 0%nat, s') else (None, s)
               | _ => (None, s)
               end in
  match start with
  | (Some _, []) => Some (replicate 16 x00)
  | (ellipsis, s) =>
      match parse6_loop 8 [] ellipsis s with
      | None => None
      | Some (ip, ellipsis, rest) =>
          match rest with
          | _ :: _ => None
          | [] =>
              if (length ip <? 16)%nat then
                match ellipsis with
                | None => None
                | Some e => Some (take e ip ++ replicate (16 - length ip) x00 ++ drop e ip)
                end
              else match ellipsis with Some _ => None | None => Some ip end
          end
      end
  end.

(** What [ParseAddr] looks at first: the first dot, colon or percent sign. *)
Fixpoint first_mark (s : list byte) : option byte :=
  match s with
  | [] => None
  | c :: s => if bool_decide (c = dot) || bool_decide (c = colon) || bool_decide (c = x25) then Some c else first_mark s
  end.

(** [netip.ParseAddr]: the zone of an IPv6 address follows a percent sign and is not empty. *)
Definition ParseAddr (s : string) : option Addr :=
  let b := bytes_of s in
  match first_mark b with
  | Some c =>
      if bool_decide (c = dot) then (λ ip, Addr4 (arr_copy 4 ip)) <$> parseIPv4Fields b
      else if bool_decide (c = colon) then
        match find_index (λ d, bool_decide (d = x25)) b with
        | None => (λ ip, Addr6 (arr_copy 16 ip) "") <$> parseIPv6 b
        | Some i =>
            let zone := string_of (drop (S i) b) in
            if String.eqb zone "" then None
            else (λ ip, Addr6 (arr_copy 16 ip) zone) <$> parseIPv6 (take i b)
        end
      else None
  | None => None
  end.

(** The position of the last [c]. *)
Definition last_index (c : byte) (l : list byte) : option nat :=
  (λ i, length l - S i)%nat <$> find_index (λ d, bool_decide (d = c)) (rev l).

(** [net.SplitHostPort]; [None] is any of its errors. *)
Definition SplitHostPort (hostport : string) : option (string * string) :=
  let b := bytes_of hostport in
  match last_index colon b with
  | None => None
  | Some i =>
      let head := match b with c :: _ => bool_decide (c = x5b) | [] => false end in
      let split :=
        if head then
          match find_index (λ d, bool_decide (d = x5d)) b with
          | None => None
          | Some e => if (S e =? i)%nat then Some (take (e - 1) (drop 1 b), 1%nat, S e) else None
          end
        else
          let host := take i b in
          if bool_decide (colon ∈ host) then None else Some (host, 0%nat, 0%nat) in
      match split with
      | None => None
      | Some (host, j, k) =>
          if bool_decide (x5b ∈ drop j b) then None
          else if bool_decide (x5d ∈ drop k b) then None
          else Some (string_of host, string_of (drop (S i) b))
      end
  end.

Example SplitHostPort_forms :
  (SplitHostPort "10.0.0.1:80", SplitHostPort "[fe80::1%eth0]:443", SplitHostPort "::1:80", SplitHostPort "host",
   SplitHostPort "[::1]", SplitHostPort "[::1]x:80")
  = (Some ("10.0.0.1", "80"), Some ("fe80::1%eth0", "443"), None, None, None, None).
Proof. vm_compute. reflexivity. Qed.

(** [net.ParseIP]: the sixteen-byte form; a zone is refused. *)
Definition ParseIP (s : string) : option (list byte) :=
  let b := bytes_of s in
  match first_mark b with
  | Some c =>
      if bool_decide (c = dot) then (λ ip, mapped_prefix ++ ip) <$> parseIPv4Fields b
      else if bool_decide (c = colon) then
        if bool_decide (x25 ∈ b) then None else parseIPv6 b
      else None
  | None => None
  end.

(** [IP.To4] and [IP.To16] on byte slices; [None] is nil. *)
Definition To4 (ip : list byte) : option (list byte) :=
  if (length ip =? 4)%nat then Some ip
  else if (length ip =? 16)%nat && has_prefix mapped_prefix ip then Some (drop 12 ip)
  else None.

Definition To16 (ip : list byte) : option (list byte) :=
  if (length ip =? 4)%nat then Some (mapped_prefix ++ ip)
  else if (length ip =? 16)%nat then Some ip
  else None.

Example ParseIP_v4 : ParseIP "10.0.255.1" = Some (mapped_prefix ++ [x0a; x00; xff; x01]).
Proof. by vm_compute. Qed.
Example ParseIP_v6 : ParseIP "fd00:1::a:2" = Some ([xfd; x00; x00; x01] ++ replicate 8 x00 ++ [x00; x0a; x00; x02]).
Proof. by vm_compute. Qed.
Example ParseIP_embedded : ParseIP "::ffff:1.2.3.4" = ParseIP "1.2.3.4".
Proof. by vm_compute. Qed.
Example ParseIP_refuses :
  Forall (λ s, ParseIP s = None) [""; "1.2.3"; "1.2.3.04"; "1..2.3"; "1.2.3.256"; "::1::"; "1:2"; "fe80::1%eth0";
    "1:2:3:4:5:6:7:8:9"; "1:2:3:4:5:6:7::8"; "12345::"; ":1::2"].
Proof. repeat constructor. Qed.

(** ** Parsing what [netip.Addr.String] prints: IPv4 *)

Lemma parse4_octet fields (b : byte) s :
  parse4_loop fields 0 0 (dec_byte b ++ s) = parse4_loop fields (bZ b) (length (dec_byte b)) s.
Proof. by destruct b. Qed.

Lemma dec_byte_nonempty b : length (dec_byte b) ≠ 0%nat.
Proof. by destruct b. Qed.

Lemma parse4_dot fields (b : byte) s :
  (length fields < 3)%nat → s ≠ [] →
  parse4_loop fields 0 0 (dec_byte b ++ dot :: s) = parse4_loop (bZ b :: fields) 0 0 s.
Proof.
  intros Hf Hs. rewrite parse4_octet. cbn [parse4_loop]. change (is_digit dot) with false.
  rewrite bool_decide_eq_true_2 by done.
  destruct (Nat.eqb_spec (length (dec_byte b)) 0) as [E|_]; [by apply dec_byte_nonempty in E|].
  destruct s; [done|]. cbn [orb]. destruct (Nat.eqb_spec (length fields) 3); [lia|done].
Qed.

Lemma parse4_string4 b : length b = 4%nat → parseIPv4Fields (string4 b) = Some b.
Proof.
  destruct b as [|b1 [|b2 [|b3 [|b4 [|]]]]]; try done. intros _. unfold string4, parseIPv4Fields.
  cbn [fmap list_fmap join_with].
  rewrite <- (app_nil_r (dec_byte b4)).
  assert (∀ c k, dec_byte c ++ k ≠ []) as Hne by (by intros []).
  rewrite !parse4_dot by (cbn; lia || apply Hne). rewrite parse4_octet.
  cbn -[bZ Zb]. by rewrite !Zb_bZ.
Qed.
End NetParse.
