(* ===== verification/GoStrings.v ===== *)
(** * Strings, numbers and lines of the Go library

    [strings.TrimSpace], [Split], [IndexByte], [LastIndex], [strconv.Atoi] and the line scanner
    of [bufio], on byte lists.  The Unicode spaces of [TrimSpace] outside ASCII are a
    parameter. *)

From S2P Require Import Prelude GoLib NetParse.
Import NetParse.

Open Scope Z_scope.

(** ** Trimming *)

Definition is_ascii_space (c : byte) : bool := (bZ c =? 32) || ((9 <=? bZ c) && (bZ c <=? 13)).

Fixpoint drop_leading (p : byte → bool) (l : list byte) : list byte :=
  match l with
  | [] => []
  | c :: r => if p c then drop_leading p r else l
  end.

Definition trim_by (p : byte → bool) (l : list byte) : list byte := rev (drop_leading p (rev (drop_leading p l))).

(** [strings.TrimSpace] on a text with a byte outside ASCII. *)
Class GoSpace := { unicode_trim : list byte → list byte }.

Definition ascii_bytes (l : list byte) : bool := forallb (λ b, bZ b <? 128) l.

Definition TrimSpace `{GoSpace} (l : list byte) : list byte :=
  if ascii_bytes l then trim_by is_ascii_space l else unicode_trim l.

Definition ascii_space : GoSpace := {| unicode_trim := trim_by is_ascii_space |}.

(** A text with no byte of [p] at either end. *)
Definition trimmed (p : byte → bool) (l : list byte) : Prop :=
  (∀ c r, l = c :: r → p c = false) ∧ (∀ c r, l = r ++ [c] → p c = false).

Lemma drop_leading_id p l : (∀ c r, l = c :: r → p c = false) → drop_leading p l = l.
Proof. destruct l as [|c r]; cbn; [done|]. intros H. by rewrite (H c r). Qed.

Lemma trim_by_id p l : trimmed p l → trim_by p l = l.
Proof.
  intros [Hl Hr]. unfold trim_by. rewrite (drop_leading_id p l Hl), drop_leading_id; [apply rev_involutive|].
  intros c r E. apply (Hr c (rev r)). by rewrite <- (rev_involutive l), E.
Qed.

Lemma drop_leading_suffix p l : ∃ k, l = k ++ drop_leading p l ∧ Forall (λ c, p c = true) k.
Proof.
  induction l as [|c r [k [E Hk]]]; cbn; [by exists []|].
  destruct (p c) eqn:Ec; [|by exists []].
  exists (c :: k). split; [cbn; congruence|by constructor].
Qed.

Lemma drop_leading_head p l c r : drop_leading p l = c :: r → p c = false.
Proof. induction l as [|d l IH]; cbn; [done|]. destruct (p d) eqn:E; [done|]. congruence. Qed.

Lemma trim_by_spec p l :
  ∃ a b, l = a ++ trim_by p l ++ b ∧ Forall (λ c, p c = true) a ∧ Forall (λ c, p c = true) b ∧ trimmed p (trim_by p l).
Proof.
  unfold trim_by. destruct (drop_leading_suffix p l) as [a [El Ha]]. set (m := drop_leading p l) in *.
  destruct (drop_leading_suffix p (rev m)) as [b [Em Hb]]. set (k := drop_leading p (rev m)) in *.
  assert (m = rev k ++ rev b) as Hm by (by rewrite <- rev_app_distr, <- Em, rev_involutive).
  exists a, (rev b). split_and!; [congruence|done|by apply Forall_rev|].
  split.
  - intros c r E. rewrite E in Hm. apply (drop_leading_head p l c (r ++ rev b)). exact Hm.
  - intros c r E. apply (drop_leading_head p (rev m) c (rev r)). fold k.
    by rewrite <- (rev_involutive k), E, rev_app_distr.
Qed.

(** ** Splitting *)

Fixpoint split_byte (sep : byte) (l : list byte) : list (list byte) :=
  match l with
  | [] => [[]]
  | c :: r =>
      if bool_decide (c = sep) then [] :: split_byte sep r
      else match split_byte sep r with
           | p :: ps => (c :: p) :: ps
           | [] => [[c]]
           end
  end.

Fixpoint join_byte (sep : byte) (ps : list (list byte)) : list byte :=
  match ps with
  | [] => []
  | [p] => p
  | p :: ps => p ++ sep :: join_byte sep ps
  end.

Lemma split_byte_nonempty sep l : split_byte sep l ≠ [].
Proof. destruct l as [|c r]; cbn; [done|]. case_bool_decide; [done|]. by destruct (split_byte sep r). Qed.

Lemma join_byte_split sep l : join_byte sep (split_byte sep l) = l.
Proof.
  induction l as [|c r IH]; [done|]. cbn. pose proof (split_byte_nonempty sep r) as Hn.
  case_bool_decide as E; [|].
  - subst. destruct (split_byte sep r); [done|]. change (sep :: join_byte sep (l :: l0) = sep :: r). by rewrite IH.
  - destruct (split_byte sep r) as [|p ps]; [done|]. destruct ps; cbn in *; congruence.
Qed.

Lemma split_byte_single sep p : sep ∉ p → split_byte sep p = [p].
Proof.
  induction p as [|c r IH]; [done|]. intros Hn. apply not_elem_of_cons in Hn as [Hc Hr].
  cbn. rewrite bool_decide_eq_false_2 by congruence. by rewrite IH.
Qed.

Lemma split_byte_app sep p l : sep ∉ p → split_byte sep (p ++ sep :: l) = p :: split_byte sep l.
Proof.
  induction p as [|c r IH]; intros Hn; cbn.
  - by rewrite bool_decide_eq_true_2.
  - apply not_elem_of_cons in Hn as [Hc Hr]. rewrite bool_decide_eq_false_2 by congruence. by rewrite IH.
Qed.

Definition index_byte (c : byte) (l : list byte) : option nat := find_index (λ d, bool_decide (d = c)) l.

(** ** [strconv.Atoi] on a 64-bit machine *)

Fixpoint digits_value (acc : Z) (l : list byte) : option Z :=
  match l with
  | [] => Some acc
  | c :: r => if is_digit c then digits_value (10 * acc + (bZ c - 48)) r else None
  end.

Definition digits (l : list byte) : option Z := if (length l =? 0)%nat then None else digits_value 0 l.

Definition int64 (z : Z) : bool := (- 2 ^ 63 <=? z) && (z <? 2 ^ 63).

Definition Atoi (l : list byte) : option Z :=
  let n := match l with
           | c :: r => if bool_decide (c = x2d) then Z.opp <$> digits r
                       else if bool_decide (c = x2b) then digits r else digits l
           | [] => None
           end in
  match n with
  | Some z => if int64 z then Some z else None
  | None => None
  end.

Example Atoi_forms :
  (Atoi (bytes_of "29683"), Atoi (bytes_of "-7"), Atoi (bytes_of "+12"), Atoi (bytes_of "12a"), Atoi (bytes_of ""),
   Atoi (bytes_of "-"), Atoi (bytes_of "9223372036854775808"), Atoi (bytes_of "-9223372036854775808"))
  = (Some 29683, Some (-7), Some 12, None, None, None, None, Some (- 2 ^ 63)).
Proof. vm_compute. reflexivity. Qed.

(** ** [bufio.Scanner] with its default split function and buffer *)

Definition MaxScanTokenSize : Z := 65536.

Definition drop_cr (l : list byte) : list byte := trim_suffix [x0d] l.

(** The raw lines: a final newline does not start a further line. *)
Definition raw_lines (l : list byte) : list (list byte) :=
  let ps := split_byte x0a l in
  match last ps with
  | Some [] => take (length ps - 1) ps
  | _ => ps
  end.

(** The lines before the first that does not fit the buffer, and whether there was one. *)
Fixpoint scan_fit (ls : list (list byte)) : list (list byte) * bool :=
  match ls with
  | [] => ([], true)
  | l :: ls =>
      if Z.of_nat (length l) <? MaxScanTokenSize then let '(r, ok) := scan_fit ls in (drop_cr l :: r, ok)
      else ([], false)
  end.

Definition scan_lines (l : list byte) : list (list byte) * bool := scan_fit (raw_lines l).

Example scan_lines_forms :
  (scan_lines (bytes_of "a"), scan_lines [x61; x0d; x0a; x0a; x62; x0a], scan_lines [])
  = (([[x61]], true), ([[x61]; []; [x62]], true), ([], true)).
Proof. vm_compute. reflexivity. Qed.

(** ** Printing and parsing numbers *)

Lemma pretty_char_value (d : N) : (d < 10)%N →
  is_digit (Ascii.byte_of_ascii (pretty_N_char d)) = true ∧ bZ (Ascii.byte_of_ascii (pretty_N_char d)) - 48 = Z.of_N d.
Proof.
  intros Hd. assert (d ∈ ([0; 1; 2; 3; 4; 5; 6; 7; 8; 9] : list N)%N) as Hin.
  { rewrite !elem_of_cons. lia. }
  repeat (apply elem_of_cons in Hin as [->|Hin]; [by vm_compute|]). by apply not_elem_of_nil in Hin.
Qed.

Lemma digits_pretty_go x s : digits_value 0 (bytes_of (pretty_N_go x s)) = digits_value (Z.of_N x) (bytes_of s).
Proof.
  revert s. induction (N.lt_wf_0 x) as [x _ IH]. intros s. destruct (N.eq_dec x 0%N) as [->|Hx].
  - by rewrite pretty_N_go_0.
  - rewrite pretty_N_go_step by lia. rewrite IH by (apply N.div_lt; lia).
    destruct (pretty_char_value (x mod 10)%N) as [Hd Hv]; [apply N.mod_lt; lia|].
    change (bytes_of (String (pretty_N_char (x mod 10)%N) s)) with (Ascii.byte_of_ascii (pretty_N_char (x mod 10)%N) :: bytes_of s).
    cbn [digits_value]. rewrite Hd, Hv. f_equal.
    pose proof (N.div_mod x 10). lia.
Qed.

Lemma pretty_N_digits (n : N) : digits_value 0 (bytes_of (pretty n)) = Some (Z.of_N n) ∧ pretty n ≠ "".
Proof.
  unfold pretty, pretty_N. case_decide as H.
  - subst. by vm_compute.
  - rewrite digits_pretty_go. split; [done|]. intros E.
    pose proof (digits_pretty_go n "") as Hd. rewrite E in Hd. cbn in Hd. injection Hd as Hd. lia.
Qed.

Lemma digits_head l z : digits_value 0 l = Some z → ∀ c r, l = c :: r → is_digit c = true.
Proof. intros H c r ->. cbn in H. by destruct (is_digit c). Qed.

Lemma digits_pretty (n : N) : digits (bytes_of (pretty n)) = Some (Z.of_N n).
Proof.
  destruct (pretty_N_digits n) as [Hd Hne]. unfold digits.
  destruct (bytes_of (pretty n)) eqn:E; [|done]. destruct Hne. by apply bytes_of_inj.
Qed.

(** Printing a 64-bit integer with [%d] and reading it back. *)
Lemma Atoi_pretty (z : Z) : int64 z = true → Atoi (bytes_of (pretty z)) = Some z.
Proof.
  intros Hz.
  assert (∀ p, Atoi (bytes_of (pretty (N.pos p))) = if int64 (Z.pos p) then Some (Z.pos p) else None) as Hpos.
  { intros p. unfold Atoi. rewrite <- (digits_pretty (N.pos p)) at 1. destruct (pretty_N_digits (N.pos p)) as [Hd _].
    destruct (bytes_of (pretty (N.pos p))) as [|c r] eqn:E; [done|].
    pose proof (digits_head _ _ Hd c r eq_refl) as Hc.
    rewrite !bool_decide_eq_false_2 by (intros ->; by vm_compute in Hc).
    rewrite <- E, digits_pretty. done. }
  destruct z as [|p|p].
  - by vm_compute.
  - change (pretty (Z.pos p)) with (pretty (N.pos p)). rewrite Hpos. by rewrite Hz.
  - change (bytes_of (pretty (Z.neg p))) with (x2d :: bytes_of (pretty (N.pos p))).
    unfold Atoi. rewrite bool_decide_eq_true_2 by done. rewrite digits_pretty. cbn [fmap option_fmap option_map].
    change (- Z.of_N (N.pos p)) with (Z.neg p). by rewrite Hz.
Qed.

Lemma last_index_app c l r : c ∉ r → last_index c (l ++ c :: r) = Some (length l).
Proof.
  intros Hr. unfold last_index. rewrite rev_app_distr. cbn [rev]. rewrite <- app_assoc.
  assert (∀ k m, c ∉ k → find_index (λ d, bool_decide (d = c)) (k ++ c :: m) = Some (length k)) as Hf.
  { induction k as [|d k IH]; intros m Hk; cbn; [by rewrite bool_decide_eq_true_2|].
    apply not_elem_of_cons in Hk as [Hd Hk]. rewrite bool_decide_eq_false_2 by congruence. by rewrite IH. }
  cbn [app]. rewrite Hf by (by rewrite list_elem_of_In, <- in_rev, <- list_elem_of_In).
  cbn. f_equal. rewrite length_app, length_rev. cbn. lia.
Qed.
