(* ===== verification/Routing.v ===== *)
(** * The packet router ([internal/routing/router.go], [wire.go])

    The peer table indexes entries by mesh address; the router takes the destination out of
    an IP packet, looks it up and writes the packet to the peer's sink.  A sink is a tunnel
    shared by pointer, named here by a number; whether a write to it succeeds is decided by
    the environment, and the router's writes are recorded in a trace. *)

From S2P Require Import Prelude GoLib Sha256 MeshTypes NetAddr.

Open Scope Z_scope.

Module Routing.

(** ** The peer table *)

Record PeerEntry := mkEntry {
  IPv6 : string;
  IPv4 : string;
  eNodeID : string;
  eRoomID : string;
  Sink : option nat;
}.

#[export] Instance PeerEntry_eq_dec : EqDecision PeerEntry.
Proof. solve_decision. Defined.

Record PeerTable := mkPeerTable {
  byIPv6 : gmap string PeerEntry;
  byIPv4 : gmap string PeerEntry;
}.

Definition NewPeerTable : PeerTable := mkPeerTable ∅ ∅.

Definition Add (e : PeerEntry) (t : PeerTable) : PeerTable :=
  mkPeerTable
    (if negb (String.eqb (IPv6 e) "") then <[IPv6 e := e]> (byIPv6 t) else byIPv6 t)
    (if negb (String.eqb (IPv4 e) "") then <[IPv4 e := e]> (byIPv4 t) else byIPv4 t).

Definition Get (ipv6 : string) (t : PeerTable) : option PeerEntry := byIPv6 t !! ipv6.
Definition GetByIPv4 (ipv4 : string) (t : PeerTable) : option PeerEntry := byIPv4 t !! ipv4.

(** The two deletion loops. *)
Definition Remove (nodeID : string) (t : PeerTable) : PeerTable :=
  mkPeerTable (filter (λ kv, eNodeID kv.2 ≠ nodeID) (byIPv6 t))
              (filter (λ kv, eNodeID kv.2 ≠ nodeID) (byIPv4 t)).

Definition WireTunnel (nodeID ipv6 ipv4 roomID : string) (tun : nat) (t : PeerTable) : PeerTable :=
  Add (mkEntry ipv6 ipv4 nodeID roomID (Some tun)) t.

(** ** Packets *)

Inductive packet_error :=
| ErrEmpty
| ErrShort4 (n : nat)
| ErrShort6 (n : nat)
| ErrVersion (v : Z).

(** The destination field; the index panics of the code are behind its length checks. *)
Definition dst_addr (pkt : list byte) : outcome packet_error Addr :=
  match pkt with
  | [] => Fail ErrEmpty
  | b0 :: _ =>
      let version := Z.shiftr (bZ b0) 4 in
      if version =? 4 then
        if (length pkt <? 20)%nat then Fail (ErrShort4 (length pkt))
        else Ret (Addr4 (arr_copy 4 (take 4 (drop 16 pkt))))
      else if version =? 6 then
        if (length pkt <? 40)%nat then Fail (ErrShort6 (length pkt))
        else Ret (Addr6 (arr_copy 16 (take 16 (drop 24 pkt))) "")
      else Fail (ErrVersion version)
  end.

Definition extractDstAddr (pkt : list byte) : outcome packet_error string :=
  a ← dst_addr pkt; Ret (Addr_String a).

(** ** The router *)

(** Counters are [uint64].  [trace] lists the sink writes: sink, packet, success. *)
Record Router := mkRouter {
  table : PeerTable;
  forwarded : Z;
  dropped : Z;
  noRoute : Z;
  trace : list (nat * list byte * bool);
}.

Definition NewRouter (t : PeerTable) : Router := mkRouter t 0 0 0 [].

Definition inc (z : Z) : Z := (z + 1) mod 2 ^ 64.

Definition forward (r : Router) : Router :=
  mkRouter (table r) (inc (forwarded r)) (dropped r) (noRoute r) (trace r).
Definition drop_pkt (r : Router) : Router :=
  mkRouter (table r) (forwarded r) (inc (dropped r)) (noRoute r) (trace r).
Definition noRoutePkt (r : Router) : Router :=
  mkRouter (table r) (forwarded r) (dropped r) (inc (noRoute r)) (trace r).

(** The sink is written to. *)
Definition log_write (s : nat) (pkt : list byte) (ok : bool) (r : Router) : Router :=
  mkRouter (table r) (forwarded r) (dropped r) (noRoute r) (trace r ++ [(s, pkt, ok)]).

Definition Route (dstAddr : string) (r : Router) : option PeerEntry :=
  match Get dstAddr (table r) with
  | Some e => Some e
  | None => GetByIPv4 dstAddr (table r)
  end.

Inductive router_error := ErrTunRead.

Section Environment.
(** Whether a write of a packet to a sink succeeds. *)
Variable sink_ok : nat → list byte → bool.

(** [read] is the result of [src.Read(buf)]: a failure, or the bytes read. *)
Definition Forward (read : option (list byte)) (r : Router) : Router * outcome router_error () :=
  match read with
  | None => (r, Fail ErrTunRead)
  | Some pkt =>
      if (length pkt =? 0)%nat then (r, Ret ())
      else match extractDstAddr pkt with
           | Ret dst =>
               match Route dst r with
               | None => (noRoutePkt r, Ret ())
               | Some entry =>
                   match Sink entry with
                   | None => (noRoutePkt r, Ret ())
                   | Some s =>
                       let ok := sink_ok s pkt in
                       let r := log_write s pkt ok r in
                       if ok then (forward r, Ret ()) else (drop_pkt r, Ret ())
                   end
               end
           | _ => (drop_pkt r, Ret ())
           end
  end.

(** [RunLoop] on the reads made until [done] is closed. *)
Definition RunLoop (reads : list (option (list byte))) (r : Router) : Router :=
  foldl (λ r read, (Forward read r).1) r reads.
End Environment.

Definition Stats (r : Router) : Z * Z * Z := (forwarded r, dropped r, noRoute r).

(** ** Liveness of a tunnel (wire.go) *)

Definition Touch (now last : Z) : Z := now.
Definition Stale (now timeout last : Z) : bool := timeout <? time_sub now last.

End Routing.

Module RoutingFacts.
Import Routing.

(** Every entry is filed under its own, non-empty address. *)
Record table_ok (t : PeerTable) : Prop := {
  filed6 k e : byIPv6 t !! k = Some e → IPv6 e = k ∧ k ≠ "";
  filed4 k e : byIPv4 t !! k = Some e → IPv4 e = k ∧ k ≠ "";
}.

Lemma NewPeerTable_ok : table_ok NewPeerTable.
Proof. split; intros k e; cbn; by rewrite lookup_empty. Qed.

Lemma PeerTable_Add_ok e t : table_ok t → table_ok (Add e t).
Proof.
  intros [H6 H4]. split; intros k e'; cbn.
  - destruct (String.eqb_spec (IPv6 e) ""); cbn [negb]; [apply H6|].
    intros [[<- <-]|[_ H]]%lookup_insert_Some; [done|by apply H6].
  - destruct (String.eqb_spec (IPv4 e) ""); cbn [negb]; [apply H4|].
    intros [[<- <-]|[_ H]]%lookup_insert_Some; [done|by apply H4].
Qed.

Lemma Remove_lookup id t k e :
  (byIPv6 (Remove id t) !! k = Some e ↔ byIPv6 t !! k = Some e ∧ eNodeID e ≠ id) ∧
  (byIPv4 (Remove id t) !! k = Some e ↔ byIPv4 t !! k = Some e ∧ eNodeID e ≠ id).
Proof. unfold Remove. cbn. by rewrite !map_lookup_filter_Some. Qed.

Lemma PeerTable_Remove_ok id t : table_ok t → table_ok (Remove id t).
Proof. intros [H6 H4]. split; intros k e [H _]%Remove_lookup; [by apply H6|by apply H4]. Qed.

(** ** Destinations *)

Lemma dst_addr_plain pkt a : dst_addr pkt = Ret a → plain a.
Proof. destruct pkt; [done|]. cbn [dst_addr]. repeat case_match; by intros [= <-]. Qed.

Lemma dst_addr_no_panic pkt : dst_addr pkt ≠ Panic.
Proof. destruct pkt; [done|]. cbn [dst_addr]. by repeat case_match. Qed.

(** The destination bytes of a packet, by version. *)
Lemma dst_addr_bytes pkt a :
  dst_addr pkt = Ret a →
  match a with
  | Addr4 b => (20 ≤ length pkt)%nat ∧ vec_to_list b = take 4 (drop 16 pkt)
  | Addr6 b _ => (40 ≤ length pkt)%nat ∧ vec_to_list b = take 16 (drop 24 pkt)
  | AddrZero => False
  end.
Proof.
  destruct pkt as [|b0 pkt]; [done|]. unfold dst_addr. set (l := b0 :: pkt).
  destruct (_ =? 4); [|destruct (_ =? 6); [|done]].
  - destruct (Nat.ltb_spec (length l) 20); [done|]. intros <-%Ret_inj. split; [lia|].
    apply arr_copy_exact. rewrite length_take, length_drop. lia.
  - destruct (Nat.ltb_spec (length l) 40); [done|]. intros <-%Ret_inj. split; [lia|].
    apply arr_copy_exact. rewrite length_take, length_drop. lia.
Qed.

(** ** Routing one packet *)

Section Forwarding.
Variable sink_ok : nat → list byte → bool.

Definition counted (r : Router) : Z := forwarded r + dropped r + noRoute r.

Lemma Route_filed r dst e : table_ok (table r) → Route dst r = Some e → IPv6 e = dst ∨ IPv4 e = dst.
Proof.
  intros [H6 H4]. unfold Route, Get, GetByIPv4. destruct (byIPv6 (table r) !! dst) eqn:E.
  - intros [= <-]. left. by apply (H6 dst).
  - intros H. right. by apply (H4 dst).
Qed.

(** The outcome of a non-empty packet: one of the three counters, and at most one write. *)
Lemma Forward_packet pkt r :
  pkt ≠ [] →
  let r' := (Forward sink_ok (Some pkt) r).1 in
  (Forward sink_ok (Some pkt) r).2 = Ret () ∧ table r' = table r ∧
  ((r' = drop_pkt r ∧ ∃ e, dst_addr pkt = Fail e) ∨
   (∃ a, dst_addr pkt = Ret a ∧
     ((r' = noRoutePkt r ∧ (Route (Addr_String a) r = None ∨
         ∃ e, Route (Addr_String a) r = Some e ∧ Sink e = None)) ∨
      (∃ e s, Route (Addr_String a) r = Some e ∧ Sink e = Some s ∧
         r' = (if sink_ok s pkt then forward else drop_pkt) (log_write s pkt (sink_ok s pkt) r))))).
Proof.
  intros Hne. unfold Forward. destruct (Nat.eqb_spec (length pkt) 0) as [|_]; [by destruct pkt|].
  unfold extractDstAddr. pose proof (dst_addr_no_panic pkt).
  destruct (dst_addr pkt) as [a|e|] eqn:Ea; cbn [mbind outcome_bind]; [| |done].
  - destruct (Route (Addr_String a) r) as [e|] eqn:Er.
    + destruct (Sink e) as [s|] eqn:Es.
      * destruct (sink_ok s pkt) eqn:Eo; (split_and!; [done|done|]); right; exists a;
          (split; [done|]); right; exists e, s; by rewrite Eo.
      * split_and!; [done|done|]. right. exists a. split; [done|]. left. split; [done|]. right. by exists e.
    + split_and!; [done|done|]. right. exists a. split; [done|]. left. split; [done|]. by left.
  - split_and!; [done|done|]. left. split; [done|]. by exists e.
Qed.

Lemma Forward_table read r : table (Forward sink_ok read r).1 = table r.
Proof.
  destruct read as [pkt|]; [|done]. destruct pkt as [|b pkt]; [done|].
  by destruct (Forward_packet (b :: pkt) r) as (_ & -> & _).
Qed.

(** A packet is written to a sink only for its own destination. *)
Lemma Forward_trace read r s pkt ok :
  table_ok (table r) → (s, pkt, ok) ∈ trace (Forward sink_ok read r).1 →
  (s, pkt, ok) ∈ trace r ∨
  ∃ a e, dst_addr pkt = Ret a ∧ (byIPv6 (table r) !! Addr_String a = Some e ∨
    byIPv4 (table r) !! Addr_String a = Some e) ∧ Sink e = Some s ∧ ok = sink_ok s pkt.
Proof.
  intros Hok Hin. destruct read as [p|]; [|by left]. destruct p as [|b p]; [by left|].
  destruct (Forward_packet (b :: p) r) as (_ & _ & [[E _]|(a & Ha & [[E _]|(e & s' & He & Hs & E)])]); [done|..].
  - rewrite E in Hin. by left.
  - rewrite E in Hin. by left.
  - assert (trace (Forward sink_ok (Some (b :: p)) r).1
      = trace r ++ [(s', b :: p, sink_ok s' (b :: p))]) as Ht by (rewrite E; by destruct (sink_ok _ _)).
    rewrite Ht in Hin. apply elem_of_app in Hin as [?|Hin]; [by left|].
    apply list_elem_of_singleton in Hin. injection Hin as -> -> ->. right. exists a, e.
    split_and!; [done| |done|done]. unfold Route, Get, GetByIPv4 in He.
    destruct (byIPv6 (table r) !! Addr_String a); [left; congruence|by right].
Qed.

Definition pending (read : option (list byte)) : Z :=
  match read with Some (_ :: _) => 1 | _ => 0 end.

Lemma Forward_counted read r : counted (Forward sink_ok read r).1 mod 2 ^ 64 = (counted r + pending read) mod 2 ^ 64.
Proof.
  assert (∀ x y, (x + (y + 1) mod 2 ^ 64) mod 2 ^ 64 = (x + y + 1) mod 2 ^ 64) as Hm.
  { intros x y. by rewrite Z.add_mod_idemp_r, Z.add_assoc by lia. }
  destruct read as [[|b p]|]; cbn [pending]; [by rewrite Z.add_0_r| |by rewrite Z.add_0_r].
  unfold counted.
  destruct (Forward_packet (b :: p) r) as (_ & _ & [[-> _]|(a & Ha & [[-> _]|(e & s' & He & Hs & ->)])]); [done|..].
  3: destruct (sink_ok s' (b :: p)).
  all: cbn [forwarded dropped noRoute forward drop_pkt noRoutePkt log_write]; unfold inc.
  all: rewrite ?(Z.add_comm (_ mod _)), <- ?Z.add_assoc, ?(Z.add_comm (_ mod _)), ?Z.add_assoc, Hm; f_equal; lia.
Qed.
End Forwarding.
End RoutingFacts.

Module RoutingProperties.
Import Routing RoutingFacts.

(** The calls that change the table: a tunnel wired for a peer with its mesh addresses (one
    of them may be missing), and a peer removed. *)
Inductive table_op :=
| OpWire (nodeID : string) (a6 a4 : option Addr) (roomID : string) (tun : nat)
| OpRemove (nodeID : string).

Definition addr_text (a : option Addr) : string := match a with Some a => Addr_String a | None => "" end.

Definition apply_op (t : PeerTable) (op : table_op) : PeerTable :=
  match op with
  | OpWire id a6 a4 room tun => WireTunnel id (addr_text a6) (addr_text a4) room tun t
  | OpRemove id => Remove id t
  end.

Definition table_of (ops : list table_op) : PeerTable := foldl apply_op NewPeerTable ops.

Definition op_plain (op : table_op) : Prop :=
  match op with
  | OpWire _ a6 a4 _ _ => (∀ a, a6 = Some a → plain a) ∧ (∀ a, a4 = Some a → plain a)
  | OpRemove _ => True
  end.

(** Every stored entry was wired by one of the operations. *)
Definition wired (ops : list table_op) (e : PeerEntry) : Prop :=
  ∃ id a6 a4 room tun, OpWire id a6 a4 room tun ∈ ops ∧
    e = mkEntry (addr_text a6) (addr_text a4) id room (Some tun).

Lemma apply_op_ok t op : table_ok t → table_ok (apply_op t op).
Proof. intros Ht. destruct op; [by apply PeerTable_Add_ok|by apply PeerTable_Remove_ok]. Qed.

Lemma table_of_inv ops :
  table_ok (table_of ops) ∧
  ∀ k e, byIPv6 (table_of ops) !! k = Some e ∨ byIPv4 (table_of ops) !! k = Some e → wired ops e.
Proof.
  induction ops as [|op ops [Hok Hw]] using rev_ind.
  { split; [apply NewPeerTable_ok|]. by intros k e [H|H]; cbn in H; rewrite lookup_empty in H. }
  unfold table_of. rewrite foldl_app. cbn [foldl]. fold (table_of ops).
  split; [by apply apply_op_ok|]. intros k e He.
  assert (wired ops e → wired (ops ++ [op]) e) as Hmono.
  { intros (id & a6 & a4 & room & tun & Hin & ->). exists id, a6, a4, room, tun. set_solver. }
  destruct op as [id a6 a4 room tun|id]; cbn [apply_op] in He.
  - unfold WireTunnel, Add in He. cbn in He.
    destruct (decide (e = mkEntry (addr_text a6) (addr_text a4) id room (Some tun))) as [->|Hne].
    { exists id, a6, a4, room, tun. split; [set_solver|done]. }
    apply Hmono, (Hw k). destruct He as [He|He]; [left|right].
    + destruct (negb _); [|done]. apply lookup_insert_Some in He as [[_ <-]|[_ He]]; done.
    + destruct (negb _); [|done]. apply lookup_insert_Some in He as [[_ <-]|[_ He]]; done.
  - apply Hmono, (Hw k). destruct He as [[He _]%Remove_lookup|[He _]%Remove_lookup]; auto.
Qed.

Lemma RunLoop_table sink_ok reads r : table (RunLoop sink_ok reads r) = table r.
Proof.
  revert r. induction reads as [|rd reads IH]; intros r; [done|]. unfold RunLoop in *. cbn [foldl].
  by rewrite IH, Forward_table.
Qed.

Lemma RunLoop_trace sink_ok reads r s pkt ok :
  table_ok (table r) → (s, pkt, ok) ∈ trace (RunLoop sink_ok reads r) →
  (s, pkt, ok) ∈ trace r ∨
  ∃ a e, dst_addr pkt = Ret a ∧ (byIPv6 (table r) !! Addr_String a = Some e ∨
    byIPv4 (table r) !! Addr_String a = Some e) ∧ Sink e = Some s ∧ ok = sink_ok s pkt.
Proof.
  revert r. induction reads as [|rd reads IH]; intros r Hok Hin; [by left|].
  unfold RunLoop in Hin. cbn [foldl] in Hin. apply IH in Hin; [|by rewrite Forward_table].
  rewrite Forward_table in Hin. destruct Hin as [Hin|?]; [by eapply Forward_trace|by right].
Qed.

Lemma addr_text_inj o a : (∀ b, o = Some b → plain b) → plain a → addr_text o = Addr_String a →
  Addr_String a ≠ "" → o = Some a.
Proof.
  intros Ho Ha E Hne. destruct o as [b|]; [|by cbn in E; congruence].
  f_equal. by apply Addr_String_inj; [apply Ho|..].
Qed.

(** ** Properties *)

(** Packets reach only their addressee.  In a router whose table was built by any
    sequence of wirings and removals, every packet written to a sink during the loop is one
    whose destination field is an address that sink was wired for; every other packet is
    written nowhere. *)
Theorem delivered_to_addressee (sink_ok : nat → list byte → bool) (ops : list table_op)
    (reads : list (option (list byte))) (s : nat) (pkt : list byte) (ok : bool)
    (Hplain : Forall op_plain ops)
    (Hin : (s, pkt, ok) ∈ trace (RunLoop sink_ok reads (NewRouter (table_of ops)))) :
  ∃ a id a6 a4 room, dst_addr pkt = Ret a ∧ OpWire id a6 a4 room s ∈ ops ∧
    (a6 = Some a ∨ a4 = Some a) ∧ ok = sink_ok s pkt.
Proof.
  destruct (table_of_inv ops) as [Hok Hw].
  destruct (RunLoop_trace sink_ok reads (NewRouter (table_of ops)) s pkt ok Hok Hin)
    as [H|(a & e & Ha & He & Hs & ->)]; [inversion H|].
  destruct (Hw _ _ He) as (id & a6 & a4 & room & tun & Hop & ->). injection Hs as ->.
  rewrite Forall_forall in Hplain. destruct (Hplain _ Hop) as [H6 H4].
  exists a, id, a6, a4, room. split_and!; [done|done| |done]. pose proof (dst_addr_plain _ _ Ha) as Hp.
  destruct He as [He|He]; [left|right].
  - destruct (filed6 _ Hok _ _ He) as [E Hne]. by apply addr_text_inj.
  - destruct (filed4 _ Hok _ _ He) as [E Hne]. by apply addr_text_inj.
Qed.

(** An IPv4 packet to 240.1.2.3. *)
Definition sample_packet : list byte := x45 :: replicate 15 x00 ++ [xf0; x01; x02; x03] ++ bytes_of "data".

Definition sample_ops : list table_op :=
  [OpWire "a" None (Some (Addr4 [# xf0; x01; x02; x03])) "r" 7; OpWire "b" None (Some (Addr4 [# xf0; x01; x02; x04])) "r" 8].

Lemma delivered_to_addressee_witness :
  ∃ a id a6 a4 room, dst_addr sample_packet = Ret a ∧ OpWire id a6 a4 room 7 ∈ sample_ops ∧
    (a6 = Some a ∨ a4 = Some a) ∧ true = true.
Proof.
  apply (delivered_to_addressee (λ _ _, true) sample_ops [Some sample_packet] 7 sample_packet true).
  - repeat constructor; cbn; naive_solver.
  - vm_compute. left.
Defined.

(** No packet is lost by the accounting: after any sequence of reads the three counters
    together have grown by exactly the number of non-empty packets (modulo 2^64), the loop
    never changes the table, and every read but a failed one returns without error. *)
Theorem RunLoop_accounts (sink_ok : nat → list byte → bool) (reads : list (option (list byte))) (r : Router) :
  let '(f, d, n) := Stats (RunLoop sink_ok reads r) in
  let '(f0, d0, n0) := Stats r in
  (f + d + n) mod 2 ^ 64 = (f0 + d0 + n0 + foldr (λ rd acc, pending rd + acc) 0 reads) mod 2 ^ 64 ∧
  table (RunLoop sink_ok reads r) = table r ∧
  (∀ rd r', rd ≠ None → (Forward sink_ok rd r').2 = Ret ()).
Proof.
  cbn. split_and!.
  - revert r. induction reads as [|rd reads IH]; intros r; cbn [foldr]; [by rewrite Z.add_0_r|].
    unfold RunLoop in *. cbn [foldl]. rewrite IH. pose proof (Forward_counted sink_ok rd r) as Hc.
    unfold counted in Hc. rewrite <- Z.add_mod_idemp_l, Hc, Z.add_mod_idemp_l by lia. f_equal. lia.
  - apply RunLoop_table.
  - intros rd r' Hrd. destruct rd as [[|b p]|]; [done| |done]. by apply Forward_packet.
Qed.

(** Removing a peer removes it under every address, and nobody else. *)
Lemma Remove_spec id t k e :
  (Get k (Remove id t) = Some e ↔ Get k t = Some e ∧ eNodeID e ≠ id) ∧
  (GetByIPv4 k (Remove id t) = Some e ↔ GetByIPv4 k t = Some e ∧ eNodeID e ≠ id).
Proof. apply Remove_lookup. Qed.

End RoutingProperties.
