(* ===== verification/PortControl.v ===== *)
(** * Port access control ([internal/portcontrol]: controller.go, forward.go, persist.go,
    rooms.go, rules.go)

    The controller's rule registry with its two indices, the inbound decision, the forwarder
    that dials the local service, the persistence of rules, and the startup self check.  A
    rule pointer is modelled by the rule's value: nothing writes a rule after it is
    registered.  The store, the JSON text of room lists, dialling, the file system and the
    host's interfaces are parameters. *)

From S2P Require Import Prelude GoLib MeshTypes.

Open Scope Z_scope.

Module PortControl.

(** ** Rules and the controller *)

Record PortRule := mkRule {
  rID : string;
  rNodeID : string;
  Protocol : string;
  LocalPort : Z;
  VirtualPort : Z;
  AllowedRooms : list RoomID;
  Description : string;
  Enabled : bool;
  CreatedAt : Z;
}.

#[export] Instance PortRule_eq_dec : EqDecision PortRule.
Proof. solve_decision. Defined.

(** The policy is a string in the code; only its equality with "allow" is ever tested. *)
Inductive Policy :=
| PolicyDeny
| PolicyAllow.

Definition is_allow (p : Policy) : bool := match p with PolicyAllow => true | PolicyDeny => false end.

Record Controller := mkController {
  rules : gmap Z PortRule;
  local : gmap Z PortRule;
  policy : Policy;
}.

Definition NewController (p : Policy) : Controller := mkController ∅ ∅ p.

Definition AddRule (r : PortRule) (c : Controller) : Controller :=
  mkController (<[VirtualPort r := r]> (rules c)) (<[LocalPort r := r]> (local c)) (policy c).

Definition RemoveRule (virtualPort : Z) (c : Controller) : Controller :=
  match rules c !! virtualPort with
  | Some rule => mkController (delete virtualPort (rules c)) (delete (LocalPort rule) (local c)) (policy c)
  | None => c
  end.

Definition LookupVirtual (virtualPort : Z) (c : Controller) : option PortRule := rules c !! virtualPort.
Definition LookupLocal (localPort : Z) (c : Controller) : option PortRule := local c !! localPort.

Definition IsAllowed (virtualPort : Z) (c : Controller) : bool :=
  if is_allow (policy c) then true
  else match rules c !! virtualPort with Some r => Enabled r | None => false end.

Inductive InboundDecision :=
| DecisionAllow
| DecisionDropUnconfigured
| DecisionDropNotAllowed
| DecisionDropDisabled.

Record Source := mkSource {
  Room : RoomID;
  SameRoom : bool;
  SrcAddr : string;
}.

Definition RuleAllowsSource (r : PortRule) (src : Source) : bool :=
  if (length (AllowedRooms r) =? 0)%nat then SameRoom src
  else existsb (λ room, String.eqb room (Room src)) (AllowedRooms r).

Definition Decide (virtualPort : Z) (src : Source) (c : Controller) : InboundDecision :=
  if is_allow (policy c) then DecisionAllow
  else match rules c !! virtualPort with
       | None => DecisionDropUnconfigured
       | Some r =>
           if negb (Enabled r) then DecisionDropDisabled
           else if RuleAllowsSource r src then DecisionAllow
           else DecisionDropNotAllowed
       end.

(** [range] over the map: the rules in no specified order. *)
Definition ListRules (c : Controller) : list PortRule := snd <$> map_to_list (rules c).

(** ** The forwarder (forward.go) *)

Inductive dial_error :=
| errVirtualPortUnreachable
| ErrUnsupportedNetwork (network : string)
| ErrDialLocal (addr : string).

Definition tcp_network (n : string) : bool :=
  String.eqb n "tcp" || String.eqb n "tcp4" || String.eqb n "tcp6".
Definition udp_network (n : string) : bool :=
  String.eqb n "udp" || String.eqb n "udp4" || String.eqb n "udp6".

(** The address dialled, and what the dialler answered.  A nil rule dereference is [Panic]. *)
Definition DialVirtual (dial : string → string → bool) (virtualPort : Z) (network : string)
    (src : Source) (c : Controller) : list (string * string) * outcome dial_error () :=
  match Decide virtualPort src c with
  | DecisionAllow =>
      let rule := LookupVirtual virtualPort c in
      let dial_local (r : PortRule) :=
        let localAddr := "127.0.0.1:" +:+ pretty (LocalPort r) in
        ([(network, localAddr)],
         if dial network localAddr then Ret () else Fail (ErrDialLocal localAddr)) in
      if tcp_network network then
        match rule with
        | None => ([], Panic)
        | Some r => if negb (String.eqb (Protocol r) "tcp") then ([], Fail errVirtualPortUnreachable) else dial_local r
        end
      else if udp_network network then
        match rule with
        | None => ([], Panic)
        | Some r => if negb (String.eqb (Protocol r) "udp") then ([], Fail errVirtualPortUnreachable) else dial_local r
        end
      else ([], Fail (ErrUnsupportedNetwork network))
  | _ => ([], Fail errVirtualPortUnreachable)
  end.

(** ** Room lists as text (rooms.go) *)

(** [encoding/json] on lists of strings. *)
Class RoomsJson := {
  marshal_names : list string → option string;
  unmarshal_names : string → option (list string);
}.

(** A list of names that survives the text form: the empty list, or one JSON represents
    faithfully (its strings are valid UTF-8). *)
Definition names_ok `{RoomsJson} (names : list string) : Prop :=
  names = [] ∨ ∃ s, marshal_names names = Some s ∧ s ≠ "" ∧ unmarshal_names s = Some names.

(** [storage.PortRule]: the same fields with the rooms as text. *)
Record StoredRule := mkStored {
  sID : string;
  sNodeID : string;
  sProtocol : string;
  sLocalPort : Z;
  sVirtualPort : Z;
  sDescription : string;
  sAllowedRooms : string;
  sEnabled : bool;
  sCreatedAt : Z;
}.

(** [PortRuleStore]: what the persistence layer needs of a store. *)
Class RuleStore (S : Type) := {
  SetPortRule : StoredRule → S → S * bool;
  GetPortRules : string → S → option (list StoredRule);
  DeletePortRule : string → S → S * bool;
}.

(** The row a write leaves: a new row takes every field of the rule; an existing row keeps its
    owner and its creation time and takes the rest.  The store stamps the creation time. *)
Definition upserted (old : option StoredRule) (r : StoredRule) (t : Z) : StoredRule :=
  mkStored (sID r) (match old with Some o => sNodeID o | None => sNodeID r end) (sProtocol r)
    (sLocalPort r) (sVirtualPort r) (sDescription r) (sAllowedRooms r) (sEnabled r)
    (match old with Some o => sCreatedAt o | None => t end).

(** A store keeps one rule per ID, lists the enabled rules of a node, and a call that fails
    changes nothing. *)
Class RuleStoreLaws (S : Type) `{RuleStore S} := {
  stored : S → gmap string StoredRule;
  set_ok r s s' : SetPortRule r s = (s', true) →
    ∃ t, stored s' = <[sID r := upserted (stored s !! sID r) r t]> (stored s);
  set_fail r s s' : SetPortRule r s = (s', false) → s' = s;
  get_ok id s l : GetPortRules id s = Some l →
    ∀ r, r ∈ l ↔ (∃ k, stored s !! k = Some r) ∧ sNodeID r = id ∧ sEnabled r = true;
  delete_ok id s s' : DeletePortRule id s = (s', true) → stored s' = delete id (stored s);
  delete_fail id s s' : DeletePortRule id s = (s', false) → s' = s;
}.

Section Persistence.
Context `{RoomsJson} {S : Type} `{RuleStore S}.

Definition encodeAllowedRooms (rooms : list RoomID) : string :=
  if (length rooms =? 0)%nat then ""
  else match marshal_names rooms with Some s => s | None => "" end.

Definition decodeAllowedRooms (raw : string) : list RoomID :=
  if String.eqb raw "" then []
  else match unmarshal_names raw with Some names => names | None => [] end.

(** ** Persistence (persist.go) *)

(** [RulePersistence]; the store may be nil. *)
Record RulePersistence := mkPersistence {
  store : option S;
  nodeID : string;
}.

Definition to_stored (p : RulePersistence) (r : PortRule) : StoredRule :=
  mkStored (rID r) (if String.eqb (rNodeID r) "" then nodeID p else rNodeID r) (Protocol r)
    (LocalPort r) (VirtualPort r) (Description r) (encodeAllowedRooms (AllowedRooms r))
    (Enabled r) (CreatedAt r).

Definition from_stored (sr : StoredRule) : PortRule :=
  mkRule (sID sr) (sNodeID sr) (sProtocol sr) (sLocalPort sr) (sVirtualPort sr)
    (decodeAllowedRooms (sAllowedRooms sr)) (sDescription sr) (sEnabled sr) (sCreatedAt sr).

(** The flag is [err == nil]. *)
Definition SaveRule (r : PortRule) (p : RulePersistence) : RulePersistence * bool :=
  match store p with
  | None => (p, true)
  | Some s => let '(s', ok) := SetPortRule (to_stored p r) s in (mkPersistence (Some s') (nodeID p), ok)
  end.

Definition DeleteRule (ruleID : string) (p : RulePersistence) : RulePersistence * bool :=
  match store p with
  | None => (p, true)
  | Some s => let '(s', ok) := DeletePortRule ruleID s in (mkPersistence (Some s') (nodeID p), ok)
  end.

Definition LoadRules (p : RulePersistence) : option (list PortRule) :=
  match store p with
  | None => Some []
  | Some s =>
      match GetPortRules (nodeID p) s with
      | None => None
      | Some l => Some (map from_stored l)
      end
  end.

(** The number of rules applied and the new controller. *)
Definition ApplyServerRules (rs : list StoredRule) (c : Controller) : Controller * nat :=
  foldl (λ '(c, n) sr, (AddRule (from_stored sr) c, Datatypes.S n)) (c, 0%nat) rs.

Inductive rule_error :=
| ErrNilRule
| ErrVirtualPort (n : Z)
| ErrLocalPort (n : Z)
| ErrProtocol (s : string)
| ErrPersist
| ErrNoRule (n : Z)
| ErrDelete.

Definition validateRule (rule : option PortRule) : outcome rule_error PortRule :=
  match rule with
  | None => Fail ErrNilRule
  | Some r =>
      if (VirtualPort r <? 1) || (65535 <? VirtualPort r) then Fail (ErrVirtualPort (VirtualPort r))
      else if (LocalPort r <? 1) || (65535 <? LocalPort r) then Fail (ErrLocalPort (LocalPort r))
      else if negb (String.eqb (Protocol r) "tcp") && negb (String.eqb (Protocol r) "udp") then
        Fail (ErrProtocol (Protocol r))
      else Ret r
  end.

(** The assignments to the rule before it is saved. *)
Definition complete (now : Z) (p : RulePersistence) (r : PortRule) : PortRule :=
  mkRule (rID r) (if String.eqb (rNodeID r) "" then nodeID p else rNodeID r) (Protocol r)
    (LocalPort r) (VirtualPort r) (AllowedRooms r) (Description r) (Enabled r)
    (if time_is_zero (CreatedAt r) then now else CreatedAt r).

Definition AddRulePersisted (now : Z) (rule : option PortRule) (p : RulePersistence) (c : Controller) :
    RulePersistence * Controller * outcome rule_error () :=
  match validateRule rule with
  | Ret r =>
      let r := complete now p r in
      let '(p, ok) := SaveRule r p in
      if negb ok then (p, c, Fail ErrPersist) else (p, AddRule r c, Ret ())
  | Fail e => (p, c, Fail e)
  | Panic => (p, c, Panic)
  end.

Definition RemoveRulePersisted (virtualPort : Z) (p : RulePersistence) (c : Controller) :
    RulePersistence * Controller * outcome rule_error () :=
  match rules c !! virtualPort with
  | None => (p, c, Fail (ErrNoRule virtualPort))
  | Some rule =>
      let c := RemoveRule virtualPort c in
      let '(p, ok) := DeleteRule (rID rule) p in
      if negb ok then (p, c, Fail ErrDelete) else (p, c, Ret ())
  end.

(** [None] is a store error, which leaves the registry as it was. *)
Definition LoadPersisted (p : RulePersistence) (c : Controller) : option Controller :=
  match LoadRules p with
  | None => None
  | Some rs => Some (foldl (λ c r, AddRule r c) (mkController ∅ ∅ (policy c)) rs)
  end.
End Persistence.

(** ** The startup self check (rules.go) *)

(** [netip.Prefix]: family, address as a number, prefix length. *)
Record Prefix := mkPrefix {
  is4 : bool;
  addr : Z;
  bits : Z;
}.

Definition bit_len (p : Prefix) : Z := if is4 p then 32 else 128.

(** [h.Overlaps(mesh)]: the shorter prefix length decides. *)
Definition Overlaps (p o : Prefix) : bool :=
  if negb (Bool.eqb (is4 p) (is4 o)) then false
  else
    let n := Z.min (bits p) (bits o) in
    Z.shiftr (addr p) (bit_len p - n) =? Z.shiftr (addr o) (bit_len o - n).

Record StartupOptions := mkStartup {
  RulesFile : string;
  MeshCIDR : string;
  AllowConfirmed : bool;
}.

Inductive startup_error :=
| ErrRulesFile
| ErrAllowUnconfirmed
| ErrCIDR
| ErrHostNetworks
| ErrCollision (h : Prefix).

(** Whether the rules file opens, how a CIDR parses, and the host's networks come from the
    environment. *)
Definition SelfCheck (file_ok : string → bool) (parse_prefix : string → option Prefix)
    (localNets : option (list Prefix)) (opts : StartupOptions) (c : Controller) :
    outcome startup_error () :=
  if negb (String.eqb (RulesFile opts) "") && negb (file_ok (RulesFile opts)) then Fail ErrRulesFile
  else if is_allow (policy c) && negb (AllowConfirmed opts) then Fail ErrAllowUnconfirmed
  else if negb (String.eqb (MeshCIDR opts) "") then
    match parse_prefix (MeshCIDR opts) with
    | None => Fail ErrCIDR
    | Some mesh =>
        match localNets with
        | None => Fail ErrHostNetworks
        | Some hn =>
            match List.find (λ h, Bool.eqb (is4 h) (is4 mesh) && Overlaps h mesh) hn with
            | Some h => Fail (ErrCollision h)
            | None => Ret ()
            end
        end
    end
  else Ret ().

End PortControl.

Module PortControlFacts.
Import PortControl.

(** ** Decisions *)

(** The source-room gate of a rule. *)
Definition admits (r : PortRule) (src : Source) : Prop :=
  Enabled r = true ∧
  ((AllowedRooms r = [] ∧ SameRoom src = true) ∨ Room src ∈ AllowedRooms r).

Lemma RuleAllowsSource_spec r src :
  RuleAllowsSource r src = true ↔
  (AllowedRooms r = [] ∧ SameRoom src = true) ∨ Room src ∈ AllowedRooms r.
Proof.
  unfold RuleAllowsSource. destruct (AllowedRooms r) as [|room rooms]; cbn [length Nat.eqb].
  { split; [by left|]. intros [[_ ?]|H]; [done|inversion H]. }
  rewrite existsb_exists. setoid_rewrite <- list_elem_of_In. setoid_rewrite String.eqb_eq. naive_solver.
Qed.

Lemma Decide_allow v src c :
  Decide v src c = DecisionAllow ↔
  policy c = PolicyAllow ∨ ∃ r, LookupVirtual v c = Some r ∧ admits r src.
Proof.
  unfold Decide, LookupVirtual, admits. destruct (policy c); cbn [is_allow]; [|by split; [left|]].
  destruct (rules c !! v) as [r|] eqn:E.
  2:{ split; [done|]. intros [?|(? & ? & ?)]; done. }
  destruct (Enabled r) eqn:En; cbn [negb].
  2:{ split; [done|]. intros [?|(r' & [= <-] & ? & _)]; congruence. }
  destruct (RuleAllowsSource r src) eqn:Ra; (split; [try done|]).
  - intros _. right. exists r. by rewrite <- RuleAllowsSource_spec.
  - done.
  - intros [?|(r' & [= <-] & _ & Hx)]; [done|]. apply RuleAllowsSource_spec in Hx. congruence.
Qed.

(** ** Dialling *)

Section Dial.
Variable dial : string → string → bool.



End Dial.

(** ** The registry *)

(** Rules are filed under their own ports. *)
Record filed (c : Controller) : Prop := {
  filed_virtual v r : rules c !! v = Some r → VirtualPort r = v;
  filed_local l r : local c !! l = Some r → LocalPort r = l;
}.

Lemma NewController_filed p : filed (NewController p).
Proof. split; intros k r; cbn; by rewrite lookup_empty. Qed.

Lemma AddRule_filed r c : filed c → filed (AddRule r c).
Proof.
  intros [Hv Hl]. split; intros k r'; cbn; intros [[<- <-]|[_ H]]%lookup_insert_Some; eauto.
Qed.

Lemma RemoveRule_filed v c : filed c → filed (RemoveRule v c).
Proof.
  intros [Hv Hl]. unfold RemoveRule. destruct (rules c !! v); [|done].
  split; intros k r'; cbn; intros [_ H]%lookup_delete_Some; eauto.
Qed.

Lemma fold_AddRule_filed rs c : filed c → filed (foldl (λ c r, AddRule r c) c rs).
Proof. revert c. induction rs as [|r rs IH]; intros c Hc; [done|]. by apply IH, AddRule_filed. Qed.

(** ** Persistence *)

Section Persist.
Context `{RoomsJson} {S : Type} `{RuleStore S} `{!RuleStoreLaws S}.

Lemma rooms_roundtrip rooms : names_ok rooms → decodeAllowedRooms (encodeAllowedRooms rooms) = rooms.
Proof.
  unfold encodeAllowedRooms, decodeAllowedRooms. destruct rooms as [|room rooms]; [done|].
  cbn [length Nat.eqb]. intros [?|(s & -> & Hne & Hu)]; [done|].
  destruct (String.eqb_spec s ""); [done|]. by rewrite Hu.
Qed.

(** A rule with another creation time. *)
Definition created_at (t : Z) (r : PortRule) : PortRule :=
  mkRule (rID r) (rNodeID r) (Protocol r) (LocalPort r) (VirtualPort r) (AllowedRooms r)
    (Description r) (Enabled r) t.

(** What comes back of a rule whose row, if it existed, had the same owner. *)
Lemma stored_roundtrip (p : @RulePersistence S) old r t :
  names_ok (AllowedRooms r) → rNodeID r ≠ "" → (∀ o, old = Some o → sNodeID o = rNodeID r) →
  ∃ t', from_stored (upserted old (to_stored p r) t) = created_at t' r.
Proof.
  intros Hrooms Hn Hold. exists (match old with Some o => sCreatedAt o | None => t end).
  unfold from_stored, upserted, to_stored, created_at. cbn.
  rewrite rooms_roundtrip by done. destruct (String.eqb_spec (rNodeID r) ""); [done|].
  destruct old as [o|]; [by rewrite (Hold o eq_refl)|done].
Qed.

Lemma complete_nodeID now (p : @RulePersistence S) r :
  rNodeID r = "" ∨ rNodeID r = nodeID p → rNodeID (complete now p r) = nodeID p.
Proof. intros Hn. unfold complete. cbn. destruct (String.eqb_spec (rNodeID r) ""); naive_solver. Qed.

Lemma validateRule_ok rule r :
  validateRule rule = Ret r → rule = Some r ∧ 1 ≤ VirtualPort r ≤ 65535 ∧ 1 ≤ LocalPort r ≤ 65535.
Proof.
  unfold validateRule. destruct rule as [x|]; [|done].
  destruct ((VirtualPort x <? 1) || _) eqn:E1; [done|].
  destruct ((LocalPort x <? 1) || _) eqn:E2; [done|].
  destruct (negb _ && _); [done|]. intros <-%Ret_inj. apply orb_false_iff in E1, E2. split; [done|]. lia.
Qed.

Lemma SaveRule_fail r (p q : @RulePersistence S) : SaveRule r p = (q, false) → q = p.
Proof.
  unfold SaveRule. destruct p as [[s|] n]; cbn; [|done].
  destruct (SetPortRule _ _) as [s' ok] eqn:E. intros [= <- ->]. f_equal. f_equal. by eapply set_fail.
Qed.

Lemma SaveRule_ok r (p q : @RulePersistence S) s :
  store p = Some s → SaveRule r p = (q, true) →
  ∃ s' t, q = mkPersistence (Some s') (nodeID p) ∧
    stored s' = <[rID r := upserted (stored s !! rID r) (to_stored p r) t]> (stored s).
Proof.
  intros Hs. unfold SaveRule. rewrite Hs. destruct (SetPortRule _ _) as [s' ok] eqn:E. intros [= <- ->].
  destruct (set_ok _ _ _ E) as [t Ht]. by exists s', t.
Qed.

Lemma AddRule_lookup r c v : VirtualPort r = v → LookupVirtual v (AddRule r c) = Some r.
Proof. intros <-. apply lookup_insert_eq. Qed.

(** Loading puts each stored rule under its port, the last one winning. *)
Lemma fold_AddRule_lookup rs c v r :
  r ∈ rs → VirtualPort r = v → (∀ r', r' ∈ rs → VirtualPort r' = v → r' = r) →
  LookupVirtual v (foldl (λ c r, AddRule r c) c rs) = Some r.
Proof.
  intros Hin Hv Huniq. unfold LookupVirtual. induction rs as [|x rs IH] using rev_ind; [inversion Hin|].
  rewrite foldl_app. cbn. destruct (decide (VirtualPort x = v)) as [Hx|Hx].
  - rewrite Hx, lookup_insert_eq. f_equal. apply Huniq; [set_solver|done].
  - rewrite lookup_insert_ne by done. apply IH; [|intros r' Hr'; apply Huniq; set_solver].
    apply elem_of_app in Hin as [?| ->%list_elem_of_singleton]; done.
Qed.

Lemma fold_AddRule_missing rs c v :
  (∀ r, r ∈ rs → VirtualPort r ≠ v) → LookupVirtual v (foldl (λ c r, AddRule r c) c rs) = LookupVirtual v c.
Proof.
  revert c. induction rs as [|x rs IH]; intros c Hne; [done|]. cbn [foldl].
  rewrite IH by (intros r Hr; apply Hne; set_solver).
  apply lookup_insert_ne. apply (Hne x). set_solver.
Qed.

Lemma fold_AddRule_policy rs c : policy (foldl (λ c r, AddRule r c) c rs) = policy c.
Proof. revert c. induction rs as [|x rs IH]; intros c; [done|]. cbn [foldl]. by rewrite IH. Qed.

(** A reload serves the row [sr] under its port if it is this node's only row for the port and
    enabled, and nothing there if it is disabled. *)
Lemma LoadPersisted_lookup (p : @RulePersistence S) s c c1 key sr :
  store p = Some s → LoadPersisted p c = Some c1 →
  stored s !! key = Some sr → sNodeID sr = nodeID p →
  (∀ k sr', stored s !! k = Some sr' → sNodeID sr' = nodeID p → sVirtualPort sr' = sVirtualPort sr → k = key) →
  LookupVirtual (sVirtualPort sr) c1 = (if sEnabled sr then Some (from_stored sr) else None).
Proof.
  intros Hs Hload Hst Hn Huniq. unfold LoadPersisted, LoadRules in Hload. rewrite Hs in Hload.
  destruct (GetPortRules (nodeID p) s) as [l|] eqn:Hg; [|done]. injection Hload as <-.
  pose proof (get_ok _ _ _ Hg) as Hl.
  assert (∀ r', r' ∈ map from_stored l → VirtualPort r' = sVirtualPort sr →
    r' = from_stored sr ∧ sEnabled sr = true) as Hone.
  { intros r' (sr' & -> & ([k Hsr] & Hid & Hen)%Hl)%list_elem_of_fmap Hv. cbn in Hv.
    rewrite (Huniq _ _ Hsr Hid Hv), Hst in Hsr. by injection Hsr as <-. }
  destruct (sEnabled sr) eqn:Hen.
  - apply fold_AddRule_lookup; [|done|intros r' Hr' Hv; by apply Hone].
    apply (list_elem_of_fmap_2 from_stored), Hl. eauto.
  - rewrite fold_AddRule_missing; [apply lookup_empty|]. intros r' Hr' Hv. by destruct (Hone r' Hr' Hv).
Qed.

(** A rule that was saved, reloaded from a store that holds the same rows. *)
Lemma reload_saved now r (p q : @RulePersistence S) s s2 c c1 :
  store p = Some s → nodeID p ≠ "" → rNodeID r = "" ∨ rNodeID r = nodeID p → names_ok (AllowedRooms r) →
  (∀ o, stored s !! rID r = Some o → sNodeID o = nodeID p) →
  (∀ k sr, stored s !! k = Some sr → sNodeID sr = nodeID p → sVirtualPort sr = VirtualPort r → k = rID r) →
  SaveRule (complete now p r) p = (q, true) → (∀ s', store q = Some s' → stored s2 = stored s') →
  LoadPersisted (mkPersistence (Some s2) (nodeID p)) c = Some c1 →
  ∃ t, LookupVirtual (VirtualPort r) c1 = if Enabled r then Some (created_at t (complete now p r)) else None.
Proof.
  intros Hs Hne Hid Hrooms Hown Huniq Hsave Hs2 Hload.
  destruct (SaveRule_ok _ _ _ _ Hs Hsave) as (s' & t & -> & Hst). specialize (Hs2 s' eq_refl).
  pose proof (complete_nodeID now p r Hid) as Hcn.
  destruct (stored_roundtrip p (stored s !! rID r) (complete now p r) t) as [t' Ht']; [done|congruence|..].
  { intros o Ho. rewrite Hcn. by apply Hown. }
  exists t'. rewrite <- Ht'. rewrite Hst in Hs2. set (row := upserted _ _ _) in *.
  apply (LoadPersisted_lookup (mkPersistence (Some s2) (nodeID p)) s2 c c1 (rID r) row); [done..| | |].
  - rewrite Hs2. apply lookup_insert_eq.
  - unfold row, upserted, to_stored. cbn [sNodeID]. rewrite Hcn.
    change (rID (complete now p r)) with (rID r).
    destruct (stored s !! rID r) as [o|]; [by apply Hown|]. by destruct (String.eqb _ _).
  - intros k sr. rewrite Hs2. intros [[<- _]|[_ Hk]]%lookup_insert_Some Hsn Hp; [done|]. by apply (Huniq k sr).
Qed.

(** The creation time does not matter to the decision, and a missing rule admits nobody a
    disabled one would. *)
Lemma reload_decides c c1 r v t :
  policy c1 = policy c → VirtualPort r = v →
  LookupVirtual v c1 = (if Enabled r then Some (created_at t r) else None) →
  ∀ src, Decide v src c1 = DecisionAllow ↔ Decide v src (AddRule r c) = DecisionAllow.
Proof.
  intros Hpol <- Hlk src. unfold LookupVirtual in Hlk. unfold Decide. rewrite Hpol, Hlk. cbn. rewrite lookup_insert_eq.
  destruct (is_allow (policy c)); [done|].
  destruct (Enabled r) eqn:Hen; cbn; rewrite ?Hen; [done|by split].
Qed.

Lemma LoadPersisted_policy (p : @RulePersistence S) c c1 :
  LoadPersisted p c = Some c1 → policy c1 = policy c.
Proof.
  unfold LoadPersisted. destruct (LoadRules p); [|done]. intros [= <-]. by rewrite fold_AddRule_policy.
Qed.
End Persist.
End PortControlFacts.

Module PortControlProperties.
Import PortControl PortControlFacts.

Lemma exists_Some_eq {A} (a : A) (P : A → Prop) : (∃ b, Some a = Some b ∧ P b) ↔ P a.
Proof. split; [by intros (b & [= <-] & ?)|by exists a]. Qed.

(** ** A store and a codec to evaluate with *)

#[local] Instance map_store : RuleStore (gmap string StoredRule) := {|
  SetPortRule r s := (<[sID r := upserted (s !! sID r) r 7]> s, true);
  GetPortRules id s :=
    Some (snd <$> map_to_list (filter (λ kv, sNodeID kv.2 = id ∧ sEnabled kv.2 = true) s));
  DeletePortRule id s := (delete id s, true);
|}.

#[local] Instance map_store_laws : RuleStoreLaws (gmap string StoredRule).
Proof.
  refine {| stored s := s |}; cbn; [intros r s s' [= <-]; by exists 7|naive_solver| |naive_solver..].
  intros id s l [= <-] r. rewrite list_elem_of_fmap. split.
  - intros ([k r'] & -> & [Hk Hn]%elem_of_map_to_list%map_lookup_filter_Some). cbn in *. eauto.
  - intros [[k Hs] Hn]. exists (k, r). split; [done|]. by apply elem_of_map_to_list, map_lookup_filter_Some.
Defined.

(** A codec for lists of one name. *)
#[local] Instance one_name_json : RoomsJson := {|
  marshal_names names := match names with [n] => Some (String.append "[" n) | _ => None end;
  unmarshal_names s :=
    match s with String.String _ n => Some [n] | String.EmptyString => None end;
|}.

(** ** Properties *)

(** The inbound decision.  A source is allowed exactly when the policy is "allow" or the
    port has an enabled rule that admits it (no room list and a same-room source, or the
    source's room listed); otherwise the answer says which of the three reasons applies.  In
    particular an unconfigured port is denied by default. *)
Theorem Decide_matrix (v : Z) (src : Source) (c : Controller) :
  (Decide v src c = DecisionAllow ↔
     policy c = PolicyAllow ∨ ∃ r, LookupVirtual v c = Some r ∧ admits r src) ∧
  (Decide v src c = DecisionDropUnconfigured ↔ policy c = PolicyDeny ∧ LookupVirtual v c = None) ∧
  (Decide v src c = DecisionDropDisabled ↔
     policy c = PolicyDeny ∧ ∃ r, LookupVirtual v c = Some r ∧ Enabled r = false) ∧
  (Decide v src c = DecisionDropNotAllowed ↔
     policy c = PolicyDeny ∧ ∃ r, LookupVirtual v c = Some r ∧ Enabled r = true ∧ ¬ admits r src).
Proof.
  split; [apply Decide_allow|]. unfold Decide, LookupVirtual, admits.
  destruct (policy c); cbn [is_allow]; [|split_and!; split; try done; by intros [? ?]].
  destruct (rules c !! v) as [r|]; [|split_and!; split; try done; by intros (_ & ? & ? & ?)].
  pose proof (RuleAllowsSource_spec r src) as Hr. rewrite !exists_Some_eq.
  destruct (Enabled r); cbn [negb]; [|split_and!; split; try done; intros; destruct_and?; done].
  destruct (RuleAllowsSource r src); split_and!; split; try done.
  - by intros [_ ?].
  - by intros [_ ?].
  - intros (_ & _ & Hn). destruct Hn. split; [done|]. by apply Hr.
  - by intros [_ ?].
  - by intros [_ ?].
  - intros _. split_and!; [done..|]. intros [_ ?%Hr]. done.
Qed.


Definition sample_rule : PortRule := mkRule "r1" "n" "tcp" 8080 80 ["lab"] "" true 1.


(** Adding a rule through the persistent path is all or nothing: when it reports an
    error, the registry and the store are unchanged; when it succeeds, the ports are in
    range and the registry serves the completed rule.  If no other stored rule of the node
    claims the same virtual port and the row, if there was one, was this node's, a registry reloaded
    from the store serves the same rule up to its creation time when it is enabled and no
    rule when it is disabled, and admits on that port exactly the same sources. *)
Theorem AddRulePersisted_durable `{RoomsJson} {S : Type} `{RuleStore S} `{!RuleStoreLaws S}
    (now : Z) (rule : option PortRule) (p p' : @RulePersistence S) (c c' : Controller) res
    (Hadd : AddRulePersisted now rule p c = (p', c', res)) :
  (res ≠ Ret () → p' = p ∧ c' = c) ∧
  (res = Ret () → ∃ r, rule = Some r ∧ 1 ≤ VirtualPort r ≤ 65535 ∧ 1 ≤ LocalPort r ≤ 65535 ∧
     c' = AddRule (complete now p r) c ∧
     ∀ s c1, store p = Some s → nodeID p ≠ "" → rNodeID r = "" ∨ rNodeID r = nodeID p →
       names_ok (AllowedRooms r) →
       (∀ o, stored s !! rID r = Some o → sNodeID o = nodeID p) →
       (∀ k sr, stored s !! k = Some sr → sNodeID sr = nodeID p → sVirtualPort sr = VirtualPort r → k = rID r) →
       LoadPersisted p' c = Some c1 →
       (∃ t, LookupVirtual (VirtualPort r) c1 =
               if Enabled r then Some (created_at t (complete now p r)) else None) ∧
       ∀ src, Decide (VirtualPort r) src c1 = DecisionAllow ↔ Decide (VirtualPort r) src c' = DecisionAllow).
Proof.
  unfold AddRulePersisted in Hadd. destruct (validateRule rule) as [r|e|] eqn:Hv.
  2-3: injection Hadd as <- <- <-; by split.
  apply validateRule_ok in Hv as (-> & Hvp & Hlp).
  destruct (SaveRule (complete now p r) p) as [q ok] eqn:Hsave.
  destruct ok; cbn [negb] in Hadd; injection Hadd as <- <- <-.
  2:{ split; [|done]. intros _. split; [|done]. by apply SaveRule_fail in Hsave. }
  split; [done|]. intros _. exists r. split_and!; try done; [lia..|].
  intros s c1 Hs Hne Hid Hrooms Hown Huniq Hload.
  destruct (SaveRule_ok _ _ _ _ Hs Hsave) as (s' & t & -> & _).
  destruct (reload_saved now r p _ s s' c c1 Hs Hne Hid Hrooms Hown Huniq Hsave) as [t' Hlk];
    [by intros ? [= <-]|done|].
  split; [by exists t'|]. by apply (reload_decides c c1 (complete now p r) _ t'), Hlk;
    [apply (LoadPersisted_policy _ _ _ Hload)|].
Qed.

Lemma AddRulePersisted_durable_witness :
  let p := mkPersistence (Some (∅ : gmap string StoredRule)) "n" in
  let c := NewController PolicyDeny in
  let '(p', c', res) := AddRulePersisted 5 (Some sample_rule) p c in
  res = Ret () ∧ LookupVirtual 80 c' = Some sample_rule ∧
  ∀ c1, LoadPersisted p' c = Some c1 → ∃ t, LookupVirtual 80 c1 = Some (created_at t sample_rule).
Proof.
  intros p c. destruct (AddRulePersisted 5 (Some sample_rule) p c) as [[p' c'] res] eqn:E.
  assert (res = Ret () ∧ LookupVirtual 80 c' = Some sample_rule) as [Hres Hl].
  { vm_compute in E. by injection E as <- <- <-. }
  split_and!; [done..|]. intros c1 Hload.
  destruct (AddRulePersisted_durable 5 (Some sample_rule) p p' c c' res E) as [_ Hok].
  destruct (Hok Hres) as (r & [= <-] & _ & _ & _ & Hdur).
  apply (Hdur ∅ c1 eq_refl); [done|by right| |done|by intros k sr|exact Hload].
  right. by exists "[lab".
Defined.

(** Under the "allow" policy a dial to a virtual port with no rule passes the decision
    and then reads the protocol of the missing rule: on every TCP or UDP network name the
    call panics, for every source. *)
Theorem DialVirtual_allow_unconfigured (dial : string → string → bool) (v : Z) (network : string)
    (src : Source) (c : Controller) (Hallow : policy c = PolicyAllow)
    (Hnone : LookupVirtual v c = None) (Hnet : tcp_network network || udp_network network = true) :
  Decide v src c = DecisionAllow ∧ DialVirtual dial v network src c = ([], Panic).
Proof.
  assert (Decide v src c = DecisionAllow) as Hd by (apply Decide_allow; by left).
  split; [done|]. unfold DialVirtual. rewrite Hd, Hnone.
  destruct (tcp_network network); [done|]. cbn in Hnet. by rewrite Hnet.
Qed.

Lemma DialVirtual_allow_unconfigured_witness :
  DialVirtual (λ _ _, true) 80 "udp4" (mkSource "" false "") (NewController PolicyAllow) = ([], Panic).
Proof.
  exact (proj2 (DialVirtual_allow_unconfigured (λ _ _, true) 80 "udp4" (mkSource "" false "")
    (NewController PolicyAllow) eq_refl eq_refl eq_refl)).
Defined.

(** The local-port index is not the inverse of the rule map.  Moving a rule to another local
    port and removing it leaves the first local port indexed; and of two rules that share a
    local port, removing one drops the other from the index. *)
Lemma local_index_stale :
  let move := mkRule "r1" "n" "tcp" 9090 80 [] "" true 1 in
  let c := RemoveRule 80 (AddRule move (AddRule sample_rule (NewController PolicyDeny))) in
  ListRules c = [] ∧ LookupLocal 8080 c = Some sample_rule.
Proof. by vm_compute. Qed.

Lemma local_index_missing :
  let other := mkRule "r2" "n" "tcp" 8080 81 [] "" true 1 in
  let c := RemoveRule 81 (AddRule other (AddRule sample_rule (NewController PolicyDeny))) in
  LookupVirtual 80 c = Some sample_rule ∧ LookupLocal 8080 c = None.
Proof. by vm_compute. Qed.

(** A successful self check leaves no host network that overlaps the mesh prefix, and an
    "allow" policy only when it was confirmed. *)
Lemma SelfCheck_ok file_ok parse nets opts c :
  SelfCheck file_ok parse nets opts c = Ret () →
  (policy c = PolicyAllow → AllowConfirmed opts = true) ∧
  (MeshCIDR opts ≠ "" → ∃ mesh hn, parse (MeshCIDR opts) = Some mesh ∧ nets = Some hn ∧
     ∀ h, h ∈ hn → Overlaps h mesh = false).
Proof.
  unfold SelfCheck. destruct (negb (String.eqb (RulesFile opts) "") && _); [done|].
  destruct (is_allow (policy c) && _) eqn:Ha; [done|]. intros Hm. split.
  { intros Hp. rewrite Hp in Ha. by destruct (AllowConfirmed opts). }
  intros Hne. destruct (String.eqb_spec (MeshCIDR opts) ""); [done|]. cbn [negb] in Hm.
  destruct (parse _) as [mesh|]; [|done]. destruct nets as [hn|]; [|done]. exists mesh, hn.
  split_and!; [done..|]. intros h Hh. destruct (List.find _ hn) eqn:F; [done|].
  apply list_elem_of_In in Hh. pose proof (List.find_none _ _ F h Hh) as Hf. cbn in Hf.
  apply andb_false_iff in Hf as [Hf|Hf]; [|done]. unfold Overlaps. by rewrite Hf.
Qed.
End PortControlProperties.
