(* ===== verification/PortScan.v ===== *)
(** The port-scan defence (src/internal/portcontrol/scan.go): the token bucket on float64, the
    scanner and its refinement to a per-source specification. *)
From S2P Require Export Prelude GoLib GoFloat.
From stdpp Require Import gmap strings list.

Local Open Scope Z_scope.

Module PortScan.

(** ** The token bucket *)

Record tokenBucket := mkBucket {
  rate : float64;
  burst : float64;
  tokens : float64;
  last : Z;
}.

Definition newTokenBucket (rate burst : float64) (now : Z) : tokenBucket :=
  mkBucket rate burst burst now.

Definition take (now : Z) (b : tokenBucket) : bool * tokenBucket :=
  let elapsed := dur_seconds (time_sub now (last b)) in
  let t := fadd (tokens b) (fmul elapsed (rate b)) in
  let t := if flt (burst b) t then burst b else t in
  if flt t (f_of_int 1) then (false, mkBucket (rate b) (burst b) t now)
  else (true, mkBucket (rate b) (burst b) (fsub t (f_of_int 1)) now).

(** ** The scanner *)

(** [OnAnomaly] is whether a callback is installed. *)
Record Scanner := mkScanner {
  window : Z;
  threshold : Z;
  srate : float64;
  sburst : Z;
  blacklist : gmap string Z;
  blacklistFor : Z;
  ports : gmap string (gmap Z Z);
  buckets : gmap string tokenBucket;
  OnAnomaly : bool;
}.

Inductive ProbeDisposition :=
| ProbeExempt
| ProbeRecorded
| ProbeRateLimited
| ProbeBlacklisted.

Definition NewScanner : Scanner :=
  mkScanner (60 * Second) 100 (f_of_int 10) 20 ∅ (5 * Minute) ∅ ∅ false.

Definition with_maps (s : Scanner) bl ps bs : Scanner :=
  mkScanner (window s) (threshold s) (srate s) (sburst s) bl (blacklistFor s) ps bs (OnAnomaly s).

(** From the recording of the port on.  The [range] loop deletes the expired ports; its order
    does not matter. *)
Definition count (now : Z) (source : string) (port : Z) (s : Scanner) :
    ProbeDisposition * list (string * Z) * Scanner :=
  let set := default ∅ (ports s !! source) in
  let set := <[port := now]> set in
  let set := filter (λ '(_, t), ¬ window s < time_sub now t) set in
  if threshold s <=? Z.of_nat (size set) then
    (ProbeBlacklisted, if OnAnomaly s then [(source, Z.of_nat (size set))] else [],
     with_maps s (<[source := now + blacklistFor s]> (blacklist s))
       (delete source (ports s)) (delete source (buckets s)))
  else
    let b := match buckets s !! source with
             | Some b => b
             | None => newTokenBucket (srate s) (f_of_int (sburst s)) now
             end in
    let '(ok, b) := take now b in
    (if negb ok then ProbeRateLimited else ProbeRecorded, [],
     with_maps s (blacklist s) (<[source := set]> (ports s)) (<[source := b]> (buckets s))).

(** The disposition, the calls of the anomaly callback, and the new state. *)
Definition Probe (now : Z) (source : string) (port : Z) (sameRoom : bool) (s : Scanner) :
    ProbeDisposition * list (string * Z) * Scanner :=
  match blacklist s !! source with
  | Some until =>
      if now <? until then (ProbeBlacklisted, [], s)
      else
        let s := with_maps s (delete source (blacklist s)) (delete source (ports s))
                   (delete source (buckets s)) in
        if sameRoom then (ProbeExempt, [], s) else count now source port s
  | None => if sameRoom then (ProbeExempt, [], s) else count now source port s
  end.

(** The remaining seconds, as a float64. *)
Definition BlacklistSecondsLeft (now : Z) (source : string) (s : Scanner) : float64 :=
  match blacklist s !! source with
  | None => f_of_int 0
  | Some until => dur_seconds (time_sub until now)
  end.

(** A history of probes: time, source, port, same-room flag. *)
Record probe := mkProbe {
  at_time : Z;
  from : string;
  to_port : Z;
  same : bool;
}.

Definition step (e : probe) (s : Scanner) := Probe (at_time e) (from e) (to_port e) (same e) s.

Fixpoint run (es : list probe) (s : Scanner) : list (ProbeDisposition * list (string * Z)) * Scanner :=
  match es with
  | [] => ([], s)
  | e :: es => let '(d, a, s) := step e s in let '(out, s) := run es s in ((d, a) :: out, s)
  end.

End PortScan.

Module PortScanFacts.
Import PortScan.

(** ** The bucket on whole seconds *)

(** The integer bucket: the tokens left and whether the request passes. *)
Definition int_take (r b n k : Z) : bool * Z :=
  let t := Z.min b (k + n * r) in if t <? 1 then (false, t) else (true, t - 1).

Lemma take_whole_seconds r b k n T :
  0 <= r < 2 ^ 53 → 0 <= k <= b → 0 <= n <= 9223372036 → b < 2 ^ 53 → k + n * r < 2 ^ 53 →
  take (T + n * Second) (mkBucket (f_of_int r) (f_of_int b) (f_of_int k) T) =
  let '(ok, k') := int_take r b n k in
  (ok, mkBucket (f_of_int r) (f_of_int b) (f_of_int k') (T + n * Second)).
Proof.
  intros Hr Hk Hn Hb Hmax. unfold take. cbn [rate burst tokens last].
  assert (time_sub (T + n * Second) T = n * Second) as ->.
  { unfold time_sub, max_duration, Second. lia. }
  assert (0 <= n * r) by lia.
  rewrite dur_seconds_int, fmul_int, fadd_int, flt_int by lia.
  assert ((if b <? k + n * r then f_of_int b else f_of_int (k + n * r)) = f_of_int (Z.min b (k + n * r))) as ->.
  { destruct (Z.ltb_spec b (k + n * r)); f_equal; lia. }
  unfold int_take. rewrite flt_int by lia. destruct (Z.ltb_spec (Z.min b (k + n * r)) 1); [done|].
  by rewrite fsub_int by lia.
Qed.

(** A sequence of requests, each some whole seconds after the previous one. *)
Fixpoint take_all (gaps : list Z) (T : Z) (b : tokenBucket) : list bool :=
  match gaps with
  | [] => []
  | n :: gaps => let '(ok, b) := take (T + n * Second) b in ok :: take_all gaps (T + n * Second) b
  end.

Definition passed (l : list bool) : Z := Z.of_nat (length (List.filter id l)).

Lemma passed_cons (ok : bool) l : passed (ok :: l) = (if ok then 1 else 0) + passed l.
Proof. unfold passed. destruct ok; cbn [List.filter id length]; lia. Qed.

Definition total (gaps : list Z) : Z := foldr Z.add 0 gaps.

Lemma total_nonneg gaps : Forall (λ n, 0 <= n) gaps → 0 <= total gaps.
Proof. induction 1; unfold total in *; cbn; lia. Qed.

Lemma take_all_bound r b k gaps T :
  0 <= r → 0 <= k <= b → Forall (λ n, 0 <= n) gaps → total gaps <= 9223372036 →
  b + total gaps * r < 2 ^ 53 → r < 2 ^ 53 →
  passed (take_all gaps T (mkBucket (f_of_int r) (f_of_int b) (f_of_int k) T)) <= k + total gaps * r.
Proof.
  intros Hr. revert k T. induction gaps as [|n gaps IH]; intros k T Hk Hall Hn Hmax Hr'.
  { unfold passed. cbn. lia. }
  apply Forall_cons in Hall as [H0 Hall]. cbn [total foldr] in *. fold (total gaps) in *.
  pose proof (total_nonneg _ Hall).
  assert (0 <= total gaps * r) by lia. assert (0 <= n * r) by lia.
  cbn [take_all]. rewrite take_whole_seconds by lia. unfold int_take.
  destruct (Z.ltb_spec (Z.min b (k + n * r)) 1) as [Hlt|Hge]; rewrite passed_cons.
  - pose proof (IH (Z.min b (k + n * r)) (T + n * Second) ltac:(lia) Hall ltac:(lia) ltac:(lia) Hr'). lia.
  - pose proof (IH (Z.min b (k + n * r) - 1) (T + n * Second) ltac:(lia) Hall ltac:(lia) ltac:(lia) Hr'). lia.
Qed.

Lemma take_all_burst r b k m T :
  0 <= r < 2 ^ 53 → 0 <= k <= b → b < 2 ^ 53 →
  take_all (replicate m 0) T (mkBucket (f_of_int r) (f_of_int b) (f_of_int k) T) =
  replicate (m `min` Z.to_nat k) true ++ replicate (m - Z.to_nat k) false.
Proof.
  intros Hr Hk Hb. revert k T Hk. induction m as [|m IH]; intros k T Hk; [done|].
  cbn [replicate take_all]. rewrite take_whole_seconds by lia. unfold int_take.
  replace (Z.min b (k + 0 * r)) with k by lia. destruct (Z.ltb_spec k 1).
  - assert (k = 0) as -> by lia. rewrite IH by lia. change (Z.to_nat 0) with 0%nat.
    rewrite !Nat.min_0_r, !Nat.sub_0_r. done.
  - rewrite IH by lia. replace (Z.to_nat k) with (S (Z.to_nat (k - 1))) by lia. done.
Qed.

(** ** The scanner, one source at a time *)

(** What the specification keeps of a source: until when it is blacklisted, and when each
    port was last probed since its record began. *)
Record view := mkView {
  until : option Z;
  seen : gmap Z Z;
}.

Inductive verdict :=
| VExempt
| VCounted
| VBlacklisted (reported : option Z).

Definition recent (now : Z) (m : gmap Z Z) : gmap Z Z := filter (λ '(_, t), now - t <= 60 * Second) m.

(** Five minutes of silence once a hundred ports were seen within a minute. *)
Definition spec_step (e : probe) (v : view) : verdict * view :=
  let silenced := match until v with Some u => at_time e <? u | None => false end in
  if silenced then (VBlacklisted None, v)
  else
    let seen0 := match until v with Some _ => ∅ | None => seen v end in
    if same e then (VExempt, mkView None seen0)
    else
      let seen1 := <[to_port e := at_time e]> seen0 in
      let n := Z.of_nat (size (recent (at_time e) seen1)) in
      if 100 <=? n then (VBlacklisted (Some n), mkView (Some (at_time e + 5 * Minute)) ∅)
      else (VCounted, mkView None seen1).

(** What a caller sees of the scanner's answer. *)
Definition verdict_of (out : ProbeDisposition * list (string * Z)) : verdict :=
  match out with
  | (ProbeExempt, _) => VExempt
  | (ProbeRecorded, _) | (ProbeRateLimited, _) => VCounted
  | (ProbeBlacklisted, a) => VBlacklisted (snd <$> head a)
  end.

(** The design constants, with a callback installed. *)
Record configured (s : Scanner) : Prop := {
  cfg_window : window s = 60 * Second;
  cfg_threshold : threshold s = 100;
  cfg_for : blacklistFor s = 5 * Minute;
  cfg_callback : OnAnomaly s = true;
}.

(** The scanner's record of a source at time [T] against its view: the port set is the
    view's, pruned at some earlier time. *)
Record tracks (T : Z) (src : string) (s : Scanner) (v : view) : Prop := {
  tr_cfg : configured s;
  tr_until : blacklist s !! src = until v;
  tr_seen : until v = None → ∃ T0, T0 <= T ∧ default ∅ (ports s !! src) = recent T0 (seen v);
}.

Lemma sub_window now t : 60 * Second < time_sub now t ↔ 60 * Second < now - t.
Proof. unfold time_sub, max_duration, Second. lia. Qed.

(** Pruning earlier does not change what is recent now. *)
Lemma recent_insert T0 now p (m : gmap Z Z) :
  T0 <= now →
  filter (λ '(_, t), ¬ 60 * Second < time_sub now t) (<[p := now]> (recent T0 m)) =
  recent now (<[p := now]> m).
Proof.
  intros HT. apply map_eq. intros q. apply option_eq. intros t. unfold recent.
  rewrite !map_lookup_filter_Some, sub_window. destruct (decide (p = q)) as [->|Hne].
  - rewrite !lookup_insert_eq. naive_solver lia.
  - rewrite !lookup_insert_ne, map_lookup_filter_Some by done. naive_solver lia.
Qed.

Lemma recent_empty T : recent T ∅ = ∅.
Proof. apply map_filter_empty. Qed.

Lemma with_maps_configured s bl ps bs : configured s → configured (with_maps s bl ps bs).
Proof. by intros []. Qed.

Lemma count_tracks now src port s m :
  configured s → blacklist s !! src = None →
  (∃ T0, T0 <= now ∧ default ∅ (ports s !! src) = recent T0 m) →
  let '(d, a, s') := count now src port s in
  let n := Z.of_nat (size (recent now (<[port := now]> m))) in
  if 100 <=? n then verdict_of (d, a) = VBlacklisted (Some n) ∧
                    tracks now src s' (mkView (Some (now + 5 * Minute)) ∅)
  else verdict_of (d, a) = VCounted ∧ tracks now src s' (mkView None (<[port := now]> m)).
Proof.
  intros Hcfg Hbl (T0 & HT & Hset). unfold count. pose proof Hcfg as [Hw Hth Hf Hcb].
  rewrite Hset, Hw, Hth, Hf, Hcb, (recent_insert T0) by done.
  destruct (100 <=? _) eqn:E.
  - split; [done|]. split; [by apply with_maps_configured| |done].
    cbn. apply lookup_insert_eq.
  - destruct (take now _) as [ok b]. split; [by destruct ok|].
    split; [by apply with_maps_configured|done|]. intros _. exists now. split; [lia|].
    cbn. by rewrite lookup_insert_eq.
Qed.

Lemma step_own T e s v :
  tracks T (from e) s v → T <= at_time e →
  let '(d, a, s') := step e s in
  let '(k, v') := spec_step e v in
  verdict_of (d, a) = k ∧ tracks (at_time e) (from e) s' v'.
Proof.
  intros [Hcfg Hu Hseen] HT. unfold step, Probe, spec_step. rewrite Hu.
  destruct v as [[u|] m]; cbn [until seen] in *.
  - destruct (at_time e <? u); [split; [done|by split]|].
    set (s0 := with_maps s _ _ _). assert (configured s0) by by apply with_maps_configured.
    assert (blacklist s0 !! from e = None) by apply lookup_delete_eq.
    assert (∃ T0, T0 <= at_time e ∧ default ∅ (ports s0 !! from e) = recent T0 ∅).
    { exists T. rewrite recent_empty. cbn. by rewrite lookup_delete_eq. }
    destruct (same e); [split; [done|by split]|].
    pose proof (count_tracks (at_time e) (from e) (to_port e) s0 ∅) as Hc.
    destruct (count _ _ _ _) as [[d a] s']. cbv zeta in Hc. by destruct (100 <=? _); apply Hc.
  - destruct (Hseen eq_refl) as (T0 & HT0 & Hs).
    assert (∃ T0, T0 <= at_time e ∧ default ∅ (ports s !! from e) = recent T0 m) by (exists T0; split; [lia|done]).
    destruct (same e); [split; [done|by split]|].
    pose proof (count_tracks (at_time e) (from e) (to_port e) s m) as Hc.
    destruct (count _ _ _ _) as [[d a] s']. cbv zeta in Hc. by destruct (100 <=? _); apply Hc.
Qed.

(** A probe of another source leaves the record of this one alone. *)
Lemma step_other T src e s v :
  tracks T src s v → from e ≠ src → T <= at_time e → tracks (at_time e) src (step e s).2 v.
Proof.
  intros [Hcfg Hu Hseen] Hne HT.
  assert (configured (step e s).2 ∧ blacklist (step e s).2 !! src = blacklist s !! src ∧
          ports (step e s).2 !! src = ports s !! src) as (Hc & Hb & Hp).
  { unfold step, Probe, count.
    destruct (blacklist s !! from e); [destruct (_ <? _); [done|]|]; (destruct (same e); [|destruct (_ <=? _)]);
      try destruct (take _ _); cbn; (split; [by destruct Hcfg; split|]);
      rewrite ?lookup_delete_ne, ?lookup_insert_ne, ?lookup_delete_ne by done; done. }
  split; [done|congruence|]. intros Hn. destruct (Hseen Hn) as (T0 & ? & Hs). exists T0.
  rewrite Hp. split; [lia|done].
Qed.

(** The clock does not run backwards. *)
Fixpoint clocked (T : Z) (es : list probe) : Prop :=
  match es with
  | [] => True
  | e :: es => T <= at_time e ∧ clocked (at_time e) es
  end.

Fixpoint spec_run (es : list probe) (v : view) : list verdict :=
  match es with
  | [] => []
  | e :: es => let '(k, v) := spec_step e v in k :: spec_run es v
  end.

(** What the scanner answered to the probes of one source. *)
Fixpoint heard (src : string) (es : list probe) (outs : list (ProbeDisposition * list (string * Z))) :
    list verdict :=
  match es, outs with
  | e :: es, o :: outs => if decide (from e = src) then verdict_of o :: heard src es outs else heard src es outs
  | _, _ => []
  end.

Lemma run_tracks src es T s v :
  tracks T src s v → clocked T es →
  heard src es (run es s).1 = spec_run (filter (λ e, from e = src) es) v.
Proof.
  revert T s v. induction es as [|e es IH]; intros T s v Htr; [done|]. intros [HT Hcl].
  cbn [run]. destruct (step e s) as [[d a] s'] eqn:Es. destruct (run es s') as [out s''] eqn:Er.
  cbn [fst heard]. rewrite filter_cons. destruct (decide (from e = src)) as [Hsrc|Hne].
  - subst src. pose proof (step_own T e s v Htr HT) as Ho. rewrite Es in Ho. cbn [spec_run].
    destruct (spec_step e v) as [k v']. destruct Ho as [-> Htr']. f_equal.
    specialize (IH _ _ _ Htr' Hcl). by rewrite Er in IH.
  - pose proof (step_other T src e s v Htr Hne HT) as Htr'. rewrite Es in Htr'. cbn [snd] in Htr'.
    specialize (IH _ _ _ Htr' Hcl). by rewrite Er in IH.
Qed.

(** A new scanner with the callback installed. *)
Definition armed : Scanner :=
  mkScanner (window NewScanner) (threshold NewScanner) (srate NewScanner) (sburst NewScanner)
    (blacklist NewScanner) (blacklistFor NewScanner) (ports NewScanner) (buckets NewScanner) true.

Lemma armed_tracks T src : tracks T src armed (mkView None ∅).
Proof. split; [done..|]. intros _. exists T. by rewrite recent_empty. Qed.
End PortScanFacts.

Module PortScanProperties.
Import PortScan PortScanFacts.

(** C20: The scan detector refines its specification, source by source.  Over any history of
    probes with a clock that does not run backwards, what one source is answered depends
    only on its own probes: it is blacklisted, and reported once with the count, exactly
    when its out-of-room probes touched a hundred distinct ports within the last minute;
    it then stays silent for five minutes, after which its record starts afresh; same-room
    probes are exempt and never counted.  The rate limiter never hides a scan. *)
Theorem scan_detection (src : string) (es : list probe) (Hclock : clocked 0 es) :
  heard src es (run es armed).1 = spec_run (filter (λ e, from e = src) es) (mkView None ∅).
Proof. apply (run_tracks src es 0); [apply armed_tracks|done]. Qed.

(** A hundred ports at one instant, then one probe five minutes later. *)
Definition sweep : list probe :=
  map (λ n, mkProbe 0 "a" (Z.of_nat n) false) (seq 0 100) ++ [mkProbe (5 * Minute) "a" 7 false].

Lemma scan_detection_witness :
  heard "a" sweep (run sweep armed).1 = replicate 99 VCounted ++ [VBlacklisted (Some 100); VCounted] ∧
  heard "b" sweep (run sweep armed).1 = [].
Proof.
  assert (clocked 0 sweep) as Hcl by (vm_compute; intuition discriminate).
  split; (rewrite scan_detection by exact Hcl); vm_compute; reflexivity.
Defined.

(** The token bucket keeps its promise on a clock of whole seconds: with an integer rate
    and burst, requests spread over any gaps pass at most burst plus rate times the elapsed
    seconds times; and of requests at one instant exactly the first [burst] pass.  The
    float64 arithmetic is exact there. *)
Theorem bucket_limits (r b T : Z) (gaps : list Z) (m : nat)
    (Hr : 0 <= r < 2 ^ 53) (Hb : 0 <= b < 2 ^ 53)
    (Hgaps : Forall (λ n, 0 <= n) gaps) (Htotal : total gaps <= 9223372036)
    (Hexact : b + total gaps * r < 2 ^ 53) :
  passed (take_all gaps T (newTokenBucket (f_of_int r) (f_of_int b) T)) <= b + total gaps * r ∧
  take_all (replicate m 0) T (newTokenBucket (f_of_int r) (f_of_int b) T) =
    replicate (m `min` Z.to_nat b) true ++ replicate (m - Z.to_nat b) false.
Proof. split; [apply take_all_bound; lia || done|apply take_all_burst; lia]. Qed.

Lemma bucket_limits_witness :
  passed (take_all (replicate 25 0 ++ [1; 0; 3]) 0 (newTokenBucket (f_of_int 10) (f_of_int 20) 0)) <= 60.
Proof.
  apply (bucket_limits 10 20 0 (replicate 25 0 ++ [1; 0; 3]) 0);
    [lia|lia| |by vm_compute|by vm_compute].
  repeat (apply Forall_cons; split; [lia|]). apply Forall_nil. done.
Defined.

(** A same-room probe is exempt unless the source is blacklisted at that time. *)
Lemma same_room_exempt now src port s :
  (Probe now src port true s).1 =
  (if match blacklist s !! src with Some u => now <? u | None => false end
   then ProbeBlacklisted else ProbeExempt, []).
Proof. unfold Probe. destruct (blacklist s !! src); [by destruct (_ <? _)|done]. Qed.
End PortScanProperties.
