(* ===== verification/Relay.v ===== *)
(** The server-side relay (src/internal/relay/relay.go): the hub, its byte quota, and what it
    may forward. *)
From S2P Require Export Prelude GoLib GoFloat.
From stdpp Require Import gmap strings list.

Local Open Scope Z_scope.

Module Relay.

(** ** The byte quota *)

Record tokenBucket := mkBucket {
  rate : float64;
  burst : float64;
  tokens : float64;
  last : Z;
}.

Definition newByteBucket (rate : Z) : tokenBucket :=
  mkBucket (f_of_int rate) (f_of_int rate) (f_of_int rate) 0.

Definition take (n now : Z) (b : tokenBucket) : bool * tokenBucket :=
  let b := if time_is_zero (last b) then mkBucket (rate b) (burst b) (burst b) now else b in
  let elapsed := dur_seconds (time_sub now (last b)) in
  let t := fadd (tokens b) (fmul elapsed (rate b)) in
  let t := if flt (burst b) t then burst b else t in
  if flt t (f_of_int n) then (false, mkBucket (rate b) (burst b) t now)
  else (true, mkBucket (rate b) (burst b) (fsub t (f_of_int n)) now).

(** ** The hub *)

Inductive relay_error :=
| ErrNilSink
| ErrRootNeverRelays
| ErrNoRoute
| ErrQuotaExceeded
| ErrWrite (to : string).

(** Sinks are named by numbers. *)
Record Hub := mkHub {
  isRoot : bool;
  sinks : gmap string nat;
  quota : option tokenBucket;
  quotaOn : bool;
}.

Definition NewHub (isRoot : bool) (masterQuota : Z) : Hub :=
  if 0 <? masterQuota then mkHub isRoot ∅ (Some (newByteBucket masterQuota)) true
  else mkHub isRoot ∅ None false.

Definition Root (h : Hub) : bool := isRoot h.
Definition Quotaed (h : Hub) : bool := quotaOn h.

(** A nil sink is [None]. *)
Definition Register (nodeID : string) (s : option nat) (h : Hub) : Hub * outcome relay_error () :=
  match s with
  | None => (h, Fail ErrNilSink)
  | Some s =>
      if isRoot h then (h, Fail ErrRootNeverRelays)
      else (mkHub (isRoot h) (<[nodeID := s]> (sinks h)) (quota h) (quotaOn h), Ret ())
  end.

Definition Unregister (nodeID : string) (h : Hub) : Hub :=
  mkHub (isRoot h) (delete nodeID (sinks h)) (quota h) (quotaOn h).

(** [range] over the map: the node IDs in no specified order. *)
Definition Peers (h : Hub) : list string := fst <$> map_to_list (sinks h).

(** [h.quotaOn && !h.quota.take(n, now)], on a quota that may be nil. *)
Definition quota_take (n now : Z) (h : Hub) : Hub * outcome relay_error () :=
  if quotaOn h then
    match quota h with
    | None => (h, Panic)
    | Some b =>
        let '(ok, b) := take n now b in
        (mkHub (isRoot h) (sinks h) (Some b) (quotaOn h), if ok then Ret () else Fail ErrQuotaExceeded)
    end
  else (h, Ret ()).

(** The bytes written, to which sink; [sink_ok] is the answer of a sink to a write. *)
Definition Deliver (sink_ok : nat → list byte → bool) (now : Z) (from to : string)
    (payload : list byte) (h : Hub) : Hub * list (nat * list byte) * outcome relay_error () :=
  if isRoot h then (h, [], Fail ErrRootNeverRelays)
  else
    match sinks h !! to with
    | None => (h, [], Fail ErrNoRoute)
    | Some sink =>
        let '(h, r) := quota_take (Z.of_nat (length payload)) now h in
        match r with
        | Ret _ => (h, [(sink, payload)], if sink_ok sink payload then Ret () else Fail (ErrWrite to))
        | Fail e => (h, [], Fail e)
        | Panic => (h, [], Panic)
        end
    end.

End Relay.

Module RelayFacts.
Import Relay.

(** ** Runs *)

Inductive event :=
| EvRegister (nodeID : string) (s : option nat)
| EvUnregister (nodeID : string)
| EvDeliver (now : Z) (from to : string) (payload : list byte).

Section Runs.
Variable sink_ok : nat → list byte → bool.

Definition step (e : event) (h : Hub) : Hub * list (nat * list byte) * outcome relay_error () :=
  match e with
  | EvRegister id s => let '(h, r) := Register id s h in (h, [], r)
  | EvUnregister id => (Unregister id h, [], Ret ())
  | EvDeliver now from to p => Deliver sink_ok now from to p h
  end.

(** The hub after a run, what each step wrote and what it answered. *)
Fixpoint run (es : list event) (h : Hub) : Hub * list (list (nat * list byte) * outcome relay_error ()) :=
  match es with
  | [] => (h, [])
  | e :: es =>
      let '(h, ws, r) := step e h in
      let '(h, out) := run es h in (h, (ws, r) :: out)
  end.

(** The sink a node has after some registrations, by the events alone. *)
Definition sink_after (root : bool) (es : list event) (id : string) : option nat :=
  foldl (λ cur e, match e with
                  | EvRegister id' (Some s) => if negb root && String.eqb id id' then Some s else cur
                  | EvUnregister id' => if String.eqb id id' then None else cur
                  | _ => cur
                  end) None es.

Definition written (out : list (list (nat * list byte) * outcome relay_error ())) : Z :=
  Z.of_nat (length (concat (map snd (concat (map fst out))))).

Lemma step_shape e h :
  isRoot (step e h).1.1 = isRoot h ∧ quotaOn (step e h).1.1 = quotaOn h ∧
  (is_Some (quota h) → is_Some (quota (step e h).1.1)).
Proof.
  destruct e as [id [s|]|id|now from to p]; cbn; try done; [by destruct (isRoot h) eqn:E; cbn|].
  unfold Deliver, quota_take. destruct (isRoot h) eqn:E; [done|]. destruct (sinks h !! to); [|done].
  destruct (quotaOn h) eqn:Eq; [|done]. destruct (quota h) as [b|] eqn:Eb; [|done].
  by destruct (take _ _ b) as [[] b'].
Qed.

Lemma step_sinks e h : sinks (step e h).1.1 =
  match e with
  | EvRegister id (Some s) => if isRoot h then sinks h else <[id := s]> (sinks h)
  | EvUnregister id => delete id (sinks h)
  | _ => sinks h
  end.
Proof.
  destruct e as [id [s|]|id|now from to p]; cbn; try done; [by destruct (isRoot h)|].
  unfold Deliver, quota_take. destruct (isRoot h); [done|]. destruct (sinks h !! to) eqn:E; [|done].
  destruct (quotaOn h); [|done]. destruct (quota h); [|done]. by destruct (take _ _ _) as [[] ?].
Qed.

Lemma run_snoc es e h : (run (es ++ [e]) h).1 = (step e (run es h).1).1.1.
Proof.
  revert h. induction es as [|x es IH]; intros h; cbn.
  - destruct (step e h) as [[h' ws] r]. done.
  - destruct (step x h) as [[h' ws] r] eqn:E. specialize (IH h').
    destruct (run (es ++ [e]) h') as [h1 o1]. destruct (run es h') as [h2 o2]. done.
Qed.

(** The hub's table is what the events say; its configuration does not change. *)
Lemma run_hub es root q :
  let h := (run es (NewHub root q)).1 in
  isRoot h = root ∧ quotaOn h = (0 <? q) ∧ (quotaOn h = true → is_Some (quota h)) ∧
  ∀ id, sinks h !! id = sink_after root es id.
Proof.
  induction es as [|e es IH] using rev_ind; intros h.
  { subst h. unfold NewHub. cbn. destruct (0 <? q); cbn; split_and!; try done; intros; by rewrite lookup_empty. }
  subst h. rewrite run_snoc. destruct IH as (Hr & Hq & Hs & Hl).
  set (h := (run es (NewHub root q)).1) in *. destruct (step_shape e h) as (Hr' & Hq' & Hs').
  split_and!; [congruence|congruence|intros; apply Hs', Hs; congruence|].
  intros id. rewrite step_sinks. unfold sink_after. rewrite foldl_app. cbn. fold (sink_after root es id).
  destruct e as [id' [s|]|id'|now from to p]; rewrite <- ?Hl, ?Hr; [|done| |done].
  - destruct root; cbn; [by rewrite Hl|]. destruct (String.eqb_spec id id') as [->|Hne].
    + by rewrite lookup_insert_eq.
    + by rewrite lookup_insert_ne.
  - destruct (String.eqb_spec id id') as [->|Hne]; [by rewrite lookup_delete_eq|by rewrite lookup_delete_ne].
Qed.

(** ** The quota *)

Lemma take_int Q k T m n :
  0 < Q → 0 <= k <= Q → 0 < T → 0 <= m <= 9223372036 → Q + m * Q < 2 ^ 53 → 0 <= n < 2 ^ 53 →
  take n (T + m * Second) (mkBucket (f_of_int Q) (f_of_int Q) (f_of_int k) T) =
  let t := Z.min Q (k + m * Q) in
  if t <? n then (false, mkBucket (f_of_int Q) (f_of_int Q) (f_of_int t) (T + m * Second))
  else (true, mkBucket (f_of_int Q) (f_of_int Q) (f_of_int (t - n)) (T + m * Second)).
Proof.
  intros HQ Hk HT Hm Hmax Hn. unfold take, time_is_zero. cbn [rate burst tokens last].
  destruct (Z.eqb_spec T 0); [lia|]. cbn [rate burst tokens last].
  assert (time_sub (T + m * Second) T = m * Second) as ->.
  { unfold time_sub, max_duration, Second. lia. }
  assert (0 <= m * Q) by lia. rewrite dur_seconds_int, fmul_int, fadd_int, flt_int by lia.
  assert ((if Q <? k + m * Q then f_of_int Q else f_of_int (k + m * Q)) = f_of_int (Z.min Q (k + m * Q))) as ->.
  { destruct (Z.ltb_spec Q (k + m * Q)); f_equal; lia. }
  cbv zeta. rewrite flt_int by lia. destruct (Z.ltb_spec (Z.min Q (k + m * Q)) n); [done|].
  by rewrite fsub_int by lia.
Qed.

Lemma take_fresh Q now n :
  0 < now → 0 < Q → take n now (newByteBucket Q) = take n now (mkBucket (f_of_int Q) (f_of_int Q) (f_of_int Q) now).
Proof.
  intros Hnow HQ. unfold take, newByteBucket, time_is_zero. cbn [rate burst tokens last].
  destruct (Z.eqb_spec now 0); [lia|]. done.
Qed.

(** Deliveries are a whole number of seconds apart, on a clock that does not run backwards. *)
Fixpoint paced (T : Z) (es : list event) : Prop :=
  match es with
  | [] => True
  | EvDeliver now _ _ p :: es =>
      T <= now ∧ (now - T) mod Second = 0 ∧ Z.of_nat (length p) < 2 ^ 53 ∧ paced now es
  | _ :: es => paced T es
  end.

(** The seconds from [T] to the last delivery. *)
Fixpoint span (T : Z) (es : list event) : Z :=
  match es with
  | [] => 0
  | EvDeliver now _ _ _ :: es => (now - T) / Second + span now es
  | _ :: es => span T es
  end.

Lemma span_nonneg T es : paced T es → 0 <= span T es.
Proof.
  revert T. induction es as [|e es IH]; intros T; [done|].
  destruct e as [| |now from to p]; cbn; try apply IH. intros (? & _ & _ & H).
  pose proof (IH _ H). assert (0 <= (now - T) / Second) by (apply Z.div_pos; unfold Second; lia). lia.
Qed.

(** A quota with [k] bytes left that was last used [m] seconds before [T]. *)
Definition quota_state (Q k m T : Z) (h : Hub) : Prop :=
  quotaOn h = true ∧ 0 <= k <= Q ∧ 0 <= m ∧
  ((quota h = Some (newByteBucket Q) ∧ k = Q ∧ m = 0) ∨
   (quota h = Some (mkBucket (f_of_int Q) (f_of_int Q) (f_of_int k) (T - m * Second)) ∧ 0 < T - m * Second)).

Lemma quota_state_later Q k m T now h :
  T <= now → (now - T) mod Second = 0 → quota_state Q k m T h →
  ∃ m', m' <= m + (now - T) / Second ∧ quota_state Q k m' now h.
Proof.
  intros HT Hmod (Hon & Hk & Hm & [(Hq & -> & ->)|[Hq Hpos]]).
  - exists 0. assert (0 <= (now - T) / Second) by (apply Z.div_pos; unfold Second; lia).
    split; [lia|]. split_and!; [done|lia..|]. by left.
  - exists (m + (now - T) / Second). split; [lia|].
    assert (now - T = Second * ((now - T) / Second)) as E.
    { pose proof (Z.div_mod (now - T) Second ltac:(unfold Second; lia)). lia. }
    assert (0 <= (now - T) / Second) by (apply Z.div_pos; unfold Second; lia).
    assert (now - (m + (now - T) / Second) * Second = T - m * Second) as E' by lia.
    split_and!; [done|lia..|]. right. by rewrite E'.
Qed.

(** One charge: refused with at most a refill, or charged for. *)
Lemma quota_take_state Q k m T n h :
  0 < Q → 0 < T → m <= 9223372036 → Q + m * Q < 2 ^ 53 → 0 <= n < 2 ^ 53 → quota_state Q k m T h →
  let '(h', r) := quota_take n T h in
  (r = Fail ErrQuotaExceeded ∧ ∃ k', k' <= k + m * Q ∧ quota_state Q k' 0 T h') ∨
  (r = Ret () ∧ ∃ k', k' + n <= k + m * Q ∧ quota_state Q k' 0 T h').
Proof.
  intros HQ HT Hm Hmax Hn (Hon & Hk & Hm0 & Hq). unfold quota_take. rewrite Hon.
  assert (∃ b T0, quota h = Some b ∧ 0 < T0 ∧ T = T0 + m * Second ∧
    take n T b = take n T (mkBucket (f_of_int Q) (f_of_int Q) (f_of_int k) T0)) as (b & T0 & -> & HT0 & -> & ->).
  { destruct Hq as [(Hq & -> & ->)|[Hq Hpos]].
    - eexists _, T. split_and!; [exact Hq|done|lia|]. by apply take_fresh.
    - eexists _, (T - m * Second). split_and!; [exact Hq|done|lia|done]. }
  assert (0 <= m * Q) by lia. rewrite take_int by lia. cbv zeta.
  destruct (Z.ltb_spec (Z.min Q (k + m * Q)) n); [left|right]; (split; [done|]).
  - exists (Z.min Q (k + m * Q)). split; [lia|]. split_and!; [done|lia..|]. right. cbn.
    rewrite Z.sub_0_r. split; [done|lia].
  - exists (Z.min Q (k + m * Q) - n). split; [lia|]. split_and!; [done|lia..|]. right. cbn.
    rewrite Z.sub_0_r. split; [done|lia].
Qed.

Lemma written_cons ws r out :
  written ((ws, r) :: out) = Z.of_nat (length (concat (map snd ws))) + written out.
Proof. unfold written. cbn. rewrite map_app, concat_app, length_app. lia. Qed.

Lemma quota_state_step Q k m T h e :
  quota_state Q k m T h → (∀ now from to p, e ≠ EvDeliver now from to p) →
  quota_state Q k m T (step e h).1.1 ∧ (step e h).1.2 = [].
Proof.
  intros Hq Hne. destruct e as [id [s|]|id|now from to p]; cbn; [by destruct (isRoot h)|done..|].
  by destruct (Hne now from to p).
Qed.

Lemma deliver_quota Q k m T h from to p :
  0 < Q → 0 < T → m <= 9223372036 → Q + m * Q < 2 ^ 53 → Z.of_nat (length p) < 2 ^ 53 →
  quota_state Q k m T h →
  let '(h', ws, _) := Deliver sink_ok T from to p h in
  ∃ k' m', m' <= m ∧ k' + m' * Q + Z.of_nat (length (concat (map snd ws))) <= k + m * Q ∧
    quota_state Q k' m' T h'.
Proof.
  intros HQ HT Hm Hmax Hp Hst. unfold Deliver.
  destruct (isRoot h); [exists k, m; cbn; split_and!; [lia..|done]|].
  destruct (sinks h !! to) as [sink|]; [|exists k, m; cbn; split_and!; [lia..|done]].
  pose proof Hst as (_ & _ & Hm0 & _).
  pose proof (quota_take_state Q k m T (Z.of_nat (length p)) h HQ HT Hm Hmax ltac:(lia) Hst) as Hq.
  destruct (quota_take _ T h) as [h' r]. destruct Hq as [(-> & k' & Hk & Hst')|(-> & k' & Hk & Hst')].
  - exists k', 0. cbn. split_and!; [lia..|done].
  - exists k', 0. cbn. rewrite app_nil_r. split_and!; [lia..|done].
Qed.

Lemma run_quota es Q k m T h :
  0 < Q → 0 < T → quota_state Q k m T h → paced T es →
  m + span T es <= 9223372036 → Q + (m + span T es) * Q < 2 ^ 53 →
  written (run es h).2 <= k + (m + span T es) * Q.
Proof.
  intros HQ. revert k m T h. induction es as [|e es IH]; intros k m T h HT Hst Hp Hs Hmax.
  { unfold written. cbn in *. destruct Hst as (_ & ? & ? & _). lia. }
  pose proof (span_nonneg T (e :: es) Hp) as Hs0. cbn [run].
  destruct e as [id sk|id|now from to p].
  1: destruct (quota_state_step Q k m T h (EvRegister id sk) Hst) as [Hst' Hws]; [by intros|].
  2: destruct (quota_state_step Q k m T h (EvUnregister id) Hst) as [Hst' Hws]; [by intros|].
  1,2: cbn [paced span] in *; destruct (step _ _) as [[h' ws] r]; cbn in Hst', Hws; subst ws;
    specialize (IH _ _ _ _ HT Hst' Hp Hs Hmax); destruct (run es h'); exact IH.
  cbn [paced span step] in *. destruct Hp as (HTn & Hmod & Hlen & Hp).
  pose proof (span_nonneg _ _ Hp). pose proof Hst as (_ & Hk0 & Hm0 & _).
  destruct (quota_state_later _ _ _ _ _ _ HTn Hmod Hst) as (m1 & Hm1 & Hst1).
  pose proof Hst1 as (_ & _ & Hm10 & _).
  pose proof (deliver_quota Q k m1 now h from to p HQ ltac:(lia) ltac:(lia) ltac:(nia) Hlen Hst1) as Hd.
  destruct (Deliver _ _ _ _ _ _) as [[h' ws] r]. destruct Hd as (k' & m' & Hm' & Hk' & Hst').
  specialize (IH k' m' now h' ltac:(lia) Hst' Hp ltac:(lia) ltac:(nia)).
  destruct (run es h') as [h2 out]. cbn [snd] in *. rewrite written_cons. nia.
Qed.
End Runs.
End RelayFacts.

Module RelayProperties.
Import Relay RelayFacts.

(** C29: What the relay forwards.  After any history of registrations, removals and
    deliveries, a delivery on a root hub writes nothing and is refused; on any other hub it
    writes the payload unchanged, once, to the sink most recently registered for the
    destination and not removed since, or writes nothing because there is no such sink or,
    with a quota only, because the quota is dry.  It never panics. *)
Theorem relay_contract (sink_ok : nat → list byte → bool) (es : list event) (root : bool) (q now : Z)
    (from to : string) (payload : list byte) :
  let '(_, ws, r) := Deliver sink_ok now from to payload (run sink_ok es (NewHub root q)).1 in
  match root, sink_after root es to with
  | true, _ => ws = [] ∧ r = Fail ErrRootNeverRelays
  | false, None => ws = [] ∧ r = Fail ErrNoRoute
  | false, Some s =>
      (ws = [(s, payload)] ∧ r = (if sink_ok s payload then Ret () else Fail (ErrWrite to))) ∨
      (0 < q ∧ ws = [] ∧ r = Fail ErrQuotaExceeded)
  end.
Proof.
  destruct (run_hub sink_ok es root q) as (Hr & Hq & Hs & Hl).
  set (h := (run sink_ok es (NewHub root q)).1) in *. unfold Deliver. rewrite Hr, Hl.
  destruct root; [done|]. destruct (sink_after false es to) as [s|]; [|done].
  unfold quota_take. destruct (quotaOn h) eqn:Eq; [|by left].
  destruct (Hs eq_refl) as [b ->]. destruct (take _ _ b) as [[] b']; [by left|].
  right. split; [|done]. by apply Z.ltb_lt.
Qed.

(** The master's quota holds: on a clock of whole seconds, a hub with a quota of [Q]
    bytes per second writes at most [Q] bytes plus [Q] per elapsed second, over any history
    of registrations and deliveries, successful or not. *)
Theorem relay_quota (sink_ok : nat → list byte → bool) (es : list event) (root : bool) (Q T : Z)
    (HQ : 0 < Q) (HT : 0 < T) (Hpaced : paced T es) (Hspan : span T es <= 9223372036)
    (Hexact : Q + span T es * Q < 2 ^ 53) :
  written (run sink_ok es (NewHub root Q)).2 <= Q + span T es * Q.
Proof.
  pose proof (run_quota sink_ok es Q Q 0 T (NewHub root Q) HQ HT) as H. rewrite Z.add_0_l in H.
  apply H; try done. unfold quota_state, NewHub. destruct (Z.ltb_spec 0 Q); [|lia].
  split_and!; [done|lia..|]. by left.
Qed.

Definition sample_events : list event :=
  [EvRegister "b" (Some 7%nat); EvDeliver Second "a" "b" [x01; x02; x03];
   EvDeliver Second "a" "b" [x04; x05]; EvDeliver (2 * Second) "a" "b" [x06; x07; x08; x09]].

Lemma relay_quota_witness :
  written (run (λ _ _, true) sample_events (NewHub false 4)).2 <= 8 ∧
  (run (λ _ _, true) sample_events (NewHub false 4)).2 =
    [([], Ret ()); ([(7%nat, [x01; x02; x03])], Ret ()); ([], Fail ErrQuotaExceeded);
     ([(7%nat, [x06; x07; x08; x09])], Ret ())].
Proof.
  split; [|vm_compute; reflexivity].
  apply (relay_quota (λ _ _, true) sample_events false 4 Second); try done.
Defined.
End RelayProperties.
