(* ===== verification/Reselect.v ===== *)
(** Server reselection (src/internal/bootstrap/reselect.go): the backoff policy on float64
    and the rotation over the candidate servers. *)
From S2P Require Export Prelude GoLib GoFloat.
From stdpp Require Import strings list.

Local Open Scope Z_scope.

Module Reselect.

(** The random source is an argument of the operations: [rand n] is [Int63n(n)]. *)
Record ServerBackoff := mkBackoff {
  jitter : Z;
  base : Z;
  max : Z;
  factor : float64;
}.

Definition NewServerBackoffWith (jitter base max : Z) (factor : float64) : ServerBackoff :=
  let base := if base <=? 0 then Second else base in
  let max := if max <=? 0 then Minute else max in
  mkBackoff jitter base max factor.

Definition NewServerBackoff : ServerBackoff :=
  NewServerBackoffWith (5 * Second) Second (60 * Second) (f_of_int 2).

(** [for i := 1; i < attempt && d < max; i++ { d *= factor }]: [n] is [attempt - i]. *)
Fixpoint grow (b : ServerBackoff) (n : nat) (d : float64) : float64 :=
  match n with
  | O => d
  | S n => if flt d (f_of_int (max b)) then grow b n (fmul d (factor b)) else d
  end.

Definition delayLocked (rand : Z → Z) (attempt : Z) (b : ServerBackoff) : Z :=
  if attempt <=? 0 then
    if jitter b <=? 0 then 0 else rand (jitter b)
  else
    let d := grow b (Z.to_nat (attempt - 1)) (f_of_int (base b)) in
    let d := if flt (f_of_int (max b)) d then f_of_int (max b) else d in
    let d := if 0 <? jitter b then fadd d (f_of_int (rand (jitter b))) else d in
    f_to_int64 d.

Definition Delay (rand : Z → Z) (attempt : Z) (b : ServerBackoff) : Z := delayLocked rand attempt b.

Record Picker := mkPicker {
  candidates : list string;
  current : string;
  attempt : Z;
  backoff : ServerBackoff;
}.

Definition NewPickerWith (candidates : list string) (b : ServerBackoff) : Picker :=
  mkPicker candidates (if (0 <? length candidates)%nat then default "" (head candidates) else "") 0 b.

Definition NewPicker (candidates : list string) : Picker := NewPickerWith candidates NewServerBackoff.

Definition Current (p : Picker) : string := current p.

Definition OnSuccess (p : Picker) : Picker := mkPicker (candidates p) (current p) 0 (backoff p).

(** The address to try next, the wait before it, and the new state. *)
Definition OnFailure (rand : Z → Z) (p : Picker) : string * Z * Picker :=
  let delay := delayLocked rand (attempt p) (backoff p) in
  let attempt := attempt p + 1 in
  if (length (candidates p) =? 0)%nat then ("", delay, mkPicker (candidates p) "" attempt (backoff p))
  else
    let idx := default 0%nat (find_index (λ c, String.eqb c (current p)) (candidates p)) in
    let next := default "" (candidates p !! ((idx + 1) mod length (candidates p))%nat) in
    (next, delay, mkPicker (candidates p) next attempt (backoff p)).

Definition Attempts (p : Picker) : Z := attempt p.

End Reselect.

Module ReselectFacts.
Import Reselect.

(** ** Backoff *)

(** The whole-nanosecond wait of the doubling schedule. *)
Definition schedule (n : nat) : Z := Z.min (60 * Second) (Second * 2 ^ Z.of_nat n).

Lemma grow_default n d :
  0 < d < 120 * Second →
  ∃ e, grow NewServerBackoff n (f_of_int d) = f_of_int e ∧ 0 < e < 120 * Second ∧
    Z.min (60 * Second) e = Z.min (60 * Second) (d * 2 ^ Z.of_nat n).
Proof.
  revert d. induction n as [|n IH]; intros d Hd; cbn [grow].
  { exists d. split_and!; [done|lia..|]. f_equal. lia. }
  change (max NewServerBackoff) with (60 * Second). change (factor NewServerBackoff) with (f_of_int 2).
  unfold Second in *. rewrite flt_int by lia. destruct (Z.ltb_spec d (60 * 1000000000)) as [Hlt|Hge].
  - rewrite fmul_int by lia. destruct (IH (d * 2) ltac:(lia)) as (e & He & Hb & Hm). exists e.
    split_and!; [done|lia..|]. rewrite Hm. f_equal. rewrite Nat2Z.inj_succ, Z.pow_succ_r by lia. lia.
  - exists d. split_and!; [done|lia..|].
    assert (1 <= 2 ^ Z.of_nat (S n)) by lia. nia.
Qed.

Lemma delay_default rand a :
  1 <= a → 0 <= rand (5 * Second) < 5 * Second →
  delayLocked rand a NewServerBackoff = schedule (Z.to_nat (a - 1)) + rand (5 * Second).
Proof.
  intros Ha Hr. unfold delayLocked. destruct (Z.leb_spec a 0); [lia|].
  change (base NewServerBackoff) with Second. change (max NewServerBackoff) with (60 * Second).
  change (jitter NewServerBackoff) with (5 * Second).
  destruct (grow_default (Z.to_nat (a - 1)) Second) as (e & -> & He & Hm); [unfold Second; lia|].
  unfold schedule. rewrite <- Hm. unfold Second in *. rewrite flt_int by lia.
  assert ((if 60 * 1000000000 <? e then f_of_int (60 * 1000000000) else f_of_int e) =
          f_of_int (Z.min (60 * 1000000000) e)) as ->.
  { destruct (Z.ltb_spec (60 * 1000000000) e); f_equal; lia. }
  destruct (Z.ltb_spec 0 (5 * 1000000000)); [|lia].
  rewrite fadd_int by lia. by rewrite f_to_int64_int by lia.
Qed.

(** ** Rotation *)

Lemma find_index_nodup (l : list string) i x :
  NoDup l → l !! i = Some x → find_index (λ c, String.eqb c x) l = Some i.
Proof.
  revert i. induction l as [|y l IH]; intros i Hnd Hi; [done|].
  apply NoDup_cons in Hnd as [Hy Hnd]. cbn. destruct i as [|i]; cbn in Hi.
  - injection Hi as ->. by rewrite String.eqb_refl.
  - destruct (String.eqb_spec y x) as [->|Hne].
    + destruct Hy. by apply list_elem_of_lookup_2 in Hi.
    + by rewrite (IH i Hnd Hi).
Qed.

(** [n] failures in a row: the addresses and waits. *)
Fixpoint failures (rand : nat → Z → Z) (n : nat) (p : Picker) : list (string * Z) * Picker :=
  match n with
  | O => ([], p)
  | S n =>
      let '(a, d, p) := OnFailure (rand 0%nat) p in
      let '(out, p) := failures (λ k, rand (S k)) n p in ((a, d) :: out, p)
  end.

Lemma OnFailure_rotates rand p i :
  NoDup (candidates p) → candidates p !! i = Some (current p) →
  ∃ x, candidates p !! ((i + 1) mod length (candidates p))%nat = Some x ∧
    OnFailure rand p = (x, delayLocked rand (attempt p) (backoff p),
                        mkPicker (candidates p) x (attempt p + 1) (backoff p)).
Proof.
  intros Hnd Hi. pose proof (lookup_lt_Some _ _ _ Hi) as Hlt. unfold OnFailure.
  rewrite (find_index_nodup _ i) by done. change (default 0%nat (Some i)) with i.
  destruct (Nat.eqb_spec (length (candidates p)) 0); [lia|].
  destruct (lookup_lt_is_Some_2 (candidates p) ((i + 1) mod length (candidates p))) as [x Hx].
  { by apply Nat.mod_upper_bound. }
  exists x. by rewrite Hx.
Qed.

Lemma failures_rotate n rand p i k :
  NoDup (candidates p) → candidates p !! i = Some (current p) → (k < n)%nat →
  ∃ x, candidates p !! ((i + 1 + k) mod length (candidates p))%nat = Some x ∧
    (failures rand n p).1 !! k = Some (x, delayLocked (rand k) (attempt p + Z.of_nat k) (backoff p)).
Proof.
  revert rand p i k. induction n as [|n IH]; intros rand p i k Hnd Hi Hk; [lia|].
  destruct (OnFailure_rotates (rand 0%nat) p i Hnd Hi) as (x & Hx & Hf). cbn [failures]. rewrite Hf.
  set (p' := mkPicker _ _ _ _). destruct (failures _ n p') as [out p''] eqn:E. cbn [fst].
  destruct k as [|k].
  { exists x. rewrite Nat.add_0_r, Z.add_0_r. done. }
  destruct (IH (λ k, rand (S k)) p' ((i + 1) mod length (candidates p))%nat k Hnd Hx ltac:(lia)) as (y & Hy & Ho).
  rewrite E in Ho. exists y. cbn [candidates p' attempt backoff fst] in *. split.
  - rewrite <- Hy. f_equal. pose proof (lookup_lt_Some _ _ _ Hi).
    rewrite <- (Nat.add_assoc (_ mod _) 1 k), Nat.Div0.add_mod_idemp_l. by f_equal.
  - etransitivity; [exact Ho|]. do 3 f_equal. lia.
Qed.
End ReselectFacts.

Module ReselectProperties.
Import Reselect ReselectFacts.

(** Reselection rotates and backs off.  With distinct candidates and the default policy,
    after a healthy connection to the i-th candidate the k-th consecutive failure switches
    to candidate i+1+k (cyclically); it waits a random time below five seconds for k = 0
    and otherwise the doubling schedule from one second, capped at sixty, plus such a
    jitter; so any run of as many failures as candidates tries every one of them. *)
Theorem reselect_rotation (rand : nat → Z → Z) (p : Picker) (i n : nat)
    (Hrand : ∀ k, 0 <= rand k (5 * Second) < 5 * Second)
    (Hnd : NoDup (candidates p)) (Hcur : candidates p !! i = Some (current p))
    (Hpolicy : backoff p = NewServerBackoff) :
  let out := (failures rand n (OnSuccess p)).1 in
  (∀ k, (k < n)%nat → ∃ x,
     candidates p !! ((i + 1 + k) mod length (candidates p))%nat = Some x ∧
     out !! k = Some (x, match k with
                         | O => rand 0%nat (5 * Second)
                         | S k' => schedule k' + rand k (5 * Second)
                         end)) ∧
  ((length (candidates p) <= n)%nat → ∀ c, c ∈ candidates p → ∃ d, (c, d) ∈ out).
Proof.
  intros out.
  assert (∀ k, (k < n)%nat → ∃ x,
     candidates p !! ((i + 1 + k) mod length (candidates p))%nat = Some x ∧
     out !! k = Some (x, match k with O => rand 0%nat (5 * Second)
                                 | S k' => schedule k' + rand k (5 * Second) end)) as Hk.
  { intros k Hk. destruct (failures_rotate n rand (OnSuccess p) i k Hnd Hcur Hk) as (x & Hx & Ho).
    exists x. split; [exact Hx|]. unfold out. rewrite Ho. cbn [attempt backoff OnSuccess]. rewrite Hpolicy.
    destruct k as [|k]; [done|]. rewrite delay_default by (lia || done). do 4 f_equal. lia. }
  split; [exact Hk|]. intros Hlen c [j Hj]%list_elem_of_lookup.
  pose proof (lookup_lt_Some _ _ _ Hj) as Hjl. set (L := length (candidates p)) in *.
  destruct (Hk ((j + L - (i + 1) mod L) mod L)%nat) as (x & Hx & Ho).
  { pose proof (Nat.mod_upper_bound (j + L - (i + 1) mod L) L). lia. }
  assert (((i + 1 + (j + L - (i + 1) mod L) mod L) mod L)%nat = j) as E.
  { pose proof (Nat.mod_upper_bound (i + 1) L ltac:(lia)).
    rewrite Nat.Div0.add_mod_idemp_r, <- Nat.Div0.add_mod_idemp_l.
    replace ((i + 1) mod L + (j + L - (i + 1) mod L))%nat with (j + 1 * L)%nat by lia.
    rewrite Nat.Div0.mod_add. by apply Nat.mod_small. }
  rewrite E, Hj in Hx. injection Hx as ->. eexists. by eapply list_elem_of_lookup_2.
Qed.

Lemma reselect_rotation_witness :
  (failures (λ _ _, 7) 4 (OnSuccess (NewPicker ["a"; "b"; "c"]))).1 =
    [("b", 7); ("c", Second + 7); ("a", 2 * Second + 7); ("b", 4 * Second + 7)] ∧
  ∀ c, c ∈ ["a"; "b"; "c"] → ∃ d, (c, d) ∈ (failures (λ _ _, 7) 3 (OnSuccess (NewPicker ["a"; "b"; "c"]))).1.
Proof.
  split; [vm_compute; reflexivity|].
  apply (reselect_rotation (λ _ _, 7) (NewPicker ["a"; "b"; "c"]) 0 3); try done.
  apply (bool_decide_eq_true_1 (NoDup ["a"; "b"; "c"])). reflexivity.
Defined.

(** With a repeated candidate the rotation can lose the ones after the repetition: from "a"
    it alternates between "a" and "b" and never reaches "c". *)
Lemma duplicate_candidate_starves rand n c d :
  (c, d) ∈ (failures rand n (NewPicker ["a"; "b"; "a"; "c"])).1 → c ≠ "c".
Proof.
  assert (∀ n rand p, candidates p = ["a"; "b"; "a"; "c"] → current p = "a" ∨ current p = "b" →
    (c, d) ∈ (failures rand n p).1 → c ≠ "c") as H.
  2:{ intros Hin. apply (H n rand (NewPicker ["a"; "b"; "a"; "c"])); [done|by left|exact Hin]. }
  clear. induction n as [|n IH]; intros rand p Hc Hcur Hin; [inversion Hin|].
  cbn [failures] in Hin. unfold OnFailure in Hin. rewrite Hc in Hin.
  destruct Hcur as [Hcur|Hcur]; rewrite Hcur in Hin; cbn -[delayLocked failures] in Hin;
    destruct (failures _ n _) as [out p'] eqn:E; apply elem_of_cons in Hin as [[= -> _]|Hin]; try done;
    (eapply IH; [| |rewrite E; exact Hin]; [done|cbn; auto]).
Qed.
End ReselectProperties.
