(* ===== verification/Dns.v ===== *)
(** The local DNS proxy (src/internal/dns): the wire codec (msg.go), the resolver for the
    mesh domain (resolver.go) and the handling of one query (proxy.go). *)
From S2P Require Import Prelude GoLib MeshTypes NetAddr NetParse.

Open Scope Z_scope.

Module Dns.
Import NetAddr NetParse.

(** ** The wire codec (msg.go) *)

Definition TypeA : Z := 1.
Definition TypeAAAA : Z := 28.
Definition ClassIN : Z := 1.
Definition rcodeNoError : Z := 0.
Definition rcodeServFail : Z := 2.
Definition rcodeNXDomain : Z := 3.
Definition flagQR : Z := 0x8000.
Definition flagRD : Z := 0x0100.
Definition flagRA : Z := 0x0080.

Record Query := mkQuery {
  ID : Z;
  QName : string;
  QType : Z;
  QClass : Z;
  WantRec : bool;
}.

Inductive dns_error :=
| ErrShort
| ErrQuestions
| ErrNamePastEnd
| ErrTruncatedPointer
| ErrLabelType
| ErrLabelPastEnd
| ErrTruncatedQuestion.

Definition join (labels : list (list byte)) : list byte := join_with dot labels.

(** [pkt[off : off+n]]. *)
Definition slice (pkt : list byte) (off n : nat) : list byte := take n (drop off pkt).

(** [decodeName]: one unit of fuel per round of the loop and per recursive call; [None] means
    it is still running. *)
Fixpoint decodeName (fuel : nat) (pkt : list byte) (off : nat) (labels : list (list byte)) :
    option (outcome dns_error (list byte * nat)) :=
  match fuel with
  | O => None
  | S fuel =>
      match pkt !! off with
      | None => Some (Fail ErrNamePastEnd)
      | Some c =>
          let l := bZ c in
          if l =? 0 then Some (Ret (join labels, (off + 1)%nat))
          else if Z.land l 0xC0 =? 0xC0 then
            if (length pkt <=? off + 1)%nat then Some (Fail ErrTruncatedPointer)
            else
              let ptr := Z.to_nat (Z.land (be_get (slice pkt off 2)) 0x3FFF) in
              match decodeName fuel pkt ptr [] with
              | None => None
              | Some (Ret (tail, _)) => Some (Ret (join (labels ++ [tail]), (off + 2)%nat))
              | Some (Fail e) => Some (Fail e)
              | Some Panic => Some Panic
              end
          else if negb (Z.land l 0xC0 =? 0) then Some (Fail ErrLabelType)
          else
            let off := (off + 1)%nat in
            let n := Z.to_nat l in
            if (length pkt <? off + n)%nat then Some (Fail ErrLabelPastEnd)
            else decodeName fuel pkt (off + n) (labels ++ [slice pkt off n])
      end
  end.

Definition ParseQuery (fuel : nat) (pkt : list byte) : option (outcome dns_error Query) :=
  if (length pkt <? 12)%nat then Some (Fail ErrShort)
  else if negb (be_get (slice pkt 4 2) =? 1) then Some (Fail ErrQuestions)
  else
    match decodeName fuel pkt 12 [] with
    | None => None
    | Some (Fail e) => Some (Fail e)
    | Some Panic => Some Panic
    | Some (Ret (name, off)) =>
        if (length pkt <? off + 4)%nat then Some (Fail ErrTruncatedQuestion)
        else Some (Ret (mkQuery (be_get (slice pkt 0 2)) (string_of name)
               (be_get (slice pkt off 2)) (be_get (slice pkt (off + 2) 2))
               (negb (Z.land (be_get (slice pkt 2 2)) flagRD =? 0))))
    end.

(** [strings.Split(name, ".")]; [byte(len(label))] keeps the low eight bits. *)
Definition encodeName (name : string) : list byte :=
  if String.eqb name "" then [x00]
  else concat (map (λ label, Zb (Z.of_nat (length label)) :: label) (split_on dot [] (bytes_of name))) ++ [x00].

(** The addresses of the question's family. *)
Definition answers_of (q : Query) (ips : list (list byte)) : list (list byte) :=
  omap (λ ip, match To16 ip with
              | None => None
              | Some ip =>
                  match To4 ip with
                  | Some ip4 => if QType q =? TypeA then Some ip4 else None
                  | None => if QType q =? TypeAAAA then Some ip else None
                  end
              end) ips.

Definition record (q : Query) (rdlen : Z) (ip : list byte) : list byte :=
  [xc0; x0c] ++ be_put 2 (QType q) ++ be_put 2 ClassIN ++ be_put 4 60 ++ be_put 2 rdlen ++ ip.

Definition question (q : Query) : list byte :=
  encodeName (QName q) ++ be_put 2 (QType q) ++ be_put 2 (QClass q).

(** [None] is the nil slice. *)
Definition BuildReply (q : Query) (ips : option (list (list byte))) : list byte :=
  let rcode := match ips with None => rcodeNXDomain | Some _ => rcodeNoError end in
  let answers := match ips with None => [] | Some l => answers_of q l end in
  let rdlen := if QType q =? TypeAAAA then 16 else 4 in
  let flags := Z.lor (Z.lor flagQR flagRA) rcode in
  let flags := if WantRec q then Z.lor flags flagRD else flags in
  let hdr := be_put 2 (ID q) ++ be_put 2 flags ++ be_put 2 1 ++
             be_put 2 (Z.of_nat (length answers)) ++ replicate 4 x00 in
  hdr ++ question q ++ concat (map (record q rdlen) answers).

Definition BuildServFail (q : Query) : list byte :=
  let flags := Z.lor flagQR rcodeServFail in
  let hdr := be_put 2 (ID q) ++ be_put 2 flags ++ replicate 8 x00 in
  hdr ++ question q.

(** ** The resolver (resolver.go) *)

Definition TLD : string := ".xiaolangze".

(** [View.Lookup], [Upstream.LookupIP] (addresses or the text of the error), and
    [strconv.Quote] behind the format verb "q". *)
Class DnsEnv := {
  Lookup : string → option (string * string);
  LookupIP : string → option (list (list byte)) + string;
  Quote : string → string;
}.

Section Resolver.
Context `{GoUnicode} `{DnsEnv}.

Definition canonicalName (name : string) : string :=
  ToLower (string_of (trim_suffix (bytes_of ".") (bytes_of name))).

(** The upstream queries made, and the addresses or the text of the error. *)
Definition Resolve (name : string) : list string * (option (list (list byte)) + string) :=
  let host := canonicalName name in
  if negb (has_suffix (bytes_of TLD) (bytes_of host)) then ([host], LookupIP host)
  else
    let label := string_of (trim_suffix (bytes_of TLD) (bytes_of host)) in
    if String.eqb label "" || contains (bytes_of ".") (bytes_of label) then
      ([], inr (host +:+ ": not a node name (want <node-id>" +:+ TLD +:+ ")"))
    else
      match Lookup label with
      | None => ([], inr (host +:+ ": node " +:+ Quote label +:+ " not known (or not in this room)"))
      | Some (ipv6, ipv4) =>
          let out := (match ParseIP ipv6 with Some ip => [ip] | None => [] end) ++
                     (match ParseIP ipv4 with Some ip => [ip] | None => [] end) in
          if (length out =? 0)%nat then ([], inr (host +:+ ": node " +:+ Quote label +:+ " has no address"))
          else ([], inl (Some out))
      end.

(** ** One query (proxy.go) *)

Definition containsAny (s : list byte) (subs : list (list byte)) : bool :=
  existsb (λ sub,
    (0 <? length sub)%nat && (length sub <=? length s)%nat &&
    existsb (λ i, bool_decide (slice s i (length sub) = sub)) (seq 0 (length s - length sub + 1))) subs.

Definition isNXDomainErr (msg : string) : bool :=
  containsAny (bytes_of msg) [bytes_of "not known (or not in this room)"; bytes_of "not a node name"].

(** The upstream queries and the reply, if any; [None] means the parser is still running. *)
Definition handle (fuel : nat) (pkt : list byte) : option (list string * option (list byte)) :=
  match ParseQuery fuel pkt with
  | None => None
  | Some (Ret q) =>
      let '(ups, r) := Resolve (QName q) in
      Some (ups, Some match r with
                      | inr e => if isNXDomainErr e then BuildReply q None else BuildServFail q
                      | inl ips => BuildReply q ips
                      end)
  | Some _ => Some ([], None)
  end.
End Resolver.

End Dns.

Module DnsFacts.
Import NetAddr NetParse Dns.

(** ** Names on the wire *)

Lemma split_on_nonempty sep cur l : split_on sep cur l ≠ [].
Proof. revert cur. induction l as [|b l IH]; intros cur; cbn; [done|]. by destruct (bool_decide _). Qed.

Lemma join_split sep cur l : join_with sep (split_on sep cur l) = cur ++ l.
Proof.
  revert cur. induction l as [|b l IH]; intros cur; cbn [split_on]; [by rewrite app_nil_r|].
  destruct (bool_decide_reflect (b = sep)) as [->|Hne].
  - destruct (split_on sep [] l) as [|p ps] eqn:E; [by apply split_on_nonempty in E|].
    change (cur ++ sep :: join_with sep (p :: ps) = cur ++ sep :: l). by rewrite <- E, IH.
  - rewrite IH, <- app_assoc. done.
Qed.

Definition good_label (l : list byte) : Prop := (1 <= length l <= 63)%nat.

(** The names that survive the wire: empty, or labels of one to sixty-three bytes. *)
Definition good_name (name : string) : Prop :=
  name = "" ∨ Forall good_label (split_on dot [] (bytes_of name)).

Definition wire (ls : list (list byte)) : list byte :=
  concat (map (λ label, Zb (Z.of_nat (length label)) :: label) ls) ++ [x00].

Lemma label_byte l :
  good_label l → bZ (Zb (Z.of_nat (length l))) = Z.of_nat (length l) ∧
  Z.land (Z.of_nat (length l)) 0xC0 = 0 ∧ Z.of_nat (length l) ≠ 0.
Proof.
  intros Hl. unfold good_label in Hl. split; [apply bZ_Zb_small; lia|]. split; [|lia].
  apply Z.bits_inj_0. intros i. rewrite Z.land_spec. destruct (Z.ltb_spec i 0) as [Hi|Hi].
  { by rewrite Z.testbit_neg_r. }
  destruct (Z.ltb_spec i 6) as [Hi6|Hi6].
  - assert (Z.testbit 192 i = false) as ->; [|by rewrite andb_false_r].
    assert (i = 0 ∨ i = 1 ∨ i = 2 ∨ i = 3 ∨ i = 4 ∨ i = 5) as Hc by lia.
    by destruct Hc as [->|[->|[->|[->|[->| ->]]]]].
  - rewrite Z.bits_above_log2; [done|lia|].
    assert (Z.of_nat (length l) < 2 ^ 6) as Hlt by lia. apply Z.log2_lt_pow2 in Hlt; lia.
Qed.

Lemma slice_mid pre mid post : slice (pre ++ mid ++ post) (length pre) (length mid) = mid.
Proof. unfold slice. by rewrite drop_app_length, take_app_length. Qed.

Lemma slice_field pre z post off :
  length pre = off → 0 <= z < 65536 → be_get (slice (pre ++ be_put 2 z ++ post) off 2) = z.
Proof.
  intros <- Hz. rewrite <- (length_be_put 2 z) at 2. rewrite slice_mid, be_get_put. by apply Z.mod_small.
Qed.

(** Decoding the wire form of good labels, anywhere in a packet. *)
Lemma decode_wire ls pre post acc fuel :
  Forall good_label ls → (length ls < fuel)%nat →
  decodeName fuel (pre ++ wire ls ++ post) (length pre) acc =
  Some (Ret (join (acc ++ ls), (length pre + length (wire ls))%nat)).
Proof.
  intros Hls. revert pre acc fuel. induction Hls as [|l ls Hl Hls IH]; intros pre acc [|fuel] Hf; try lia.
  { change (wire [] ++ post) with (x00 :: post). cbn [decodeName].
    rewrite list_lookup_middle by done. cbn. by rewrite app_nil_r. }
  destruct (label_byte l Hl) as (Hb & Hland & Hne). set (c := Zb (Z.of_nat (length l))) in *.
  assert (Hw : wire (l :: ls) = c :: l ++ wire ls) by (unfold wire; cbn; by rewrite <- app_assoc).
  rewrite Hw. cbn [decodeName app]. rewrite list_lookup_middle by done. rewrite Hb, Hland.
  destruct (Z.eqb_spec (Z.of_nat (length l)) 0); [lia|]. cbn [Z.eqb negb].
  rewrite Nat2Z.id. set (pre' := pre ++ c :: l).
  assert (Hp : pre ++ c :: (l ++ wire ls) ++ post = pre' ++ wire ls ++ post).
  { unfold pre'. by rewrite <- !app_assoc. }
  assert (Hlen : (length pre + 1 + length l = length pre')%nat) by (unfold pre'; rewrite length_app; cbn; lia).
  assert (Hsl : slice (pre ++ c :: (l ++ wire ls) ++ post) (length pre + 1) (length l) = l).
  { pose proof (slice_mid (pre ++ [c]) l (wire ls ++ post)) as E. rewrite length_app in E. cbn in E.
    rewrite <- !app_assoc in E. rewrite <- !app_assoc. exact E. }
  rewrite Hsl, Hp, Hlen. destruct (Nat.ltb_spec (length (pre' ++ wire ls ++ post)) (length pre')) as [Hlt|_].
  { rewrite length_app in Hlt. lia. }
  rewrite IH by (cbn in Hf; lia). rewrite <- app_assoc. do 3 f_equal.
  cbn [length app]. rewrite length_app. lia.
Qed.

Lemma encodeName_wire name :
  name ≠ "" → encodeName name = wire (split_on dot [] (bytes_of name)).
Proof. intros Hn. unfold encodeName. by destruct (String.eqb_spec name ""). Qed.

Lemma decode_encode name pre post fuel :
  good_name name → (String.length name + 1 < fuel)%nat →
  decodeName fuel (pre ++ encodeName name ++ post) (length pre) [] =
  Some (Ret (bytes_of name, (length pre + length (encodeName name))%nat)).
Proof.
  intros Hn Hf. destruct (decide (name = "")) as [->|Hne].
  { apply (decode_wire [] pre post []); [constructor|cbn; lia]. }
  destruct Hn as [?|Hls]; [done|]. rewrite encodeName_wire by done. rewrite decode_wire; [|done|].
  - unfold join. rewrite app_nil_l, join_split. done.
  - assert (∀ l cur, length (split_on dot cur l) <= length l + 1)%nat as Hs.
    { induction l as [|b l IHl]; intros cur; cbn; [lia|]. destruct (bool_decide _); cbn.
      - pose proof (IHl []). lia.
      - pose proof (IHl (cur ++ [b])). lia. }
    pose proof (Hs (bytes_of name) []) as Hs'. rewrite length_bytes_of in Hs'. lia.
Qed.

(** ** Replies *)

Definition wf_query (q : Query) : Prop :=
  0 <= ID q < 65536 ∧ 0 <= QType q < 65536 ∧ 0 <= QClass q < 65536 ∧ good_name (QName q).

(** The header fields of a datagram and its question. *)
Lemma ParseQuery_parts q flags an rest fuel :
  wf_query q → (String.length (QName q) + 1 < fuel)%nat → 0 <= flags < 65536 → length an = 6%nat →
  ParseQuery fuel (be_put 2 (ID q) ++ be_put 2 flags ++ be_put 2 1 ++ an ++ question q ++ rest) =
  Some (Ret (mkQuery (ID q) (QName q) (QType q) (QClass q) (negb (Z.land flags flagRD =? 0)))).
Proof.
  intros (Hid & Hty & Hcl & Hname) Hf Hfl Han.
  set (hdr := be_put 2 (ID q) ++ be_put 2 flags ++ be_put 2 1 ++ an).
  assert (Hh : length hdr = 12%nat) by (unfold hdr; rewrite !length_app, !length_be_put; lia).
  set (tail := be_put 2 (QType q) ++ be_put 2 (QClass q) ++ rest).
  assert (Heq : be_put 2 (ID q) ++ be_put 2 flags ++ be_put 2 1 ++ an ++ question q ++ rest =
                hdr ++ encodeName (QName q) ++ tail).
  { unfold hdr, tail, question. by rewrite <- !app_assoc. }
  rewrite Heq. unfold ParseQuery.
  destruct (Nat.ltb_spec (length (hdr ++ encodeName (QName q) ++ tail)) 12) as [Hlt|_].
  { rewrite length_app in Hlt. lia. }
  set (pkt := hdr ++ encodeName (QName q) ++ tail).
  assert (Hpkt : pkt = be_put 2 (ID q) ++ be_put 2 flags ++ be_put 2 1 ++ an ++ encodeName (QName q) ++ tail).
  { unfold pkt, hdr. by rewrite <- !app_assoc. }
  assert (be_get (slice pkt 4 2) = 1) as ->.
  { rewrite Hpkt, app_assoc. apply slice_field; [by rewrite length_app, !length_be_put|lia]. }
  assert (be_get (slice pkt 0 2) = ID q) as -> by (rewrite Hpkt; by apply (slice_field [])).
  assert (be_get (slice pkt 2 2) = flags) as ->.
  { rewrite Hpkt. apply slice_field; [by rewrite length_be_put|lia]. }
  cbn [Z.eqb negb]. rewrite <- Hh. unfold pkt. rewrite decode_encode by done. rewrite Hh.
  set (off := (12 + length (encodeName (QName q)))%nat).
  assert (length (hdr ++ encodeName (QName q)) = off) as Hoff by (rewrite length_app; lia).
  destruct (Nat.ltb_spec (length (hdr ++ encodeName (QName q) ++ tail)) (off + 4)) as [Hlt|_].
  { unfold tail in Hlt. rewrite !length_app, !length_be_put in Hlt. lia. }
  rewrite string_of_bytes_of. do 3 f_equal.
  - rewrite app_assoc. unfold tail. by apply slice_field.
  - rewrite app_assoc. unfold tail. rewrite app_assoc. apply slice_field; [|done].
    rewrite length_app, length_be_put. lia.
Qed.

Lemma reply_flags (q : Query) (rcode : Z) :
  rcode = rcodeNoError ∨ rcode = rcodeNXDomain →
  let flags := Z.lor (Z.lor flagQR flagRA) rcode in
  let flags := if WantRec q then Z.lor flags flagRD else flags in
  0 <= flags < 65536 ∧ negb (Z.land flags flagRD =? 0) = WantRec q ∧
  Z.testbit flags 15 = true ∧ Z.land flags 15 = rcode.
Proof. intros [-> | ->]; by destruct (WantRec q). Qed.

(** Every answer is one of the addresses, in the form of the question's family. *)
Lemma answers_family q ips a :
  a ∈ answers_of q ips →
  (QType q = TypeA ∧ length a = 4%nat ∧ ∃ ip, ip ∈ ips ∧ To16 ip = Some (mapped_prefix ++ a)) ∨
  (QType q = TypeAAAA ∧ length a = 16%nat ∧ To4 a = None ∧ ∃ ip, ip ∈ ips ∧ To16 ip = Some a).
Proof.
  unfold answers_of. rewrite list_elem_of_omap. intros (ip & Hip & H).
  destruct (To16 ip) as [ip16|] eqn:E16; [|done].
  assert (length ip16 = 16%nat) as Hl.
  { unfold To16 in E16. destruct (Nat.eqb_spec (length ip) 4); [|destruct (Nat.eqb_spec (length ip) 16); [|done]].
    - apply (inj Some) in E16. subst ip16. rewrite length_app. cbn. lia.
    - by injection E16 as <-. }
  destruct (To4 ip16) as [ip4|] eqn:E4.
  - destruct (Z.eqb_spec (QType q) TypeA); [|done]. injection H as <-. left.
    unfold To4 in E4. rewrite Hl in E4. cbn [Nat.eqb andb] in E4. destruct (has_prefix mapped_prefix ip16) eqn:Hp; [|done].
    injection E4 as <-. apply has_prefix_split in Hp. split_and!; [done|rewrite length_drop; lia|].
    exists ip. split; [done|]. by rewrite E16, Hp.
  - destruct (Z.eqb_spec (QType q) TypeAAAA); [|done]. injection H as <-. right.
    split_and!; try done. by exists ip.
Qed.

(** ** Termination *)

Lemma decode_pointer_free fuel pkt off labels :
  (∀ c, c ∈ pkt → bZ c < 192) → (length pkt - off < fuel)%nat →
  is_Some (decodeName fuel pkt off labels).
Proof.
  intros Hfree. revert off labels. induction fuel as [|fuel IH]; intros off labels Hf; [lia|].
  cbn [decodeName]. destruct (pkt !! off) as [c|] eqn:Hc; [|done].
  pose proof (lookup_lt_Some _ _ _ Hc). pose proof (Hfree c (list_elem_of_lookup_2 _ _ _ Hc)) as Hlt.
  destruct (Z.eqb_spec (bZ c) 0); [done|].
  assert (Z.land (bZ c) 192 ≠ 192) as Hnp.
  { pose proof (byte_check (λ c, negb (Z.land (bZ c) 192 =? 192) || (192 <=? bZ c)) eq_refl c) as Hb.
    cbn beta in Hb. intros E. rewrite E in Hb. cbn in Hb. apply Z.leb_le in Hb. lia. }
  destruct (Z.eqb_spec (Z.land (bZ c) 192) 192); [done|]. destruct (negb _); [done|].
  destruct (_ <? _)%nat; [done|]. apply IH. pose proof (bZ_range c). lia.
Qed.

(** A name that starts with a pointer to itself. *)
Lemma decode_self_pointer fuel hdr rest labels :
  length hdr = 12%nat → decodeName fuel (hdr ++ [xc0; x0c] ++ rest) 12 labels = None.
Proof.
  intros Hh. revert labels. induction fuel as [|fuel IH]; intros labels; [done|].
  cbn [decodeName]. rewrite <- Hh at 1. cbn [app]. rewrite list_lookup_middle by done.
  change (bZ xc0 =? 0) with false. change (Z.land (bZ xc0) 192 =? 192) with true. cbv iota.
  destruct (Nat.leb_spec (length (hdr ++ xc0 :: x0c :: rest)) (12 + 1)) as [Hle|_].
  { rewrite length_app in Hle. cbn in Hle. lia. }
  assert (slice (hdr ++ xc0 :: x0c :: rest) 12 2 = [xc0; x0c]) as ->.
  { rewrite <- Hh. exact (slice_mid hdr [xc0; x0c] rest). }
  change (Z.to_nat (Z.land (be_get [xc0; x0c]) 16383)) with 12%nat.
  specialize (IH []). cbn [app] in IH. by rewrite IH.
Qed.

(** ** Error texts *)

Lemma containsAny_mid a sub b subs :
  sub ∈ subs → sub ≠ [] → containsAny (a ++ sub ++ b) subs = true.
Proof.
  intros Hin Hne. unfold containsAny. apply existsb_exists. exists sub.
  split; [by apply list_elem_of_In|]. rewrite !andb_true_iff.
  assert (length sub ≠ 0)%nat by (by destruct sub). rewrite !length_app. split_and!.
  - apply Nat.ltb_lt. lia.
  - apply Nat.leb_le. lia.
  - apply existsb_exists. exists (length a). split; [apply in_seq; lia|].
    apply bool_decide_eq_true_2, slice_mid.
Qed.

Lemma nx_not_node host : isNXDomainErr (host +:+ ": not a node name (want <node-id>" +:+ TLD +:+ ")") = true.
Proof.
  unfold isNXDomainErr. rewrite bytes_of_app, bytes_of_app.
  change (bytes_of ": not a node name (want <node-id>") with
    (bytes_of ": " ++ bytes_of "not a node name" ++ bytes_of " (want <node-id>").
  rewrite <- !app_assoc, app_assoc. apply containsAny_mid; [|done]. apply elem_of_cons. right.
  by apply list_elem_of_singleton.
Qed.

Lemma nx_not_known host quoted :
  isNXDomainErr (host +:+ ": node " +:+ quoted +:+ " not known (or not in this room)") = true.
Proof.
  unfold isNXDomainErr. rewrite !bytes_of_app.
  change (bytes_of " not known (or not in this room)") with
    (bytes_of " " ++ bytes_of "not known (or not in this room)" ++ []).
  rewrite !app_assoc, <- (app_assoc _ _ []). apply containsAny_mid; [|done]. apply list_elem_of_here.
Qed.
End DnsFacts.

Module DnsProperties.
Import NetAddr NetParse Dns DnsFacts.

(** A reply echoes its query.  For every query whose fields are 16-bit and whose name has
    labels of 1 to 63 bytes, parsing the reply gives back exactly that query (identifier,
    name, type, class and recursion flag); the reply is marked as a response with code
    NXDOMAIN exactly when there is no address list; and after the question come one record
    per answer, each carrying one of the given addresses in the family asked for. *)
Theorem reply_echoes_query (q : Query) (ips : option (list (list byte))) (fuel : nat)
    (Hq : wf_query q) (Hfuel : (String.length (QName q) + 1 < fuel)%nat) :
  let answers := match ips with None => [] | Some l => answers_of q l end in
  let reply := BuildReply q ips in
  let off := (12 + length (question q))%nat in
  ParseQuery fuel reply = Some (Ret q) ∧
  Z.testbit (be_get (slice reply 2 2)) 15 = true ∧
  Z.land (be_get (slice reply 2 2)) 15 = (match ips with None => 3 | Some _ => 0 end) ∧
  be_get (slice reply 6 2) = Z.of_nat (length answers) mod 65536 ∧
  drop off reply = concat (map (record q (if QType q =? TypeAAAA then 16 else 4)) answers) ∧
  Forall (λ a, Z.of_nat (length a) = if QType q =? TypeAAAA then 16 else 4) answers.
Proof.
  intros answers reply off.
  destruct (reply_flags q (match ips with None => rcodeNXDomain | Some _ => rcodeNoError end)) as (Hr & Hrd & Hqr & Hrc).
  { destruct ips; auto. }
  set (flags := if WantRec q then _ else _) in *. set (an := be_put 2 (Z.of_nat (length answers)) ++ replicate 4 x00).
  set (recs := concat (map (record q (if QType q =? TypeAAAA then 16 else 4)) answers)).
  assert (reply = be_put 2 (ID q) ++ be_put 2 flags ++ be_put 2 1 ++ an ++ question q ++ recs) as Hrep.
  { unfold reply, BuildReply. fold answers. unfold an, recs. rewrite <- !app_assoc. by destruct ips. }
  assert (be_get (slice reply 2 2) = flags) as Hfl.
  { rewrite Hrep. apply slice_field; [by rewrite length_be_put|lia]. }
  rewrite Hfl. split_and!; [|done|by destruct ips|..].
  - rewrite Hrep, ParseQuery_parts by done. rewrite Hrd. by destruct q.
  - rewrite Hrep. unfold an. rewrite !app_assoc, <- (app_assoc _ (be_put 2 (Z.of_nat _))), <- !app_assoc.
    rewrite (app_assoc (be_put 2 (ID q))), (app_assoc (be_put 2 (ID q) ++ _)).
    replace 6%nat with (length ((be_put 2 (ID q) ++ be_put 2 flags) ++ be_put 2 1)) by (by rewrite !length_app, !length_be_put).
    rewrite <- (length_be_put 2 (Z.of_nat (length answers))) at 2. rewrite slice_mid. apply be_get_put.
  - rewrite Hrep, !app_assoc. apply drop_app_length'. unfold an, off.
    rewrite !length_app, !length_be_put, length_replicate. lia.
  - unfold answers. destruct ips as [l|]; [|constructor]. apply Forall_forall. intros a Ha.
    destruct (answers_family q l a Ha) as [(-> & -> & _)|(-> & -> & _)]; done.
Qed.

Definition sample_query : Query := mkQuery 0x1234 "n1.xiaolangze" TypeA ClassIN true.

Lemma reply_echoes_query_witness :
  ParseQuery 20 (BuildReply sample_query (Some [[x0a; x00; x00; x01]])) = Some (Ret sample_query).
Proof.
  apply (reply_echoes_query sample_query (Some [[x0a; x00; x00; x01]]) 20).
  - split_and!; [done..|]. right. vm_compute. repeat constructor.
  - cbn. lia.
Defined.

(** C30: How the proxy treats a query.  A datagram that does not parse gets no answer and
    causes no lookup.  A name under the mesh domain is never sent upstream: it is answered
    from the view when it is one known label with an address, and with NXDOMAIN when it is
    not exactly one label or the node is unknown.  Every other name is looked up upstream,
    once, by its canonical form, and a successful answer is passed on. *)
Theorem proxy_answers `{GoUnicode} `{DnsEnv} (fuel : nat) (pkt : list byte) :
  match ParseQuery fuel pkt with
  | None => handle fuel pkt = None
  | Some (Ret q) =>
      ∃ ups reply, handle fuel pkt = Some (ups, Some reply) ∧
      let host := canonicalName (QName q) in
      (∀ label, bytes_of host = bytes_of label ++ bytes_of TLD →
         ups = [] ∧
         (label = "" ∨ contains (bytes_of ".") (bytes_of label) = true ∨ Lookup label = None →
            reply = BuildReply q None) ∧
         (label ≠ "" → contains (bytes_of ".") (bytes_of label) = false →
          ∀ ipv6 ipv4, Lookup label = Some (ipv6, ipv4) →
          let out := option_list (ParseIP ipv6) ++ option_list (ParseIP ipv4) in
          out ≠ [] → reply = BuildReply q (Some out))) ∧
      ((∀ label, bytes_of host ≠ bytes_of label ++ bytes_of TLD) →
         ups = [host] ∧ ∀ ips, LookupIP host = inl ips → reply = BuildReply q ips)
  | Some _ => handle fuel pkt = Some ([], None)
  end.
Proof.
  unfold handle. destruct (ParseQuery fuel pkt) as [[q|e|]|]; try done.
  destruct (Resolve (QName q)) as [ups r] eqn:Hr. eexists ups, _. split; [reflexivity|].
  cbv zeta. unfold Resolve in Hr. set (host := canonicalName (QName q)) in *. split.
  - intros label Hlabel. rewrite Hlabel, has_suffix_app, trim_suffix_app, string_of_bytes_of in Hr.
    cbn [negb] in Hr. destruct (String.eqb_spec label "" ) as [Hl|Hl]; cbn [orb] in Hr.
    { injection Hr as <- <-. rewrite nx_not_node. split_and!; done. }
    destruct (contains (bytes_of ".") (bytes_of label)) eqn:Hc.
    { injection Hr as <- <-. rewrite nx_not_node. split_and!; done. }
    destruct (Lookup label) as [[ipv6 ipv4]|].
    2:{ injection Hr as <- <-. rewrite nx_not_known. split_and!; done. }
    split_and!; [|by intros [?|[?|?]]|].
    { by destruct (_ =? 0)%nat; injection Hr as <- <-. }
    intros _ _ v6 v4 [= -> ->] Hout. set (out := option_list _ ++ option_list _) in *.
    assert (out = match ParseIP v6 with Some ip => [ip] | None => [] end ++
                  match ParseIP v4 with Some ip => [ip] | None => [] end) as Eo.
    { unfold out. by destruct (ParseIP v6), (ParseIP v4). }
    rewrite <- Eo in Hr. destruct (Nat.eqb_spec (length out) 0); [by destruct out|].
    by injection Hr as <- <-.
  - intros Hno. destruct (has_suffix (bytes_of TLD) (bytes_of host)) eqn:Hs.
    { apply has_suffix_true in Hs. destruct (Hno (string_of (trim_suffix (bytes_of TLD) (bytes_of host)))).
      by rewrite bytes_of_string_of. }
    injection Hr as <- <-. split; [done|]. by intros ips ->.
Qed.

(** C37: When parsing ends.  On a datagram without bytes of 192 and above the name decoder
    ends within as many rounds as the datagram has bytes, plus one.  On a datagram with one
    question whose name is a compression pointer to itself it never ends, whatever the
    fuel: the decoder recurses on the same offset forever, and the query is never
    answered. *)
Theorem parse_termination `{GoUnicode} `{DnsEnv} (pkt hdr rest : list byte) (fuel : nat) :
  ((∀ c, c ∈ pkt → bZ c < 192) → is_Some (ParseQuery (length pkt + 1) pkt)) ∧
  (length hdr = 12%nat → be_get (slice hdr 4 2) = 1 →
   ParseQuery fuel (hdr ++ [xc0; x0c] ++ rest) = None ∧
   handle fuel (hdr ++ [xc0; x0c] ++ rest) = None).
Proof.
  split.
  - intros Hfree. unfold ParseQuery. destruct (_ <? _)%nat; [done|]. destruct (negb _); [done|].
    destruct (decode_pointer_free (length pkt + 1) pkt 12 [] Hfree) as [r ->]; [lia|].
    destruct r as [[name off]|e|]; [|done..]. by destruct (_ <? _)%nat.
  - intros Hh Hqd. assert (ParseQuery fuel (hdr ++ [xc0; x0c] ++ rest) = None) as Hp.
    2:{ split; [exact Hp|]. unfold handle. by rewrite Hp. }
    unfold ParseQuery. destruct (Nat.ltb_spec (length (hdr ++ [xc0; x0c] ++ rest)) 12) as [Hlt|_].
    { rewrite length_app in Hlt. lia. }
    assert (slice (hdr ++ [xc0; x0c] ++ rest) 4 2 = slice hdr 4 2) as ->.
    { unfold slice. rewrite drop_app_le, take_app_le by (rewrite ?length_drop; lia). done. }
    rewrite Hqd, decode_self_pointer by done. done.
Qed.
End DnsProperties.
