(* ===== verification/HolePunch.v ===== *)
(** Hole punching (src/internal/holepunch): the candidate order of rule R1 (priority.go), the
    strategy ladder (matrix.go) and the counters (engine.go). *)
From S2P Require Export Prelude GoLib GoFloat MeshTypes.
From stdpp Require Import strings list pretty.

Local Open Scope Z_scope.

Module HolePunch.

(** ** Peers and results (engine.go) *)

Record PeerInfo := mkPeer {
  NodeID : string;
  pRoomID : RoomID;
  JoinedAt : Z;
  IPv6 : string;
  PublicAddr : string;
  NATType : string;
  PredictRange : Z * Z;
}.

Inductive Strategy :=
| StrategyIPv6Direct
| StrategyUDPStandard
| StrategyUDPPredict
| StrategyTCPSimultaneous
| StrategyTURNRelay.

#[export] Instance Strategy_eq_dec : EqDecision Strategy.
Proof. solve_decision. Defined.

Inductive punch_error :=
| ErrNet
| ErrPredictRange (lo hi : Z)
| ErrUnknownStrategy (s : Strategy)
| ErrAllFailed (nodeID : string)
| ErrNotImplemented.

Record PunchResult := mkResult {
  rStrategy : Strategy;
  Success : bool;
  LocalAddr : string;
  RemoteAddr : string;
  Error : option punch_error;
}.

Record PunchStats := mkStats {
  SameRoomAttempted : Z;
  SameRoomSucceeded : Z;
  OtherRoomAttempted : Z;
  OtherRoomSucceeded : Z;
}.

Definition SuccessRate (s : PunchStats) : float64 :=
  if SameRoomAttempted s =? 0 then f_of_int 0
  else fdiv (f_of_int (SameRoomSucceeded s)) (f_of_int (SameRoomAttempted s)).

Definition OtherRoomAttemptRate (s : PunchStats) : float64 :=
  let total := SameRoomAttempted s + OtherRoomAttempted s in
  if total =? 0 then f_of_int 0 else fdiv (f_of_int (OtherRoomAttempted s)) (f_of_int total).

(** ** Rule R1 (priority.go) *)

Definition isSameRoom (p : PeerInfo) (room : RoomID) : bool :=
  negb (String.eqb room "") && String.eqb (pRoomID p) room.

(** The comparison given to [sort.SliceStable]. *)
Definition peer_less (currentRoom : RoomID) (a b : PeerInfo) : bool :=
  let aSame := isSameRoom a currentRoom in
  let bSame := isSameRoom b currentRoom in
  if negb (Bool.eqb aSame bSame) then aSame
  else if negb (JoinedAt a =? JoinedAt b) then JoinedAt a <? JoinedAt b
  else str_less (NodeID a) (NodeID b).

(** The loop that caps the out-of-room candidates; [n] have been let through. *)
Fixpoint cap_loop (currentRoom : RoomID) (maxOutOfRoom n : Z) (l : list PeerInfo) : list PeerInfo :=
  match l with
  | [] => []
  | p :: l =>
      if negb (isSameRoom p currentRoom) then
        if maxOutOfRoom <=? n then cap_loop currentRoom maxOutOfRoom n l
        else p :: cap_loop currentRoom maxOutOfRoom (n + 1) l
      else p :: cap_loop currentRoom maxOutOfRoom n l
  end.

Definition SelectPeers (candidates : list PeerInfo) (currentRoom : RoomID) (maxOutOfRoom : Z) : list PeerInfo :=
  let ordered := isort (peer_less currentRoom) candidates in
  if maxOutOfRoom <=? 0 then ordered else cap_loop currentRoom maxOutOfRoom 0 ordered.

Definition PartitionByRoom (candidates : list PeerInfo) (currentRoom : RoomID) : list PeerInfo * list PeerInfo :=
  let l := SelectPeers candidates currentRoom 0 in
  (List.filter (λ p, isSameRoom p currentRoom) l, List.filter (λ p, negb (isSameRoom p currentRoom)) l).

Definition ShouldAttemptOutOfRoom (sameRoomEstablished sameRoomTarget : Z) : bool :=
  if sameRoomTarget <=? 0 then true else sameRoomTarget <=? sameRoomEstablished.

(** ** The ladder (matrix.go) *)

Record StrategyMatrix := mkMatrix {
  timeout : Z;
  parallelBudget : Z;
}.

Definition NewStrategyMatrix (timeout parallelBudget : Z) : StrategyMatrix :=
  mkMatrix (if timeout <=? 0 then 3 * Second else timeout)
    (if parallelBudget <=? 0 then 64 else parallelBudget).

(** What the network answers: a dial or a bound socket gives the local and the remote
    address; a probe can be written; a read gives the sender. *)
Class PunchNet := {
  DialTimeout : string → string → option (string * string);
  ListenUDP : option string;
  ResolveUDPAddr : string → option (string * Z);
  write_ok : Strategy → bool;
  read_from : Strategy → option string;
}.

(** What a strategy does to the network. *)
Inductive action :=
| Dial (network addr : string)
| Probe (ip : string) (port : Z)
| ProbeConn (addr : string).

Section Ladder.
Context `{PunchNet}.

Definition failed (s : Strategy) (e : punch_error) : PunchResult := mkResult s false "" "" (Some e).
Definition punched (s : Strategy) (l r : string) : PunchResult := mkResult s true l r None.

Definition tryIPv6Direct (target : PeerInfo) : list action * PunchResult :=
  let s := StrategyIPv6Direct in
  let addr := "[" +:+ IPv6 target +:+ "]:" +:+ pretty 29683%Z in
  match DialTimeout "udp" addr with
  | None => ([Dial "udp" addr], failed s ErrNet)
  | Some (l, r) =>
      if negb (write_ok s) then ([Dial "udp" addr; ProbeConn addr], failed s ErrNet)
      else match read_from s with
           | None => ([Dial "udp" addr; ProbeConn addr], failed s ErrNet)
           | Some _ => ([Dial "udp" addr; ProbeConn addr], punched s l r)
           end
  end.

Definition udp_text (ip : string) (port : Z) : string := ip +:+ ":" +:+ pretty port.

Definition tryUDPStandard (target : PeerInfo) : list action * PunchResult :=
  let s := StrategyUDPStandard in
  match ListenUDP with
  | None => ([], failed s ErrNet)
  | Some l =>
      match ResolveUDPAddr (PublicAddr target) with
      | None => ([], failed s ErrNet)
      | Some (ip, port) =>
          if negb (write_ok s) then ([Probe ip port], failed s ErrNet)
          else match read_from s with
               | None => ([Probe ip port], failed s ErrNet)
               | Some _ => ([Probe ip port], punched s l (udp_text ip port))
               end
      end
  end.

(** The goroutines send in no specified order; the list is by port. *)
Definition tryUDPPredict (m : StrategyMatrix) (target : PeerInfo) : list action * PunchResult :=
  let s := StrategyUDPPredict in
  match ListenUDP with
  | None => ([], failed s ErrNet)
  | Some l =>
      let '(lo, hi) := PredictRange target in
      if (lo <=? 0) || (hi <=? 0) || (hi <? lo) then ([], failed s (ErrPredictRange lo hi))
      else match ResolveUDPAddr (PublicAddr target) with
           | None => ([], failed s ErrNet)
           | Some (ip, _) =>
               let width := hi - lo + 1 in
               let width := if parallelBudget m <? width then parallelBudget m else width in
               let probes := map (λ i, Probe ip (lo + Z.of_nat i)) (seq 0 (Z.to_nat width)) in
               (probes, match read_from s with
                        | None => failed s ErrNet
                        | Some remote => punched s l remote
                        end)
           end
  end.

Definition tryTCPSimultaneous (target : PeerInfo) : list action * PunchResult :=
  let s := StrategyTCPSimultaneous in
  let acts := [Dial "tcp" (PublicAddr target)] in
  match DialTimeout "tcp" (PublicAddr target) with
  | None => (acts, failed s ErrNet)
  | Some (l, r) => (acts, punched s l r)
  end.

Definition tryStrategy (m : StrategyMatrix) (s : Strategy) (target : PeerInfo) : list action * PunchResult :=
  match s with
  | StrategyIPv6Direct => tryIPv6Direct target
  | StrategyUDPStandard => tryUDPStandard target
  | StrategyUDPPredict => tryUDPPredict m target
  | StrategyTCPSimultaneous => tryTCPSimultaneous target
  | StrategyTURNRelay => ([], failed s (ErrUnknownStrategy s))
  end.

Definition strategies : list Strategy :=
  [StrategyIPv6Direct; StrategyUDPStandard; StrategyUDPPredict; StrategyTCPSimultaneous].

(** The three [continue] conditions. *)
Definition skip (s : Strategy) (target : PeerInfo) : bool :=
  match s with
  | StrategyIPv6Direct => String.eqb (IPv6 target) ""
  | StrategyUDPStandard => String.eqb (NATType target) "Symmetric"
  | StrategyUDPPredict => snd (PredictRange target) =? 0
  | _ => false
  end.

Fixpoint ladder (m : StrategyMatrix) (target : PeerInfo) (l : list Strategy) :
    list (Strategy * list action) * outcome punch_error PunchResult :=
  match l with
  | [] => ([], Fail (ErrAllFailed (NodeID target)))
  | s :: l =>
      if skip s target then ladder m target l
      else
        let '(acts, result) := tryStrategy m s target in
        if Success result then ([(s, acts)], Ret result)
        else let '(log, r) := ladder m target l in ((s, acts) :: log, r)
  end.

Definition EstablishPath (m : StrategyMatrix) (target : PeerInfo) :
    list (Strategy * list action) * outcome punch_error PunchResult :=
  ladder m target strategies.
End Ladder.

(** [Engine.Punch] (engine.go), which is not the ladder. *)
Definition Engine_Punch (targetInfo : option PeerInfo) : outcome punch_error PunchResult := Fail ErrNotImplemented.

End HolePunch.

Module HolePunchFacts.
Import HolePunch.

(** ** The order of candidates *)

Lemma peer_less_lex room a b :
  peer_less room a b =
  lex (λ x y, (if isSameRoom x room then 0 else 1) <? (if isSameRoom y room then 0 else 1))
    (lex (λ x y, JoinedAt x <? JoinedAt y) (λ x y, str_less (NodeID x) (NodeID y))) a b.
Proof.
  unfold peer_less, lex. destruct (isSameRoom a room), (isSameRoom b room); cbn; try done;
    (destruct (Z.eqb_spec (JoinedAt a) (JoinedAt b)) as [->|Hne]; cbn;
      [by rewrite Z.ltb_irrefl|
       destruct (Z.ltb_spec (JoinedAt a) (JoinedAt b)), (Z.ltb_spec (JoinedAt b) (JoinedAt a)); done || lia]).
Qed.

#[export] Instance peer_less_strict_weak room : StrictWeak (peer_less room).
Proof.
  eapply strict_weak_ext; [apply peer_less_lex|]. apply lex_strict_weak; [apply rank_strict_weak|].
  apply lex_strict_weak; [apply rank_strict_weak|].
  pose proof bytes_less_strict_weak as [Hi Ht Hc]. unfold str_less.
  split; intros *; [apply Hi|apply Ht|apply Hc].
Qed.

Lemma peer_less_tie room a b :
  peer_less room a b = false → peer_less room b a = false → NodeID a = NodeID b.
Proof.
  unfold peer_less. rewrite (Z.eqb_sym (JoinedAt b)).
  destruct (isSameRoom a room), (isSameRoom b room); cbn; try done;
    (destruct (Z.eqb_spec (JoinedAt a) (JoinedAt b)); cbn; [apply str_less_total|lia]).
Qed.

Lemma peer_less_room room a b :
  isSameRoom a room = true → isSameRoom b room = false → peer_less room a b = true.
Proof. intros Ha Hb. unfold peer_less. by rewrite Ha, Hb. Qed.

(** In an ordered list the same-room candidates come first. *)
Lemma ordered_split room l :
  StronglySorted (not_after (peer_less room)) l →
  l = List.filter (λ p, isSameRoom p room) l ++ List.filter (λ p, negb (isSameRoom p room)) l.
Proof.
  induction 1 as [|x l Hs IH Hall]; [done|]. cbn. destruct (isSameRoom x room) eqn:E; cbn; [by f_equal|].
  assert (List.filter (λ p, isSameRoom p room) l = []) as Hnil.
  { clear -E Hall. induction Hall as [|y l Hy Hall IH]; [done|]. cbn.
    destruct (isSameRoom y room) eqn:Ey; [|done]. unfold not_after in Hy.
    by rewrite (peer_less_room room y x) in Hy. }
  rewrite Hnil in IH |- *. cbn in *. by rewrite <- IH.
Qed.

Lemma cap_loop_same room max n S O :
  Forall (λ p, isSameRoom p room = true) S →
  cap_loop room max n (S ++ O) = S ++ cap_loop room max n O.
Proof. induction 1 as [|p S Hp HS IH]; [done|]. cbn. rewrite Hp. cbn. by rewrite IH. Qed.

Lemma cap_loop_other room max n O :
  Forall (λ p, isSameRoom p room = false) O → n <= max →
  cap_loop room max n O = take (Z.to_nat (max - n)) O.
Proof.
  intros HO. revert n. induction HO as [|p O Hp HO IH]; intros n Hn; cbn.
  { by rewrite take_nil. }
  rewrite Hp. cbn. destruct (Z.leb_spec max n).
  - rewrite IH by lia. replace (max - n) with 0 by lia. done.
  - rewrite IH by lia. replace (Z.to_nat (max - n)) with (Datatypes.S (Z.to_nat (max - (n + 1)))) by lia. done.
Qed.

Lemma filter_Forall {A} (f : A → bool) b l : Forall (λ x, f x = b) (List.filter (λ x, Bool.eqb (f x) b) l).
Proof.
  apply Forall_forall. intros x Hx. apply list_elem_of_In, List.filter_In in Hx as [_ Hx]. by apply eqb_prop.
Qed.

Lemma list_filter_perm {A} (f : A → bool) (l k : list A) : l ≡ₚ k → List.filter f l ≡ₚ List.filter f k.
Proof.
  induction 1 as [|x l k Hp IH|x y l|l k j H1 IH1 H2 IH2]; cbn; [done|by destruct (f x); rewrite ?IH| |by rewrite IH1].
  destruct (f x), (f y); try done. apply perm_swap.
Qed.

(** The result of [SelectPeers] in one line. *)
Lemma SelectPeers_split c room max :
  let S := List.filter (λ p, isSameRoom p room) (isort (peer_less room) c) in
  let O := List.filter (λ p, negb (isSameRoom p room)) (isort (peer_less room) c) in
  SelectPeers c room max = S ++ (if max <=? 0 then O else take (Z.to_nat max) O) ∧
  PartitionByRoom c room = (S, O).
Proof.
  intros S O. pose proof (ordered_split room _ (isort_sorted (peer_less room) c)) as Hsp.
  split; [|done]. unfold SelectPeers. destruct (Z.leb_spec max 0); [exact Hsp|].
  rewrite Hsp. fold S O. rewrite cap_loop_same, cap_loop_other; [by rewrite Z.sub_0_r|..|lia|].
  - apply Forall_forall. intros p Hp. apply list_elem_of_In, List.filter_In in Hp as [_ Hp].
    by apply negb_true_iff.
  - apply Forall_forall. intros p Hp. by apply list_elem_of_In, List.filter_In in Hp as [_ Hp].
Qed.

Lemma isort_unique room c c' :
  c ≡ₚ c' → NoDup (NodeID <$> c) → isort (peer_less room) c = isort (peer_less room) c'.
Proof.
  intros Hp Hnd. apply (sorted_unique (peer_less room)); [|by rewrite !isort_perm|by apply isort_sorted, _..].
  intros x y Hx Hy Hxy Hyx. rewrite isort_perm in Hx, Hy. pose proof (peer_less_tie room x y Hxy Hyx) as E.
  apply list_elem_of_lookup in Hx as [i Hi], Hy as [j Hj].
  assert (i = j) as ->; [|congruence].
  apply (NoDup_lookup (NodeID <$> c) i j (NodeID x) Hnd); rewrite list_lookup_fmap.
  - by rewrite Hi.
  - rewrite Hj. cbn. by rewrite E.
Qed.

(** ** The ladder *)

Definition is_probe (a : action) : bool := match a with Dial _ _ => false | _ => true end.
Definition probes (acts : list action) : nat := length (List.filter is_probe acts).

Lemma probes_app a b : probes (a ++ b) = (probes a + probes b)%nat.
Proof. unfold probes. by rewrite List.filter_app, length_app. Qed.

Section Ladder.
Context `{PunchNet}.

(** What one strategy may do. *)
Definition confined (m : StrategyMatrix) (target : PeerInfo) (s : Strategy) (a : action) : Prop :=
  match s, a with
  | StrategyIPv6Direct, Dial n addr => n = "udp" ∧ addr = "[" +:+ IPv6 target +:+ "]:29683"
  | StrategyIPv6Direct, ProbeConn addr => addr = "[" +:+ IPv6 target +:+ "]:29683"
  | StrategyUDPStandard, Probe ip port => ResolveUDPAddr (PublicAddr target) = Some (ip, port)
  | StrategyUDPPredict, Probe ip port =>
      (∃ p, ResolveUDPAddr (PublicAddr target) = Some (ip, p)) ∧
      fst (PredictRange target) <= port <= snd (PredictRange target)
  | StrategyTCPSimultaneous, Dial n addr => n = "tcp" ∧ addr = PublicAddr target
  | _, _ => False
  end.

Lemma tryStrategy_confined m s target :
  s ∈ strategies → Forall (confined m target s) (tryStrategy m s target).1.
Proof.
  assert (pretty 29683%Z = "29683") as Hp by (by vm_compute).
  intros Hs. destruct s; cbn [tryStrategy].
  - unfold tryIPv6Direct. rewrite Hp. destruct (DialTimeout _ _) as [[l r]|]; [|by repeat constructor].
    destruct (negb _); [by repeat constructor|]. by destruct (read_from _); repeat constructor.
  - unfold tryUDPStandard. destruct ListenUDP; [|constructor].
    destruct (ResolveUDPAddr _) as [[ip port]|] eqn:E; [|constructor].
    destruct (negb _); [by repeat constructor|]. by destruct (read_from _); repeat constructor.
  - unfold tryUDPPredict. destruct ListenUDP; [|constructor].
    destruct (PredictRange target) as [lo hi] eqn:Er. destruct (_ || _); [constructor|].
    destruct (ResolveUDPAddr _) as [[ip port]|] eqn:E; [|constructor]. cbn [fst].
    apply Forall_forall. intros a (i & -> & Hi)%list_elem_of_fmap. apply elem_of_seq in Hi.
    cbn. rewrite Er. cbn. split; [by exists port|].
    destruct (parallelBudget m <? hi - lo + 1) eqn:Eb; lia.
  - unfold tryTCPSimultaneous. by destruct (DialTimeout _ _) as [[l r]|]; repeat constructor.
  - exfalso. revert Hs. unfold strategies. rewrite !elem_of_cons. intros [?|[?|[?|[?|Hn]]]]; [done..|inversion Hn].
Qed.

(** The probe packets of one strategy. *)
Lemma tryStrategy_probes m s target :
  (probes (tryStrategy m s target).1 <=
   match s with
   | StrategyIPv6Direct | StrategyUDPStandard => 1
   | StrategyUDPPredict => Z.to_nat (parallelBudget m)
   | _ => 0
   end)%nat.
Proof.
  destruct s; cbn [tryStrategy].
  - unfold tryIPv6Direct. destruct (DialTimeout _ _) as [[l r]|]; [|cbn; lia].
    destruct (negb _); [cbn; lia|]. by destruct (read_from _).
  - unfold tryUDPStandard. destruct ListenUDP; [|cbn; lia].
    destruct (ResolveUDPAddr _) as [[ip port]|]; [|cbn; lia].
    destruct (negb _); [cbn; lia|]. by destruct (read_from _).
  - unfold tryUDPPredict. destruct ListenUDP; [|cbn; lia].
    destruct (PredictRange target) as [lo hi]. destruct (_ || _); [cbn; lia|].
    destruct (ResolveUDPAddr _) as [[ip port]|]; [|cbn; lia]. cbn [fst]. unfold probes.
    etransitivity; [apply List.filter_length_le|]. rewrite length_map, length_seq.
    destruct (parallelBudget m <? hi - lo + 1) eqn:Eb; lia.
  - unfold tryTCPSimultaneous. by destruct (DialTimeout _ _) as [[l r]|].
  - done.
Qed.

Definition probe_cost (m : StrategyMatrix) (s : Strategy) : nat :=
  match s with
  | StrategyIPv6Direct | StrategyUDPStandard => 1
  | StrategyUDPPredict => Z.to_nat (parallelBudget m)
  | _ => 0
  end.

Lemma ladder_probes m target l k :
  (probes (concat (map (λ s, (s, (tryStrategy m s target).1))
     (take k (List.filter (λ s, negb (skip s target)) l))).*2) <= sum_list_with (probe_cost m) l)%nat.
Proof.
  revert k. induction l as [|s l IH]; intros k; [by destruct k|]. cbn [List.filter].
  destruct (negb _); [|pose proof (IH k); cbn; lia]. destruct k as [|k]; [cbn; lia|].
  cbn [take map fmap list_fmap snd concat]. rewrite probes_app.
  pose proof (tryStrategy_probes m s target). pose proof (IH k). cbn [sum_list_with].
  unfold probe_cost at 1. lia.
Qed.

Lemma tryStrategy_result m s target :
  rStrategy (tryStrategy m s target).2 = s.
Proof.
  destruct s; cbn [tryStrategy]; unfold tryIPv6Direct, tryUDPStandard, tryUDPPredict, tryTCPSimultaneous;
    split_matches; done.
Qed.

(** The rungs in order: all that are not skipped up to the first success. *)
Lemma ladder_spec m target l :
  let rungs := List.filter (λ s, negb (skip s target)) l in
  let '(log, r) := ladder m target l in
  ∃ k, log = map (λ s, (s, (tryStrategy m s target).1)) (take k rungs) ∧
  match r with
  | Ret res => ∃ s, take k rungs = take (k - 1) rungs ++ [s] ∧ res = (tryStrategy m s target).2 ∧
      Success res = true ∧
      Forall (λ s, Success (tryStrategy m s target).2 = false) (take (k - 1) rungs)
  | Fail e => k = length rungs ∧ e = ErrAllFailed (NodeID target) ∧
      Forall (λ s, Success (tryStrategy m s target).2 = false) rungs
  | Panic => False
  end.
Proof.
  induction l as [|s l IH]; intros rungs; cbn [ladder].
  { exists 0%nat. done. }
  subst rungs. cbn [List.filter]. destruct (skip s target); cbn [negb]; [exact IH|].
  set (rungs := List.filter _ l) in *. destruct (tryStrategy m s target) as [acts res] eqn:Et.
  destruct (Success res) eqn:Es.
  { exists 1%nat. cbn. rewrite Et. split; [done|]. exists s. rewrite Et. done. }
  destruct (ladder m target l) as [log r]. destruct IH as (k & -> & Hr). exists (S k).
  cbn [take map fst]. rewrite Et. split; [done|]. destruct r as [res'|e|]; [| |done].
  - destruct Hr as (s' & Htk & Hres & Hok & Hall). exists s'. split_and!; try done.
    + destruct k as [|k]; [by apply (f_equal length) in Htk; rewrite length_app in Htk; cbn in Htk; lia|].
      cbn [Nat.sub] in *. rewrite Nat.sub_0_r in *. rewrite Htk. done.
    + destruct k as [|k]; [by apply (f_equal length) in Htk; rewrite length_app in Htk; cbn in Htk; lia|].
      cbn [Nat.sub] in *. rewrite Nat.sub_0_r in *. constructor; [by rewrite Et|done].
  - destruct Hr as (-> & -> & Hall). split_and!; try done. constructor; [by rewrite Et|done].
Qed.
End Ladder.
End HolePunchFacts.

Module HolePunchProperties.
Import HolePunch HolePunchFacts.

(** Rule R1.  With distinct node IDs the selected order does not depend on the order in
    which the candidates were given, so two nodes rank the same set alike.  The result is
    the same-room candidates followed by the others (at most [maxOutOfRoom] of them when it
    is positive), each group complete and ordered by join time and then node ID; and
    [PartitionByRoom] gives exactly the two groups. *)
Theorem SelectPeers_deterministic (c c' : list PeerInfo) (room : RoomID) (max : Z)
    (Hperm : c ≡ₚ c') (Hnd : NoDup (NodeID <$> c)) :
  SelectPeers c room max = SelectPeers c' room max ∧
  ∃ same other,
    SelectPeers c room max = same ++ (if max <=? 0 then other else take (Z.to_nat max) other) ∧
    PartitionByRoom c room = (same, other) ∧
    same ≡ₚ List.filter (λ p, isSameRoom p room) c ∧
    other ≡ₚ List.filter (λ p, negb (isSameRoom p room)) c ∧
    StronglySorted (not_after (peer_less room)) (same ++ other).
Proof.
  split.
  { unfold SelectPeers. by rewrite (isort_unique room c c'). }
  destruct (SelectPeers_split c room max) as [Hs Hp]. eexists _, _. split_and!; [exact Hs|exact Hp|..].
  - apply list_filter_perm, isort_perm.
  - apply list_filter_perm, isort_perm.
  - pose proof (isort_sorted (peer_less room) c) as Hsort. by rewrite <- (ordered_split room _ Hsort).
Qed.

Definition near : PeerInfo := mkPeer "a" "lab" 5 "" "1.2.3.4:9" "Symmetric" (0, 0).
Definition far : PeerInfo := mkPeer "b" "office" 1 "" "" "" (0, 0).

Lemma SelectPeers_deterministic_witness :
  SelectPeers [far; near] "lab" 1 = SelectPeers [near; far] "lab" 1 ∧
  SelectPeers [far; near] "lab" 1 = [near; far].
Proof.
  split; [|vm_compute; reflexivity].
  apply (SelectPeers_deterministic [far; near] [near; far] "lab" 1).
  - apply perm_swap.
  - apply (bool_decide_eq_true_1 (NoDup ["b"; "a"])). reflexivity.
Defined.

(** The ladder.  [EstablishPath] tries the strategies in the documented order without the
    inapplicable ones, stops at the first success and returns that result, and fails only
    after every applicable strategy failed.  It only contacts the target's own addresses
    and, for port prediction, ports of the predicted range; and with a positive budget it
    sends at most the budget plus two probe packets. *)
Theorem EstablishPath_ladder `{PunchNet} (m : StrategyMatrix) (target : PeerInfo) :
  let rungs := List.filter (λ s, negb (skip s target)) strategies in
  let '(log, r) := EstablishPath m target in
  (∃ k, log.*1 = take k rungs ∧
    match r with
    | Ret res => Success res = true ∧ last (log.*1) = Some (rStrategy res) ∧
        Forall (λ s, Success (tryStrategy m s target).2 = false) (take (k - 1) rungs)
    | Fail _ => log.*1 = rungs ∧ Forall (λ s, Success (tryStrategy m s target).2 = false) rungs
    | Panic => False
    end) ∧
  Forall (λ '(s, acts), Forall (confined m target s) acts) log ∧
  (probes (concat log.*2) <= Z.to_nat (parallelBudget m) + 2)%nat.
Proof.
  intros rungs. pose proof (ladder_spec m target strategies) as Hl. unfold EstablishPath.
  destruct (ladder m target strategies) as [log r]. destruct Hl as (k & Hlog & Hr). fold rungs in Hlog, Hr.
  assert (log.*1 = take k rungs) as Hfst.
  { rewrite Hlog, <- list_fmap_compose. apply list_fmap_id. }
  split_and!.
  - exists k. split; [done|]. destruct r as [res|e|]; [| |done].
    + destruct Hr as (s & Htk & -> & Hok & Hall). split_and!; [done| |done].
      rewrite Hfst, Htk, last_snoc, tryStrategy_result. done.
    + destruct Hr as (-> & _ & Hall). split; [|done]. by rewrite Hfst, firstn_all.
  - rewrite Hlog. apply Forall_fmap, Forall_forall. intros s Hs. apply tryStrategy_confined.
    apply elem_of_take in Hs as (i & Hi%list_elem_of_lookup_2 & _).
    by apply list_elem_of_In, List.filter_In in Hi as [Hi%list_elem_of_In _].
  - rewrite Hlog. etransitivity; [apply ladder_probes|]. cbn. lia.
Qed.
End HolePunchProperties.
