(* ===== verification/Room.v ===== *)
(** Rooms (src/internal/room): the server-side manager with its paged member lists
    (manager.go), the address allocator (ipv4_alloc.go) and the client's member cache
    (client.go). *)
From S2P Require Export Prelude GoLib MeshTypes NetAddr.
From stdpp Require Import gmap strings list.

Local Open Scope Z_scope.

Module Room.
Import NetAddr.

(** ** Data *)

Record Room := mkRoom {
  rmID : RoomID;
  rmName : string;
  OwnerID : NodeID;
  Encrypted : bool;
  MaxMembers : Z;
}.

Record RoomOptions := mkOptions {
  optEncrypted : bool;
  optMaxMembers : Z;
}.

(** The fields of [storage.Node] that member lists use. *)
Record Node := mkNode {
  nID : NodeID;
  nIPv6 : string;
  nIPv4 : string;
  nPublic : string;
  nNAT : string;
}.

(** The part of [storage.Store] the manager calls; [None] is an error. *)
Class RoomStore (S : Type) := {
  store_CreateRoom : Room → S → option S;
  store_GetRoom : RoomID → S → option Room;
  store_ListRooms : S → option (list Room);
  store_AddRoomMember : RoomID → NodeID → S → option S;
  store_RemoveRoomMember : RoomID → NodeID → S → option S;
  store_ListRoomMembers : RoomID → S → option (list Node);
}.

Inductive room_error :=
| ErrNameEmpty
| ErrOwnerEmpty
| ErrNoStorage
| ErrIDsRequired
| ErrNotFound
| ErrPassword
| ErrStore.

(** ** The manager *)

(** [sanitizeID]: the bytes of a name that survive, lower-cased or as a dash. *)
Definition sanitize_byte (c : byte) : option byte :=
  if ((97 <=? bZ c) && (bZ c <=? 122)) || ((48 <=? bZ c) && (bZ c <=? 57)) then Some c
  else if (65 <=? bZ c) && (bZ c <=? 90) then Some (Zb (bZ c + 32))
  else if (bZ c =? 45) || (bZ c =? 95) || (bZ c =? 32) then Some x2d
  else None.

Definition sanitizeID (name : string) : string :=
  let out := omap sanitize_byte (bytes_of name) in
  if (length out =? 0)%nat then "room" else string_of out.

Section Manager.
Context {S : Type} `{RoomStore S}.

(** The manager's state is its store, which may be nil. *)
Definition CreateRoom (name ownerID : string) (opts : RoomOptions) (m : option S) :
    option S * outcome room_error Room :=
  if String.eqb name "" then (m, Fail ErrNameEmpty)
  else if String.eqb ownerID "" then (m, Fail ErrOwnerEmpty)
  else match m with
       | None => (m, Fail ErrNoStorage)
       | Some s =>
           let r := mkRoom ("room-" +:+ sanitizeID name) name ownerID (optEncrypted opts)
                      (if optMaxMembers opts =? 0 then 100 else optMaxMembers opts) in
           match store_CreateRoom r s with
           | None => (m, Fail ErrStore)
           | Some s => (Some s, Ret r)
           end
       end.

Definition JoinRoom (roomID nodeID password : string) (m : option S) : option S * outcome room_error () :=
  if String.eqb roomID "" || String.eqb nodeID "" then (m, Fail ErrIDsRequired)
  else match m with
       | None => (m, Fail ErrNoStorage)
       | Some s =>
           match store_GetRoom roomID s with
           | None => (m, Fail ErrNotFound)
           | Some r =>
               if Encrypted r && String.eqb password "" then (m, Fail ErrPassword)
               else match store_AddRoomMember roomID nodeID s with
                    | None => (m, Fail ErrStore)
                    | Some s => (Some s, Ret ())
                    end
           end
       end.

Definition LeaveRoom (roomID nodeID : string) (m : option S) : option S * outcome room_error () :=
  match m with
  | None => (m, Fail ErrNoStorage)
  | Some s =>
      match store_RemoveRoomMember roomID nodeID s with
      | None => (m, Fail ErrStore)
      | Some s => (Some s, Ret ())
      end
  end.

Record MemberInfo := mkMember {
  mNodeID : NodeID;
  mIPv6Addr : string;
  mIPv4Addr : string;
  mPublicAddr : string;
  mNATType : string;
}.

Record MemberList := mkMembers {
  RoomID_ : RoomID;
  Members : list MemberInfo;
  Offset : Z;
  Limit : Z;
  Total : Z;
  HasMore : bool;
}.

Definition DefaultPageSize : Z := 50.

Definition member_info (n : Node) : MemberInfo := mkMember (nID n) (nIPv6 n) (nIPv4 n) (nPublic n) (nNAT n).

(** Signed 64-bit addition. *)
Definition add64 (a b : Z) : Z := (a + b + 2 ^ 63) mod 2 ^ 64 - 2 ^ 63.

(** [make([]T, 0, end-offset)] and [nodes[offset:end]] panic when [end] is below [offset]. *)
Definition GetMembers (roomID : RoomID) (offset limit : Z) (m : option S) : outcome room_error MemberList :=
  match m with
  | None => Fail ErrNoStorage
  | Some s =>
      let limit := if limit =? 0 then DefaultPageSize else limit in
      let offset := if offset <? 0 then 0 else offset in
      match store_ListRoomMembers roomID s with
      | None => Fail ErrStore
      | Some nodes =>
          let total := Z.of_nat (length nodes) in
          let hasMore := add64 offset limit <? total in
          let stop := add64 offset limit in
          let stop := if total <? stop then total else stop in
          if stop <? offset then Panic
          else
            let page := take (Z.to_nat (stop - offset)) (drop (Z.to_nat offset) nodes) in
            Ret (mkMembers roomID (member_info <$> page) offset limit total hasMore)
      end
  end.

Definition ListRooms (m : option S) : outcome room_error (list Room) :=
  match m with
  | None => Fail ErrNoStorage
  | Some s => match store_ListRooms s with None => Fail ErrStore | Some l => Ret l end
  end.

(** [DeleteRoom] changes nothing. *)
Definition DeleteRoom (roomID : string) (m : option S) : option S * outcome room_error () :=
  match m with
  | None => (m, Fail ErrNoStorage)
  | Some _ => (m, Ret ())
  end.
End Manager.

(** ** The address allocator *)

Record IPv4Allocator := mkAllocator {
  keys : gmap string RoomKey;
  subnets : gmap string RoomSubnet;
}.

Definition NewIPv4Allocator : IPv4Allocator := mkAllocator ∅ ∅.

(** [RoomSubnet.String]. *)
Definition RoomSubnet_String (rs : RoomSubnet) : string := Addr_String (Base rs) +:+ "/" +:+ pretty (Plen rs).

Section Allocator.
Context `{GoUnicode}.

Definition alloc_RoomKey (meshSecret : list byte) (roomID : string) (explicitKey : list byte) (a : IPv4Allocator) :
    RoomKey * IPv4Allocator :=
  match keys a !! roomID with
  | Some k => (k, a)
  | None =>
      let k := DeriveRoomKey meshSecret roomID explicitKey in
      (k, mkAllocator (<[roomID := k]> (keys a)) (subnets a))
  end.

Definition alloc_RoomSubnet (roomID : string) (roomKey : RoomKey) (a : IPv4Allocator) :
    RoomSubnet * IPv4Allocator :=
  match subnets a !! roomID with
  | Some s => (s, a)
  | None =>
      let s := DeriveRoomSubnet roomKey in
      (s, mkAllocator (keys a) (<[roomID := s]> (subnets a)))
  end.

Definition NodeIPv4Addr (nodeID : NodeID) (roomKey : RoomKey) : string :=
  Addr_String (DeriveNodeIPv4 nodeID roomKey).

Definition NodeIPv6Addr (nodeID : NodeID) (roomKey : RoomKey) : string :=
  Addr_String (DeriveIPv6Addr nodeID roomKey).

Definition VerifyNodeIPv4 (nodeID : NodeID) (roomKey : RoomKey) (claimed : string) : bool :=
  String.eqb (Addr_String (DeriveNodeIPv4 nodeID roomKey)) claimed.

Definition VerifyNodeIPv6 (nodeID : NodeID) (roomKey : RoomKey) (claimed : string) : bool :=
  String.eqb (Addr_String (DeriveIPv6Addr nodeID roomKey)) claimed.

End Allocator.

(** ** The client's member cache *)

Record RoomMember := mkRoomMember {
  cNodeID : string;
  cIPv6Addr : string;
  cPublicAddr : string;
  cNATType : string;
}.

Record Client := mkClient {
  currentRoom : string;
  members : gmap string RoomMember;
}.

Definition NewClient : Client := mkClient "" ∅.
Definition OnMemberJoin (m : RoomMember) (c : Client) : Client :=
  mkClient (currentRoom c) (<[cNodeID m := m]> (members c)).
Definition OnMemberLeave (nodeID : string) (c : Client) : Client :=
  mkClient (currentRoom c) (delete nodeID (members c)).
Definition OnMemberUpdate (m : RoomMember) (c : Client) : Client := OnMemberJoin m c.
(** [range] over the map: in no specified order. *)
Definition Members_of (c : Client) : list RoomMember := snd <$> map_to_list (members c).
Definition CurrentRoom (c : Client) : string := currentRoom c.

End Room.

Module RoomFacts.
Import NetAddr Room.

Section Paging.
Context {S : Type} `{RoomStore S}.

Lemma add64_small a b : 0 <= a → 0 <= b → a + b < 2 ^ 63 → add64 a b = a + b.
Proof. intros. unfold add64. rewrite Z.mod_small; lia. Qed.

(** One page, away from the 64-bit limit. *)
Lemma GetMembers_page s roomID nodes offset limit :
  store_ListRoomMembers roomID s = Some nodes → 0 <= offset → 0 < limit → offset + limit < 2 ^ 63 →
  GetMembers roomID offset limit (Some s) =
  if Z.of_nat (length nodes) <? offset then Panic
  else Ret (mkMembers roomID (member_info <$> take (Z.to_nat limit) (drop (Z.to_nat offset) nodes))
              offset limit (Z.of_nat (length nodes)) (offset + limit <? Z.of_nat (length nodes))).
Proof.
  intros Hl Ho Hlim Hmax. unfold GetMembers. rewrite Hl.
  destruct (Z.eqb_spec limit 0); [lia|]. destruct (Z.ltb_spec offset 0); [lia|].
  rewrite add64_small by lia.
  destruct (Z.ltb_spec (Z.of_nat (length nodes)) (offset + limit)) as [Hlt|Hge];
    destruct (Z.ltb_spec (Z.of_nat (length nodes)) offset); try lia.
  - destruct (Z.ltb_spec (Z.of_nat (length nodes)) offset); [done|lia].
  - destruct (Z.ltb_spec (Z.of_nat (length nodes)) offset); [lia|].
    rewrite (take_ge (drop _ nodes) (Z.to_nat limit)) by (rewrite length_drop; lia).
    rewrite take_ge by (rewrite length_drop; lia). done.
  - destruct (Z.ltb_spec (offset + limit) offset); [lia|]. by replace (offset + limit - offset) with limit by lia.
Qed.

(** A client that asks for page after page until there is no more. *)
Fixpoint walk (fuel : nat) (s : S) (roomID : RoomID) (offset limit : Z) : option (list (list MemberInfo)) :=
  match fuel with
  | O => None
  | Datatypes.S fuel =>
      match GetMembers roomID offset limit (Some s) with
      | Ret l =>
          if HasMore l then cons (Members l) <$> walk fuel s roomID (offset + limit) limit
          else Some [Members l]
      | _ => None
      end
  end.

Lemma walk_complete fuel s roomID nodes offset limit :
  store_ListRoomMembers roomID s = Some nodes → 0 < limit → 0 <= offset <= Z.of_nat (length nodes) →
  Z.of_nat (length nodes) + limit < 2 ^ 63 → (length nodes - Z.to_nat offset < fuel)%nat →
  ∃ pages, walk fuel s roomID offset limit = Some pages ∧
    concat pages = member_info <$> drop (Z.to_nat offset) nodes ∧
    Forall (λ p, Z.of_nat (length p) <= limit) pages.
Proof.
  intros Hl Hlim. revert offset. induction fuel as [|fuel IH]; intros offset Ho Hmax Hf; [lia|].
  cbn [walk]. rewrite (GetMembers_page s roomID nodes) by (done || lia).
  destruct (Z.ltb_spec (Z.of_nat (length nodes)) offset); [lia|]. cbn [HasMore Members].
  set (page := take _ _).
  assert (Hpage : Z.of_nat (length (member_info <$> page)) <= limit).
  { unfold page. rewrite length_fmap, length_take. lia. }
  destruct (Z.ltb_spec (offset + limit) (Z.of_nat (length nodes))) as [Hmore|Hend].
  - destruct (IH (offset + limit)) as (pages & -> & Hc & Hall); [lia..|].
    eexists. split; [done|]. split; [|by constructor]. cbn [concat]. rewrite Hc, <- fmap_app. f_equal.
    unfold page. replace (Z.to_nat (offset + limit)) with (Z.to_nat offset + Z.to_nat limit)%nat by lia.
    rewrite <- drop_drop. apply take_drop.
  - eexists. split; [done|]. split; [|by repeat constructor]. cbn [concat]. rewrite app_nil_r. f_equal.
    unfold page. apply take_ge. rewrite length_drop. lia.
Qed.
End Paging.
End RoomFacts.

Module RoomProperties.
Import NetAddr Room RoomFacts.

(** Paging a room.  For a positive page size, asking for page after page from offset 0
    until there is no more ends after at most one request per member plus one, returns
    every member exactly once and in the store's order, and no page exceeds the page size;
    but a single request for an offset beyond the member count, or with a negative limit,
    panics. *)
Theorem paging_complete {S : Type} `{RoomStore S} (s : S) (roomID : RoomID) (nodes : list Node) (limit : Z)
    (Hlist : store_ListRoomMembers roomID s = Some nodes)
    (Hlimit : 0 < limit) (Hsize : Z.of_nat (length nodes) + limit < 2 ^ 63) :
  (∃ pages, walk (length nodes + 1) s roomID 0 limit = Some pages ∧
     concat pages = member_info <$> nodes ∧ Forall (λ p, Z.of_nat (length p) <= limit) pages) ∧
  (∀ offset, Z.of_nat (length nodes) < offset → offset + limit < 2 ^ 63 →
     GetMembers roomID offset limit (Some s) = Panic) ∧
  (∀ offset, 0 <= offset < 2 ^ 63 - limit → GetMembers roomID offset (- limit) (Some s) = Panic).
Proof.
  split_and!.
  - apply (walk_complete (length nodes + 1) s roomID nodes 0 limit); [done|lia..].
  - intros offset Ho Hmax. rewrite (GetMembers_page s roomID nodes) by (done || lia).
    destruct (Z.ltb_spec (Z.of_nat (length nodes)) offset); [done|lia].
  - intros offset Ho. unfold GetMembers. rewrite Hlist. destruct (Z.eqb_spec (- limit) 0); [lia|].
    destruct (Z.ltb_spec offset 0); [lia|].
    assert (add64 offset (- limit) < offset) as Hlt.
    { unfold add64. rewrite Z.mod_small; lia. }
    destruct (Z.ltb_spec (Z.of_nat (length nodes)) (add64 offset (- limit)));
      match goal with |- context [?a <? offset] => destruct (Z.ltb_spec a offset) end; done || lia.
Qed.

(** A store that holds one room's members. *)
#[local] Instance fixed_store : RoomStore (list Node) := {|
  store_CreateRoom _ s := Some s; store_GetRoom _ _ := None; store_ListRooms _ := Some [];
  store_AddRoomMember _ _ s := Some s; store_RemoveRoomMember _ _ s := Some s;
  store_ListRoomMembers _ s := Some s;
|}.

Definition three_nodes : list Node := [mkNode "a" "" "" "" ""; mkNode "b" "" "" "" ""; mkNode "c" "" "" "" ""].

Lemma paging_complete_witness :
  walk 4 three_nodes "r" 0 2 = Some [map member_info (take 2 three_nodes); map member_info (drop 2 three_nodes)] ∧
  GetMembers "r" 4 2 (Some three_nodes) = Panic.
Proof.
  split; [vm_compute; reflexivity|].
  apply (paging_complete three_nodes "r" three_nodes 2); [reflexivity|lia|cbn; lia..].
Defined.

(** A claimed address is accepted exactly when it is the derived one; the text carries no
    ambiguity. *)
Lemma VerifyNodeIPv4_iff `{GoUnicode} n k claimed :
  VerifyNodeIPv4 n k claimed = true ↔ claimed = NodeIPv4Addr n k.
Proof. unfold VerifyNodeIPv4, NodeIPv4Addr. rewrite String.eqb_eq. split; congruence. Qed.

(** The allocator remembers the first key of a room: a later explicit key is ignored. *)
Lemma alloc_RoomKey_first `{GoUnicode} secret secret' room key key' a :
  let '(k, a1) := alloc_RoomKey secret room key a in
  (alloc_RoomKey secret' room key' a1).1 = k.
Proof.
  unfold alloc_RoomKey. destruct (keys a !! room) as [k|] eqn:E; [by rewrite E|].
  cbn. by rewrite lookup_insert_eq.
Qed.

(** Distinct names may share an identifier. *)
Lemma sanitizeID_collides : sanitizeID "Dev Team" = sanitizeID "dev-team" ∧ sanitizeID "日本" = sanitizeID "room".
Proof. by vm_compute. Qed.

(** An encrypted room is entered with any non-empty password, whatever its member limit. *)
Lemma JoinRoom_any_password {S : Type} `{RoomStore S} (s s' : S) room node pw r :
  room ≠ "" → node ≠ "" → pw ≠ "" → store_GetRoom room s = Some r →
  store_AddRoomMember room node s = Some s' → JoinRoom room node pw (Some s) = (Some s', Ret ()).
Proof.
  intros H1 H2 H3 Hg Ha. unfold JoinRoom. apply String.eqb_neq in H1, H2, H3.
  rewrite H1, H2, Hg, H3, andb_false_r. cbn. by rewrite Ha.
Qed.
End RoomProperties.
