(* ===== verification/Stun.v ===== *)
(** The STUN client (src/internal/stun): the Binding request and response codec and NAT
    classification (client.go, nattype.go, crc32.go), the server pool (pool.go) and port
    prediction (predict.go). *)
From S2P Require Export Prelude GoLib GoFloat.
From S2P Require Import MeshTypes NetAddr.
From stdpp Require Import list.

Local Open Scope Z_scope.

Module Stun.
Import NetAddr.

(** ** The codec (client.go) *)

Definition stunMagicCookie : Z := 0x2112A442.
Definition attrMappedAddress : Z := 0x0001.
Definition attrXORMappedAddress : Z := 0x0020.
Definition attrSoftware : Z := 0x8022.
Definition attrFingerprint : Z := 0x8028.

(** CRC-32 with the IEEE polynomial, reflected, one bit at a time. *)
Fixpoint crc_bits (n : nat) (c : Z) : Z :=
  match n with
  | O => c
  | S n => crc_bits n (if Z.odd c then Z.lxor (Z.shiftr c 1) 0xEDB88320 else Z.shiftr c 1)
  end.

Definition crc32Compute (data : list byte) : Z :=
  Z.lxor (foldl (λ c b, crc_bits 8 (Z.lxor c (bZ b))) 0xFFFFFFFF data) 0xFFFFFFFF.

Definition crc32IEEE (data : list byte) : Z := crc32Compute data.

Definition stunFingerprint (msg : list byte) : Z := Z.lxor (crc32IEEE msg) 0x5354554E.

(** [rand] is what [crypto/rand] returned. *)
Definition buildBindingRequest (rand : vec byte 12) : list byte * vec byte 12 :=
  let txID := rand in
  let software := bytes_of "gop2pmesh/0.1" in
  let swPad := ((4 - length software mod 4) mod 4)%nat in
  let swAttrLen := (4 + length software + swPad)%nat in
  let bodyLen := Z.of_nat (swAttrLen + 8) in
  let msg := [x00; x01] ++ be_put 2 bodyLen ++ be_put 4 stunMagicCookie ++ vec_to_list txID ++
             be_put 2 attrSoftware ++ be_put 2 (Z.of_nat (length software)) ++ software ++
             replicate swPad x00 in
  let crc := stunFingerprint msg in
  (msg ++ be_put 2 attrFingerprint ++ be_put 2 4 ++ be_put 4 crc, txID).

Inductive stun_error :=
| ErrShort
| ErrResponse
| ErrType (t : Z)
| ErrCookie
| ErrTxID
| ErrTruncated
| ErrNoAddress
| ErrAttrShort
| ErrFamily (f : Z).

(** A UDP address: the sixteen bytes of the IP and the port. *)
Record UDPAddr := mkUDP {
  IP : list byte;
  Port : Z;
}.

Definition slice (l : list byte) (off n : nat) : list byte := take n (drop off l).

(** [net.IPv4(a, b, c, d)]. *)
Definition IPv4 (b : list byte) : list byte := mapped_prefix ++ b.

Definition parseXORMappedAddress (val : list byte) : outcome stun_error UDPAddr :=
  if (length val <? 8)%nat then Fail ErrAttrShort
  else
    let family := bZ (nth 1 val x00) in
    let port := Z.lxor (be_get (slice val 2 2)) (Z.shiftr stunMagicCookie 16) in
    if family =? 1 then
      let ip := Z.lxor (be_get (slice val 4 4)) stunMagicCookie in
      Ret (mkUDP (IPv4 (be_put 4 ip)) port)
    else if family =? 2 then
      if (length val <? 20)%nat then Fail ErrAttrShort
      else Ret (mkUDP (be_put 4 (Z.lxor (be_get (slice val 4 4)) stunMagicCookie) ++ slice val 8 12) port)
    else Fail (ErrFamily family).

Definition parseMappedAddress (val : list byte) : outcome stun_error UDPAddr :=
  if (length val <? 8)%nat then Fail ErrAttrShort
  else
    let family := bZ (nth 1 val x00) in
    let port := be_get (slice val 2 2) in
    if family =? 1 then Ret (mkUDP (IPv4 (slice val 4 4)) port)
    else if family =? 2 then
      if (length val <? 20)%nat then Fail ErrAttrShort
      else Ret (mkUDP (slice val 4 16) port)
    else Fail (ErrFamily family).

(** The attribute loop from [off]; [mapped] is the fallback found so far.  Each round moves at
    least four bytes on; [None] would be a round too many. *)
Fixpoint attr_loop (fuel : nat) (body : list byte) (off : nat) (mapped : option UDPAddr) :
    option (outcome stun_error UDPAddr) :=
  let stop := Some (match mapped with Some a => Ret a | None => Fail ErrNoAddress end) in
  if (off + 4 <=? length body)%nat then
    match fuel with
    | O => None
    | S fuel =>
        let attrType := be_get (slice body off 2) in
        let attrLen := Z.to_nat (be_get (slice body (off + 2) 2)) in
        let valStart := (off + 4)%nat in
        let valEnd := (valStart + attrLen)%nat in
        if (length body <? valEnd)%nat then stop
        else
          let val := slice body valStart attrLen in
          let next := (valEnd + (4 - attrLen mod 4) mod 4)%nat in
          if attrType =? attrXORMappedAddress then
            match parseXORMappedAddress val with
            | Ret addr => Some (Ret addr)
            | _ => attr_loop fuel body next mapped
            end
          else if attrType =? attrMappedAddress then
            match parseMappedAddress val with
            | Ret addr => attr_loop fuel body next (Some addr)
            | _ => attr_loop fuel body next mapped
            end
          else attr_loop fuel body next mapped
    end
  else stop.

(** [20+bodyLen] is a 16-bit sum in the slice bound, and an [int] sum in the test before. *)
Definition parseBindingResponse (msg : list byte) (expectedTxID : vec byte 12) : outcome stun_error UDPAddr :=
  if (length msg <? 20)%nat then Fail ErrShort
  else
    let msgType := be_get (slice msg 0 2) in
    if negb (msgType =? 0x0101) then
      if msgType =? 0x0111 then Fail ErrResponse else Fail (ErrType msgType)
    else if negb (be_get (slice msg 4 4) =? stunMagicCookie) then Fail ErrCookie
    else if negb (bool_decide (slice msg 8 12 = vec_to_list expectedTxID)) then Fail ErrTxID
    else
      let bodyLen := be_get (slice msg 2 2) in
      if Z.of_nat (length msg) <? 20 + bodyLen then Fail ErrTruncated
      else
        let hi := (20 + bodyLen) mod 65536 in
        if hi <? 20 then Panic
        else
          let body := take (Z.to_nat (hi - 20)) (drop 20 msg) in
          match attr_loop (length body) body 0 None with
          | Some r => r
          | None => Panic
          end.

(** ** NAT classification *)

Inductive NATType :=
| NATOpen
| NATFullCone
| NATRestrictedCone
| NATPortRestricted
| NATSymmetric
| NATUnknown.

Definition IsSymmetric (n : NATType) : bool := match n with NATSymmetric => true | _ => false end.
Definition IsCone (n : NATType) : bool :=
  match n with NATFullCone | NATRestrictedCone | NATPortRestricted => true | _ => false end.

Record StunServer := mkServer {
  Addr : string;
  Latency : Z;
  Healthy : bool;
}.

(** ** The pool (pool.go) *)

Definition NewPool (addrs : list string) : list StunServer := (λ a, mkServer a 0 false) <$> addrs.

Definition Best (servers : list StunServer) : option StunServer :=
  foldl (λ best s,
    if negb (Healthy s) then best
    else match best with
         | None => Some s
         | Some b => if Latency s <? Latency b then Some s else best
         end) None servers.

(** ** Port prediction (predict.go) *)

Record PortSample := mkSample {
  sPort : Z;
  Destination : string;
  Timestamp : Z;
}.

Inductive PortPattern :=
| PatternLinear
| PatternCyclic
| PatternRandom
| PatternInsufficient.

Record PortPrediction := mkPrediction {
  Pattern : PortPattern;
  NextPort : Z;
  WindowStart : Z;
  WindowEnd : Z;
  Samples : list PortSample;
  Deltas : list Z;
}.

Definition mean (xs : list Z) : float64 :=
  if (length xs =? 0)%nat then f_of_int 0
  else fdiv (f_of_int (foldl Z.add 0 xs)) (f_of_int (Z.of_nat (length xs))).

Definition varianceInt (xs : list Z) (m : float64) : float64 :=
  if (length xs =? 0)%nat then f_of_int 0
  else
    let sum := foldl (λ sum x, let d := fsub (f_of_int x) m in fadd sum (fmul d d)) (f_of_int 0) xs in
    fdiv sum (f_of_int (Z.of_nat (length xs))).

Definition absInt (x : Z) : Z := if x <? 0 then - x else x.

Definition clampPort (p : Z) : Z := if p <? 1 then 1 else if 65535 <? p then 65535 else p.

Definition isCyclic (deltas : list Z) : bool :=
  if (length deltas <? 4)%nat then false
  else forallb (λ i, bool_decide (deltas !! i = deltas !! (i - 2)%nat)) (seq 2 (length deltas - 2)).

(** The differences of consecutive ports. *)
Fixpoint deltas_of (ports : list Z) : list Z :=
  match ports with
  | p :: (q :: _) as ports' => (q - p) :: deltas_of ports'
  | _ => []
  end.

Definition predicted (pat : PortPattern) (next halfW : Z) (samples : list PortSample) (deltas : list Z) :
    PortPrediction :=
  mkPrediction pat next (clampPort (next - halfW)) (clampPort (next + halfW)) samples deltas.

Definition AnalyzePortSequence `{SliceSort} (samples : list PortSample) : PortPrediction :=
  if (length samples <? 2)%nat then mkPrediction PatternInsufficient 0 0 0 samples []
  else
    let samples := sort_slice (λ a b, Timestamp a <? Timestamp b) samples in
    let deltas := deltas_of (sPort <$> samples) in
    let meanDelta := mean deltas in
    let variance := varianceInt deltas meanDelta in
    let meanDeltaInt := f_to_int64 meanDelta in
    let lastPort := default 0 (last (sPort <$> samples)) in
    let square := fmul (f_of_int (absInt meanDeltaInt)) (f_of_int (absInt meanDeltaInt)) in
    if negb (meanDeltaInt =? 0) && flt variance square then
      predicted PatternLinear (lastPort + meanDeltaInt) (absInt meanDeltaInt * 2) samples deltas
    else if isCyclic deltas then
      let nextDelta := default 0 (deltas !! (length deltas mod length deltas)%nat) in
      predicted PatternCyclic (lastPort + nextDelta) (absInt nextDelta) samples deltas
    else mkPrediction PatternRandom 0 0 0 samples deltas.

End Stun.

Module StunFacts.
Import NetAddr Stun.

(** ** The response *)

Lemma attr_loop_total fuel body off mapped :
  (length body < off + 4 + fuel)%nat → is_Some (attr_loop fuel body off mapped).
Proof.
  revert off mapped. induction fuel as [|fuel IH]; intros off mapped Hf; cbn [attr_loop];
    destruct (Nat.leb_spec (off + 4) (length body)); try done; [lia|].
  destruct (_ <? _)%nat; [done|].
  destruct (_ =? _); [destruct (parseXORMappedAddress _); [done|apply IH; lia..]|].
  destruct (_ =? _); [destruct (parseMappedAddress _); apply IH; lia|]. apply IH. lia.
Qed.

(** The XOR-MAPPED-ADDRESS attribute and a success response, as RFC 5389 writes them. *)
Definition xor_value4 (ip : list byte) (port : Z) : list byte :=
  [x00; x01] ++ be_put 2 (Z.lxor port (Z.shiftr stunMagicCookie 16)) ++
  be_put 4 (Z.lxor (be_get ip) stunMagicCookie).

Definition xor_mapped4 (ip : list byte) (port : Z) : list byte :=
  be_put 2 attrXORMappedAddress ++ be_put 2 8 ++ xor_value4 ip port.

Definition xor_mapped6 (txID : vec byte 12) (ip : list byte) (port : Z) : list byte :=
  be_put 2 attrXORMappedAddress ++ be_put 2 20 ++ [x00; x02] ++
  be_put 2 (Z.lxor port (Z.shiftr stunMagicCookie 16)) ++
  zip_with bxor ip (be_put 4 stunMagicCookie ++ vec_to_list txID).

Definition success_response (txID : vec byte 12) (attrs : list byte) : list byte :=
  [x01; x01] ++ be_put 2 (Z.of_nat (length attrs)) ++ be_put 4 stunMagicCookie ++ vec_to_list txID ++ attrs.

Lemma slice_at pre mid post off n :
  length pre = off → length mid = n → slice (pre ++ mid ++ post) off n = mid.
Proof. intros <- <-. unfold slice. by rewrite drop_app_length, take_app_length. Qed.

Lemma lxor_back a c n : 0 <= a < 2 ^ n → 0 <= c < 2 ^ n → 0 <= n → Z.lxor (Z.lxor a c mod 2 ^ n) c = a.
Proof.
  intros Ha Hc Hn. rewrite Z.mod_small by (by apply lxor_range). by rewrite Z.lxor_assoc, Z.lxor_nilpotent, Z.lxor_0_r.
Qed.

Lemma parse_xor_mapped4 ip port :
  length ip = 4%nat → 0 <= port < 65536 →
  parseXORMappedAddress (xor_value4 ip port) = Ret (mkUDP (IPv4 ip) port).
Proof.
  intros Hip Hport. unfold xor_value4. set (xp := be_put 2 (Z.lxor port (Z.shiftr stunMagicCookie 16))).
  set (xi := be_put 4 (Z.lxor (be_get ip) stunMagicCookie)).
  unfold parseXORMappedAddress.
  assert (length ([x00; x01] ++ xp ++ xi) = 8%nat) as ->.
  { unfold xp, xi. by rewrite !length_app, !length_be_put. }
  cbn [Nat.ltb Nat.leb]. change (bZ (nth 1 ([x00; x01] ++ xp ++ xi) x00)) with 1. cbn [Z.eqb].
  rewrite (slice_at [x00; x01] xp xi 2 2) by (done || apply length_be_put).
  pose proof (slice_at ([x00; x01] ++ xp) xi [] 4 4) as E. rewrite app_nil_r, <- app_assoc in E.
  rewrite E by (unfold xp, xi; rewrite ?length_app, ?length_be_put; done).
  unfold xp, xi. rewrite !be_get_put. change (256 ^ Z.of_nat 2) with (2 ^ 16). change (256 ^ Z.of_nat 4) with (2 ^ 32).
  rewrite !lxor_back; [|by vm_compute..|done| |by vm_compute|done].
  - by rewrite be_put_get'.
  - pose proof (be_get_range ip) as Hr. rewrite Hip in Hr. exact Hr.
Qed.

(** The header checks of a success response pass, and its body is the attributes. *)
Lemma parse_success txID tx attrs :
  Z.of_nat (length attrs) <= 65515 →
  parseBindingResponse (success_response txID attrs) tx =
  if bool_decide (vec_to_list txID = vec_to_list tx) then
    match attr_loop (length attrs) attrs 0 None with Some r => r | None => Panic end
  else Fail ErrTxID.
Proof.
  intros Hl. set (msg := success_response txID attrs). unfold parseBindingResponse.
  assert (Hlen : length msg = (20 + length attrs)%nat).
  { unfold msg, success_response. rewrite !length_app, !length_be_put, length_vec_to_list. cbn. lia. }
  destruct (Nat.ltb_spec (length msg) 20); [lia|].
  set (bl := be_put 2 (Z.of_nat (length attrs))). set (ck := be_put 4 stunMagicCookie).
  assert (Hb : length bl = 2%nat) by apply length_be_put. assert (Hc : length ck = 4%nat) by apply length_be_put.
  assert (slice msg 0 2 = [x01; x01]) as ->.
  { exact (slice_at [] [x01; x01] (bl ++ ck ++ vec_to_list txID ++ attrs) 0 2 eq_refl eq_refl). }
  assert (slice msg 4 4 = ck) as ->.
  { pose proof (slice_at ([x01; x01] ++ bl) ck (vec_to_list txID ++ attrs) 4 4) as E.
    rewrite <- app_assoc in E. apply E; [rewrite length_app; cbn; lia|done]. }
  assert (slice msg 8 12 = vec_to_list txID) as ->.
  { pose proof (slice_at ([x01; x01] ++ bl ++ ck) (vec_to_list txID) attrs 8 12) as E.
    rewrite <- !app_assoc in E. apply E; [rewrite !length_app; cbn; lia|apply length_vec_to_list]. }
  assert (slice msg 2 2 = bl) as ->.
  { exact (slice_at [x01; x01] bl (ck ++ vec_to_list txID ++ attrs) 2 2 eq_refl Hb). }
  change (be_get [x01; x01] =? 257) with true. change (be_get ck =? stunMagicCookie) with true. cbn [negb].
  destruct (bool_decide _); [|done]. cbn [negb]. unfold bl. rewrite be_get_put.
  change (256 ^ Z.of_nat 2) with 65536. rewrite Z.mod_small by lia.
  destruct (Z.ltb_spec (Z.of_nat (length msg)) (20 + Z.of_nat (length attrs))); [lia|].
  rewrite Z.mod_small by lia. destruct (Z.ltb_spec (20 + Z.of_nat (length attrs)) 20); [lia|].
  assert (drop 20 msg = attrs) as ->.
  { unfold msg, success_response. rewrite !app_assoc. apply drop_app_length'.
    rewrite !length_app, !length_be_put, length_vec_to_list. done. }
  rewrite take_ge by lia. done.
Qed.

Lemma parseBindingResponse_no_panic msg tx : Z.of_nat (length msg) <= 65535 → parseBindingResponse msg tx ≠ Panic.
Proof.
  intros Hl. unfold parseBindingResponse. destruct (_ <? _)%nat; [done|].
  destruct (negb (_ =? 257)); [by destruct (_ =? 273)|]. destruct (negb _); [done|]. destruct (negb _); [done|].
  pose proof (be_get_range (slice msg 2 2)) as [Hr _].
  destruct (Z.ltb_spec (Z.of_nat (length msg)) (20 + be_get (slice msg 2 2))); [done|].
  rewrite Z.mod_small by lia. destruct (Z.ltb_spec (20 + be_get (slice msg 2 2)) 20); [lia|].
  set (body := take _ _). destruct (attr_loop_total (length body) body 0 None) as [r Hr']; [lia|].
  rewrite Hr'. clear -Hr'. revert Hr'. generalize (length body), 0%nat, (@None UDPAddr).
  intros fuel. induction fuel as [|fuel IH]; intros off mapped; cbn [attr_loop];
    (destruct (_ <=? _)%nat; [|intros [= <-]; by destruct mapped]); [done|].
  destruct (_ <? _)%nat; [intros [= <-]; by destruct mapped|].
  destruct (_ =? _); [destruct (parseXORMappedAddress _); [by intros [= <-]|apply IH..]|].
  destruct (_ =? _); [destruct (parseMappedAddress _); apply IH|]. apply IH.
Qed.

(** One attribute first in the body. *)
Lemma attr_loop_first_xor fuel val rest :
  (length val mod 4 = 0)%nat → Z.of_nat (length val) < 65536 → (0 < fuel)%nat →
  attr_loop fuel (be_put 2 attrXORMappedAddress ++ be_put 2 (Z.of_nat (length val)) ++ val ++ rest) 0 None =
  match parseXORMappedAddress val with
  | Ret a => Some (Ret a)
  | _ => attr_loop (pred fuel) (be_put 2 attrXORMappedAddress ++ be_put 2 (Z.of_nat (length val)) ++ val ++ rest)
           (4 + length val) None
  end.
Proof.
  intros Hmod Hlen Hf. destruct fuel as [|fuel]; [lia|].
  set (ty := be_put 2 attrXORMappedAddress). set (ln := be_put 2 (Z.of_nat (length val))).
  assert (Hty : length ty = 2%nat) by apply length_be_put. assert (Hln : length ln = 2%nat) by apply length_be_put.
  set (body := ty ++ ln ++ val ++ rest).
  assert (Hb : (length body = 4 + length val + length rest)%nat).
  { unfold body. rewrite !length_app. lia. }
  cbn [attr_loop pred]. destruct (Nat.leb_spec (0 + 4) (length body)); [|lia].
  assert (slice body 0 2 = ty) as -> by (exact (slice_at [] ty (ln ++ val ++ rest) 0 2 eq_refl Hty)).
  assert (slice body (0 + 2) 2 = ln) as -> by (exact (slice_at ty ln (val ++ rest) 2 2 Hty Hln)).
  assert (be_get ln = Z.of_nat (length val)) as ->.
  { unfold ln. rewrite be_get_put. apply Z.mod_small. lia. }
  rewrite Nat2Z.id. change (be_get ty =? attrXORMappedAddress) with true.
  destruct (Nat.ltb_spec (length body) (0 + 4 + length val)); [lia|].
  assert (slice body (0 + 4) (length val) = val) as ->.
  { pose proof (slice_at (ty ++ ln) val rest 4 (length val)) as E. rewrite <- app_assoc in E.
    apply E; [rewrite length_app; lia|done]. }
  rewrite Hmod. cbn [Nat.sub Nat.modulo]. change (4 mod 4)%nat with 0%nat. rewrite Nat.add_0_r. done.
Qed.

(** ** Prediction *)

(** The response of a server that reports the IPv4 address and port. *)
Lemma parse_mapped4 (txID tx : vec byte 12) (ip rest : list byte) (port : Z) :
  length ip = 4%nat → 0 <= port < 65536 → Z.of_nat (length rest) <= 65503 →
  parseBindingResponse (success_response txID (xor_mapped4 ip port ++ rest)) tx =
  if bool_decide (vec_to_list txID = vec_to_list tx) then Ret (mkUDP (IPv4 ip) port) else Fail ErrTxID.
Proof.
  intros Hip Hport Hlen. assert (Hx : length (xor_mapped4 ip port) = 12%nat).
  { unfold xor_mapped4. by rewrite !length_app, !length_be_put. }
  assert (Z.of_nat (length (xor_mapped4 ip port ++ rest)) <= 65515) by (rewrite length_app; lia).
  rewrite parse_success by done. case_bool_decide; [|done].
  assert (length (xor_value4 ip port) = 8%nat) as Hl8.
  { unfold xor_value4. by rewrite !length_app, !length_be_put. }
  assert (xor_mapped4 ip port ++ rest = be_put 2 attrXORMappedAddress ++
    be_put 2 (Z.of_nat (length (xor_value4 ip port))) ++ xor_value4 ip port ++ rest) as Hv.
  { rewrite Hl8. unfold xor_mapped4. by rewrite <- !app_assoc. }
  rewrite Hv at 2. rewrite attr_loop_first_xor; [|by rewrite Hl8|lia|rewrite length_app; lia].
  by rewrite parse_xor_mapped4.
Qed.

Lemma clampPort_range p : 1 <= clampPort p <= 65535.
Proof. unfold clampPort. destruct (Z.ltb_spec p 1); [lia|]. destruct (Z.ltb_spec 65535 p); lia. Qed.

Lemma clampPort_mono p q : p <= q → clampPort p <= clampPort q.
Proof.
  intros H. unfold clampPort. destruct (Z.ltb_spec p 1), (Z.ltb_spec q 1); try lia;
    destruct (Z.ltb_spec 65535 p), (Z.ltb_spec 65535 q); lia.
Qed.

Definition ports_from (p d : Z) (n : nat) : list Z := (λ i, p + Z.of_nat i * d) <$> seq 0 n.

Lemma ports_from_cons p d n : ports_from p d (S n) = p :: ports_from (p + d) d n.
Proof.
  unfold ports_from. cbn [seq fmap list_fmap]. f_equal; [lia|]. rewrite <- fmap_S_seq, <- list_fmap_compose.
  apply list_fmap_ext. intros _ i _. cbn. lia.
Qed.

Lemma deltas_from p d n : deltas_of (ports_from p d (S n)) = replicate n d.
Proof.
  revert p. induction n as [|n IH]; intros p; [done|]. rewrite ports_from_cons. specialize (IH (p + d)).
  rewrite ports_from_cons in IH |- *. cbn [deltas_of replicate] in *. rewrite IH. f_equal. lia.
Qed.

Lemma sum_replicate n d acc : foldl Z.add acc (replicate n d) = acc + d * Z.of_nat n.
Proof. revert acc. induction n as [|n IH]; intros acc; cbn [replicate foldl]; [lia|]. rewrite IH. lia. Qed.

Lemma mean_replicate n d :
  0 < d → d * Z.of_nat (S n) < 2 ^ 53 → mean (replicate (S n) d) = f_of_int d.
Proof.
  intros Hd Hmax. unfold mean. rewrite length_replicate. cbn [Nat.eqb].
  rewrite sum_replicate, Z.add_0_l. apply fdiv_int; nia.
Qed.

Lemma variance_replicate n d :
  0 < d → d * Z.of_nat (S n) < 2 ^ 53 → varianceInt (replicate (S n) d) (f_of_int d) = f_of_int 0.
Proof.
  intros Hd Hmax. assert (d < 2 ^ 53) by nia. unfold varianceInt. rewrite length_replicate. cbn [Nat.eqb].
  assert (∀ k, foldl (λ sum x, let t := fsub (f_of_int x) (f_of_int d) in fadd sum (fmul t t))
                 (f_of_int 0) (replicate k d) = f_of_int 0) as ->.
  { induction k as [|k IH]; [done|]. cbn [replicate foldl]. cbv zeta.
    rewrite fsub_int, Z.sub_diag, fmul_int, fadd_int by lia. exact IH. }
  pose proof (fdiv_int 0 (Z.of_nat (S n))) as E. rewrite Z.mul_0_l in E. apply E; nia.
Qed.

Lemma last_ports p d n : last (ports_from p d (S n)) = Some (p + Z.of_nat n * d).
Proof. unfold ports_from. rewrite seq_S, fmap_app. cbn [fmap list_fmap]. by rewrite last_snoc. Qed.

Lemma sort_by_time `{SliceSort} (c l : list PortSample) :
  c ≡ₚ l → StronglySorted Z.lt (Timestamp <$> l) → sort_slice (λ a b, Timestamp a <? Timestamp b) c = l.
Proof.
  intros Hp Hs. assert (StrictWeak (λ a b, Timestamp a <? Timestamp b)) as Hw by apply rank_strict_weak.
  apply (sorted_unique (λ a b, Timestamp a <? Timestamp b)).
  - intros x y Hx Hy Hxy Hyx. rewrite sort_slice_perm, Hp in Hx, Hy.
    assert (Timestamp x = Timestamp y) as E by lia. clear -Hs Hx Hy E.
    apply list_elem_of_lookup in Hx as [i Hi], Hy as [j Hj]. assert (NoDup (Timestamp <$> l)) as Hnd.
    { clear -Hs. induction Hs as [|t ts Hs IH Hall]; constructor; [|done].
      intros Hin. rewrite Forall_forall in Hall. specialize (Hall _ Hin). lia. }
    assert (i = j) as ->; [|congruence].
    apply (NoDup_lookup _ i j (Timestamp x) Hnd); rewrite list_lookup_fmap; [by rewrite Hi|]. rewrite Hj. cbn. by rewrite E.
  - by rewrite sort_slice_perm.
  - by apply sort_slice_sorted.
  - clear -Hs. induction l as [|x l IH]; [constructor|]. cbn in Hs. apply StronglySorted_inv in Hs as [Hs Hall].
    constructor; [by apply IH|]. rewrite Forall_fmap in Hall. eapply Forall_impl; [exact Hall|].
    intros y Hy. unfold not_after. cbn in Hy. lia.
Qed.
End StunFacts.

Module StunProperties.
Import NetAddr Stun StunFacts.

(** Reading a Binding response.  A success response that carries the XOR-mapped IPv4
    address and port of RFC 5389 as its first attribute, whatever follows, yields exactly
    that address and port when the transaction ID is the expected one, and is refused for
    any other transaction ID; and no datagram makes the parser panic. *)
Theorem binding_response (txID tx : vec byte 12) (ip rest msg : list byte) (port : Z)
    (Hip : length ip = 4%nat) (Hport : 0 <= port < 65536) (Hlen : Z.of_nat (length rest) <= 65503) :
  parseBindingResponse (success_response txID (xor_mapped4 ip port ++ rest)) txID = Ret (mkUDP (IPv4 ip) port) ∧
  (txID ≠ tx → parseBindingResponse (success_response txID (xor_mapped4 ip port ++ rest)) tx = Fail ErrTxID) ∧
  (Z.of_nat (length msg) <= 65535 → parseBindingResponse msg tx ≠ Panic).
Proof.
  split_and!.
  - rewrite parse_mapped4 by done. by rewrite bool_decide_eq_true_2.
  - intros Hne. rewrite parse_mapped4 by done. rewrite bool_decide_eq_false_2; [done|].
    intros E. apply Hne. by apply vec_to_list_inj2.
  - apply parseBindingResponse_no_panic.
Qed.

Definition sample_tx : vec byte 12 := [# x01; x02; x03; x04; x05; x06; x07; x08; x09; x0a; x0b; x0c].

Lemma binding_response_witness :
  parseBindingResponse (success_response sample_tx (xor_mapped4 [x08; x08; x04; x04] 5000 ++ [])) sample_tx =
  Ret (mkUDP (IPv4 [x08; x08; x04; x04]) 5000).
Proof.
  apply (binding_response sample_tx sample_tx [x08; x08; x04; x04] [] [] 5000); [done|lia|cbn; lia].
Defined.

(** For IPv6 the last twelve bytes come out still masked with the transaction ID. *)
Lemma binding_response_v6 :
  let ip := [x20; x01; x0d; xb8] ++ replicate 11 x00 ++ [x01] in
  parseBindingResponse (success_response sample_tx (xor_mapped6 sample_tx ip 5000)) sample_tx =
  Ret (mkUDP (take 4 ip ++ zip_with bxor (drop 4 ip) (vec_to_list sample_tx)) 5000).
Proof. by vm_compute. Qed.

(** Port prediction.  From at least two samples, in any order, whose ports grow by a
    constant positive step over time, the analysis recognises the linear pattern, predicts
    the last port plus the step, and gives the window of two steps around it.  Whatever the
    samples, a predicted window lies within the valid ports. *)
Theorem linear_prediction `{SliceSort} (c l : list PortSample) (p d : Z) (n : nat)
    (Hperm : c ≡ₚ l) (Htimes : StronglySorted Z.lt (Timestamp <$> l))
    (Hports : sPort <$> l = ports_from p d (S (S n))) (Hd : 0 < d <= 65535) (Hn : Z.of_nat n < 2 ^ 32) :
  AnalyzePortSequence c =
    predicted PatternLinear (p + Z.of_nat (S n) * d + d) (2 * d) l (replicate (S n) d) ∧
  ∀ c', let r := AnalyzePortSequence c' in
    Pattern r = PatternLinear ∨ Pattern r = PatternCyclic → 1 <= WindowStart r <= WindowEnd r ∧ WindowEnd r <= 65535.
Proof.
  split.
  - assert (length c = S (S n)) as Hc.
    { rewrite Hperm. rewrite <- (length_fmap sPort), Hports. unfold ports_from. by rewrite length_fmap, length_seq. }
    unfold AnalyzePortSequence. rewrite Hc. cbn [Nat.ltb Nat.leb]. rewrite (sort_by_time c l) by done.
    rewrite Hports, deltas_from, mean_replicate, variance_replicate, last_ports by nia.
    rewrite f_to_int64_int by lia. cbv zeta. unfold absInt. destruct (Z.ltb_spec d 0); [lia|].
    rewrite fmul_int, flt_int by nia. destruct (Z.eqb_spec d 0); [lia|].
    destruct (Z.ltb_spec 0 (d * d)); [|nia]. cbn [negb andb default]. f_equal. lia.
  - intros c' r. assert (∀ pat next w s ds, 0 <= w →
      1 <= WindowStart (predicted pat next w s ds) <= WindowEnd (predicted pat next w s ds) ∧
      WindowEnd (predicted pat next w s ds) <= 65535) as Hw.
    { intros pat next w s ds Hw. cbn. pose proof (clampPort_range (next - w)). pose proof (clampPort_range (next + w)).
      pose proof (clampPort_mono (next - w) (next + w)). lia. }
    assert (∀ x, 0 <= absInt x) as Habs by (intros x; unfold absInt; destruct (Z.ltb_spec x 0); lia).
    subst r. unfold AnalyzePortSequence. cbv zeta. destruct (_ <? _)%nat; [by intros [?|?]|].
    destruct (_ && _); [intros _; apply Hw; pose proof (Habs (f_to_int64 (mean (deltas_of (sPort <$> sort_slice (λ a b, Timestamp a <? Timestamp b) c'))))); lia|].
    destruct (isCyclic _); [intros _; apply Hw, Habs|]. by intros [?|?].
Qed.

Lemma linear_prediction_witness :
  let l := [mkSample 4000 "a" 1; mkSample 4003 "b" 2; mkSample 4006 "c" 3] in
  @AnalyzePortSequence stable_sort [mkSample 4006 "c" 3; mkSample 4000 "a" 1; mkSample 4003 "b" 2] =
  predicted PatternLinear 4009 6 l [3; 3].
Proof.
  intros l. apply (@linear_prediction stable_sort _ l 4000 3 1); [|repeat constructor|reflexivity|lia|cbn; lia].
  apply (Permutation_cons_append [mkSample 4000 "a" 1; mkSample 4003 "b" 2] (mkSample 4006 "c" 3)).
Defined.

(** The cyclic prediction always continues with the first step: after an odd number of
    alternating steps the next one is the second. *)
Lemma cyclic_wrong_phase :
  let samples := [mkSample 100 "" 1; mkSample 110 "" 2; mkSample 102 "" 3; mkSample 112 "" 4;
                  mkSample 104 "" 5; mkSample 114 "" 6] in
  let r := @AnalyzePortSequence stable_sort samples in
  Pattern r = PatternCyclic ∧ Deltas r = [10; -8; 10; -8; 10] ∧ NextPort r = 114 + 10.
Proof. by vm_compute. Qed.
End StunProperties.
