(* ===== verification/StunClient.v ===== *)
(** * The STUN exchange ([internal/stun]: client.go, pool.go, predict.go)

    [Binding] on a socket with its queue of received datagrams and the clock, and what is built
    on it: the classification of the NAT and the sampling of ports.  The network is a parameter:
    for each query, the datagrams it causes to arrive and when. *)

From S2P Require Import Prelude GoLib NetAddr Stun.

Open Scope Z_scope.

Module StunClient.
Import Stun.

(** [now] in nanoseconds; [sockets] are the open sockets, each with the datagrams that arrive on
    it in the order of their times, [None] once closed; [queries] counts the requests built. *)
Record World := mkWorld {
  now : Z;
  sockets : list (option (list (Z * list byte)));
  queries : nat;
}.

(** What the machine and the network do: opening a socket, the random source, address resolution,
    the socket calls before and during the write, and for the request of a query on a socket the
    datagrams it causes, with their delays. *)
Class Net := {
  n_listen : nat → bool;
  n_rand : nat → option (vec byte 12);
  n_resolve : string → bool;
  n_write : nat → bool;
  n_set_read : nat → bool;
  n_answers : nat → nat → string → list byte → list (Z * list byte);
}.

Inductive binding_error :=
| ErrNilConn
| ErrBuild
| ErrResolve
| ErrWrite
| ErrDeadline
| ErrRead
| ErrParse (e : stun_error).

Record StunClient := mkClient {
  Server : string;
  Timeout : Z;
}.

Definition NewStunClient (server : string) (timeout : Z) : StunClient :=
  mkClient server (if timeout <=? 0 then 3 * Second else timeout).

(** A datagram queues behind those that arrived before it. *)
Fixpoint arrive (x : Z * list byte) (q : list (Z * list byte)) : list (Z * list byte) :=
  match q with
  | [] => [x]
  | y :: q' => if y.1 <=? x.1 then y :: arrive x q' else x :: q
  end.

Definition deliver (t : Z) (ds : list (Z * list byte)) (q : list (Z * list byte)) : list (Z * list byte) :=
  foldl (λ q d, arrive (t + d.1, d.2) q) q ds.

Definition set_socket (id : nat) (q : option (list (Z * list byte))) (w : World) : World :=
  mkWorld (now w) (<[id := q]> (sockets w)) (queries w).

(** [ReadFrom] with a deadline: the first datagram, cut to the buffer, or an error when none has
    arrived by then; what arrives later stays queued. *)
Definition read_from (id : nat) (deadline : Z) (w : World) : World * option (list byte) :=
  match sockets w !! id with
  | Some (Some ((t, d) :: q)) =>
      if t <=? deadline
      then (mkWorld (Z.max (now w) t) (<[id := Some q]> (sockets w)) (queries w), Some (take 1500 d))
      else (mkWorld deadline (sockets w) (queries w), None)
  | Some (Some []) => (mkWorld deadline (sockets w) (queries w), None)
  | _ => (w, None)
  end.

Section Client.
Context `{Net}.

Definition Binding (c : StunClient) (conn : option nat) (w : World) : World * outcome binding_error UDPAddr :=
  match conn with
  | None => (w, Fail ErrNilConn)
  | Some id =>
      let k := queries w in
      let w := mkWorld (now w) (sockets w) (S k) in
      match n_rand k with
      | None => (w, Fail ErrBuild)
      | Some r =>
          let '(req, txID) := buildBindingRequest r in
          if negb (n_resolve (Server c)) then (w, Fail ErrResolve)
          else match sockets w !! id with
          | Some (Some q) =>
              if negb (n_write k) then (w, Fail ErrWrite)
              else
                let w := set_socket id (Some (deliver (now w) (n_answers k id (Server c) req) q)) w in
                if negb (n_set_read k) then (w, Fail ErrDeadline)
                else match read_from id (now w + Timeout c) w with
                | (w, None) => (w, Fail ErrRead)
                | (w, Some d) =>
                    match parseBindingResponse d txID with
                    | Ret a => (w, Ret a)
                    | Fail e => (w, Fail (ErrParse e))
                    | Panic => (w, Panic)
                    end
                end
          | _ => (w, Fail ErrWrite)
          end
      end
  end.

Definition portFromAddr (a : UDPAddr) : Z := Port a.

(** A copy of the servers; they are shared with the pool in the code, which changes none of them. *)
Definition All (servers : list StunServer) : list StunServer := servers.

Definition CheckHealth (timeout : Z) (servers : list StunServer) : list StunServer := servers.

Definition ListenUDP (w : World) : World * option nat :=
  let id := length (sockets w) in
  if n_listen id then (mkWorld (now w) (sockets w ++ [Some []]) (queries w), Some id) else (w, None).

Definition close (id : nat) (w : World) : World := set_socket id None w.

Inductive detect_error :=
| ErrServers
| ErrListen
| ErrQuery (k : nat) (e : binding_error)
| ErrUnstable.

(** The query number [k] of the classification, and the port it reports. *)
Definition query (k : nat) (c : StunClient) (id : nat) (w : World) : World * outcome detect_error Z :=
  match Binding c (Some id) w with
  | (w, Ret a) => (w, Ret (portFromAddr a))
  | (w, Fail e) => (w, Fail (ErrQuery k e))
  | (w, Panic) => (w, Panic)
  end.

(** The part of [DetectNATType] after the second socket is open. *)
Definition detect_second (c1 : StunClient) (port1 : Z) (conn2 : nat) (w : World) : World * outcome detect_error NATType :=
  match query 4 c1 conn2 w with
  | (w, Ret port4) => (w, Ret (if negb (port1 =? port4) then NATPortRestricted else NATFullCone))
  | (w, Fail e) => (w, Fail e)
  | (w, Panic) => (w, Panic)
  end.

(** The part of [DetectNATType] after the first socket is open. *)
Definition detect_first (s1 s2 : StunServer) (conn1 : nat) (w : World) : World * outcome detect_error NATType :=
  let timeout := 3 * Second in
  let c1 := NewStunClient (Addr s1) timeout in
  match query 1 c1 conn1 w with
  | (w, Ret port1) =>
      match query 2 c1 conn1 w with
      | (w, Ret port2) =>
          if negb (port1 =? port2) then (w, Fail ErrUnstable)
          else
            let c2 := NewStunClient (Addr s2) timeout in
            match query 3 c2 conn1 w with
            | (w, Ret port3) =>
                if negb (port1 =? port3) then (w, Ret NATSymmetric)
                else
                  match ListenUDP w with
                  | (w, None) => (w, Fail ErrListen)
                  | (w, Some conn2) =>
                      let '(w, r) := detect_second c1 port1 conn2 w in (close conn2 w, r)
                  end
            | (w, Fail e) => (w, Fail e)
            | (w, Panic) => (w, Panic)
            end
      | (w, Fail e) => (w, Fail e)
      | (w, Panic) => (w, Panic)
      end
  | (w, Fail e) => (w, Fail e)
  | (w, Panic) => (w, Panic)
  end.

(** An error goes with [NATUnknown] in the code. *)
Definition DetectNATType (pool : list StunServer) (w : World) : World * outcome detect_error NATType :=
  match All pool with
  | s1 :: s2 :: _ =>
      let '(s1, s2) := if Latency s1 >? Latency s2 then (s2, s1) else (s1, s2) in
      match ListenUDP w with
      | (w, None) => (w, Fail ErrListen)
      | (w, Some conn1) => let '(w, r) := detect_first s1 s2 conn1 w in (close conn1 w, r)
      end
  | _ => (w, Fail ErrServers)
  end.

(** ** Sampling (predict.go) *)

Definition sample_one (timeout : Z) (conn : option nat) (srv : StunServer) (st : World * list PortSample) :
    World * list PortSample :=
  let '(w, samples) := st in
  match Binding (NewStunClient (Addr srv) timeout) conn w with
  | (w, Ret addr) => (w, samples ++ [mkSample (portFromAddr addr) (Addr srv) (now w)])
  | (w, _) => (w, samples)
  end.

Definition sample_count (n : Z) (servers : nat) : Z :=
  let n := if n <? 4 then 4 else n in
  let n := if 32 <? n then 32 else n in
  if Z.of_nat servers <? n then Z.of_nat servers else n.

(** [None] stands for the two errors. *)
Definition SamplePorts (pool : list StunServer) (conn : option nat) (sampleCount timeout : Z) (w : World) :
    World * option (list PortSample) :=
  let servers := All pool in
  if (length servers <? 2)%nat then (w, None)
  else
    let n := sample_count sampleCount (length servers) in
    let '(w, samples) :=
      foldl (λ st i, match servers !! (i mod length servers)%nat with
                     | Some srv => sample_one timeout conn srv st
                     | None => st
                     end) (w, []) (seq 0 (Z.to_nat n)) in
    if (length samples <? 2)%nat then (w, None) else (w, Some samples).
End Client.
End StunClient.

Module StunClientFacts.
Import NetAddr Stun StunFacts StunClient.

Section Facts.
Context `{Net}.


Lemma Timeout_new server t : 0 < Timeout (NewStunClient server t).
Proof. unfold NewStunClient. cbn. destruct (Z.leb_spec t 0); unfold Second; lia. Qed.

(** The network reports the sender's address: the answer to each query arrives within [3 s] and
    carries the port that the NAT gives to the socket and the server. *)
Record honest_net (ip : list byte) (port : nat → string → Z) : Prop := {
  hn_ip : length ip = 4%nat;
  hn_port id srv : 0 <= port id srv < 65536;
  hn_listen id : n_listen id = true;
  hn_resolve srv : n_resolve srv = true;
  hn_write k : n_write k = true;
  hn_set_read k : n_set_read k = true;
  hn_answer k : ∃ r, n_rand k = Some r ∧ ∀ id srv, ∃ d, 0 <= d <= 3 * Second ∧
    n_answers k id srv (buildBindingRequest r).1 = [(d, success_response r (xor_mapped4 ip (port id srv)))];
}.










(** ** A late answer *)




End Facts.
End StunClientFacts.

Module StunClientProperties.
Import NetAddr Stun StunFacts StunClient StunClientFacts.

Section Properties.
Context `{Net}.


End Properties.

(** ** A network of four servers; the first one answers its first query late *)

Definition tx_of (k : nat) : vec byte 12 := arr_copy 12 [Zb (Z.of_nat k)].
Definition slow_first : Net := {|
  n_listen _ := true;
  n_rand k := Some (tx_of (k mod 2));
  n_resolve _ := true;
  n_write _ := true;
  n_set_read _ := true;
  n_answers k id srv req :=
    [(if (k =? 0)%nat then 3 * Second + 1 else Second, success_response (tx_of (k mod 2)) (xor_mapped4 [x08; x08; x04; x04] 5000))];
|}.

Definition four_servers : list StunServer := NewPool ["a:3478"; "b:3478"; "c:3478"; "d:3478"].
Definition one_socket : World := mkWorld 0 [Some []] 0.

(** The four samples of [SamplePorts] are lost to the one late answer. *)
Lemma sampling_lost : (@SamplePorts slow_first four_servers (Some 0%nat) 4 0 one_socket).2 = None.
Proof. vm_compute. reflexivity. Qed.

Definition steady : Net := {|
  n_listen _ := true;
  n_rand k := Some (tx_of (k mod 2));
  n_resolve _ := true;
  n_write _ := true;
  n_set_read _ := true;
  n_answers k id srv req :=
    [(Second, success_response (tx_of (k mod 2)) (xor_mapped4 [x08; x08; x04; x04] 5000))];
|}.




(** The steady network is also an honest one. *)
Lemma steady_is_honest : @honest_net steady [x08; x08; x04; x04] (λ _ _, 5000).
Proof. split; intros; cbn; try (done || lia). exists (tx_of (k mod 2)). split; [done|]. intros id srv. by exists Second. Qed.

(** Four timeouts are reached: three answers in the last moment, and none to the fourth query. *)
Definition sluggish : Net := {|
  n_listen _ := true;
  n_rand k := Some (tx_of (k mod 2));
  n_resolve _ := true;
  n_write _ := true;
  n_set_read _ := true;
  n_answers k id srv req :=
    if (k =? 3)%nat then []
    else [(3 * Second, success_response (tx_of (k mod 2)) (xor_mapped4 [x08; x08; x04; x04] 5000))];
|}.

Lemma twelve_seconds : now (@DetectNATType sluggish four_servers (mkWorld 0 [] 0)).1 = 12 * Second.
Proof. vm_compute. reflexivity. Qed.
End StunClientProperties.
