(* ===== verification/ServerMesh.v ===== *)
(** The server mesh (src/internal/servermesh): the table of known servers (servertable.go) and
    the mesh around it (mesh.go). *)
From S2P Require Export Prelude GoLib.
From stdpp Require Import gmap strings list.

Local Open Scope Z_scope.

Module ServerMesh.

Record ServerEntry := mkEntry {
  Addr : string;
  PubKey : vec byte 32;
  ID : string;
  LastSeen : Z;
  Load : Z;
  IsRoot : bool;
}.

(** The map keyed by ID. *)
Abbreviation ServerTable := (gmap string ServerEntry).

Definition NewServerTable : ServerTable := ∅.
Definition Add (e : ServerEntry) (t : ServerTable) : ServerTable := <[ID e := e]> t.
Definition Get (id : string) (t : ServerTable) : option ServerEntry := t !! id.
Definition Remove (id : string) (t : ServerTable) : ServerTable := delete id t.
(** [range] over the map: in no specified order. *)
Definition ListServers (t : ServerTable) : list ServerEntry := snd <$> map_to_list t.

(** The number removed and the new table; [range] with [delete] visits every entry once. *)
Definition RemoveExpired (now timeout : Z) (t : ServerTable) : Z * ServerTable :=
  let cutoff := now - timeout in
  let kept : ServerTable := filter (λ kv, ¬ LastSeen kv.2 < cutoff) t in
  (Z.of_nat (size (filter (λ kv, LastSeen kv.2 < cutoff) t)), kept).

Record Mesh := mkMesh {
  table : ServerTable;
  peers : list string;
  localID : string;
}.

Definition NewMesh (localID : string) : Mesh := mkMesh NewServerTable [] localID.
Definition SetPeers (peers : list string) (m : Mesh) : Mesh := mkMesh (table m) peers (localID m).
Definition Peers (m : Mesh) : list string := peers m.
Definition Table (m : Mesh) : ServerTable := table m.

Definition AnnounceSelf (now : Z) (addr : string) (pubKey : vec byte 32) (m : Mesh) : Mesh :=
  mkMesh (Add (mkEntry addr pubKey (localID m) now 0 true) (table m)) (peers m) (localID m).

(** One tick of [cleanupLoop], which runs every 30 seconds with a timeout of 90. *)
Definition cleanup_tick (now : Z) (m : Mesh) : Z * Mesh :=
  let '(removed, t) := RemoveExpired now (90 * Second) (table m) in
  (removed, mkMesh t (peers m) (localID m)).

(** ** The loops of [Start] *)

(** The mesh with its clock: when each ticker fires next, and whether its loop still runs.
    [rounds] are the sizes that [doGossip] logs, its only effect. *)
Record Running := mkRunning {
  mesh : Mesh;
  clock : Z;
  next_gossip : Z;
  next_cleanup : Z;
  cancelled : bool;
  gossiping : bool;
  cleaning : bool;
  rounds : list (nat * nat);
}.

Definition Start (now : Z) (m : Mesh) : Running :=
  mkRunning m now (now + 60 * Second) (now + 30 * Second) false true true [].

Definition doGossip (m : Mesh) : nat * nat := (length (ListServers (table m)), length (peers m)).

Definition set_mesh (m : Mesh) (r : Running) : Running :=
  mkRunning m (clock r) (next_gossip r) (next_cleanup r) (cancelled r) (gossiping r) (cleaning r) (rounds r).

(** A round of [gossipLoop]: the tick is handled, or the loop sees the cancelled context. *)
Definition gossip_tick (r : Running) : option Running :=
  if gossiping r && (next_gossip r <=? clock r)
  then Some (mkRunning (mesh r) (clock r) (next_gossip r + 60 * Second) (next_cleanup r) (cancelled r) true (cleaning r)
               (rounds r ++ [doGossip (mesh r)]))
  else None.

Definition gossip_return (r : Running) : option Running :=
  if gossiping r && cancelled r
  then Some (mkRunning (mesh r) (clock r) (next_gossip r) (next_cleanup r) true false (cleaning r) (rounds r))
  else None.

(** A round of [cleanupLoop]. *)
Definition cleanup_round (r : Running) : option Running :=
  if cleaning r && (next_cleanup r <=? clock r)
  then Some (mkRunning (cleanup_tick (clock r) (mesh r)).2 (clock r) (next_gossip r) (next_cleanup r + 30 * Second)
               (cancelled r) (gossiping r) true (rounds r))
  else None.

Definition cleanup_return (r : Running) : option Running :=
  if cleaning r && cancelled r
  then Some (mkRunning (mesh r) (clock r) (next_gossip r) (next_cleanup r) true (gossiping r) false (rounds r))
  else None.

(** What happens: calls on the mesh, the passing of time up to the next tick of a loop that runs, the
    rounds of the loops, and the cancellation. *)
Inductive event :=
| EAnnounce (addr : string) (pubKey : vec byte 32)
| EAdd (e : ServerEntry)
| ERemove (id : string)
| ESetPeers (ps : list string)
| EWait (t : Z)
| EGossip
| EGossipReturn
| ECleanup
| ECleanupReturn
| ECancel.

Definition happen (ev : event) (r : Running) : option Running :=
  match ev with
  | EAnnounce addr key => Some (set_mesh (AnnounceSelf (clock r) addr key (mesh r)) r)
  | EAdd e => Some (set_mesh (mkMesh (Add e (table (mesh r))) (peers (mesh r)) (localID (mesh r))) r)
  | ERemove id => Some (set_mesh (mkMesh (Remove id (table (mesh r))) (peers (mesh r)) (localID (mesh r))) r)
  | ESetPeers ps => Some (set_mesh (SetPeers ps (mesh r)) r)
  | EWait t =>
      if (clock r <=? t) && (negb (gossiping r) || (t <=? next_gossip r)) && (negb (cleaning r) || (t <=? next_cleanup r))
      then Some (mkRunning (mesh r) t (next_gossip r) (next_cleanup r) (cancelled r) (gossiping r) (cleaning r) (rounds r))
      else None
  | EGossip => gossip_tick r
  | EGossipReturn => gossip_return r
  | ECleanup => cleanup_round r
  | ECleanupReturn => cleanup_return r
  | ECancel => Some (mkRunning (mesh r) (clock r) (next_gossip r) (next_cleanup r) true (gossiping r) (cleaning r) (rounds r))
  end.

(** The states of a mesh started empty; an entry added from outside was seen at that moment. *)
Inductive reachable (start : Z) (id : string) : Running → Prop :=
| reach_start : reachable start id (Start start (NewMesh id))
| reach_step r ev r' : reachable start id r →
    (∀ e, ev = EAdd e → LastSeen e = clock r) → happen ev r = Some r' → reachable start id r'.

End ServerMesh.

Module ServerMeshFacts.
Import ServerMesh.

(** Entries are filed under their own ID. *)
Definition filed (t : ServerTable) : Prop := ∀ id e, t !! id = Some e → ID e = id.

Lemma Add_filed e t : filed t → filed (Add e t).
Proof. intros Ht. unfold Add. intros id x [[<- <-]|[_ Hx]]%lookup_insert_Some; [done|by apply Ht]. Qed.

(** Expiry keeps exactly the entries seen within the timeout and counts the others. *)
Lemma RemoveExpired_spec now timeout t :
  let '(removed, t') := RemoveExpired now timeout t in
  (∀ id e, t' !! id = Some e ↔ t !! id = Some e ∧ now - timeout <= LastSeen e) ∧
  removed + Z.of_nat (size t') = Z.of_nat (size t).
Proof.
  unfold RemoveExpired. split.
  - intros id e. rewrite map_lookup_filter_Some. cbn. split; intros [? ?]; split; (done || lia).
  - rewrite <- Nat2Z.inj_add. f_equal. rewrite <- map_size_disj_union by apply map_disjoint_filter_complement.
    by rewrite map_filter_union_complement.
Qed.

(** A server that announced itself once drops out of its own table: every tick later than 90
    seconds after the announcement removes it. *)
Lemma self_expires now later addr key m :
  now + 90 * Second < later →
  Get (localID m) (table (cleanup_tick later (AnnounceSelf now addr key m)).2) = None.
Proof.
  intros Hlate. unfold cleanup_tick, AnnounceSelf. cbn [table localID peers].
  pose proof (RemoveExpired_spec later (90 * Second) (Add (mkEntry addr key (localID m) now 0 true) (table m))) as Hs.
  destruct (RemoveExpired _ _ _) as [n t']. destruct Hs as [Hs _]. cbn [snd table]. unfold Get.
  destruct (t' !! localID m) as [e|] eqn:E; [|done]. apply Hs in E as [E Hseen].
  unfold Add in E. cbn [ID] in E. rewrite lookup_insert_eq in E. injection E as <-. cbn in Hseen. lia.
Qed.
End ServerMeshFacts.

Module ServerMeshProperties.
Import ServerMesh ServerMeshFacts.

(** While the cleanup loop runs, the clock has not passed its next tick, and no entry is older than
    the last tick allowed. *)
Definition fresh (r : Running) : Prop :=
  cleaning r = true → clock r <= next_cleanup r ∧
  ∀ id e, table (mesh r) !! id = Some e → next_cleanup r - 120 * Second <= LastSeen e.

Lemma fresh_reachable start id r : reachable start id r → fresh r ∧ filed (table (mesh r)) ∧ localID (mesh r) = id ∧
  (cleaning r = true → next_cleanup r - 30 * Second <= clock r).
Proof.
  induction 1 as [|r ev r' Hr (Hf & Hfi & Hid & Hlo) Hadd Hev].
  { split_and!; cbn; try done; [|unfold Second; lia]. intros _. split; [cbn; unfold Second; lia|done]. }
  assert (∀ k m, k = clock r → filed (table m) → localID m = id → (∀ i e, table m !! i = Some e → table (mesh r) !! i = Some e ∨ LastSeen e = k) →
    fresh (set_mesh m r) ∧ filed (table m) ∧ localID m = id ∧ (cleaning r = true → next_cleanup r - 30 * Second <= clock r)) as Hset.
  { intros k m -> Hfm Hidm Hold. split_and!; try done. intros Hc. destruct (Hf Hc) as [Hle Hall]. split; [done|]. cbn.
    intros i e [E|E]%Hold; [by apply (Hall i)|]. specialize (Hlo Hc). unfold Second in *. lia. }
  destruct ev; cbn in Hev.
  - simplify_eq. apply (Hset (clock r)); try done; [by apply Add_filed|].
    cbn. unfold Add. intros i e [[_ <-]|[_ ?]]%lookup_insert_Some; [by right|by left].
  - simplify_eq. apply (Hset (clock r)); try done; [by apply Add_filed|].
    cbn. unfold Add. intros i e' [[_ <-]|[_ ?]]%lookup_insert_Some; [right; by apply Hadd|by left].
  - simplify_eq. apply (Hset (clock r)); try done.
    + cbn. unfold Remove. by intros i e [_ ?%Hfi]%lookup_delete_Some.
    + cbn. unfold Remove. intros i e [_ ?]%lookup_delete_Some. by left.
  - simplify_eq. apply (Hset (clock r)); try done. by left.
  - destruct (_ && _) eqn:E; simplify_eq. apply andb_true_iff in E as [[E1 _]%andb_true_iff E2]. apply Z.leb_le in E1.
    split_and!; try done; cbn.
    + intros Hc. cbn in Hc. rewrite Hc in E2. cbn in E2. apply Z.leb_le in E2. destruct (Hf Hc) as [_ Hall]. done.
    + intros Hc. specialize (Hlo Hc). lia.
  - unfold gossip_tick in Hev. destruct (_ && _); simplify_eq. done.
  - unfold gossip_return in Hev. destruct (_ && _); simplify_eq. done.
  - unfold cleanup_round in Hev. destruct (_ && _) eqn:E; simplify_eq. apply andb_true_iff in E as [Hc E%Z.leb_le].
    destruct (Hf Hc) as [Hle _]. specialize (Hlo Hc). unfold cleanup_tick.
    pose proof (RemoveExpired_spec (clock r) (90 * Second) (table (mesh r))) as Hs.
    destruct (RemoveExpired _ _ _) as [n t]. destruct Hs as [Hs _]. cbn. split_and!.
    + intros _. cbn. split; [unfold Second; lia|]. intros i e [_ He]%Hs. unfold Second in *. lia.
    + by intros i e [?%Hfi _]%Hs.
    + done.
    + intros _. lia.
  - unfold cleanup_return in Hev. destruct (_ && _); simplify_eq. split_and!; try done.
  - by simplify_eq.
Qed.

(** C36: How long the mesh remembers a server.  While the cleanup loop runs, every entry of the table was
    seen within the last 120 seconds, 90 for the timeout and 30 for the tick; and no event removes an
    entry seen within the last 90 seconds except a call that removes or replaces that server. *)
Theorem expiry_window (start : Z) (local : string) (r : Running) (Hr : reachable start local r) :
  (cleaning r = true → ∀ id e, table (mesh r) !! id = Some e → clock r - LastSeen e <= 120 * Second) ∧
  (∀ ev r' id e, happen ev r = Some r' → table (mesh r) !! id = Some e → clock r - LastSeen e <= 90 * Second →
     table (mesh r') !! id = Some e ∨ ev = ERemove id ∨ (∃ e', ev = EAdd e' ∧ ID e' = id) ∨
     (∃ a k, ev = EAnnounce a k ∧ id = local)).
Proof.
  destruct (fresh_reachable _ _ _ Hr) as (Hf & Hfi & Hid & _). split.
  { intros Hc id e He. destruct (Hf Hc) as [Hle Hall]. specialize (Hall id e He). lia. }
  intros ev r' id e Hev He Hseen. destruct ev; cbn in Hev;
    unfold gossip_tick, gossip_return, cleanup_round, cleanup_return in Hev;
    try (destruct (_ && _); [|done]); simplify_eq; try (by left); cbn.
  - destruct (decide (id = localID (mesh r))) as [->|]; [right; right; right; by eexists _, _|left].
    by rewrite lookup_insert_ne.
  - destruct (decide (id = ID e0)) as [->|]; [right; right; left; by eexists|left]. unfold Add. by rewrite lookup_insert_ne.
  - destruct (decide (id = id0)) as [->|]; [by right; left|left]. unfold Remove. by rewrite lookup_delete_ne.
  - left. apply map_lookup_filter_Some. split; [done|]. cbn. lia.
Qed.

Fixpoint run_all (evs : list event) (r : Running) : option Running :=
  match evs with
  | [] => Some r
  | ev :: evs => match happen ev r with Some r' => run_all evs r' | None => None end
  end.

(** Announced at 0; the tick at 90 seconds keeps the entry, the one at 120 removes it. *)
Definition self_events : list event :=
  [EAnnounce "10.0.0.1:7000" (arr_copy 32 []); EWait (30 * Second); ECleanup; EWait (60 * Second); EGossip; ECleanup;
   EWait (90 * Second); ECleanup].
Definition self_run : Running := default (Start 0 (NewMesh "s1")) (run_all self_events (Start 0 (NewMesh "s1"))).

Lemma run_all_reachable start id evs r r' :
  reachable start id r → Forall (λ ev, match ev with EAdd _ => False | _ => True end) evs → run_all evs r = Some r' →
  reachable start id r'.
Proof.
  intros Hr Hevs. revert r Hr. induction Hevs as [|ev evs Hev _ IH]; intros r Hr E; cbn in E; [by simplify_eq|].
  destruct (happen ev r) as [r1|] eqn:Hh; [|done]. apply (IH r1); [|done].
  apply (reach_step _ _ r ev r1); [done| |done]. intros e ->. done.
Qed.

Lemma expiry_window_witness :
  (∀ id e, table (mesh self_run) !! id = Some e → clock self_run - LastSeen e <= 120 * Second) ∧
  size (table (mesh self_run)) = 1%nat ∧
  size (table (mesh (default self_run (run_all [EWait (120 * Second); EGossip; ECleanup] self_run)))) = 0%nat.
Proof.
  split; [|split; vm_compute; reflexivity].
  apply (expiry_window 0 "s1" self_run); [|reflexivity].
  apply (run_all_reachable _ _ self_events (Start 0 (NewMesh "s1"))); [constructor|repeat constructor|vm_compute; reflexivity].
Defined.
End ServerMeshProperties.
