(* ===== verification/Storage.v ===== *)
(** * The persistence layer ([internal/storage]: store.go, sqlstore.go, factory.go)

    The [Store] interface as a class, its SQL implementation over the tables of the embedded
    migrations, the no-op implementation, and the scripts' statement splitter.  The database
    is its tables and its schema; what the statements of sqlstore.go do to the tables is
    written out for SQLite, the driver that is linked in.  A driver failure, the enforcement
    of foreign keys (a connection setting), the order of rows that a query does not fix, the
    execution of schema scripts and sqlx's connecting and rebinding are parameters. *)

From S2P Require Import Prelude GoLib MeshTypes PortControl Room.

Open Scope Z_scope.

Module Storage.

(** ** Records (store.go) *)

Definition NodeStatusOnline : string := "online".
Definition NodeStatusOffline : string := "offline".

Record Node := mkNode {
  ID : string;
  PubKey : list byte;
  nRoomID : string;
  IPv6Addr : string;
  IPv4Addr : string;
  PublicAddr : string;
  NATType : string;
  Status : string;
  CreatedAt : Z;
  LastSeen : Z;
}.

(** [storage.PortRule] is the record the persistence of rules uses. *)
Abbreviation PortRule := PortControl.StoredRule.

(** [types.Room]: the fields of the room manager and the creation time. *)
Record Room := mkRoom {
  rRoom : Room.Room;
  rCreatedAt : Z;
}.

Record APIUser := mkUser {
  uID : string;
  Username : string;
  PasswordHash : string;
  Role : string;
  uCreatedAt : Z;
  LastLogin : option Z;
}.

Record NodeFilter := mkFilter {
  fRoomID : string;
  fStatus : string;
  fLimit : Z;
  fOffset : Z;
}.

Record DatabaseConfig := mkDbConfig {
  dbType : string;
  DSN : string;
  MaxOpenConns : Z;
  MaxIdleConns : Z;
}.

(** Errors: the package's own, [sql.ErrNoRows], what the driver reports, and the wrappers. *)
Inductive store_error :=
| ErrNotImplemented
| ErrNodeIDConflict (id : string)
| ErrNoRows
| ErrDriver (msg : string)
| ErrLookUp (id : string) (e : store_error)
| ErrUnbind (id : string) (e : store_error)
| ErrUnsupportedDriver (name : string)
| ErrConnect (name msg : string)
| ErrMigration (name msg : string)
| ErrMigrate (e : store_error)
| ErrMongo
| ErrUnsupportedType (name : string).

(** [errors.Is(err, sql.ErrNoRows)]. *)
Fixpoint is_no_rows (e : store_error) : bool :=
  match e with
  | ErrNoRows => true
  | ErrLookUp _ e | ErrUnbind _ e | ErrMigrate e => is_no_rows e
  | _ => false
  end.

(** [Store]: a call takes the clock readings it makes, and returns the new store with its
    result; a query leaves the store as it is. *)
Class Store (S : Type) := {
  RegisterNode : Z → Z → Node → S → S * outcome store_error ();
  GetNode : string → S → outcome store_error Node;
  ListNodes : NodeFilter → S → outcome store_error (list Node);
  UpdateNodeStatus : Z → string → string → S → S * outcome store_error ();
  DeleteNode : string → S → S * outcome store_error ();
  UnbindNodeID : string → S → S * outcome store_error ();
  CreateRoom : Z → Room.Room → S → S * outcome store_error ();
  GetRoom : string → S → outcome store_error Room;
  ListRooms : S → outcome store_error (list Room);
  AddRoomMember : Z → string → string → S → S * outcome store_error ();
  RemoveRoomMember : string → string → S → S * outcome store_error ();
  ListRoomMembers : string → S → outcome store_error (list Node);
  SetPortRule : Z → PortRule → S → S * outcome store_error ();
  GetPortRules : string → S → outcome store_error (list PortRule);
  DeletePortRule : string → S → S * outcome store_error ();
  CreateAPIUser : Z → APIUser → S → S * outcome store_error ();
  GetAPIUser : string → S → outcome store_error APIUser;
  RevokeAPIToken : string → S → S * outcome store_error ();
  Close : S → S * outcome store_error ();
}.

(** The store that is not there yet. *)
Inductive noopStore := mkNoop.

#[export] Instance noop_Store : Store noopStore := {|
  RegisterNode _ _ _ s := (s, Fail ErrNotImplemented);
  GetNode _ _ := Fail ErrNotImplemented;
  ListNodes _ _ := Fail ErrNotImplemented;
  UpdateNodeStatus _ _ _ s := (s, Fail ErrNotImplemented);
  DeleteNode _ s := (s, Fail ErrNotImplemented);
  UnbindNodeID _ s := (s, Fail ErrNotImplemented);
  CreateRoom _ _ s := (s, Fail ErrNotImplemented);
  GetRoom _ _ := Fail ErrNotImplemented;
  ListRooms _ := Fail ErrNotImplemented;
  AddRoomMember _ _ _ s := (s, Fail ErrNotImplemented);
  RemoveRoomMember _ _ s := (s, Fail ErrNotImplemented);
  ListRoomMembers _ _ := Fail ErrNotImplemented;
  SetPortRule _ _ s := (s, Fail ErrNotImplemented);
  GetPortRules _ _ := Fail ErrNotImplemented;
  DeletePortRule _ s := (s, Fail ErrNotImplemented);
  CreateAPIUser _ _ s := (s, Fail ErrNotImplemented);
  GetAPIUser _ _ := Fail ErrNotImplemented;
  RevokeAPIToken _ s := (s, Fail ErrNotImplemented);
  Close s := (s, Ret ());
|}.

(** ** Scripts (sqlstore.go) *)

Definition is_space (c : byte) : bool :=
  (bZ c =? 32) || (bZ c =? 9) || (bZ c =? 10) || (bZ c =? 13).

(** The two loops of [trimSpace]. *)
Fixpoint skip_space (s : list byte) : list byte :=
  match s with
  | [] => []
  | c :: r => if is_space c then skip_space r else s
  end.

Definition trimSpace (s : list byte) : list byte := rev (skip_space (rev (skip_space s))).

Definition quote : byte := x27.
Definition semicolon : byte := x3b.

(** The statement in [current] is kept unless it is blank. *)
Definition keep (current : list byte) : list (list byte) :=
  if (length (trimSpace current) =? 0)%nat then [] else [current].

Fixpoint split_loop (script current : list byte) (inString : bool) : list (list byte) :=
  match script with
  | [] => if (0 <? length current)%nat then keep current else []
  | ch :: rest =>
      let inString := if bool_decide (ch = quote) then negb inString else inString in
      if bool_decide (ch = semicolon) && negb inString then keep current ++ split_loop rest [] inString
      else split_loop rest (current ++ [ch]) inString
  end.

Definition splitStatements (script : list byte) : list (list byte) := split_loop script [] false.

(** The loop of [containsStr] over the start positions [i], [i+1], ..., [n] of them left. *)
Fixpoint contains_loop (n i : nat) (s substr : list byte) : bool :=
  match n with
  | O => false
  | S n =>
      if bool_decide (take (length substr) (drop i s) = substr) then true
      else contains_loop n (S i) s substr
  end.

Definition containsStr (s substr : list byte) : bool :=
  if (length substr =? 0)%nat then true
  else contains_loop (length s + 1 - length substr) 0 s substr.

Definition isDuplicateColumnErr (err : option string) : bool :=
  match err with
  | None => false
  | Some msg => containsStr (bytes_of msg) (bytes_of "duplicate column")
  end.

(** ** The database *)

(** A row of [api_tokens]. *)
Record APIToken := mkToken {
  tUserID : string;
  tHash : string;
  tExpires : Z;
  tRevoked : bool;
}.

(** The tables of migrations/001_init.sql by primary key. *)
Record Tables := mkTables {
  nodes : gmap string Node;
  rooms : gmap string Room;
  room_members : gmap (string * string) Z;
  port_rules : gmap string PortRule;
  api_users : gmap string APIUser;
  api_tokens : gmap string APIToken;
}.

Definition empty_tables : Tables := mkTables ∅ ∅ ∅ ∅ ∅ ∅.

Definition with_nodes (v : gmap string Node) (t : Tables) : Tables :=
  mkTables v (rooms t) (room_members t) (port_rules t) (api_users t) (api_tokens t).
Definition with_rooms (v : gmap string Room) (t : Tables) : Tables :=
  mkTables (nodes t) v (room_members t) (port_rules t) (api_users t) (api_tokens t).
Definition with_members (v : gmap (string * string) Z) (t : Tables) : Tables :=
  mkTables (nodes t) (rooms t) v (port_rules t) (api_users t) (api_tokens t).
Definition with_rules (v : gmap string PortRule) (t : Tables) : Tables :=
  mkTables (nodes t) (rooms t) (room_members t) v (api_users t) (api_tokens t).
Definition with_users (v : gmap string APIUser) (t : Tables) : Tables :=
  mkTables (nodes t) (rooms t) (room_members t) (port_rules t) v (api_tokens t).
Definition with_tokens (v : gmap string APIToken) (t : Tables) : Tables :=
  mkTables (nodes t) (rooms t) (room_members t) (port_rules t) (api_users t) v.

(** The columns of each table. *)
Abbreviation Schema := (gmap string (gset string)).

(** The driver.  [fault q t] is the error the driver reports for the statement named [q] for
    a reason of its own (the disk, a lock); such a statement has no effect.  [ddl] executes a
    schema statement. *)
Class Engine := {
  foreign_keys : bool;
  fault : string → Tables → option string;
  row_order :: SliceSort;
  ddl : string → Schema → Schema * option string;
  sqlx_connect : string → string → (Schema * Tables) + string;
  sqlx_rebind : string → string;
}.

Record SQLStore := mkSQL {
  schema : Schema;
  tables : Tables;
  is_open : bool;
  placeholder : string;
}.

Definition set_tables (t : Tables) (s : SQLStore) : SQLStore :=
  mkSQL (schema s) t (is_open s) (placeholder s).

Section SQL.
Context `{Engine}.

(** ** Opening (NewSQLStore, migrate) *)

Fixpoint run_statements (stmts : list (list byte)) (sch : Schema) : Schema * option string :=
  match stmts with
  | [] => (sch, None)
  | stmt :: rest =>
      let stmt := trimSpace stmt in
      if (length stmt =? 0)%nat then run_statements rest sch
      else
        let '(sch, err) := ddl (string_of stmt) sch in
        match err with
        | None => run_statements rest sch
        | Some msg => if isDuplicateColumnErr (Some msg) then run_statements rest sch else (sch, Some msg)
        end
  end.

(** Errors are values here, [None] for nil. *)
Definition runAlterStatements (script name : string) (s : SQLStore) : SQLStore * option store_error :=
  let '(sch, err) := run_statements (splitStatements (bytes_of script)) (schema s) in
  (mkSQL sch (tables s) (is_open s) (placeholder s), ErrMigration name <$> err).

(** The three embedded scripts are arguments. *)
Definition migrate (migrationSQL migrationIPv4SQL migrationAllowedRoomsSQL : string) (s : SQLStore) :
    SQLStore * option store_error :=
  let '(sch, err) := ddl migrationSQL (schema s) in
  let s := mkSQL sch (tables s) (is_open s) (placeholder s) in
  match err with
  | Some msg => (s, Some (ErrMigration "001" msg))
  | None =>
      let '(s, err) := runAlterStatements migrationIPv4SQL "002" s in
      match err with
      | Some e => (s, Some e)
      | None => runAlterStatements migrationAllowedRoomsSQL "003" s
      end
  end.

Definition NewSQLStore (m1 m2 m3 driverName dsn : string) (maxOpen maxIdle : Z) : SQLStore + store_error :=
  let connect drv ph :=
    match sqlx_connect drv dsn with
    | inr msg => inr (ErrConnect driverName msg)
    | inl (sch, t) =>
        match migrate m1 m2 m3 (mkSQL sch t true ph) with
        | (_, Some e) => inr (ErrMigrate e)
        | (s, None) => inl s
        end
    end in
  if String.eqb driverName "sqlite" then connect "sqlite" "?"
  else if String.eqb driverName "mysql" then connect "mysql" "?"
  else if String.eqb driverName "postgresql" || String.eqb driverName "postgres" || String.eqb driverName "pgx"
  then connect "pgx" "$1"
  else inr (ErrUnsupportedDriver driverName).

(** A value of the interface type: nil, a [*SQLStore] (itself possibly nil), or the no-op. *)
Inductive StoreValue :=
| NilStore
| SQLPointer (s : option SQLStore)
| NoopValue.

Definition NewStore (m1 m2 m3 : string) (cfg : DatabaseConfig) : StoreValue * option store_error :=
  let sql driver :=
    match NewSQLStore m1 m2 m3 driver (DSN cfg) (MaxOpenConns cfg) (MaxIdleConns cfg) with
    | inl s => (SQLPointer (Some s), None)
    | inr e => (SQLPointer None, Some e)
    end in
  if String.eqb (dbType cfg) "sqlite" then sql "sqlite"
  else if String.eqb (dbType cfg) "mysql" then sql "mysql"
  else if String.eqb (dbType cfg) "postgresql" || String.eqb (dbType cfg) "postgres" then sql "postgresql"
  else if String.eqb (dbType cfg) "mongodb" then (NoopValue, Some ErrMongo)
  else (NilStore, Some (ErrUnsupportedType (dbType cfg))).

Definition rebind (query : string) (s : SQLStore) : string :=
  if String.eqb (placeholder s) "?" then query else sqlx_rebind query.

(** ** Statements *)

(** A statement that writes, and one that only reads. *)
Definition exec (q : string) (f : Tables → (Tables * Z) + string) (s : SQLStore) :
    SQLStore * outcome store_error Z :=
  if negb (is_open s) then (s, Fail (ErrDriver "sql: database is closed"))
  else match fault q (tables s) with
       | Some msg => (s, Fail (ErrDriver msg))
       | None =>
           match f (tables s) with
           | inl (t, affected) => (set_tables t s, Ret affected)
           | inr msg => (s, Fail (ErrDriver msg))
           end
       end.

Definition query {A} (q : string) (f : Tables → outcome store_error A) (s : SQLStore) : outcome store_error A :=
  if negb (is_open s) then Fail (ErrDriver "sql: database is closed")
  else match fault q (tables s) with
       | Some msg => Fail (ErrDriver msg)
       | None => f (tables s)
       end.

(** [_, err := ...; return err]. *)
Definition done_ (r : SQLStore * outcome store_error Z) : SQLStore * outcome store_error () :=
  let '(s, r) := r in (s, match r with Ret _ => Ret () | Fail e => Fail e | Panic => Panic end).

(** [GetContext]: the row, or [sql.ErrNoRows]. *)
Definition one_row {A} (o : option A) : outcome store_error A :=
  match o with Some a => Ret a | None => Fail ErrNoRows end.

Definition UniqueError (col : string) : string := "UNIQUE constraint failed: " +:+ col.
Definition ForeignKeyError : string := "FOREIGN KEY constraint failed".

(** ** Nodes *)

(** The [UNIQUE] column [ipv6_addr]: another row has this address. *)
Definition ipv6_taken (id addr : string) (t : Tables) : bool :=
  existsb (λ kn, negb (String.eqb kn.1 id) && String.eqb (IPv6Addr kn.2) addr) (map_to_list (nodes t)).

(** The row after [INSERT ... ON CONFLICT(id) DO UPDATE]. *)
Definition upsert_node (old : option Node) (n : Node) (created seen : Z) : Node :=
  mkNode (ID n)
    (match old with Some o => PubKey o | None => PubKey n end)
    (nRoomID n) (IPv6Addr n) (IPv4Addr n) (PublicAddr n) (NATType n) (Status n)
    (match old with Some o => CreatedAt o | None => created end) seen.

Definition insert_node (now1 now2 : Z) (n : Node) (t : Tables) : (Tables * Z) + string :=
  if ipv6_taken (ID n) (IPv6Addr n) t then inr (UniqueError "nodes.ipv6_addr")
  else inl (with_nodes (<[ID n := upsert_node (nodes t !! ID n) n now1 now2]> (nodes t)) t, 1).

Definition RegisterNode_sql (now1 now2 : Z) (n : Node) (s : SQLStore) : SQLStore * outcome store_error () :=
  let insert := done_ (exec "INSERT INTO nodes" (insert_node now1 now2 n) s) in
  match query "SELECT pubkey FROM nodes" (λ t, one_row (PubKey <$> nodes t !! ID n)) s with
  | Ret existing => if negb (bool_decide (existing = PubKey n)) then (s, Fail (ErrNodeIDConflict (ID n))) else insert
  | Fail e => if is_no_rows e then insert else (s, Fail (ErrLookUp (ID n) e))
  | Panic => (s, Panic)
  end.

Definition GetNode_sql (id : string) : SQLStore → outcome store_error Node :=
  query "SELECT FROM nodes WHERE id" (λ t, one_row (nodes t !! id)).

(** The query [ListNodes] builds: its text and its arguments. *)
Inductive arg :=
| AString (s : string)
| AInt (n : Z).

Definition list_nodes_base : string :=
  "SELECT id, pubkey, room_id, ipv6_addr, ipv4_addr, public_addr, nat_type, status, created_at, last_seen FROM nodes".

Definition list_nodes_query (f : NodeFilter) : string * list arg :=
  let '(q, args) := (list_nodes_base, []) in
  let '(q, args) :=
    if negb (String.eqb (fRoomID f) "") then (q +:+ " WHERE room_id = ?", args ++ [AString (fRoomID f)]) else (q, args) in
  let '(q, args) :=
    if negb (String.eqb (fStatus f) "") then
      ((if (0 <? length args)%nat then q +:+ " AND" else q +:+ " WHERE") +:+ " status = ?", args ++ [AString (fStatus f)])
    else (q, args) in
  let q := q +:+ " ORDER BY created_at DESC" in
  let '(q, args) := if 0 <? fLimit f then (q +:+ " LIMIT ?", args ++ [AInt (fLimit f)]) else (q, args) in
  if 0 <? fOffset f then (q +:+ " OFFSET ?", args ++ [AInt (fOffset f)]) else (q, args).

Definition node_matches (f : NodeFilter) (n : Node) : bool :=
  (String.eqb (fRoomID f) "" || String.eqb (nRoomID n) (fRoomID f)) &&
  (String.eqb (fStatus f) "" || String.eqb (Status n) (fStatus f)).

(** [ORDER BY created_at DESC]. *)
Definition newer (x y : Node) : bool := CreatedAt y <? CreatedAt x.

(** [LIMIT] and [OFFSET]: an absent limit keeps all rows. *)
Definition window {A} (limit offset : Z) (l : list A) : list A :=
  let l := drop (Z.to_nat offset) l in
  if 0 <? limit then take (Z.to_nat limit) l else l.

(** [OFFSET] is only part of a [LIMIT] clause. *)
Definition ListNodes_sql (f : NodeFilter) : SQLStore → outcome store_error (list Node) :=
  query (list_nodes_query f).1 (λ t,
    if (0 <? fOffset f) && negb (0 <? fLimit f) then Fail (ErrDriver "SQL logic error: near OFFSET: syntax error")
    else Ret (window (fLimit f) (fOffset f)
                (sort_slice newer (List.filter (node_matches f) (snd <$> map_to_list (nodes t)))))).

Definition set_status (status : string) (seen : Z) (n : Node) : Node :=
  mkNode (ID n) (PubKey n) (nRoomID n) (IPv6Addr n) (IPv4Addr n) (PublicAddr n) (NATType n) status (CreatedAt n) seen.

Definition UpdateNodeStatus_sql (now : Z) (id status : string) (s : SQLStore) : SQLStore * outcome store_error () :=
  done_ (exec "UPDATE nodes" (λ t, inl (with_nodes (alter (set_status status now) id (nodes t)) t,
                                       match nodes t !! id with Some _ => 1 | None => 0 end)) s).

(** [DELETE FROM nodes WHERE id = ?]; with foreign keys on, the rows that refer to the node go
    too. *)
Definition delete_node (id : string) (t : Tables) : Tables * Z :=
  let t' := with_nodes (delete id (nodes t)) t in
  let t' :=
    if foreign_keys then
      with_rules (filter (λ kr, PortControl.sNodeID kr.2 ≠ id) (port_rules t'))
        (with_members (filter (λ km, km.1.2 ≠ id) (room_members t')) t')
    else t' in
  (t', match nodes t !! id with Some _ => 1 | None => 0 end).

Definition DeleteNode_sql (id : string) (s : SQLStore) : SQLStore * outcome store_error () :=
  done_ (exec "DELETE FROM nodes" (λ t, inl (delete_node id t)) s).

Definition UnbindNodeID_sql (id : string) (s : SQLStore) : SQLStore * outcome store_error () :=
  let '(s, r) := exec "DELETE FROM nodes" (λ t, inl (delete_node id t)) s in
  match r with
  | Fail e => (s, Fail (ErrUnbind id e))
  | Ret n => if n =? 0 then (s, Fail (ErrUnbind id ErrNoRows)) else (s, Ret ())
  | Panic => (s, Panic)
  end.

(** ** Rooms *)

Definition CreateRoom_sql (now : Z) (r : Room.Room) (s : SQLStore) : SQLStore * outcome store_error () :=
  done_ (exec "INSERT INTO rooms" (λ t,
    match rooms t !! Room.rmID r with
    | Some _ => inr (UniqueError "rooms.id")
    | None => inl (with_rooms (<[Room.rmID r := mkRoom r now]> (rooms t)) t, 1)
    end) s).

Definition GetRoom_sql (id : string) : SQLStore → outcome store_error Room :=
  query "SELECT FROM rooms WHERE id" (λ t, one_row (rooms t !! id)).

Definition newer_room (x y : Room) : bool := rCreatedAt y <? rCreatedAt x.

Definition ListRooms_sql : SQLStore → outcome store_error (list Room) :=
  query "SELECT FROM rooms" (λ t, Ret (sort_slice newer_room (snd <$> map_to_list (rooms t)))).

Definition AddRoomMember_sql (now : Z) (roomID nodeID : string) (s : SQLStore) : SQLStore * outcome store_error () :=
  done_ (exec "INSERT INTO room_members" (λ t,
    match room_members t !! (roomID, nodeID) with
    | Some _ => inl (t, 0)
    | None =>
        if foreign_keys && negb (bool_decide (is_Some (rooms t !! roomID) ∧ is_Some (nodes t !! nodeID)))
        then inr ForeignKeyError
        else inl (with_members (<[(roomID, nodeID) := now]> (room_members t)) t, 1)
    end) s).

Definition RemoveRoomMember_sql (roomID nodeID : string) (s : SQLStore) : SQLStore * outcome store_error () :=
  done_ (exec "DELETE FROM room_members" (λ t,
    inl (with_members (delete (roomID, nodeID) (room_members t)) t,
         match room_members t !! (roomID, nodeID) with Some _ => 1 | None => 0 end)) s).

(** A query without [ORDER BY]. *)
Definition any_order {A} (l : list A) : list A := sort_slice (λ _ _, false) l.

(** The join of [nodes] with the room's rows of [room_members]. *)
Definition online_members (roomID : string) (t : Tables) : list Node :=
  omap (λ km : string * string * Z,
    if String.eqb km.1.1 roomID then
      match nodes t !! km.1.2 with
      | Some n => if String.eqb (Status n) NodeStatusOnline then Some n else None
      | None => None
      end
    else None) (map_to_list (room_members t)).

Definition ListRoomMembers_sql (roomID : string) : SQLStore → outcome store_error (list Node) :=
  query "SELECT FROM nodes JOIN room_members" (λ t, Ret (any_order (online_members roomID t))).

(** ** Port rules *)

Definition SetPortRule_sql (now : Z) (r : PortRule) (s : SQLStore) : SQLStore * outcome store_error () :=
  done_ (exec "INSERT INTO port_rules" (λ t,
    let id := PortControl.sID r in
    if foreign_keys && negb (bool_decide (is_Some (port_rules t !! id) ∨ is_Some (nodes t !! PortControl.sNodeID r)))
    then inr ForeignKeyError
    else inl (with_rules (<[id := PortControl.upserted (port_rules t !! id) r now]> (port_rules t)) t, 1)) s).

Definition by_virtual_port (x y : PortRule) : bool := PortControl.sVirtualPort x <? PortControl.sVirtualPort y.

Definition GetPortRules_sql (nodeID : string) : SQLStore → outcome store_error (list PortRule) :=
  query "SELECT FROM port_rules" (λ t,
    Ret (sort_slice by_virtual_port
           (List.filter (λ r, String.eqb (PortControl.sNodeID r) nodeID && PortControl.sEnabled r)
              (snd <$> map_to_list (port_rules t))))).

Definition DeletePortRule_sql (ruleID : string) (s : SQLStore) : SQLStore * outcome store_error () :=
  done_ (exec "DELETE FROM port_rules" (λ t,
    inl (with_rules (delete ruleID (port_rules t)) t,
         match port_rules t !! ruleID with Some _ => 1 | None => 0 end)) s).

(** ** API users *)

Definition username_row (username : string) (t : Tables) : option APIUser :=
  List.find (λ u, String.eqb (Username u) username) (snd <$> map_to_list (api_users t)).

Definition CreateAPIUser_sql (now : Z) (u : APIUser) (s : SQLStore) : SQLStore * outcome store_error () :=
  done_ (exec "INSERT INTO api_users" (λ t,
    match api_users t !! uID u, username_row (Username u) t with
    | Some _, _ => inr (UniqueError "api_users.id")
    | None, Some _ => inr (UniqueError "api_users.username")
    | None, None =>
        inl (with_users (<[uID u := mkUser (uID u) (Username u) (PasswordHash u) (Role u) now None]> (api_users t)) t, 1)
    end) s).

Definition GetAPIUser_sql (username : string) : SQLStore → outcome store_error APIUser :=
  query "SELECT FROM api_users" (λ t, one_row (username_row username t)).

Definition revoke_token (k : APIToken) : APIToken := mkToken (tUserID k) (tHash k) (tExpires k) true.

Definition RevokeAPIToken_sql (tokenID : string) (s : SQLStore) : SQLStore * outcome store_error () :=
  done_ (exec "UPDATE api_tokens" (λ t,
    inl (with_tokens (alter revoke_token tokenID (api_tokens t)) t,
         match api_tokens t !! tokenID with Some _ => 1 | None => 0 end)) s).

(** [Close] of the database handle, which the driver may refuse. *)
Definition Close_sql (s : SQLStore) : SQLStore * outcome store_error () :=
  match fault "Close" (tables s) with
  | Some msg => (s, Fail (ErrDriver msg))
  | None => (mkSQL (schema s) (tables s) false (placeholder s), Ret ())
  end.

Definition Ping (s : SQLStore) : outcome store_error () := query "Ping" (λ _, Ret ()) s.

#[global] Instance SQL_Store : Store SQLStore := {|
  RegisterNode := RegisterNode_sql;
  GetNode := GetNode_sql;
  ListNodes := ListNodes_sql;
  UpdateNodeStatus := UpdateNodeStatus_sql;
  DeleteNode := DeleteNode_sql;
  UnbindNodeID := UnbindNodeID_sql;
  CreateRoom := CreateRoom_sql;
  GetRoom := GetRoom_sql;
  ListRooms := ListRooms_sql;
  AddRoomMember := AddRoomMember_sql;
  RemoveRoomMember := RemoveRoomMember_sql;
  ListRoomMembers := ListRoomMembers_sql;
  SetPortRule := SetPortRule_sql;
  GetPortRules := GetPortRules_sql;
  DeletePortRule := DeletePortRule_sql;
  CreateAPIUser := CreateAPIUser_sql;
  GetAPIUser := GetAPIUser_sql;
  RevokeAPIToken := RevokeAPIToken_sql;
  Close := Close_sql;
|}.
End SQL.

(** ** The narrower interfaces of the clients *)

Section Clients.
Context {S : Type} `{Store S}.


Definition member_node (n : Node) : Room.Node :=
  Room.mkNode (ID n) (IPv6Addr n) (IPv4Addr n) (PublicAddr n) (NATType n).

Definition ret_store {A} (r : S * outcome store_error A) : option S :=
  match r with (s, Ret _) => Some s | _ => None end.

(** The room manager's view of the store. *)
Definition room_store (now : Z) : Room.RoomStore S := {|
  Room.store_CreateRoom r s := ret_store (CreateRoom now r s);
  Room.store_GetRoom id s := match GetRoom id s with Ret r => Some (rRoom r) | _ => None end;
  Room.store_ListRooms s := match ListRooms s with Ret l => Some (rRoom <$> l) | _ => None end;
  Room.store_AddRoomMember r n s := ret_store (AddRoomMember now r n s);
  Room.store_RemoveRoomMember r n s := ret_store (RemoveRoomMember r n s);
  Room.store_ListRoomMembers r s := match ListRoomMembers r s with Ret l => Some (member_node <$> l) | _ => None end;
|}.
End Clients.
End Storage.

Module StorageFacts.
Import Storage.

(** ** Scripts *)

Lemma skip_space_suffix s : ∃ p, s = p ++ skip_space s ∧ Forall (λ c, is_space c = true) p.
Proof.
  induction s as [|c s IH]; cbn; [by exists []|]. destruct (is_space c) eqn:E; [|by exists []].
  destruct IH as (p & Hp & Hall). exists (c :: p). cbn. split; [by rewrite <- Hp|by constructor].
Qed.

Lemma skip_space_head s c r : skip_space s = c :: r → is_space c = false.
Proof.
  induction s as [|x s IH]; cbn; [done|]. destruct (is_space x) eqn:E; [done|]. by intros [= <- _].
Qed.

(** Whether a quote is open after reading [s]. *)
Fixpoint quoted (b : bool) (s : list byte) : bool :=
  match s with
  | [] => b
  | ch :: r => quoted (if bool_decide (ch = quote) then negb b else b) r
  end.

(** No semicolon of [s] is outside quotes. *)
Fixpoint no_break (b : bool) (s : list byte) : bool :=
  match s with
  | [] => true
  | ch :: r =>
      let b := if bool_decide (ch = quote) then negb b else b in
      negb (bool_decide (ch = semicolon) && negb b) && no_break b r
  end.

Lemma quoted_app b s r : quoted b (s ++ r) = quoted (quoted b s) r.
Proof. revert b. induction s as [|c s IH]; intros b; cbn; [done|apply IH]. Qed.

Lemma no_break_app b s r : no_break b (s ++ r) = no_break b s && no_break (quoted b s) r.
Proof. revert b. induction s as [|c s IH]; intros b; cbn; [done|]. by rewrite IH, andb_assoc. Qed.

Definition nonblank (s : list byte) : bool := negb (length (trimSpace s) =? 0)%nat.

(** [ps] cuts [script] at its semicolons outside quotes. *)
Inductive cuts : list byte → list (list byte) → Prop :=
| cuts_last p : no_break false p = true → cuts p [p]
| cuts_more p r ps :
    no_break false p = true → quoted false p = false → cuts r ps → cuts (p ++ semicolon :: r) (p :: ps).

Lemma keep_filter c : keep c = List.filter nonblank [c].
Proof. unfold keep, nonblank. cbn. by destruct (length (trimSpace c) =? 0)%nat. Qed.

Lemma split_loop_cuts script current :
  no_break false current = true →
  ∃ ps, cuts (current ++ script) ps ∧ split_loop script current (quoted false current) = List.filter nonblank ps.
Proof.
  revert current. induction script as [|ch script IH]; intros current Hc; cbn [split_loop].
  - exists [current]. rewrite app_nil_r. split; [by constructor|]. rewrite <- keep_filter.
    by destruct current.
  - set (b := if bool_decide (ch = quote) then _ else _).
    destruct (bool_decide (ch = semicolon) && negb b) eqn:E.
    + apply andb_true_iff in E as [->%bool_decide_eq_true Hb].
      assert (Hq : quoted false current = b) by (unfold b; by rewrite bool_decide_false).
      assert (Hb' : b = false) by (by destruct b). rewrite Hb' in *.
      destruct (IH [] eq_refl) as (ps & Hps & Heq). exists (current :: ps). split; [by constructor|].
      cbn [quoted] in Heq. rewrite Heq, keep_filter. cbn. by destruct (nonblank current).
    + destruct (IH (current ++ [ch])) as (ps & Hps & Heq).
      { rewrite no_break_app, Hc. cbn. fold b. by rewrite E. }
      exists ps. split; [by rewrite <- app_assoc in Hps|]. rewrite <- Heq, quoted_app. done.
Qed.

Lemma contains_loop_spec n i s sub :
  contains_loop n i s sub = true ↔ ∃ j, (i <= j < i + n)%nat ∧ take (length sub) (drop j s) = sub.
Proof.
  revert i. induction n as [|n IH]; intros i; cbn [contains_loop].
  - split; [done|]. intros (j & ? & _). lia.
  - case_bool_decide as E.
    + split; [|done]. intros _. exists i. split; [lia|done].
    + rewrite IH. split; intros (j & Hj & Ht); exists j; (split; [|done]); [lia|].
      destruct (decide (j = i)) as [->|]; [done|lia].
Qed.

Lemma containsStr_spec s sub : containsStr s sub = true ↔ ∃ a b, s = a ++ sub ++ b.
Proof.
  unfold containsStr. destruct (Nat.eqb_spec (length sub) 0) as [->%nil_length_inv|Hne].
  - split; [|done]. intros _. by exists [], s.
  - rewrite contains_loop_spec. split.
    + intros (j & Hj & Ht). exists (take j s), (drop (length sub) (drop j s)).
      rewrite <- Ht at 1. by rewrite !take_drop.
    + intros (a & b & ->). exists (length a). rewrite !length_app. split; [lia|].
      by rewrite drop_app_length, take_app_length.
Qed.

(** ** Statements *)

Section Statements.
Context `{Engine}.

(** The statement named [q] runs without a failure of the driver. *)
Definition healthy (q : string) (s : SQLStore) : Prop := is_open s = true ∧ fault q (tables s) = None.

Lemma exec_healthy q f s :
  healthy q s →
  exec q f s = match f (tables s) with
               | inl (t, n) => (set_tables t s, Ret n)
               | inr msg => (s, Fail (ErrDriver msg))
               end.
Proof. intros [Ho Hf]. unfold exec. by rewrite Ho, Hf. Qed.

Lemma query_healthy {A} q (f : Tables → outcome store_error A) s : healthy q s → query q f s = f (tables s).
Proof. intros [Ho Hf]. unfold query. by rewrite Ho, Hf. Qed.

(** A statement succeeds with its effect, or fails with none. *)
Lemma exec_cases q f s :
  (∃ e, exec q f s = (s, Fail (ErrDriver e))) ∨
  (healthy q s ∧ ∃ t n, f (tables s) = inl (t, n) ∧ exec q f s = (set_tables t s, Ret n)).
Proof.
  unfold exec, healthy. destruct (is_open s); cbn; [|by left; eexists].
  destruct (fault q (tables s)); [by left; eexists|].
  destruct (f (tables s)) as [[t n]|msg] eqn:E; [|by left; eexists]. right. split; [done|]. by exists t, n.
Qed.

End Statements.

Ltac exec_case E :=
  match goal with
  | |- context [exec ?q ?f ?s] =>
      destruct (exec_cases q f s) as [[? ->]|(_ & ? & ? & E & ->)]
  end.

Section Tables.
Context `{Engine}.

Lemma exec_keeps (P : Tables → Prop) q f s :
  P (tables s) → (∀ t n, f (tables s) = inl (t, n) → P t) → P (tables (exec q f s).1).
Proof. intros Hs Hf. destruct (exec_cases q f s) as [[e ->]|(_ & t & n & E & ->)]; [done|]. by eapply Hf. Qed.

Lemma done_fst r : (done_ r).1 = r.1.
Proof. by destruct r. Qed.

Lemma ipv6_taken_false id addr t :
  ipv6_taken id addr t = false → ∀ k n, nodes t !! k = Some n → IPv6Addr n = addr → k = id.
Proof.
  unfold ipv6_taken. intros Hf k n Hk Ha. destruct (decide (k = id)) as [|Hne]; [done|].
  assert (existsb (λ kn : string * Node, negb (String.eqb kn.1 id) && String.eqb (IPv6Addr kn.2) addr)
    (map_to_list (nodes t)) = true) as Ht; [|congruence].
  apply existsb_exists. exists (k, n). split; [by apply list_elem_of_In, elem_of_map_to_list|]. cbn.
  apply String.eqb_neq in Hne. rewrite Hne. by apply String.eqb_eq.
Qed.

Lemma username_row_None name t :
  username_row name t = None → ∀ k u, api_users t !! k = Some u → Username u ≠ name.
Proof.
  unfold username_row. intros Hf k u Hk Hu.
  assert (u ∈ snd <$> map_to_list (api_users t)) as Hin.
  { apply list_elem_of_fmap. exists (k, u). split; [done|]. by apply elem_of_map_to_list. }
  apply list_elem_of_In in Hin. pose proof (find_none _ _ Hf u Hin) as Hn. cbn in Hn.
  apply String.eqb_neq in Hn. done.
Qed.

Lemma username_row_Some name t u :
  username_row name t = Some u → Username u = name ∧ ∃ k, api_users t !! k = Some u.
Proof.
  unfold username_row. intros [Hin Hu]%find_some. split; [by apply String.eqb_eq in Hu|].
  apply list_elem_of_In, list_elem_of_fmap in Hin as ([k u'] & -> & Hin). exists k. by apply elem_of_map_to_list.
Qed.

(** ** Well-formed tables: rows are under their keys, the unique columns are unique, and with
    foreign keys on no reference dangles. *)
Record wf (t : Tables) : Prop := {
  wf_nodes k n : nodes t !! k = Some n → ID n = k;
  wf_ipv6 k1 k2 n1 n2 : nodes t !! k1 = Some n1 → nodes t !! k2 = Some n2 → IPv6Addr n1 = IPv6Addr n2 → k1 = k2;
  wf_rooms k r : rooms t !! k = Some r → Room.rmID (rRoom r) = k;
  wf_rules k r : port_rules t !! k = Some r → PortControl.sID r = k;
  wf_users k u : api_users t !! k = Some u → uID u = k;
  wf_names k1 k2 u1 u2 : api_users t !! k1 = Some u1 → api_users t !! k2 = Some u2 → Username u1 = Username u2 → k1 = k2;
  wf_members r n j : foreign_keys = true → room_members t !! (r, n) = Some j →
    is_Some (rooms t !! r) ∧ is_Some (nodes t !! n);
  wf_owners k r : foreign_keys = true → port_rules t !! k = Some r → is_Some (nodes t !! PortControl.sNodeID r);
}.

Lemma wf_empty : wf empty_tables.
Proof. split; by intros *; cbn; rewrite ?lookup_empty. Qed.

(** Replacing node rows keeps what else refers to them. *)
Lemma wf_with_nodes v t :
  wf t → (∀ k n, v !! k = Some n → ID n = k) →
  (∀ k1 k2 n1 n2, v !! k1 = Some n1 → v !! k2 = Some n2 → IPv6Addr n1 = IPv6Addr n2 → k1 = k2) →
  (∀ k, is_Some (nodes t !! k) → is_Some (v !! k)) → wf (with_nodes v t).
Proof.
  intros W Hk Hu Hd. destruct W. split; cbn; eauto.
  - intros r n j Hf Hm. destruct (wf_members0 r n j Hf Hm). eauto.
Qed.

Lemma insert_node_wf now1 now2 n t t' c : wf t → insert_node now1 now2 n t = inl (t', c) → wf t'.
Proof.
  unfold insert_node. intros W. destruct (ipv6_taken _ _ _) eqn:Ht; [done|]. intros [= <- <-].
  pose proof (ipv6_taken_false _ _ _ Ht) as Hfree. apply wf_with_nodes; [done|..].
  - intros k m [[<- <-]|[_ Hm]]%lookup_insert_Some; [done|]. by eapply wf_nodes.
  - intros k1 k2 n1 n2 [[<- <-]|[? H1]]%lookup_insert_Some [[<- <-]|[? H2]]%lookup_insert_Some Heq; [done| | |].
    + symmetry. by apply (Hfree k2 n2).
    + by apply (Hfree k1 n1).
    + by eapply wf_ipv6.
  - intros k Hk. destruct (decide (ID n = k)) as [->|]; [by rewrite lookup_insert_eq|by rewrite lookup_insert_ne].
Qed.

Lemma update_status_wf status now id t : wf t → wf (with_nodes (alter (set_status status now) id (nodes t)) t).
Proof.
  intros W. apply wf_with_nodes; [done|..].
  - intros k n. destruct (decide (id = k)) as [->|]; [|rewrite lookup_alter_ne by done; by apply wf_nodes].
    rewrite lookup_alter_eq. intros (m & Hm & ->)%fmap_Some. cbn. by eapply wf_nodes.
  - assert (∀ k n, alter (set_status status now) id (nodes t) !! k = Some n →
      ∃ m, nodes t !! k = Some m ∧ IPv6Addr m = IPv6Addr n) as Hv.
    { intros k n. destruct (decide (id = k)) as [->|]; [|rewrite lookup_alter_ne by done; eauto].
      rewrite lookup_alter_eq. intros (m & Hm & ->)%fmap_Some. eauto. }
    intros k1 k2 n1 n2 (m1 & H1 & E1)%Hv (m2 & H2 & E2)%Hv Heq. eapply wf_ipv6; [done..|]. congruence.
  - intros k. destruct (decide (id = k)) as [->|]; [rewrite lookup_alter_eq, fmap_is_Some|rewrite lookup_alter_ne]; done.
Qed.

Lemma delete_node_wf id t : wf t → wf (delete_node id t).1.
Proof.
  intros W. destruct W. unfold delete_node. cbn. destruct foreign_keys eqn:Hfk; split; cbn; try done; try (intros *; rewrite Hfk; done);
    try (intros k n [_ Hk]%lookup_delete_Some; by eauto);
    try (intros k1 k2 n1 n2 [_ ?]%lookup_delete_Some [_ ?]%lookup_delete_Some ?; by eauto).
  - intros k r [Hr _]%map_lookup_filter_Some. eauto.
  - intros r n j _ [Hm Hn]%map_lookup_filter_Some. cbn in Hn. rewrite lookup_delete_ne by done. by eapply wf_members0.
  - intros k r _ [Hm Hn]%map_lookup_filter_Some. cbn in Hn. rewrite lookup_delete_ne by done. by eapply wf_owners0.
Qed.

(** ** Histories *)

(** The calls that write, and the second half of a registration on its own, for a
    registration whose lookup ran earlier, before other calls. *)
Inductive op :=
| OpRegister (now1 now2 : Z) (n : Node)
| OpInsert (now1 now2 : Z) (n : Node)
| OpStatus (now : Z) (id status : string)
| OpDelete (id : string)
| OpUnbind (id : string)
| OpCreateRoom (now : Z) (r : Room.Room)
| OpAddMember (now : Z) (roomID nodeID : string)
| OpRemoveMember (roomID nodeID : string)
| OpSetRule (now : Z) (r : PortRule)
| OpDeleteRule (id : string)
| OpCreateUser (now : Z) (u : APIUser)
| OpRevoke (id : string)
| OpClose.

Definition register_insert (now1 now2 : Z) (n : Node) (s : SQLStore) : SQLStore * outcome store_error () :=
  done_ (exec "INSERT INTO nodes" (insert_node now1 now2 n) s).

Definition apply (o : op) (s : SQLStore) : SQLStore :=
  match o with
  | OpRegister now1 now2 n => (RegisterNode_sql now1 now2 n s).1
  | OpInsert now1 now2 n => (register_insert now1 now2 n s).1
  | OpStatus now id status => (UpdateNodeStatus_sql now id status s).1
  | OpDelete id => (DeleteNode_sql id s).1
  | OpUnbind id => (UnbindNodeID_sql id s).1
  | OpCreateRoom now r => (CreateRoom_sql now r s).1
  | OpAddMember now r n => (AddRoomMember_sql now r n s).1
  | OpRemoveMember r n => (RemoveRoomMember_sql r n s).1
  | OpSetRule now r => (SetPortRule_sql now r s).1
  | OpDeleteRule id => (DeletePortRule_sql id s).1
  | OpCreateUser now u => (CreateAPIUser_sql now u s).1
  | OpRevoke id => (RevokeAPIToken_sql id s).1
  | OpClose => (Close_sql s).1
  end.

Definition run (ops : list op) (s : SQLStore) : SQLStore := foldl (λ s o, apply o s) s ops.

(** A registration either stops at the lookup, with the store as it was, or inserts. *)
Lemma RegisterNode_cases now1 now2 n s :
  (∃ e, RegisterNode_sql now1 now2 n s = (s, Fail e)) ∨
  RegisterNode_sql now1 now2 n s = register_insert now1 now2 n s.
Proof.
  unfold RegisterNode_sql, register_insert, query.
  destruct (is_open s); cbn [negb]; [|by left; eexists].
  destruct (fault _ (tables s)); [by left; eexists|].
  destruct (nodes (tables s) !! ID n) as [o|]; cbn; [|by right].
  destruct (bool_decide _); [by right|by left; eexists].
Qed.

Lemma Unbind_fst id s : (UnbindNodeID_sql id s).1 = (DeleteNode_sql id s).1.
Proof.
  unfold UnbindNodeID_sql, DeleteNode_sql. rewrite done_fst.
  destruct (exec _ _ s) as [s' [n|e|]]; cbn; [|done..]. by destruct (n =? 0).
Qed.

Lemma apply_wf o s : wf (tables s) → wf (tables (apply o s)).
Proof.
  intros W. destruct o; cbn [apply].
  - destruct (RegisterNode_cases now1 now2 n s) as [[e ->]| ->]; [done|].
    unfold register_insert. rewrite done_fst. apply exec_keeps; [done|]. intros t c. by apply insert_node_wf.
  - unfold register_insert. rewrite done_fst. apply exec_keeps; [done|]. intros t c. by apply insert_node_wf.
  - unfold UpdateNodeStatus_sql. rewrite done_fst. apply exec_keeps; [done|]. intros t c [= <- <-]. by apply update_status_wf.
  - unfold DeleteNode_sql. rewrite done_fst. apply exec_keeps; [done|]. intros t c [= <- <-]. by apply (delete_node_wf id).
  - rewrite Unbind_fst. unfold DeleteNode_sql. rewrite done_fst. apply exec_keeps; [done|].
    intros t c [= <- <-]. by apply (delete_node_wf id).
  - unfold CreateRoom_sql. rewrite done_fst. apply exec_keeps; [done|]. intros t c.
    destruct (rooms _ !! _) eqn:E; [done|]. intros [= <- <-]. destruct W. split; cbn; eauto.
    + intros k r' [[<- <-]|[_ Hr]]%lookup_insert_Some; eauto.
    + intros r' n j Hf Hm. destruct (wf_members0 r' n j Hf Hm) as [[x Hx] ?]. split; [|done].
      destruct (decide (Room.rmID r = r')) as [->|]; [by rewrite lookup_insert_eq|by rewrite lookup_insert_ne, Hx].
  - unfold AddRoomMember_sql. rewrite done_fst. apply exec_keeps; [done|]. intros t c.
    destruct (room_members _ !! _) eqn:E; [by intros [= <- <-]|].
    destruct (_ && _) eqn:Hfk; [done|]. intros [= <- <-]. destruct W. split; cbn; eauto.
    intros r n j Hf [[[= <- <-] <-]|[_ Hm]]%lookup_insert_Some; [|eauto].
    rewrite Hf in Hfk. cbn in Hfk. apply negb_false_iff, bool_decide_eq_true in Hfk. done.
  - unfold RemoveRoomMember_sql. rewrite done_fst. apply exec_keeps; [done|]. intros t c [= <- <-].
    destruct W. split; cbn; eauto. intros r n j Hf [_ Hm]%lookup_delete_Some. eauto.
  - unfold SetPortRule_sql. rewrite done_fst. apply exec_keeps; [done|]. intros t c.
    destruct (_ && _) eqn:Hfk; [done|]. intros [= <- <-]. destruct W. split; cbn; eauto.
    + intros k r' [[<- <-]|[_ Hr]]%lookup_insert_Some; eauto.
    + intros k r' Hf [[<- <-]|[_ Hr]]%lookup_insert_Some; [|eauto]. rewrite Hf in Hfk. cbn in Hfk.
      apply negb_false_iff, bool_decide_eq_true in Hfk. cbn.
      destruct (port_rules _ !! _) as [o|] eqn:Ho; [eauto|]. destruct Hfk as [[? ?]|?]; done.
  - unfold DeletePortRule_sql. rewrite done_fst. apply exec_keeps; [done|]. intros t c [= <- <-].
    destruct W. split; cbn; eauto; intros *; rewrite lookup_delete_Some; intros; destruct_and?; eauto.
  - unfold CreateAPIUser_sql. rewrite done_fst. apply exec_keeps; [done|]. intros t c.
    destruct (api_users _ !! _) eqn:E; [done|]. destruct (username_row _ _) eqn:Hn; [done|]. intros [= <- <-].
    pose proof (username_row_None _ _ Hn) as Hfree. destruct W. split; cbn; eauto.
    + intros k u' [[<- <-]|[_ Hr]]%lookup_insert_Some; eauto.
    + intros k1 k2 u1 u2 [[<- <-]|[? H1]]%lookup_insert_Some [[<- <-]|[? H2]]%lookup_insert_Some Heq; cbn in Heq;
        [done| | |by eauto]; exfalso; by eapply Hfree.
  - unfold RevokeAPIToken_sql. rewrite done_fst. apply exec_keeps; [done|]. intros t c [= <- <-]. by destruct W.
  - unfold Close_sql. by destruct (fault _ _).
Qed.

Lemma run_keeps (P : SQLStore → Prop) ops s : P s → (∀ o s, o ∈ ops → P s → P (apply o s)) → P (run ops s).
Proof.
  revert s. induction ops as [|o ops IH]; intros s Hs Hstep; [done|]. cbn. apply IH.
  - apply Hstep; [by left|done].
  - intros o' s' Ho'. apply Hstep. by right.
Qed.

Lemma run_wf ops s : wf (tables s) → wf (tables (run ops s)).
Proof. intros W. apply (run_keeps (λ s, wf (tables s))); [done|]. intros o s' _. apply apply_wf. Qed.

(** ** Bindings *)

Definition bound (s : SQLStore) (id : string) : option (list byte) := PubKey <$> nodes (tables s) !! id.

Lemma insert_bound now1 now2 n t t' c id key :
  insert_node now1 now2 n t = inl (t', c) → PubKey <$> nodes t !! id = Some key → PubKey <$> nodes t' !! id = Some key.
Proof.
  unfold insert_node. destruct (ipv6_taken _ _ _); [done|]. intros [= <- <-] Hb. cbn.
  destruct (decide (ID n = id)) as [<-|]; [|by rewrite lookup_insert_ne].
  rewrite lookup_insert_eq. revert Hb. by destruct (nodes t !! ID n).
Qed.

Lemma delete_bound id' t id :
  id ≠ id' → nodes (delete_node id' t).1 !! id = nodes t !! id.
Proof. intros Hne. unfold delete_node. destruct foreign_keys; cbn; by rewrite lookup_delete_ne. Qed.

Lemma exec_nodes q f s :
  (∀ t n, f (tables s) = inl (t, n) → nodes t = nodes (tables s)) → nodes (tables (done_ (exec q f s)).1) = nodes (tables s).
Proof. intros Hf. rewrite done_fst. by apply (exec_keeps (λ t, nodes t = nodes (tables s))). Qed.

Lemma register_insert_bound now1 now2 n s id key :
  bound s id = Some key → bound (register_insert now1 now2 n s).1 id = Some key.
Proof.
  intros Hb. unfold bound, register_insert. rewrite done_fst.
  apply (exec_keeps (λ t, PubKey <$> nodes t !! id = Some key)); [done|].
  intros t c E. by eapply insert_bound.
Qed.

Lemma delete_sql_bound id' s id key :
  id ≠ id' → bound s id = Some key → bound (DeleteNode_sql id' s).1 id = Some key.
Proof.
  intros Hne Hb. unfold bound, DeleteNode_sql. rewrite done_fst.
  apply (exec_keeps (λ t, PubKey <$> nodes t !! id = Some key)); [done|].
  intros t c E%(inj inl). replace t with (delete_node id' (tables s)).1 by (by rewrite E). by rewrite delete_bound.
Qed.

Lemma apply_bound o s id key :
  o ≠ OpDelete id → o ≠ OpUnbind id → bound s id = Some key → bound (apply o s) id = Some key.
Proof.
  intros Hd Hu Hb. destruct o; cbn [apply].
  - destruct (RegisterNode_cases now1 now2 n s) as [[e E]|E]; cbn [RegisterNode SQL_Store] in E; rewrite E; [done|].
    by apply register_insert_bound.
  - by apply register_insert_bound.
  - unfold bound, UpdateNodeStatus_sql. rewrite done_fst.
    apply (exec_keeps (λ t, PubKey <$> nodes t !! id = Some key)); [done|]. intros t c [= <- <-]. cbn.
    destruct (decide (id0 = id)) as [->|]; [|by rewrite lookup_alter_ne].
    rewrite lookup_alter_eq. revert Hb. unfold bound. by destruct (nodes _ !! id).
  - apply delete_sql_bound; [congruence|done].
  - rewrite Unbind_fst. apply delete_sql_bound; [congruence|done].
  - unfold bound, CreateRoom_sql. rewrite exec_nodes; [done|]. intros t c. destruct (rooms _ !! _); [done|]. by intros [= <- <-].
  - unfold bound, AddRoomMember_sql. rewrite exec_nodes; [done|]. intros t c.
    destruct (room_members _ !! _); [by intros [= <- <-]|]. destruct (_ && _); [done|]. by intros [= <- <-].
  - unfold bound, RemoveRoomMember_sql. rewrite exec_nodes; [done|]. by intros t c [= <- <-].
  - unfold bound, SetPortRule_sql. rewrite exec_nodes; [done|]. intros t c. destruct (_ && _); [done|]. by intros [= <- <-].
  - unfold bound, DeletePortRule_sql. rewrite exec_nodes; [done|]. by intros t c [= <- <-].
  - unfold bound, CreateAPIUser_sql. rewrite exec_nodes; [done|]. intros t c.
    destruct (api_users _ !! _); [done|]. destruct (username_row _ _); [done|]. by intros [= <- <-].
  - unfold bound, RevokeAPIToken_sql. rewrite exec_nodes; [done|]. by intros t c [= <- <-].
  - unfold bound, Close_sql. by destruct (fault _ _).
Qed.

Lemma register_insert_ok now1 now2 n s :
  healthy "INSERT INTO nodes" s → ipv6_taken (ID n) (IPv6Addr n) (tables s) = false →
  register_insert now1 now2 n s =
  (set_tables (with_nodes (<[ID n := upsert_node (nodes (tables s) !! ID n) n now1 now2]> (nodes (tables s))) (tables s)) s,
   Ret ()).
Proof. intros Hh Hf. unfold register_insert, insert_node. rewrite exec_healthy by done. by rewrite Hf. Qed.

(** ** Listings *)

Lemma any_order_perm {A} (l : list A) : any_order l ≡ₚ l.
Proof. apply sort_slice_perm. Qed.

Lemma newer_strict_weak : StrictWeak newer.
Proof.
  apply (strict_weak_ext (λ x y, (- CreatedAt x <? - CreatedAt y))); [|apply rank_strict_weak].
  intros x y. unfold newer. lia.
Qed.

Lemma elem_of_map_values `{Countable K} {A} (m : gmap K A) (x : A) : x ∈ snd <$> map_to_list m ↔ ∃ k, m !! k = Some x.
Proof.
  rewrite list_elem_of_fmap. split.
  - intros ([k y] & -> & Hy%elem_of_map_to_list). eauto.
  - intros [k Hk]. exists (k, x). split; [done|]. by apply elem_of_map_to_list.
Qed.

Lemma online_members_spec roomID t n :
  n ∈ online_members roomID t ↔
  ∃ k, is_Some (room_members t !! (roomID, k)) ∧ nodes t !! k = Some n ∧ Status n = NodeStatusOnline.
Proof.
  unfold online_members. rewrite list_elem_of_omap. split.
  - intros ([[r k] j] & Hin%elem_of_map_to_list & Hf). cbn in Hf. destruct (String.eqb_spec r roomID) as [->|]; [|done].
    destruct (nodes t !! k) as [n'|] eqn:Hn; [|done]. destruct (String.eqb_spec (Status n') NodeStatusOnline); [|done].
    injection Hf as <-. exists k. split; [by exists j|done].
  - intros (k & [j Hj] & Hn & Hs). exists (roomID, k, j). split; [by apply elem_of_map_to_list|]. cbn.
    by rewrite String.eqb_refl, Hn, (proj2 (String.eqb_eq _ _) Hs).
Qed.

Lemma online_members_NoDup roomID t : wf t → NoDup (ID <$> online_members roomID t).
Proof.
  intros W. unfold online_members. pose proof (NoDup_fst_map_to_list (room_members t)) as Hnd.
  set (f := λ km : string * string * Z, _). set (l := map_to_list _) in *. clearbody l.
  assert (Hf : ∀ km n, f km = Some n → ID n = km.1.2 ∧ km.1.1 = roomID).
  { intros km n. unfold f. destruct (String.eqb_spec km.1.1 roomID); [|done].
    destruct (nodes t !! km.1.2) eqn:Hn; [|done]. destruct (String.eqb _ _); [|done]. intros [= <-].
    split; [by eapply wf_nodes|done]. }
  induction l as [|km l IH]; [constructor|]. cbn [omap list_omap]. cbn in Hnd. apply NoDup_cons in Hnd as [Hni Hnd].
  destruct (f km) as [n|] eqn:Hkm; [|by apply IH]. cbn. constructor; [|by apply IH].
  intros (m & Hid & (km' & Hin & Hkm')%list_elem_of_omap)%list_elem_of_fmap. apply Hni, list_elem_of_fmap.
  exists km'. split; [|done]. apply Hf in Hkm as [E1 E2], Hkm' as [E3 E4].
  destruct km as [[? ?] ?], km' as [[? ?] ?]. cbn in *. congruence.
Qed.

(** ** The interfaces of the clients *)




(** A statement whose execution changes nothing any more, silently or as a duplicate column. *)
Definition settled (st : string) (sch : Schema) : Prop :=
  ∃ err, ddl st sch = (sch, err) ∧ (err = None ∨ isDuplicateColumnErr err = true).

Definition script_statements (script : string) : list string :=
  (λ st, string_of (trimSpace st)) <$> splitStatements (bytes_of script).

Lemma script_statement st script : st ∈ splitStatements (bytes_of script) → string_of (trimSpace st) ∈ script_statements script.
Proof. intros Hin. by apply (list_elem_of_fmap_2 (λ st, string_of (trimSpace st))). Qed.

(** The statement that is executed for a piece of a script, if any. *)
Definition done_with (sch : Schema) (st : list byte) : Prop :=
  length (trimSpace st) = 0%nat ∨ settled (string_of (trimSpace st)) sch.

Lemma run_settled stmts sch : Forall (done_with sch) stmts → run_statements stmts sch = (sch, None).
Proof.
  induction 1 as [|st stmts Hst Hall IH]; cbn [run_statements]; [done|].
  destruct (Nat.eqb_spec (length (trimSpace st)) 0); [done|]. destruct Hst as [?|(err & Hd & Herr)]; [done|].
  rewrite Hd. destruct err as [msg|]; [|done]. destruct Herr as [?|Herr]; [done|]. by rewrite Herr.
Qed.

(** What each statement of a script keeps, a successful run of it keeps. *)
Lemma run_statements_keep (Q : Schema → Prop) stmts sch sch' :
  (∀ st sch, st ∈ stmts → Q sch → Q (ddl (string_of (trimSpace st)) sch).1) →
  run_statements stmts sch = (sch', None) → Q sch → Q sch'.
Proof.
  revert sch. induction stmts as [|st stmts IH]; intros sch Hk; cbn [run_statements]; [by intros [= <-]|].
  destruct (_ =? 0)%nat; [apply IH; intros st' sch1 ?; apply Hk; by right|].
  intros Hrun HQ. pose proof (Hk st sch ltac:(by left) HQ) as HQ1.
  destruct (ddl _ sch) as [sch1 err]. apply (IH sch1); [intros st' sch2 ?; apply Hk; by right| |exact HQ1].
  destruct err as [msg|]; [|done]. by destruct (isDuplicateColumnErr (Some msg)).
Qed.

(** A successful run settles its statements, if each settles and stays settled. *)
Lemma run_settles stmts sch sch' :
  (∀ st sch sch' err, st ∈ stmts → ddl (string_of (trimSpace st)) sch = (sch', err) →
     err = None ∨ isDuplicateColumnErr err = true → settled (string_of (trimSpace st)) sch') →
  (∀ st st' sch, st ∈ stmts → st' ∈ stmts → settled (string_of (trimSpace st)) sch →
     settled (string_of (trimSpace st)) (ddl (string_of (trimSpace st')) sch).1) →
  run_statements stmts sch = (sch', None) → Forall (done_with sch') stmts.
Proof.
  revert sch. induction stmts as [|st stmts IH]; intros sch Hset Hkeep; cbn [run_statements]; [done|].
  assert (∀ sch1, run_statements stmts sch1 = (sch', None) → Forall (done_with sch') stmts) as IH'.
  { intros sch1 Hrun. apply (IH sch1); [| |done]; intros; [eapply Hset|eapply Hkeep]; try done; by right. }
  destruct (Nat.eqb_spec (length (trimSpace st)) 0) as [Hz|Hz]; intros Hrun.
  { constructor; [by left|by apply (IH' sch)]. }
  destruct (ddl (string_of (trimSpace st)) sch) as [sch1 err] eqn:Hd.
  assert ((err = None ∨ isDuplicateColumnErr err = true) ∧ run_statements stmts sch1 = (sch', None)) as [Herr Hrun1].
  { destruct err as [msg|]; [|by split; [left|]]. by destruct (isDuplicateColumnErr (Some msg)); [split; [right|]|]. }
  constructor; [|by apply (IH' sch1)]. right.
  apply (run_statements_keep (settled (string_of (trimSpace st))) stmts sch1); [|done|by eapply (Hset st); [left|..]].
  intros st' sch2 Hin. apply Hkeep; [by left|by right].
Qed.

End Tables.
End StorageFacts.

Module StorageProperties.
Import Storage StorageFacts.

(** ** An engine to evaluate with: no failures, foreign keys on, and a schema language of
    [ALTER TABLE] statements known by their text, with one script that repeats.  Opening gives the
    tables [t]. *)

Definition engine_on (t : Tables) : Engine := {|
  foreign_keys := true;
  fault _ _ := None;
  row_order := stable_sort;
  ddl stmt sch :=
    if negb (String.eqb stmt "init") && bool_decide (stmt ∈ (dom sch : gset string)) then (sch, Some ("duplicate column name: " +:+ stmt))
    else (<[stmt := ∅]> sch, None);
  sqlx_connect _ _ := inl (∅, t);
  sqlx_rebind q := q;
|}.

#[local] Instance sample_engine : Engine := engine_on empty_tables.

Definition sample_store : SQLStore := mkSQL ∅ empty_tables true "?".
Definition sample_node : Node := mkNode "n1" [x01] "room-a" "fd00::1" "240.0.0.1" "" "" "online" 0 0.
Definition sample_room : Room.Room := Room.mkRoom "room-a" "a" "n1" false 100.

(** The scripts of migrations 002 and 003. *)
Definition newline : string := string_of [x0a].
Definition dquote : string := string_of [x22].

Definition migrationIPv4SQL : string :=
  String.concat newline [
    "-- migrations/002_ipv4.sql";
    "-- Adds IPv4 address support for room-based virtual networking.";
    "";
    "-- Add IPv4 address column to nodes table.";
    "-- This stores the node's virtual IPv4 address within its room's /24 subnet.";
    "ALTER TABLE nodes ADD COLUMN ipv4_addr VARCHAR(15);";
    "";
    "-- Create index for IPv4 address lookups.";
    "CREATE INDEX IF NOT EXISTS idx_nodes_ipv4 ON nodes(ipv4_addr);";
    "";
    "-- Add room subnet info to rooms table (for caching/verification).";
    "ALTER TABLE rooms ADD COLUMN ipv4_subnet VARCHAR(18);";
    ""].

Definition migrationAllowedRoomsSQL : string :=
  String.concat newline [
    "-- migrations/003_allowed_rooms.sql";
    "-- Adds per-rule source-room allow lists for port access control (§8.2).";
    "-- The column stores a JSON array of RoomIDs, empty string means";
    "-- " +:+ dquote +:+ "same room only" +:+ dquote +:+ " (the rule's default semantics).";
    "";
    "ALTER TABLE port_rules ADD COLUMN allowed_rooms TEXT NOT NULL DEFAULT '';";
    ""].

(** ** Properties *)

(** C13: A node identifier stays bound to its key (invariant I8).  Whatever calls run, in any
    order, and even if the lookup and the insert of a registration are separated by other
    calls, an identifier keeps the public key it was first registered with until it is
    deleted or unbound; and a registration of it with another key fails, leaves the store
    as it is, and reports the conflict when the database answers. *)
Theorem binding_kept `{Engine} (ops : list op) (s : SQLStore) (id : string) (key : list byte)
    (Hbound : bound s id = Some key)
    (Hkept : ∀ o, o ∈ ops → o ≠ OpDelete id ∧ o ≠ OpUnbind id) :
  bound (run ops s) id = Some key ∧
  ∀ now1 now2 n, ID n = id → PubKey n ≠ key →
    ∃ e, RegisterNode now1 now2 n (run ops s) = (run ops s, Fail e) ∧
      (healthy "SELECT pubkey FROM nodes" (run ops s) → e = ErrNodeIDConflict id).
Proof.
  assert (bound (run ops s) id = Some key) as Hb.
  { apply (run_keeps (λ s, bound s id = Some key)); [done|]. intros o s' [Hd Hu]%Hkept. by apply apply_bound. }
  split; [done|]. intros now1 now2 n Hid Hne. generalize dependent (run ops s). intros s' Hb.
  cbn. unfold RegisterNode_sql, query, healthy, bound in *. rewrite Hid.
  destruct (is_open s'); cbn [negb]; [|by eexists; split; [|intros [? _]]].
  destruct (fault _ (tables s')); [by eexists; split; [|intros [_ ?]]|].
  rewrite Hb. cbn. rewrite bool_decide_false by congruence. by eexists.
Qed.

Lemma binding_kept_witness :
  let s := (RegisterNode 1 1 sample_node sample_store).1 in
  let imp := mkNode "n1" [x02] "" "fd00::2" "" "" "" "online" 0 0 in
  bound s "n1" = Some [x01] ∧
  (RegisterNode 2 2 imp (run [OpStatus 3 "n1" "offline"; OpInsert 4 4 imp] s)).2 = Fail (ErrNodeIDConflict "n1").
Proof.
  intros s imp. split; [vm_compute; reflexivity|].
  destruct (binding_kept [OpStatus 3 "n1" "offline"; OpInsert 4 4 imp] s "n1" [x01]) as [_ Hreg];
    [vm_compute; reflexivity|by intros o [->|[->|[]%elem_of_nil]%elem_of_cons]%elem_of_cons|].
  destruct (Hreg 2 2 imp eq_refl ltac:(done)) as (e & -> & He). cbn. f_equal. apply He.
  split; vm_compute; reflexivity.
Defined.

(** Two registrations of one identifier whose lookups both run before either insert: the
    second succeeds without reporting the conflict, and though the key stays the first
    one's, the row takes the second one's addresses and status. *)
Lemma registration_race `{Engine} now1 now2 n m (s : SQLStore) :
  (∀ q t, fault q t = None) → is_open s = true → ID m = ID n → nodes (tables s) !! ID n = None →
  ipv6_taken (ID n) (IPv6Addr n) (tables s) = false →
  let s1 := (register_insert now1 now1 n s).1 in
  ipv6_taken (ID n) (IPv6Addr m) (tables s1) = false →
  let '(s2, r) := register_insert now2 now2 m s1 in
  r = Ret () ∧ ∃ row, nodes (tables s2) !! ID n = Some row ∧ PubKey row = PubKey n ∧ IPv6Addr row = IPv6Addr m ∧
    PublicAddr row = PublicAddr m ∧ Status row = Status m.
Proof.
  intros Hf Ho Hid Hnone Hn. cbn zeta. rewrite (register_insert_ok now1 now1 n s) by done. cbn [fst].
  intros Hm. rewrite register_insert_ok; [|split; [exact Ho|apply Hf]|by rewrite Hid].
  split; [done|]. cbn. rewrite Hid, !lookup_insert_eq. eexists. split; [done|]. cbn. by rewrite Hnone.
Qed.


(** Occurrences of the placeholder in a query. *)
Definition placeholders (q : string) : nat := length (List.filter (λ c, bool_decide (c = x3f)) (bytes_of q)).

(** Listing nodes.  The query has one placeholder per argument, and its text depends only
    on which of the filter's fields are set, never on their values.  On a database that
    answers it returns, newest first, the requested window of exactly the nodes that match
    the filter; but a filter with an offset and no limit is a syntax error. *)
Theorem ListNodes_spec `{Engine} (f : NodeFilter) (s : SQLStore)
    (Hh : healthy (list_nodes_query f).1 s) :
  placeholders (list_nodes_query f).1 = length (list_nodes_query f).2 ∧
  (∀ g, (fRoomID g = "" ↔ fRoomID f = "") → (fStatus g = "" ↔ fStatus f = "") →
     (0 < fLimit g ↔ 0 < fLimit f) → (0 < fOffset g ↔ 0 < fOffset f) →
     (list_nodes_query g).1 = (list_nodes_query f).1) ∧
  (0 < fOffset f → fLimit f <= 0 → ∃ e, ListNodes f s = Fail e) ∧
  (fOffset f <= 0 ∨ 0 < fLimit f → ∃ l, ListNodes f s = Ret (window (fLimit f) (fOffset f) l) ∧
     StronglySorted (not_after newer) l ∧
     ∀ n, n ∈ l ↔ (∃ k, nodes (tables s) !! k = Some n) ∧
       (fRoomID f = "" ∨ nRoomID n = fRoomID f) ∧ (fStatus f = "" ∨ Status n = fStatus f)).
Proof.
  split_and!.
  - unfold list_nodes_query. destruct (negb _), (negb _), (0 <? fLimit f), (0 <? fOffset f); vm_compute; reflexivity.
  - intros g Hr Hs Hl Ho. unfold list_nodes_query.
    assert (String.eqb (fRoomID g) "" = String.eqb (fRoomID f) "") as ->
      by (destruct (String.eqb_spec (fRoomID g) ""), (String.eqb_spec (fRoomID f) ""); tauto).
    assert (String.eqb (fStatus g) "" = String.eqb (fStatus f) "") as ->
      by (destruct (String.eqb_spec (fStatus g) ""), (String.eqb_spec (fStatus f) ""); tauto).
    replace (0 <? fLimit g) with (0 <? fLimit f) by lia. replace (0 <? fOffset g) with (0 <? fOffset f) by lia.
    by destruct (negb _), (negb _), (0 <? fLimit f), (0 <? fOffset f).
  - intros Ho Hl. cbn [ListNodes SQL_Store]. unfold ListNodes_sql. rewrite query_healthy by done.
    destruct (Z.ltb_spec 0 (fOffset f)), (Z.ltb_spec 0 (fLimit f)); try lia. by eexists.
  - intros Hol. cbn [ListNodes SQL_Store]. unfold ListNodes_sql. rewrite query_healthy by done.
    destruct ((0 <? fOffset f) && negb (0 <? fLimit f)) eqn:E; [lia|].
    eexists. split; [done|]. split; [apply sort_slice_sorted, newer_strict_weak|].
    intros n. rewrite (sort_slice_perm _ newer), list_elem_of_In, filter_In, <- list_elem_of_In, elem_of_map_values.
    unfold node_matches. rewrite andb_true_iff, !orb_true_iff, !String.eqb_eq. done.
Qed.

Lemma ListNodes_spec_witness :
  let s := run [OpRegister 1 1 sample_node; OpRegister 2 2 (mkNode "n2" [x02] "room-a" "fd00::2" "" "" "" "online" 0 0)] sample_store in
  (∃ e, ListNodes (mkFilter "room-a" "" 0 1) s = Fail e) ∧
  (ID <$> (match ListNodes (mkFilter "room-a" "" 0 0) s with Ret l => l | _ => [] end)) = ["n2"; "n1"].
Proof.
  intros s. split; [|vm_compute; reflexivity].
  apply (ListNodes_spec (mkFilter "room-a" "" 0 1) s); [split; vm_compute; reflexivity|cbn; lia..].
Defined.


#[local] Instance one_name_json : PortControl.RoomsJson := {|
  PortControl.marshal_names names := match names with [n] => Some (String.append "[" n) | _ => None end;
  PortControl.unmarshal_names s := match s with String.String _ n => Some [n] | String.EmptyString => None end;
|}.




(** Rooms on the SQL store.  Joining succeeds only for an existing room, with a password
    if the room is encrypted, and then changes nothing but that the node is a member; a
    failed call changes nothing.  A page of a room's member list is a page of one list that
    holds exactly the room's members that are online, each once. *)
Theorem room_membership `{Engine} (now : Z) (roomID nodeID password : string) (s : SQLStore)
    (Hwf : wf (tables s)) :
  (let '(m, r) := Room.JoinRoom (H := room_store now) roomID nodeID password (Some s) in
   match r with
   | Ret _ => ∃ s' room, m = Some s' ∧ rooms (tables s) !! roomID = Some room ∧
       (Room.Encrypted (rRoom room) = true → password ≠ "") ∧
       dom (room_members (tables s')) = {[(roomID, nodeID)]} ∪ dom (room_members (tables s)) ∧
       tables s' = with_members (room_members (tables s')) (tables s)
   | _ => m = Some s
   end) ∧
  (∀ offset limit l, Room.GetMembers (H := room_store now) roomID offset limit (Some s) = Ret l →
     ∃ members : list Node, NoDup (ID <$> members) ∧
       (∀ n, n ∈ members ↔ nodes (tables s) !! ID n = Some n ∧ Status n = NodeStatusOnline ∧
                            (roomID, ID n) ∈ dom (room_members (tables s))) ∧
       Room.Total l = Z.of_nat (length members) ∧
       ∃ a b, Room.Members l = Room.member_info ∘ member_node <$> take a (drop b members)).
Proof.
  split.
  - unfold Room.JoinRoom. destruct (_ || _); [done|]. cbn. unfold GetRoom_sql, AddRoomMember_sql, query.
    destruct (is_open s) eqn:Ho; cbn [negb]; [|done]. destruct (fault _ _); [done|].
    destruct (rooms (tables s) !! roomID) as [room|] eqn:Hr; [|done]. cbn.
    destruct (Room.Encrypted (rRoom room) && String.eqb password "") eqn:Hpw; [done|].
    exec_case E; [done|]. cbn. exists (set_tables x s), room. split_and!; [done..| | |].
    + intros He. rewrite He in Hpw. cbn in Hpw. by apply String.eqb_neq.
    + revert E. destruct (room_members _ !! _) eqn:Hm; [|destruct (foreign_keys && _); [done|]]; intros ?; simplify_eq/=.
      * assert ((roomID, nodeID) ∈ dom (room_members (tables s))) by (by apply elem_of_dom). set_solver.
      * apply dom_insert_L.
    + revert E. destruct (room_members _ !! _); [|destruct (foreign_keys && _); [done|]]; intros ?; simplify_eq/=; by destruct (tables s).
  - intros offset limit l. unfold Room.GetMembers. cbn. unfold ListRoomMembers_sql, query.
    destruct (negb _); [done|]. destruct (fault _ _); [done|]. cbn.
    set (L := any_order (online_members roomID (tables s))). set (off := if offset <? 0 then _ else _).
    set (lim := if limit =? 0 then _ else _). set (stop := if _ <? Room.add64 off lim then _ else _).
    destruct (stop <? off); [done|]. intros <-%Ret_inj. exists L. split_and!.
    + unfold L. rewrite any_order_perm. by apply online_members_NoDup.
    + intros n. unfold L. rewrite any_order_perm, online_members_spec, elem_of_dom. split.
      * intros (k & Hm & Hn & Hs). by rewrite (wf_nodes _ Hwf _ _ Hn).
      * intros (Hn & Hs & Hm). by exists (ID n).
    + cbn. by rewrite length_fmap.
    + exists (Z.to_nat (stop - off)), (Z.to_nat off). cbn. by rewrite <- fmap_drop, <- fmap_take, <- list_fmap_compose.
Qed.

Lemma room_membership_witness :
  let s := run [OpRegister 1 1 sample_node; OpCreateRoom 2 sample_room] sample_store in
  let '(m, r) := Room.JoinRoom (H := room_store 3) "room-a" "n1" "" (Some s) in
  r = Ret () ∧ ∃ s', m = Some s' ∧ dom (room_members (tables s')) = {[("room-a", "n1")]} ∪ dom (room_members (tables s)).
Proof.
  intros s.
  assert (Hr : (Room.JoinRoom (H := room_store 3) "room-a" "n1" "" (Some s)).2 = Ret ()) by (vm_compute; reflexivity).
  pose proof (room_membership 3 "room-a" "n1" "" s (run_wf _ sample_store wf_empty)) as [Hj _].
  destruct (Room.JoinRoom _ _ _ _) as [m r]. cbn in Hr. subst r. split; [done|].
  destruct Hj as (s' & room & -> & _ & _ & Hd & _). by exists s'.
Defined.

(** Splitting a script.  The statements are the pieces of the script between its
    semicolons outside single quotes, without the blank ones; a comment is not recognised,
    so an apostrophe in one opens a quote: of the shipped scripts, migration 003 has one and
    is not split at its only semicolon. *)
Theorem splitStatements_spec (script : list byte) :
  (∃ ps, cuts script ps ∧ splitStatements script = List.filter nonblank ps) ∧
  length (splitStatements (bytes_of migrationIPv4SQL)) = 3%nat ∧
  splitStatements (bytes_of migrationAllowedRoomsSQL) = [bytes_of migrationAllowedRoomsSQL].
Proof.
  split; [apply (split_loop_cuts script [] eq_refl)|]. split; vm_compute; reflexivity.
Qed.

(** Migrating is idempotent.  If every statement of the two incremental scripts, once run
    or refused as a duplicate column, changes nothing when it is run again, now or after
    other statements of the scripts, and the initial script can be repeated, then a store
    that was opened can be opened again, with the same schema. *)
Theorem migrate_idempotent `{Engine} (m1 m2 m3 : string) (s s' : SQLStore)
    (stmt := λ st, st ∈ script_statements m2 ++ script_statements m3)
    (Hset : ∀ st sch sch' err, stmt st → ddl st sch = (sch', err) → err = None ∨ isDuplicateColumnErr err = true →
              settled st sch')
    (Hkeep : ∀ st st' sch, stmt st → stmt st' → settled st sch → settled st (ddl st' sch).1)
    (Hinit : ∀ sch sch', ddl m1 sch = (sch', None) → ddl m1 sch' = (sch', None))
    (Hinit_keep : ∀ st sch, stmt st → ddl m1 sch = (sch, None) → ddl m1 (ddl st sch).1 = ((ddl st sch).1, None))
    (Hrun : migrate m1 m2 m3 s = (s', None)) :
  migrate m1 m2 m3 s' = (s', None).
Proof.
  assert (∀ st, st ∈ splitStatements (bytes_of m2) → stmt (string_of (trimSpace st))) as H2
    by (intros st Hin; apply elem_of_app; left; by apply script_statement).
  assert (∀ st, st ∈ splitStatements (bytes_of m3) → stmt (string_of (trimSpace st))) as H3
    by (intros st Hin; apply elem_of_app; right; by apply script_statement).
  unfold migrate, runAlterStatements in *. cbn [schema tables is_open placeholder] in *.
  destruct (ddl m1 (schema s)) as [sch1 [msg|]] eqn:E1; [done|].
  destruct (run_statements (splitStatements (bytes_of m2)) sch1) as [sch2 [msg|]] eqn:E2; [done|]. cbn in Hrun.
  destruct (run_statements (splitStatements (bytes_of m3)) sch2) as [sch3 [msg|]] eqn:E3; [done|].
  injection Hrun as <-. cbn.
  assert (ddl m1 sch3 = (sch3, None)) as ->.
  { eapply (run_statements_keep (λ sch, ddl m1 sch = (sch, None))); [|exact E3|]; [intros; by apply Hinit_keep; [apply H3|]|].
    eapply (run_statements_keep (λ sch, ddl m1 sch = (sch, None))); [|exact E2|by eapply Hinit].
    intros; by apply Hinit_keep; [apply H2|]. }
  assert (Forall (done_with sch2) (splitStatements (bytes_of m2))) as D2
    by (apply (run_settles _ sch1); eauto).
  rewrite (run_settled (splitStatements (bytes_of m2))); cbn.
  - rewrite (run_settled (splitStatements (bytes_of m3))); [done|]. apply (run_settles _ sch2); eauto.
  - apply Forall_forall. intros st Hin. pose proof (proj1 (Forall_forall _ _) D2 st Hin) as [?|Hs]; [by left|right].
    eapply run_statements_keep; [|exact E3|exact Hs]. intros; apply Hkeep; auto.
Qed.

Lemma duplicate_message st : isDuplicateColumnErr (Some ("duplicate column name: " +:+ st)) = true.
Proof. apply containsStr_spec. exists [], (bytes_of (" name: " +:+ st)). by rewrite !bytes_of_app. Qed.

(** Under the sample engine an executed statement stays in the schema. *)
Lemma sample_settled st sch : st ≠ "init" → st ∈ (dom sch : gset string) → settled st sch.
Proof.
  intros Hne Hin. exists (Some ("duplicate column name: " +:+ st)). split; [|right; apply duplicate_message].
  cbn. apply String.eqb_neq in Hne. by rewrite Hne, bool_decide_true.
Qed.

Lemma migrate_idempotent_witness :
  let s := mkSQL {["init" := ∅; "a" := ∅; "b" := ∅]} empty_tables true "?" in
  migrate "init" "a" "b" sample_store = (s, None) ∧ migrate "init" "a" "b" s = (s, None).
Proof.
  intros s. assert (migrate "init" "a" "b" sample_store = (s, None)) as Hrun by (vm_compute; reflexivity).
  split; [exact Hrun|]. assert (∀ st, st ∈ script_statements "a" ++ script_statements "b" → st ≠ "init") as Hne.
  { intros st [->|[->|[]%elem_of_nil]%elem_of_cons]%elem_of_cons; done. }
  apply (migrate_idempotent "init" "a" "b" sample_store s); [..|exact Hrun].
  - intros st sch sch' err Hst Hd Herr. apply sample_settled; [by apply Hne|]. cbn in Hd.
    rewrite (proj2 (String.eqb_neq _ _) (Hne st Hst)) in Hd. cbn in Hd.
    case_bool_decide; injection Hd as <- _; [done|]. set_solver.
  - intros st st' sch Hst Hst' (err & Hd & Herr). apply sample_settled; [by apply Hne|]. cbn in Hd |- *.
    rewrite (proj2 (String.eqb_neq _ _) (Hne st Hst)) in Hd. cbn in Hd.
    assert (st ∈ (dom sch : gset string)).
    { case_bool_decide as Hin; [done|]. destruct Hin. injection Hd as Hd _. rewrite <- Hd. set_solver. }
    destruct (_ && _); cbn; set_solver.
  - intros sch sch'. cbn. intros [= <-]. by rewrite insert_insert_eq.
  - intros st sch Hst. cbn. intros [= Hs]. destruct (_ && _); cbn; [by rewrite Hs|].
    f_equal. rewrite insert_insert_ne by (intros E; by apply (Hne st)). by rewrite Hs.
Defined.
End StorageProperties.
