(* ===== verification/Jwt.v ===== *)
(** * API tokens ([internal/api]: jwt.go, tokens.go)

    Base64 in its URL alphabet, HMAC-SHA-256, the signed tokens of the management API and the
    registry of refresh tokens.  [encoding/json] on claims is a parameter. *)

From S2P Require Import Prelude GoLib MeshTypes Sha256 NetAddr.

Open Scope Z_scope.

Module Jwt.

(** ** [base64.RawURLEncoding] *)

Definition b64_alphabet : list byte :=
  bytes_of "ABCDEFGHIJKLMNOPQRSTUVWXYZabcdefghijklmnopqrstuvwxyz0123456789-_".

Definition b64_char (v : Z) : byte := nth (Z.to_nat v) b64_alphabet x00.
Definition b64_value (c : byte) : option Z := Z.of_nat <$> find_index (λ d, bool_decide (d = c)) b64_alphabet.

(** The six-bit field of [v] that ends at bit [i]. *)
Definition sextet (v i : Z) : Z := Z.land (Z.shiftr v i) 63.

Fixpoint b64_encode (l : list byte) : list byte :=
  match l with
  | a :: b :: c :: r =>
      let v := Z.lor (Z.lor (Z.shiftl (bZ a) 16) (Z.shiftl (bZ b) 8)) (bZ c) in
      b64_char (sextet v 18) :: b64_char (sextet v 12) :: b64_char (sextet v 6) :: b64_char (sextet v 0)
        :: b64_encode r
  | [a; b] =>
      let v := Z.lor (Z.shiftl (bZ a) 16) (Z.shiftl (bZ b) 8) in
      [b64_char (sextet v 18); b64_char (sextet v 12); b64_char (sextet v 6)]
  | [a] =>
      let v := Z.shiftl (bZ a) 16 in
      [b64_char (sextet v 18); b64_char (sextet v 12)]
  | [] => []
  end.

(** Quanta of four characters; the last may have two or three, whose spare bits are ignored. *)
Fixpoint b64_quanta (l : list byte) : option (list byte) :=
  let word a b c d := Z.lor (Z.lor (Z.shiftl a 18) (Z.shiftl b 12)) (Z.lor (Z.shiftl c 6) d) in
  match l with
  | a :: b :: c :: d :: r =>
      match b64_value a, b64_value b, b64_value c, b64_value d with
      | Some a, Some b, Some c, Some d =>
          let v := word a b c d in
          (λ r, Zb (Z.shiftr v 16) :: Zb (Z.shiftr v 8) :: Zb v :: r) <$> b64_quanta r
      | _, _, _, _ => None
      end
  | [a; b; c] =>
      match b64_value a, b64_value b, b64_value c with
      | Some a, Some b, Some c => let v := word a b c 0 in Some [Zb (Z.shiftr v 16); Zb (Z.shiftr v 8)]
      | _, _, _ => None
      end
  | [a; b] =>
      match b64_value a, b64_value b with
      | Some a, Some b => Some [Zb (Z.shiftr (word a b 0 0) 16)]
      | _, _ => None
      end
  | [_] => None
  | [] => Some []
  end.

(** Line breaks are skipped wherever they are. *)
Definition b64_decode (l : list byte) : option (list byte) :=
  b64_quanta (List.filter (λ c, negb (bool_decide (c = x0a) || bool_decide (c = x0d))) l).

(** ** [crypto/hmac] with SHA-256, a block of 64 bytes *)

Definition hmac_key (key : list byte) : list byte :=
  let key := if (64 <? length key)%nat then vec_to_list (Sum256 key) else key in
  key ++ replicate (64 - length key) x00.

Definition hmacSHA256 (secret : list byte) (msg : list byte) : list byte :=
  let k := hmac_key secret in
  Sum256 ((bxor x5c <$> k) ++ Sum256 ((bxor x36 <$> k) ++ msg)).

(** ** Tokens (jwt.go) *)

Record Claims := mkClaims {
  Sub : string;
  Role : string;
  Iat : Z;
  Exp : Z;
  Typ : string;
}.

#[export] Instance Claims_eq_dec : EqDecision Claims.
Proof. solve_decision. Defined.

(** [json.Marshal] and [json.Unmarshal] on claims. *)
Class ClaimsJson := {
  json_marshal : Claims → option (list byte);
  json_unmarshal : list byte → option Claims;
}.

(** Claims that survive the JSON text (their strings are valid UTF-8). *)
Definition claims_ok `{ClaimsJson} (c : Claims) : Prop :=
  ∃ b, json_marshal c = Some b ∧ json_unmarshal b = Some c.

Inductive jwt_error :=
| ErrEmptySecret
| ErrNoExpiry
| ErrMarshal
| ErrMalformed
| ErrSignature
| ErrBody
| ErrClaims
| ErrNoSubject
| ErrNoType
| ErrExpired.

Definition dq : string := string_of [x22].

(** The text of the header: alg HS256, typ JWT. *)
Definition header : string :=
  "{" +:+ dq +:+ "alg" +:+ dq +:+ ":" +:+ dq +:+ "HS256" +:+ dq +:+ ","
      +:+ dq +:+ "typ" +:+ dq +:+ ":" +:+ dq +:+ "JWT" +:+ dq +:+ "}".

Section Tokens.
Context `{ClaimsJson}.

(** The part of a token that is signed. *)
Definition signing_input (body : list byte) : list byte :=
  b64_encode (bytes_of header) ++ [dot] ++ b64_encode body.

Definition IssueToken (secret : list byte) (c : Claims) : outcome jwt_error string :=
  if (length secret =? 0)%nat then Fail ErrEmptySecret
  else if Exp c <=? 0 then Fail ErrNoExpiry
  else match json_marshal c with
       | None => Fail ErrMarshal
       | Some body =>
           let payload := signing_input body in
           let sig := hmacSHA256 secret payload in
           Ret (string_of (payload ++ [dot] ++ b64_encode sig))
       end.

(** [now] is [now.Unix()]. *)
Definition VerifyToken (secret : list byte) (token : string) (now : Z) : outcome jwt_error Claims :=
  match split_on dot [] (bytes_of token) with
  | [p0; p1; p2] =>
      let expected := hmacSHA256 secret (p0 ++ [dot] ++ p1) in
      match b64_decode p2 with
      | None => Fail ErrSignature
      | Some sig =>
          if negb (bool_decide (expected = sig)) then Fail ErrSignature
          else match b64_decode p1 with
               | None => Fail ErrBody
               | Some body =>
                   match json_unmarshal body with
                   | None => Fail ErrClaims
                   | Some c =>
                       if String.eqb (Sub c) "" then Fail ErrNoSubject
                       else if negb (String.eqb (Typ c) "access") && negb (String.eqb (Typ c) "refresh")
                       then Fail ErrNoType
                       else if negb (Exp c =? 0) && (Exp c <=? now) then Fail ErrExpired
                       else Ret c
                   end
               end
      end
  | _ => Fail ErrMalformed
  end.
End Tokens.

(** ** The registry of refresh tokens (tokens.go) *)

Definition hex_encode (l : list byte) : list byte :=
  l ≫= λ b, [hex_lower (Z.shiftr (bZ b) 4); hex_lower (Z.land (bZ b) 15)].

Definition tokenHash (token : string) : string := string_of (hex_encode (Sum256 (bytes_of token))).

(** [hashes]: the expiry by hash. *)
Abbreviation tokenStore := (gmap string Z).

Definition newTokenStore : tokenStore := ∅.

Definition add (now : Z) (token : string) (ttl : Z) (s : tokenStore) : tokenStore :=
  <[tokenHash token := now + ttl]> s.

Definition valid (now : Z) (token : string) (s : tokenStore) : bool * tokenStore :=
  match s !! tokenHash token with
  | None => (false, s)
  | Some e => if e <? now then (false, delete (tokenHash token) s) else (true, s)
  end.

Definition revoke (token : string) (s : tokenStore) : tokenStore := delete (tokenHash token) s.

(** [subtle.ConstantTimeCompare] on equal lengths is equality. *)
Definition constantTimeEq (a b : string) : bool :=
  if negb (String.length a =? String.length b)%nat then false
  else bool_decide (bytes_of a = bytes_of b).

End Jwt.

Module JwtFacts.
Import Jwt.

(** ** Base64 *)

Lemma b64_value_char v : 0 <= v < 64 → b64_value (b64_char v) = Some v.
Proof.
  intros Hv. assert (forallb (λ v, bool_decide (b64_value (b64_char v) = Some v)) (seqZ 0 64) = true) as Hall by (by vm_compute).
  rewrite forallb_forall in Hall. eapply bool_decide_eq_true_1, Hall, list_elem_of_In, elem_of_seqZ. lia.
Qed.

(** The alphabet has no dot and no line break. *)
Lemma b64_char_plain v : b64_char v ≠ dot ∧ b64_char v ≠ x0a ∧ b64_char v ≠ x0d.
Proof.
  unfold b64_char. destruct (nth_in_or_default (Z.to_nat v) b64_alphabet x00) as [Hin| ->]; [|done].
  assert (forallb (λ c, negb (bool_decide (c = dot)) && negb (bool_decide (c = x0a)) && negb (bool_decide (c = x0d)))
    b64_alphabet = true) as Hall by (by vm_compute).
  rewrite forallb_forall in Hall. apply Hall in Hin. repeat (apply andb_true_iff in Hin as [Hin ?]).
  repeat match goal with H : negb _ = true |- _ => apply negb_true_iff, bool_decide_eq_false_1 in H end. done.
Qed.

Lemma sextet_range v i : 0 <= sextet v i < 64.
Proof. unfold sextet. change 63 with (Z.ones 6). rewrite Z.land_ones by lia. apply Z.mod_pos_bound. lia. Qed.

Lemma sextet_div v i : 0 <= i → sextet v i = v / 2 ^ i mod 64.
Proof. intros. unfold sextet. change 63 with (Z.ones 6). rewrite Z.land_ones, Z.shiftr_div_pow2 by lia. done. Qed.

(** Disjoint bit fields add up. *)
Lemma lor_field a b n : 0 <= n → 0 <= b < 2 ^ n → Z.lor (Z.shiftl a n) b = a * 2 ^ n + b.
Proof.
  intros Hn Hb. rewrite <- Z.add_nocarry_lor; [by rewrite Z.shiftl_mul_pow2|].
  apply Z.bits_inj'. intros i Hi. rewrite Z.land_spec, Z.bits_0. destruct (Z.lt_ge_cases i n).
  - by rewrite Z.shiftl_spec_low.
  - rewrite (proj1 (Z.bounded_iff_bits_nonneg n b Hn ltac:(lia))) by lia. apply andb_false_r.
Qed.

(** A word is put together from its fields. *)
Lemma word_fields a b c d :
  0 <= b < 64 → 0 <= c < 64 → 0 <= d < 64 →
  Z.lor (Z.lor (Z.shiftl a 18) (Z.shiftl b 12)) (Z.lor (Z.shiftl c 6) d) = a * 2 ^ 18 + b * 2 ^ 12 + c * 2 ^ 6 + d.
Proof.
  intros Hb Hc Hd. rewrite (lor_field c d 6) by lia. rewrite <- Z.lor_assoc. rewrite (lor_field b _ 12) by lia.
  rewrite lor_field by lia. lia.
Qed.

Lemma bytes_word a b c :
  0 <= b < 256 → 0 <= c < 256 →
  Z.lor (Z.lor (Z.shiftl a 16) (Z.shiftl b 8)) c = a * 2 ^ 16 + b * 2 ^ 8 + c.
Proof.
  intros Hb Hc. rewrite <- Z.lor_assoc, (lor_field b c 8) by lia. rewrite lor_field by lia. lia.
Qed.

Lemma sextets v :
  0 <= v < 2 ^ 24 →
  sextet v 18 * 2 ^ 18 + sextet v 12 * 2 ^ 12 + sextet v 6 * 2 ^ 6 + sextet v 0 = v.
Proof. intros. rewrite !sextet_div by lia. Z.to_euclidean_division_equations. lia. Qed.

(** The three bytes of a word. *)
Lemma word_bytes a b c :
  [Zb (Z.shiftr (bZ a * 2 ^ 16 + bZ b * 2 ^ 8 + bZ c) 16); Zb (Z.shiftr (bZ a * 2 ^ 16 + bZ b * 2 ^ 8 + bZ c) 8);
   Zb (bZ a * 2 ^ 16 + bZ b * 2 ^ 8 + bZ c)] = [a; b; c].
Proof.
  pose proof (bZ_range a). pose proof (bZ_range b). pose proof (bZ_range c).
  assert (∀ z d, z mod 256 = bZ d → Zb z = d) as Hz by (intros z d E; by rewrite <- Zb_mod, E, Zb_bZ).
  rewrite !Z.shiftr_div_pow2 by lia. repeat f_equal; apply Hz; Z.to_euclidean_division_equations; lia.
Qed.

(** Decoding the sextets of three bytes gives the word back. *)
Lemma sextet_word a b c :
  let v := bZ a * 2 ^ 16 + bZ b * 2 ^ 8 + bZ c in
  Z.lor (Z.lor (Z.shiftl (sextet v 18) 18) (Z.shiftl (sextet v 12) 12))
    (Z.lor (Z.shiftl (sextet v 6) 6) (sextet v 0)) = v.
Proof.
  intros v. pose proof (bZ_range a). pose proof (bZ_range b). pose proof (bZ_range c).
  rewrite word_fields by apply sextet_range. apply sextets. lia.
Qed.

Lemma b64_quanta_encode : ∀ l, b64_quanta (b64_encode l) = Some l.
Proof.
  fix IH 1. intros [|a [|b [|c r]]]; [done|..]; cbn [b64_encode b64_quanta];
    rewrite !b64_value_char by apply sextet_range.
  - pose proof (bZ_range a). rewrite (Z.shiftl_mul_pow2 (bZ a)) by lia.
    pose proof (sextet_word a x00 x00) as Hw. change (bZ x00) with 0 in Hw. cbn zeta in Hw.
    rewrite Z.mul_0_l, !Z.add_0_r in Hw. set (v := bZ a * 2 ^ 16) in *.
    assert (sextet v 6 = 0) as E6 by (rewrite sextet_div by lia; unfold v; Z.to_euclidean_division_equations; lia).
    assert (sextet v 0 = 0) as E0 by (rewrite sextet_div by lia; unfold v; Z.to_euclidean_division_equations; lia).
    rewrite E6, E0 in Hw. rewrite Hw. pose proof (word_bytes a x00 x00) as Hb. change (bZ x00) with 0 in Hb.
    rewrite Z.mul_0_l, !Z.add_0_r in Hb. fold v in Hb. injection Hb as -> _ _. done.
  - pose proof (bZ_range a). pose proof (bZ_range b).
    assert (Z.lor (Z.shiftl (bZ a) 16) (Z.shiftl (bZ b) 8) = bZ a * 2 ^ 16 + bZ b * 2 ^ 8 + bZ x00) as ->.
    { rewrite <- bytes_word by (change (bZ x00) with 0; lia). change (bZ x00) with 0. by rewrite Z.lor_0_r. }
    pose proof (sextet_word a b x00) as Hw. cbn zeta in Hw. set (v := _ + _ + bZ x00) in *.
    assert (sextet v 0 = 0) as E0.
    { rewrite sextet_div by lia. unfold v. change (bZ x00) with 0. Z.to_euclidean_division_equations. lia. }
    rewrite E0 in Hw. rewrite Hw. pose proof (word_bytes a b x00) as Hb. fold v in Hb. injection Hb as -> -> _. done.
  - pose proof (bZ_range a). pose proof (bZ_range b). pose proof (bZ_range c).
    rewrite bytes_word by lia. rewrite sextet_word, IH. cbn [fmap option_fmap option_map].
    pose proof (word_bytes a b c) as Hb. injection Hb as -> -> ->. done.
Qed.

Lemma b64_encode_chars : ∀ l, Forall (λ c, ∃ v, c = b64_char v) (b64_encode l).
Proof. fix IH 1. intros [|a [|b [|c r]]]; cbn [b64_encode]; repeat constructor; eauto. Qed.

Lemma b64_encode_no_dot l : free dot (b64_encode l).
Proof.
  intros Hin. pose proof (proj1 (Forall_forall _ _) (b64_encode_chars l) _ Hin) as [v Hv].
  by destruct (b64_char_plain v) as [Hd _].
Qed.

Lemma b64_decode_encode l : b64_decode (b64_encode l) = Some l.
Proof.
  unfold b64_decode. rewrite forallb_filter_id; [apply b64_quanta_encode|].
  apply forallb_forall. intros c Hc%list_elem_of_In.
  destruct (proj1 (Forall_forall _ _) (b64_encode_chars l) _ Hc) as [v ->]. destruct (b64_char_plain v) as (_ & Hn & Hr).
  by rewrite !bool_decide_false.
Qed.

Lemma b64_encode_inj l k : b64_encode l = b64_encode k → l = k.
Proof. intros E. apply (inj Some). by rewrite <- !b64_quanta_encode, E. Qed.

(** ** Tokens *)

#[local] Opaque hmacSHA256.

Lemma split_token p0 p1 p2 :
  free dot p0 → free dot p1 → free dot p2 → split_on dot [] ((p0 ++ [dot] ++ p1) ++ [dot] ++ p2) = [p0; p1; p2].
Proof.
  intros H0 H1 H2. pose proof (split_on_join_end dot [p0; p1; p2]) as Hj. cbn in Hj.
  rewrite <- app_assoc. cbn. rewrite Hj; [done|by repeat constructor|done].
Qed.

Section Tokens.
Context `{ClaimsJson}.

(** What a token that was issued contains. *)
Lemma IssueToken_inv secret c token :
  IssueToken secret c = Ret token →
  secret ≠ [] ∧ 0 < Exp c ∧ ∃ body, json_marshal c = Some body ∧
    split_on dot [] (bytes_of token) =
      [b64_encode (bytes_of header); b64_encode body; b64_encode (hmacSHA256 secret (signing_input body))].
Proof.
  unfold IssueToken. destruct (Nat.eqb_spec (length secret) 0) as [|Hs]; [done|].
  destruct (Z.leb_spec (Exp c) 0); [done|]. destruct (json_marshal c) as [body|]; [|done]. intros <-%Ret_inj.
  split_and!; [by intros ->|done|]. exists body. split; [done|]. rewrite bytes_of_string_of. unfold signing_input.
  by rewrite split_token by apply b64_encode_no_dot.
Qed.

(** What a token that was accepted contains: the claims are a function of the signed part. *)
Definition claims_in (p1 : list byte) : option Claims := b64_decode p1 ≫= json_unmarshal.

Lemma VerifyToken_inv secret token now c :
  VerifyToken secret token now = Ret c →
  ∃ p0 p1 p2, split_on dot [] (bytes_of token) = [p0; p1; p2] ∧
    b64_decode p2 = Some (hmacSHA256 secret (p0 ++ [dot] ++ p1)) ∧ claims_in p1 = Some c ∧
    Sub c ≠ "" ∧ (Typ c = "access" ∨ Typ c = "refresh") ∧ (Exp c = 0 ∨ now < Exp c).
Proof.
  unfold VerifyToken. destruct (split_on _ _ _) as [|p0 [|p1 [|p2 [|? ?]]]]; try done.
  destruct (b64_decode p2) as [sig|] eqn:E2; [|done]. destruct (bool_decide _) eqn:Hmac; cbn [negb]; [|done].
  apply bool_decide_eq_true in Hmac as <-.
  destruct (b64_decode p1) as [body|] eqn:E1; [|done]. destruct (json_unmarshal body) as [c'|] eqn:Eb; [|done].
  destruct (String.eqb_spec (Sub c') ""); [done|].
  assert (claims_in p1 = Some c') as Hc by (unfold claims_in; by rewrite E1).
  destruct (String.eqb_spec (Typ c') "access"), (String.eqb_spec (Typ c') "refresh"); cbn [negb andb]; try done;
    (destruct (Z.eqb_spec (Exp c') 0), (Z.leb_spec (Exp c') now); cbn [negb andb]; try done; intros <-%Ret_inj;
     exists p0, p1, p2; split_and!; auto).
Qed.

(** A token put together by anyone who knows the key is verified on its claims alone. *)
Lemma VerifyToken_signed secret body c now :
  json_unmarshal body = Some c → Sub c ≠ "" → Typ c = "access" ∨ Typ c = "refresh" →
  VerifyToken secret (string_of (signing_input body ++ [dot] ++ b64_encode (hmacSHA256 secret (signing_input body)))) now =
  if negb (Exp c =? 0) && (Exp c <=? now) then Fail ErrExpired else Ret c.
Proof.
  intros Hb Hs Ht. unfold VerifyToken. rewrite bytes_of_string_of.
  unfold signing_input at 1. rewrite split_token by apply b64_encode_no_dot.
  rewrite b64_decode_encode. rewrite bool_decide_true by done. cbn [negb]. rewrite b64_decode_encode, Hb.
  destruct (String.eqb_spec (Sub c) ""); [done|].
  destruct Ht as [-> | ->]; done.
Qed.
End Tokens.
End JwtFacts.

Module JwtProperties.
Import Jwt JwtFacts.

(** The first test vector of RFC 4231. *)
Example hmac_vector :
  string_of (hex_encode (hmacSHA256 (replicate 20 x0b) (bytes_of "Hi There")))
  = "b0344c61d8db38535ca8afceaf0bf12b881dc200c9833da726e9376c2e32cff7".
Proof. vm_compute. reflexivity. Qed.

(** A key longer than a block: the sixth vector. *)
Example hmac_vector_long_key :
  string_of (hex_encode (hmacSHA256 (replicate 131 xaa) (bytes_of "Test Using Larger Than Block-Size Key - Hash Key First")))
  = "60e431591ee0b67f0d8a26aacbf5b77f8e0bc6213728c5140546040f0ee37f54".
Proof. vm_compute. reflexivity. Qed.

Example b64_vector : string_of (b64_encode (bytes_of "any carnal pleas")) = "YW55IGNhcm5hbCBwbGVhcw".
Proof. vm_compute. reflexivity. Qed.

#[local] Opaque hmacSHA256.

(** Issued tokens verify.  A token issued for claims with a subject, a known type and a
    positive expiry is accepted under the same secret, with exactly these claims, until the
    expiry, and refused as expired from then on; and the issuer refuses an empty secret and
    claims without expiry. *)
Theorem token_roundtrip `{ClaimsJson} (secret : list byte) (c : Claims) (now : Z)
    (Hjson : claims_ok c) (Hsub : Sub c ≠ "") (Htyp : Typ c = "access" ∨ Typ c = "refresh") :
  (secret = [] ∨ Exp c <= 0 → ∃ e, IssueToken secret c = Fail e) ∧
  (secret ≠ [] → 0 < Exp c → ∃ token, IssueToken secret c = Ret token ∧
     VerifyToken secret token now = if Exp c <=? now then Fail ErrExpired else Ret c).
Proof.
  destruct Hjson as (body & Hm & Hu). unfold IssueToken. split.
  - intros [-> |He]; [by eexists|]. destruct (_ =? 0)%nat; [by eexists|].
    destruct (Z.leb_spec (Exp c) 0); [by eexists|lia].
  - intros Hs He. destruct (Nat.eqb_spec (length secret) 0) as [?%nil_length_inv|]; [done|].
    destruct (Z.leb_spec (Exp c) 0); [lia|]. rewrite Hm. eexists. split; [done|].
    rewrite (VerifyToken_signed secret body c) by done. destruct (Z.eqb_spec (Exp c) 0); [lia|]. done.
Qed.

(** A codec for the claims of one sample. *)
Definition sample_claims : Claims := mkClaims "admin" "admin" 100 200 "access".

#[local] Instance sample_json : ClaimsJson := {|
  json_marshal c := if bool_decide (c = sample_claims) then Some [x7b; x7d] else None;
  json_unmarshal b := if bool_decide (b = [x7b; x7d]) then Some sample_claims else None;
|}.

Lemma token_roundtrip_witness :
  ∃ token, IssueToken [x01] sample_claims = Ret token ∧ VerifyToken [x01] token 150 = Ret sample_claims.
Proof.
  apply (token_roundtrip [x01] sample_claims 150); [by exists [x7b; x7d]|done|by left|done|done].
Defined.

(** Verification does not refuse the empty secret that issuing refuses: under it anyone can
    make a token for any claims, and one without expiry is accepted for ever. *)
Lemma empty_secret_accepts `{ClaimsJson} body c now :
  json_unmarshal body = Some c → Sub c ≠ "" → Typ c = "access" → Exp c = 0 →
  VerifyToken [] (string_of (signing_input body ++ [dot] ++ b64_encode (hmacSHA256 [] (signing_input body)))) now = Ret c.
Proof. intros Hb Hs Ht He. rewrite VerifyToken_signed with (c := c) by auto. by rewrite He. Qed.

(** Revoking removes a token for good, until it is added again. *)
Lemma revoke_invalid now token s : (valid now token (revoke token s)).1 = false.
Proof. unfold valid, revoke. by rewrite lookup_delete_eq. Qed.

Lemma add_valid now now' ttl token s : (valid now' token (add now token ttl s)).1 = (now' <=? now + ttl).
Proof.
  unfold valid, add. rewrite lookup_insert_eq.
  destruct (Z.ltb_spec (now + ttl) now'), (Z.leb_spec now' (now + ttl)); try lia; done.
Qed.
End JwtProperties.
