(* ===== verification/Api.v ===== *)
(** * The management API ([internal/api]: router.go, handlers.go, middleware.go, support.go,
    password.go, tls.go)

    The routed handlers over a store and the chain of middleware around them, as functions
    from a request and the server's state to the new state and a response.  A request is what
    the chain reads of it: the unescaped path segments, whether the path is in canonical
    form, the authorization header, the peer's address, one query parameter and the body.
    JSON bodies, bcrypt and the TLS library are parameters, and every reading of a clock
    within a request is a value of its own. *)

From S2P Require Import Prelude GoLib GoFloat MeshTypes NetAddr NetParse PortControl PortScan Storage Jwt.

Open Scope Z_scope.

Module Api.
Import NetParse Jwt.

(** ** Data *)

Record Config := mkConfig {
  Addr_ : string;
  CertFile : string;
  KeyFile : string;
  ClientCAFile : string;
  AllowedOrigin : string;
  cSecret : list byte;
  cAccessTTL : Z;
  cRefreshTTL : Z;
  LoginRatePerMin : Z;
  APIUserRatePerMin : Z;
}.

Record ServerInfo := mkServerInfo {
  siID : string;
  siAddr : string;
  siIsRoot : bool;
  siLastSeen : string;
}.

(** The dependencies that do not change; the store and the token registry are in the state.
    [Servers] may be nil. *)
Record Deps := mkDeps {
  Secret : list byte;
  AdminUser : string;
  AdminHash : list byte;
  AccessTTL : Z;
  RefreshTTL : Z;
  Servers : option (list ServerInfo);
}.

Record Request := mkRequest {
  Method : string;
  Segments : list string;
  Canonical : bool;
  Authorization : string;
  RemoteAddr : string;
  nodeIdParam : string;
  Body : list byte;
}.

(** [r.URL.Path]. *)
Definition Path (r : Request) : string :=
  foldr (λ seg acc, "/" +:+ seg +:+ acc) "" (Segments r).

Inductive message :=
| Text (s : string)
| JwtText (e : jwt_error)
| StoreText (e : Storage.store_error).

(** The envelope's error or data. *)
Inductive payload :=
| PError (code : string) (msg : message)
| PSession (access refresh : string) (expires_in : Z)
| PAccess (access : string) (expires_in : Z)
| POk
| PNodes (l : list Storage.Node)
| PNode (n : Storage.Node)
| PStatus (id status : string)
| PDeleted
| PRooms (l : list Storage.Room)
| PRules (l : list Storage.PortRule)
| PRule (r : Storage.PortRule)
| PServers (l : list ServerInfo)
| PStats (total online rooms : nat) (natTypes : gmap string nat)
| PNone.

Record Response := mkResponse {
  Status : Z;
  Data : payload;
  AllowOrigin : option string;
}.

Definition writeJSON (status : Z) (v : payload) : Response := mkResponse status v None.
Definition writeError (status : Z) (code : string) (msg : message) : Response :=
  writeJSON status (PError code msg).
Definition writeOK (data : payload) : Response := writeJSON 200 data.

Record AuditEntry := mkEntry {
  At : Z;
  eUser : string;
  eMethod : string;
  ePath : string;
  eStatus : Z;
  eClientIP : string;
}.

(** [MemAuditLog]: the entries, oldest first, and the bound. *)
Record MemAuditLog := mkAudit {
  entries : list AuditEntry;
  max : Z;
}.

Definition NewMemAuditLog (max : Z) : MemAuditLog := mkAudit [] max.

Definition Record_ (e : AuditEntry) (m : MemAuditLog) : MemAuditLog :=
  let es := entries m ++ [e] in
  if (0 <? max m) && (max m <? Z.of_nat (length es)) then
    mkAudit (drop (length es - Z.to_nat (max m)) es) (max m)
  else mkAudit es (max m).

(** A copy of the entries. *)
Definition Entries (m : MemAuditLog) : list AuditEntry := entries m.

(** ** The limiter (support.go) *)

Record tokenBucketLimiter := mkLimiter {
  rate : float64;
  burst : float64;
  tokens : float64;
  last : Z;
}.

Definition newTokenBucketLimiter (ratePerMinute burst : Z) : tokenBucketLimiter :=
  let ratePerMinute := if ratePerMinute <=? 0 then 5 else ratePerMinute in
  let burst := if burst <=? 0 then ratePerMinute else burst in
  mkLimiter (fdiv (f_of_int ratePerMinute) (f_of_int 60)) (f_of_int burst) (f_of_int burst) 0.

Definition Allow (now : Z) (l : tokenBucketLimiter) : bool * tokenBucketLimiter :=
  let last := if time_is_zero (last l) then now else last l in
  let elapsed := dur_seconds (time_sub now last) in
  let t := fadd (tokens l) (fmul elapsed (rate l)) in
  let t := if flt (burst l) t then burst l else t in
  if flt t (f_of_int 1) then (false, mkLimiter (rate l) (burst l) t now)
  else (true, mkLimiter (rate l) (burst l) (fsub t (f_of_int 1)) now).

Abbreviation limiters := (gmap string tokenBucketLimiter).

Definition keyedLimiter (m : limiters) (key : string) (rate burst : Z) : tokenBucketLimiter :=
  match m !! key with
  | Some l => l
  | None => newTokenBucketLimiter rate burst
  end.

(** One request against the limiter of a key. *)
Definition spend (now : Z) (key : string) (rate burst : Z) (m : limiters) : bool * limiters :=
  let '(ok, l) := Allow now (keyedLimiter m key rate burst) in (ok, <[key := l]> m).

(** ** The state *)

Record State (S : Type) := mkState {
  store : S;
  Tokens : tokenStore;
  ipLimits : limiters;
  userLimits : limiters;
  audit : MemAuditLog;
}.
#[global] Arguments mkState {_} _ _ _ _ _.
#[global] Arguments store {_} _.
#[global] Arguments Tokens {_} _.
#[global] Arguments ipLimits {_} _.
#[global] Arguments userLimits {_} _.
#[global] Arguments audit {_} _.

(** Readings of the clocks while one request is handled. *)
Record Times := mkTimes {
  t_auth : Z;
  t_limit : Z;
  t_registry : Z;
  t_verify : Z;
  t_issue : Z;
  t_store : Z;
  t_audit : Z;
}.

(** [encoding/json] on the request bodies. *)
Class RequestJson := {
  decode_login : list byte → option (string * string);
  decode_refresh : list byte → option string;
  decode_status : list byte → option string;
  decode_rule : list byte → option Storage.PortRule;
}.

(** [bcrypt]: hashing with a cost, and comparison. *)
Class Bcrypt := {
  bcrypt_generate : list byte → Z → option (list byte);
  bcrypt_compare : list byte → list byte → bool;
}.

Definition HashPassword `{Bcrypt} (plaintext : string) : option (list byte) := bcrypt_generate (bytes_of plaintext) 12.
Definition checkPassHash `{Bcrypt} (hash : list byte) (plaintext : string) : bool :=
  bcrypt_compare hash (bytes_of plaintext).

Section Server.
Context `{GoUnicode} `{ClaimsJson} `{RequestJson} `{Bcrypt} {S : Type} `{Storage.Store S}.

Definition with_store (s : S) (st : State S) : State S :=
  mkState s (Tokens st) (ipLimits st) (userLimits st) (audit st).
Definition with_tokens (t : tokenStore) (st : State S) : State S :=
  mkState (store st) t (ipLimits st) (userLimits st) (audit st).

Definition bearer (r : Request) : string :=
  let h := bytes_of (Authorization r) in
  if (7 <? length h)%nat && EqualFold (string_of (take 7 h)) "Bearer " then string_of (drop 7 h) else "".

Definition clientIP (r : Request) : string :=
  let host := match SplitHostPort (RemoteAddr r) with Some (host, _) => host | None => RemoteAddr r end in
  match ParseAddr host with
  | Some addr => Addr_String addr
  | None => host
  end.

(** A handler of the chain: clocks, the claims of the request's context, the request, the
    state. *)
Definition Handler : Type := Times → option Claims → Request → State S → State S * Response.

(** ** Handlers (handlers.go) *)

(** [int64(d.Seconds())]. *)
Definition whole_seconds (d : Z) : Z := f_to_int64 (dur_seconds d).

Definition claims_for (d : Deps) (now : Z) (sub role typ : string) (ttl : Z) : Claims :=
  mkClaims sub role (time_unix now) (time_unix (now + ttl)) typ.

Definition login (d : Deps) : Handler := λ t _ r st,
  match decode_login (Body r) with
  | None => (st, writeError 400 "BAD_REQUEST" (Text "malformed body"))
  | Some (username, password) =>
      if String.eqb username "" || String.eqb password "" then
        (st, writeError 400 "BAD_REQUEST" (Text "username and password required"))
      else if negb (String.eqb username (AdminUser d)) || negb (checkPassHash (AdminHash d) password) then
        (st, writeError 401 "UNAUTHORIZED" (Text "invalid credentials"))
      else match IssueToken (Secret d) (claims_for d (t_issue t) username "admin" "access" (AccessTTL d)) with
           | Ret access =>
               match IssueToken (Secret d) (claims_for d (t_issue t) username "admin" "refresh" (RefreshTTL d)) with
               | Ret refresh =>
                   (with_tokens (add (t_registry t) refresh (RefreshTTL d) (Tokens st)) st,
                    writeOK (PSession access refresh (whole_seconds (AccessTTL d))))
               | _ => (st, writeError 500 "INTERNAL" (Text "issue refresh token"))
               end
           | _ => (st, writeError 500 "INTERNAL" (Text "issue access token"))
           end
  end.

Definition refresh (d : Deps) : Handler := λ t _ r st,
  match decode_refresh (Body r) with
  | None => (st, writeError 400 "BAD_REQUEST" (Text "malformed body"))
  | Some token =>
      let '(ok, tokens) := valid (t_registry t) token (Tokens st) in
      let st := with_tokens tokens st in
      if negb ok then (st, writeError 401 "UNAUTHORIZED" (Text "refresh token unknown or expired"))
      else match VerifyToken (Secret d) token (time_unix (t_verify t)) with
           | Ret claims =>
               if negb (String.eqb (Typ claims) "refresh") then
                 (st, writeError 401 "UNAUTHORIZED" (Text "invalid refresh token"))
               else match IssueToken (Secret d) (claims_for d (t_issue t) (Sub claims) (Role claims) "access" (AccessTTL d)) with
                    | Ret access => (st, writeOK (PAccess access (whole_seconds (AccessTTL d))))
                    | _ => (st, writeError 500 "INTERNAL" (Text "issue access token"))
                    end
           | _ => (st, writeError 401 "UNAUTHORIZED" (Text "invalid refresh token"))
           end
  end.

Definition logout : Handler := λ _ _ r st,
  let st := if negb (String.eqb (bearer r) "") then with_tokens (revoke (bearer r) (Tokens st)) st else st in
  let st := match decode_refresh (Body r) with
            | Some token => if negb (String.eqb token "") then with_tokens (revoke token (Tokens st)) st else st
            | None => st
            end in
  (st, writeOK POk).

(** A query's result, or the store's error. *)
Definition answer {A} (f : A → payload) (st : State S) (r : outcome Storage.store_error A) : State S * Response :=
  (st, match r with
       | Ret a => writeOK (f a)
       | Fail e => writeError 500 "INTERNAL" (StoreText e)
       | Panic => writeJSON 500 PNone
       end).

Definition listNodes : Handler := λ _ _ _ st,
  answer PNodes st (Storage.ListNodes (Storage.mkFilter "" "" 0 0) (store st)).

Definition nodeDetail (id : string) : Handler := λ _ _ _ st,
  match Storage.GetNode id (store st) with
  | Ret n => (st, writeOK (PNode n))
  | _ => (st, writeError 404 "NOT_FOUND" (Text "node not found"))
  end.

Definition nodeStatus (id : string) : Handler := λ t _ r st,
  match decode_status (Body r) with
  | None => (st, writeError 400 "BAD_REQUEST" (Text "malformed body"))
  | Some status =>
      if negb (String.eqb status Storage.NodeStatusOnline) && negb (String.eqb status Storage.NodeStatusOffline)
      then (st, writeError 400 "BAD_REQUEST" (Text "status must be online or offline"))
      else let '(s, e) := Storage.UpdateNodeStatus (t_store t) id status (store st) in
           answer (λ _, PStatus id status) (with_store s st) e
  end.

Definition deleteNode (id : string) : Handler := λ _ _ _ st,
  let '(s, e) := Storage.DeleteNode id (store st) in answer (λ _, PDeleted) (with_store s st) e.

Definition listRooms : Handler := λ _ _ _ st, answer PRooms st (Storage.ListRooms (store st)).

Definition roomMembers (id : string) : Handler := λ _ _ _ st,
  answer PNodes st (Storage.ListRoomMembers id (store st)).

Definition listPorts : Handler := λ _ _ r st,
  if String.eqb (nodeIdParam r) "" then
    (st, writeError 400 "BAD_REQUEST" (Text "nodeId query parameter required"))
  else answer PRules st (Storage.GetPortRules (nodeIdParam r) (store st)).

Definition addPort : Handler := λ t _ r st,
  match decode_rule (Body r) with
  | None => (st, writeError 400 "BAD_REQUEST" (Text "malformed body"))
  | Some rule =>
      let '(s, e) := Storage.SetPortRule (t_store t) rule (store st) in
      answer (λ _, PRule rule) (with_store s st) e
  end.

Definition deletePort (id : string) : Handler := λ _ _ _ st,
  let '(s, e) := Storage.DeletePortRule id (store st) in answer (λ _, PDeleted) (with_store s st) e.

Definition listServers (d : Deps) : Handler := λ _ _ _ st,
  (st, writeOK (PServers (match Servers d with None => [] | Some l => l end))).

(** The loop of [statsOverview]. *)
Definition count_node (acc : nat * gmap string nat) (n : Storage.Node) : nat * gmap string nat :=
  let '(online, nats) := acc in
  (if String.eqb (Storage.Status n) Storage.NodeStatusOnline then Datatypes.S online else online,
   if negb (String.eqb (Storage.NATType n) "") then
     <[Storage.NATType n := Datatypes.S (default 0%nat (nats !! Storage.NATType n))]> nats
   else nats).

Definition statsOverview : Handler := λ _ _ _ st,
  match Storage.ListNodes (Storage.mkFilter "" "" 0 0) (store st) with
  | Ret nodes =>
      answer (λ rooms, let '(online, nats) := foldl count_node (0%nat, ∅) nodes in
                       PStats (length nodes) online (length rooms) nats)
        st (Storage.ListRooms (store st))
  | e => answer PNodes st e
  end.

(** ** The chain (middleware.go, router.go) *)

Inductive Route :=
| RLogin
| RRefresh
| RLogout
| RListNodes
| RNode (id : string)
| RNodeStatus (id : string)
| RDeleteNode (id : string)
| RRooms
| RMembers (id : string)
| RListPorts
| RAddPort
| RDeletePort (id : string)
| RServers
| RStats
| RNotFound
| RMethodNotAllowed
| RRedirect.

#[export] Instance Route_eq_dec : EqDecision Route.
Proof. solve_decision. Defined.

(** A pattern with the method GET also serves HEAD. *)
Definition is_get (m : string) : bool := String.eqb m "GET" || String.eqb m "HEAD".

Definition by_method (r : Request) (routes : list (string * Route)) : Route :=
  match List.find (λ mr, if String.eqb mr.1 "GET" then is_get (Method r) else String.eqb mr.1 (Method r)) routes with
  | Some (_, route) => route
  | None => RMethodNotAllowed
  end.

(** [http.ServeMux] with the patterns of [Handler]: a wildcard matches one non-empty segment;
    a path that is not canonical is redirected, except for CONNECT. *)
Definition mux_route (r : Request) : Route :=
  if negb (Canonical r) && negb (String.eqb (Method r) "CONNECT") then RRedirect
  else match Segments r with
       | [a; v; x] =>
           if negb (String.eqb a "api" && String.eqb v "v1") then RNotFound
           else if String.eqb x "nodes" then by_method r [("GET", RListNodes)]
           else if String.eqb x "rooms" then by_method r [("GET", RRooms)]
           else if String.eqb x "ports" then by_method r [("GET", RListPorts); ("POST", RAddPort)]
           else if String.eqb x "servers" then by_method r [("GET", RServers)]
           else RNotFound
       | [a; v; x; y] =>
           if negb (String.eqb a "api" && String.eqb v "v1") then RNotFound
           else if String.eqb x "auth" && String.eqb y "login" then RLogin
           else if String.eqb x "auth" && String.eqb y "refresh" then RRefresh
           else if String.eqb x "auth" && String.eqb y "logout" then RLogout
           else if String.eqb x "nodes" && negb (String.eqb y "") then
             by_method r [("GET", RNode y); ("DELETE", RDeleteNode y)]
           else if String.eqb x "ports" && negb (String.eqb y "") then by_method r [("DELETE", RDeletePort y)]
           else if String.eqb x "stats" && String.eqb y "overview" then by_method r [("GET", RStats)]
           else RNotFound
       | [a; v; x; y; z] =>
           if negb (String.eqb a "api" && String.eqb v "v1") then RNotFound
           else if String.eqb x "nodes" && negb (String.eqb y "") && String.eqb z "status" then
             by_method r [("PUT", RNodeStatus y)]
           else if String.eqb x "rooms" && negb (String.eqb y "") && String.eqb z "members" then
             by_method r [("GET", RMembers y)]
           else RNotFound
       | _ => RNotFound
       end.

(** The status of the redirect is the library's. *)
Definition mux (redirect_status : Z) (d : Deps) : Handler := λ t c r st,
  match mux_route r with
  | RLogin => login d t c r st
  | RRefresh => refresh d t c r st
  | RLogout => logout t c r st
  | RListNodes => listNodes t c r st
  | RNode id => nodeDetail id t c r st
  | RNodeStatus id => nodeStatus id t c r st
  | RDeleteNode id => deleteNode id t c r st
  | RRooms => listRooms t c r st
  | RMembers id => roomMembers id t c r st
  | RListPorts => listPorts t c r st
  | RAddPort => addPort t c r st
  | RDeletePort id => deletePort id t c r st
  | RServers => listServers d t c r st
  | RStats => statsOverview t c r st
  | RNotFound => (st, writeJSON 404 PNone)
  | RMethodNotAllowed => (st, writeJSON 405 PNone)
  | RRedirect => (st, writeJSON redirect_status PNone)
  end.

Definition login_path : string := "/api/v1/auth/login".
Definition refresh_path : string := "/api/v1/auth/refresh".

Definition AuditMiddleware (next : Handler) : Handler := λ t c r st,
  let '(st, resp) := next t c r st in
  let user := match c with Some c => Sub c | None => "" end in
  let e := mkEntry (t_audit t) user (Method r) (Path r) (Status resp) (clientIP r) in
  (mkState (store st) (Tokens st) (ipLimits st) (userLimits st) (Record_ e (audit st)), resp).

(** [APIUserBurst] is a sixth of the rate. *)
Definition RateLimitMiddleware (cfg : Config) (next : Handler) : Handler := λ t c r st,
  let userBurst := Z.quot (APIUserRatePerMin cfg) 6 in
  let '(ok, ips, users) :=
    if String.eqb (Path r) login_path then
      let '(ok, m) := spend (t_limit t) ("ip:" +:+ clientIP r) (LoginRatePerMin cfg) (LoginRatePerMin cfg) (ipLimits st) in
      (ok, m, userLimits st)
    else match c with
         | Some c =>
             let '(ok, m) := spend (t_limit t) ("u:" +:+ Sub c) (APIUserRatePerMin cfg) userBurst (userLimits st) in
             (ok, ipLimits st, m)
         | None =>
             let '(ok, m) := spend (t_limit t) ("api-ip:" +:+ clientIP r) (APIUserRatePerMin cfg) userBurst (ipLimits st) in
             (ok, m, userLimits st)
         end in
  let st := mkState (store st) (Tokens st) ips users (audit st) in
  if negb ok then (st, writeError 429 "RATE_LIMITED" (Text "too many requests")) else next t c r st.

Definition isPublicPath (paths : list string) (path : string) : bool :=
  existsb (λ p, negb (String.eqb p "") && String.eqb p path) paths.

Definition AuthMiddleware (secret : list byte) (publicPaths : list string) (next : Handler) : Handler := λ t c r st,
  if isPublicPath publicPaths (Path r) then next t c r st
  else
    let token := bearer r in
    if String.eqb token "" then (st, writeError 401 "UNAUTHORIZED" (Text "missing bearer token"))
    else match VerifyToken secret token (time_unix (t_auth t)) with
         | Fail e => (st, writeError 401 "UNAUTHORIZED" (JwtText e))
         | Panic => (st, writeJSON 500 PNone)
         | Ret claims =>
             if negb (String.eqb (Typ claims) "access") then
               (st, writeError 401 "UNAUTHORIZED" (Text "refresh token cannot access the API"))
             else next t (Some claims) r st
         end.

Definition CORSMiddleware (allowedOrigin : string) (next : Handler) : Handler := λ t c r st,
  if String.eqb (Method r) "OPTIONS" then (st, mkResponse 204 PNone (Some allowedOrigin))
  else let '(st, resp) := next t c r st in (st, mkResponse (Status resp) (Data resp) (Some allowedOrigin)).

(** [NewServer]'s defaults. *)
Definition DefaultAccessTTL : Z := 24 * 60 * Minute.
Definition DefaultRefreshTTL : Z := 7 * 24 * 60 * Minute.
Definition loginRatePerMin : Z := 5.

Definition NewServer (cfg : Config) : Config :=
  mkConfig (Addr_ cfg) (CertFile cfg) (KeyFile cfg) (ClientCAFile cfg) (AllowedOrigin cfg) (cSecret cfg)
    (if cAccessTTL cfg <=? 0 then DefaultAccessTTL else cAccessTTL cfg)
    (if cRefreshTTL cfg <=? 0 then DefaultRefreshTTL else cRefreshTTL cfg)
    (if LoginRatePerMin cfg <=? 0 then loginRatePerMin else LoginRatePerMin cfg)
    (if APIUserRatePerMin cfg <=? 0 then 600 else APIUserRatePerMin cfg).

(** The dependencies the handlers get. *)
Definition handler_deps (cfg : Config) (d : Deps) : Deps :=
  mkDeps (if (length (Secret d) =? 0)%nat then cSecret cfg else Secret d) (AdminUser d) (AdminHash d)
    (if AccessTTL d <=? 0 then cAccessTTL cfg else AccessTTL d)
    (if RefreshTTL d <=? 0 then cRefreshTTL cfg else RefreshTTL d) (Servers d).

(** [Server.Handler]: the chain from the mux outwards. *)
Definition ServeHTTP (redirect_status : Z) (cfg : Config) (d : Deps) : Handler :=
  let chain := mux redirect_status (handler_deps cfg d) in
  let chain := AuditMiddleware chain in
  let chain := RateLimitMiddleware cfg chain in
  let chain := AuthMiddleware (cSecret cfg) [login_path; refresh_path] chain in
  CORSMiddleware (AllowedOrigin cfg) chain.

Definition listen_addr (cfg : Config) : string :=
  if String.eqb (Addr_ cfg) "" then "127.0.0.1:29684" else Addr_ cfg.
End Server.

(** ** TLS (tls.go) *)

Inductive tls_error :=
| ErrNoCert
| ErrKeyPair
| ErrReadCA
| ErrNoCA.

(** What the built configuration says of certificates. *)
Record TLSConfig := mkTLS {
  MinVersion12 : bool;
  RequireClientCert : bool;
}.

(** Loading the key pair, reading a file and collecting its certificates are parameters. *)
Definition BuildTLSConfig (load_pair : string → string → bool) (read_file : string → option (list byte))
    (append_certs : list byte → bool) (certFile keyFile clientCAFile : string) : outcome tls_error TLSConfig :=
  if String.eqb certFile "" || String.eqb keyFile "" then Fail ErrNoCert
  else if negb (load_pair certFile keyFile) then Fail ErrKeyPair
  else if negb (String.eqb clientCAFile "") then
    match read_file clientCAFile with
    | None => Fail ErrReadCA
    | Some pem => if negb (append_certs pem) then Fail ErrNoCA else Ret (mkTLS true true)
    end
  else Ret (mkTLS true false).
End Api.

Module ApiFacts.
Import Jwt JwtFacts Api.

Section Chain.
Context `{GoUnicode} `{ClaimsJson} `{RequestJson} `{Bcrypt} {S : Type} `{Storage.Store S}.
Implicit Types st : State S.

#[local] Opaque hmacSHA256.

(** A response of the chain itself: an error or nothing. *)
Definition quiet (p : payload) : bool := match p with PError _ _ | PNone => true | _ => false end.

(** A response that says something about the mesh or acts on it. *)
Definition privileged (p : payload) : bool :=
  match p with PError _ _ | PNone | PSession _ _ _ | PAccess _ _ => false | _ => true end.

Definition tokens_in (p : payload) : list string :=
  match p with PSession a r _ => [a; r] | PAccess a _ => [a] | _ => [] end.

(** The claims under which the mux runs. *)
Definition admitted (cfg : Config) (t : Times) (r : Request) (c : option Claims) : Prop :=
  match c with
  | None => isPublicPath [login_path; refresh_path] (Path r) = true
  | Some claims =>
      bearer r ≠ "" ∧ VerifyToken (cSecret cfg) (bearer r) (time_unix (t_auth t)) = Ret claims ∧ Typ claims = "access"
  end.

(** The entry the audit log gets. *)
Definition entry_of (t : Times) (c : option Claims) (r : Request) (status : Z) : AuditEntry :=
  mkEntry (t_audit t) (match c with Some c => Sub c | None => "" end) (Method r) (Path r) status (clientIP r).

(** The chain answers by itself, without effect on the store, the tokens and the log, or what it does
    to them and answers is what the mux does and answers. *)
Lemma chain_cases rs cfg d t r st st' resp :
  ServeHTTP rs cfg d t None r st = (st', resp) →
  (store st' = store st ∧ Tokens st' = Tokens st ∧ quiet (Data resp) = true ∧ audit st' = audit st) ∨
  (∃ c st1 st2 resp1, admitted cfg t r c ∧ store st1 = store st ∧ Tokens st1 = Tokens st ∧
     mux rs (handler_deps cfg d) t c r st1 = (st2, resp1) ∧
     store st' = store st2 ∧ Tokens st' = Tokens st2 ∧ Data resp = Data resp1 ∧ Status resp = Status resp1 ∧
     audit st1 = audit st ∧ audit st' = Record_ (entry_of t c r (Status resp)) (audit st2)).
Proof.
  unfold ServeHTTP, CORSMiddleware. destruct (String.eqb (Method r) "OPTIONS"); [intros [= <- <-]; by left|].
  assert (∀ c st st' resp, admitted cfg t r c →
    RateLimitMiddleware cfg (AuditMiddleware (mux rs (handler_deps cfg d))) t c r st = (st', resp) →
    (store st' = store st ∧ Tokens st' = Tokens st ∧ quiet (Data resp) = true ∧ audit st' = audit st) ∨
    (∃ c st1 st2 resp1, admitted cfg t r c ∧ store st1 = store st ∧ Tokens st1 = Tokens st ∧
       mux rs (handler_deps cfg d) t c r st1 = (st2, resp1) ∧
       store st' = store st2 ∧ Tokens st' = Tokens st2 ∧ Data resp = Data resp1 ∧ Status resp = Status resp1 ∧
       audit st1 = audit st ∧ audit st' = Record_ (entry_of t c r (Status resp)) (audit st2))) as Hlim.
  { clear. intros c st st' resp Hc. unfold RateLimitMiddleware, AuditMiddleware.
    destruct (if String.eqb (Path r) login_path then _ else _) as [[ok ips] users].
    destruct ok; cbn [negb]; [|intros [= <- <-]; by left].
    destruct (mux _ _ _ _ _ _) as [st2 resp1] eqn:Hm. intros [= <- <-]. right.
    by exists c, (mkState (store st) (Tokens st) ips users (audit st)), st2, resp1. }
  unfold AuthMiddleware. destruct (isPublicPath _ (Path r)) eqn:Hpub.
  { destruct (RateLimitMiddleware _ _ _ _ _ _) as [st1 resp1] eqn:Hr. intros [= <- <-].
    destruct (Hlim None st st1 resp1 Hpub Hr) as [?|(c & ? & ? & ? & ?)]; [by left|]. right. by eexists _, _, _, _. }
  destruct (String.eqb_spec (bearer r) "") as [|Hb]; [intros [= <- <-]; by left|].
  destruct (VerifyToken _ _ _) as [claims|e|] eqn:Hv; [|intros [= <- <-]; by left..].
  destruct (String.eqb_spec (Typ claims) "access") as [Ht|]; cbn [negb]; [|intros [= <- <-]; by left].
  destruct (RateLimitMiddleware _ _ _ _ _ _) as [st1 resp1] eqn:Hr. intros [= <- <-].
  destruct (Hlim (Some claims) st st1 resp1 (conj Hb (conj Hv Ht)) Hr) as [?|(c & ? & ? & ? & ?)]; [by left|].
  right. by eexists _, _, _, _.
Qed.

(** ** Routes *)

Lemma by_method_cases r routes : by_method r routes = RMethodNotAllowed ∨ by_method r routes ∈ routes.*2.
Proof.
  unfold by_method. destruct (List.find _ routes) as [[m route]|] eqn:Hf; [|by left]. right.
  apply find_some in Hf as [Hin _]. apply list_elem_of_fmap. exists (m, route). split; [done|]. by apply list_elem_of_In.
Qed.

(** On a public path only the two public handlers can run. *)
Lemma public_routes r :
  isPublicPath [login_path; refresh_path] (Path r) = true →
  In (mux_route r) [RLogin; RRefresh; RNotFound; RRedirect].
Proof.
  unfold mux_route, Path. destruct (_ && _); [intros _; cbn; auto 10|].
  destruct (Segments r) as [|a [|v [|x [|y [|z [|? ?]]]]]]; try solve [intros _; cbn; auto 10].
  - destruct (String.eqb_spec a "api"), (String.eqb_spec v "v1"); cbn [negb andb]; try solve [intros _; cbn; auto 10]. subst.
    destruct (String.eqb_spec x "nodes") as [->|]; [done|]. destruct (String.eqb_spec x "rooms") as [->|]; [done|].
    destruct (String.eqb_spec x "ports") as [->|]; [done|]. destruct (String.eqb_spec x "servers") as [->|]; [done|].
    intros _. cbn. auto 10.
  - destruct (String.eqb_spec a "api"), (String.eqb_spec v "v1"); cbn [negb andb]; try solve [intros _; cbn; auto 10]. subst.
    destruct (String.eqb_spec x "auth") as [->|]; cbn [andb].
    + destruct (String.eqb y "login"); [intros _; cbn; auto 10|].
      destruct (String.eqb y "refresh"); [intros _; cbn; auto 10|].
      destruct (String.eqb_spec y "logout") as [->|]; [done|]. intros _. cbn. auto 10.
    + destruct (String.eqb_spec x "nodes") as [->|]; [done|]. cbn [andb].
      destruct (String.eqb_spec x "ports") as [->|]; [done|]. cbn [andb].
      destruct (String.eqb_spec x "stats") as [->|]; [done|]. intros _. cbn. auto 10.
  - destruct (String.eqb_spec a "api"), (String.eqb_spec v "v1"); cbn [negb andb]; try solve [intros _; cbn; auto 10]. subst.
    destruct (String.eqb_spec x "nodes") as [->|]; [done|]. cbn [andb].
    destruct (String.eqb_spec x "rooms") as [->|]; [done|]. intros _. cbn. auto 10.
Qed.

(** ** Sessions *)

(** The credentials a login needs. *)
Definition credentials (d : Deps) (r : Request) : Prop :=
  ∃ password, decode_login (Body r) = Some (AdminUser d, password) ∧ checkPassHash (AdminHash d) password = true.

Lemma login_cases d t c r st :
  (∃ code msg, login d t c r st = (st, writeError code "BAD_REQUEST" (Text msg)) ∨
               login d t c r st = (st, writeError code "UNAUTHORIZED" (Text msg)) ∨
               login d t c r st = (st, writeError code "INTERNAL" (Text msg))) ∨
  (credentials d r ∧ ∃ a rf n, login d t c r st =
     (with_tokens (add (t_registry t) rf (RefreshTTL d) (Tokens st)) st, writeOK (PSession a rf n)) ∧
     IssueToken (Secret d) (claims_for d (t_issue t) (AdminUser d) "admin" "access" (AccessTTL d)) = Ret a ∧
     IssueToken (Secret d) (claims_for d (t_issue t) (AdminUser d) "admin" "refresh" (RefreshTTL d)) = Ret rf).
Proof.
  unfold login. destruct (decode_login (Body r)) as [[u pw]|] eqn:Hd; [|left; eauto].
  destruct (_ || _); [left; eauto|]. destruct (String.eqb_spec u (AdminUser d)) as [->|]; cbn [negb orb]; [|left; eauto].
  destruct (checkPassHash (AdminHash d) pw) eqn:Hp; cbn [negb]; [|left; eauto].
  destruct (IssueToken _ _) as [a| |] eqn:Ha; [|left; eauto..].
  destruct (IssueToken _ (claims_for _ _ _ _ "refresh" _)) as [rf| |] eqn:Hr; [|left; eauto..].
  right. split; [by exists pw|]. by eexists a, rf, _.
Qed.

Lemma refresh_cases d t c r st :
  store (refresh d t c r st).1 = store st ∧
  (quiet (Data (refresh d t c r st).2) = true ∨
   ∃ x c0 a n, decode_refresh (Body r) = Some x ∧ valid (t_registry t) x (Tokens st) = (true, Tokens st) ∧
     VerifyToken (Secret d) x (time_unix (t_verify t)) = Ret c0 ∧ Typ c0 = "refresh" ∧
     IssueToken (Secret d) (claims_for d (t_issue t) (Sub c0) (Role c0) "access" (AccessTTL d)) = Ret a ∧
     (refresh d t c r st).2 = writeOK (PAccess a n)).
Proof.
  unfold refresh. destruct (decode_refresh (Body r)) as [x|] eqn:Hd; [|by split; [|left]].
  destruct (valid _ x (Tokens st)) as [ok tks] eqn:Hv. destruct ok; cbn [negb]; [|by split; [|left]].
  destruct (VerifyToken _ x _) as [c0| |] eqn:Hc; [|by split; [|left]..].
  destruct (String.eqb_spec (Typ c0) "refresh") as [Ht|]; cbn [negb]; [|by split; [|left]].
  destruct (IssueToken _ _) as [a| |] eqn:Ha; [|by split; [|left]..].
  split; [done|]. right. exists x, c0, a. eexists. split_and!; try done.
  revert Hv. unfold valid. destruct (Tokens st !! tokenHash x) as [e|]; [|done]. destruct (e <? t_registry t); [done|].
  by intros [= <-].
Qed.

(** Requests that ask only for a session leave the store and say nothing of the mesh. *)
Lemma public_mux rs d t c r st st2 resp :
  In (mux_route r) [RLogin; RRefresh; RNotFound; RRedirect] →
  mux rs d t c r st = (st2, resp) → store st2 = store st ∧ privileged (Data resp) = false.
Proof.
  unfold mux. intros [<- |[<- |[<- |[<- |[]]]]].
  - destruct (login_cases d t c r st) as [(code & msg & [->|[->| ->]])|(_ & a & rf & n & -> & _)]; by intros [= <- <-].
  - destruct (refresh_cases d t c r st) as [Hs [Hq|(x & c0 & a & n & _ & _ & _ & _ & _ & Hr)]];
      destruct (refresh d t c r st) as [st3 resp3]; cbn in *; intros [= <- <-]; (split; [done|]).
    + by destruct (Data resp3).
    + by rewrite Hr.
  - by intros [= <- <-].
  - by intros [= <- <-].
Qed.

Lemma answer_quiet {A} (f : A → payload) st r : (∀ a, tokens_in (f a) = []) → tokens_in (Data (answer f st r).2) = [].
Proof. intros Hf. by destruct r; cbn. Qed.

(** The other handlers issue no tokens. *)
Lemma mux_no_tokens rs d t c r st :
  mux_route r ≠ RLogin → mux_route r ≠ RRefresh → tokens_in (Data (mux rs d t c r st).2) = [].
Proof.
  intros Hl Hr. unfold mux. destruct (mux_route r); try done.
  - by apply answer_quiet.
  - unfold nodeDetail. by destruct (Storage.GetNode _ _).
  - unfold nodeStatus. destruct (decode_status _); [|done]. destruct (_ && _); [done|].
    destruct (Storage.UpdateNodeStatus _ _ _ _). by apply answer_quiet.
  - unfold deleteNode. destruct (Storage.DeleteNode _ _). by apply answer_quiet.
  - by apply answer_quiet.
  - by apply answer_quiet.
  - unfold listPorts. destruct (String.eqb _ _); [done|]. by apply answer_quiet.
  - unfold addPort. destruct (decode_rule _); [|done]. destruct (Storage.SetPortRule _ _ _). by apply answer_quiet.
  - unfold deletePort. destruct (Storage.DeletePortRule _ _). by apply answer_quiet.
  - unfold statsOverview. destruct (Storage.ListNodes _ _); [|done..].
    apply answer_quiet. intros rooms. by destruct (foldl _ _ _).
Qed.

(** Where a token in a response comes from. *)
Lemma mux_tokens rs d t c r st st2 resp y :
  mux rs d t c r st = (st2, resp) → y ∈ tokens_in (Data resp) →
  (credentials d r ∧ ∃ typ ttl, (typ = "access" ∧ ttl = AccessTTL d ∨ typ = "refresh" ∧ ttl = RefreshTTL d) ∧
     IssueToken (Secret d) (claims_for d (t_issue t) (AdminUser d) "admin" typ ttl) = Ret y) ∨
  (∃ x c0, decode_refresh (Body r) = Some x ∧ VerifyToken (Secret d) x (time_unix (t_verify t)) = Ret c0 ∧
     Typ c0 = "refresh" ∧
     IssueToken (Secret d) (claims_for d (t_issue t) (Sub c0) (Role c0) "access" (AccessTTL d)) = Ret y).
Proof.
  intros Hm Hy. destruct (in_dec Route_eq_dec (mux_route r) [RLogin; RRefresh]) as [[E|[E|[]]]|Hn].
  - unfold mux in Hm. rewrite <- E in Hm.
    destruct (login_cases d t c r st) as [(code & msg & [Hl|[Hl|Hl]])|(Hc & a & rf & n & Hl & Ha & Hr)];
      rewrite Hl in Hm; injection Hm as <- <-; cbn in Hy; [by apply elem_of_nil in Hy..|].
    left. split; [done|]. apply elem_of_cons in Hy as [->| ->%list_elem_of_singleton]; eexists _, _; eauto.
  - unfold mux in Hm. rewrite <- E in Hm.
    destruct (refresh_cases d t c r st) as [_ [Hq|(x & c0 & a & n & Hd & _ & Hv & Ht & Ha & Hr)]];
      rewrite Hm in *; cbn in *.
    + destruct (Data resp); try done; by apply elem_of_nil in Hy.
    + rewrite Hr in Hy. apply list_elem_of_singleton in Hy as ->. right. eauto 10.
  - pose proof (mux_no_tokens rs d t c r st) as Hq. rewrite Hm in Hq. cbn in Hq.
    rewrite Hq in Hy; [by apply elem_of_nil in Hy|..]; intros E; apply Hn; rewrite E; cbn; auto.
Qed.

(** ** The token registry *)

(** Without credentials no hash enters the registry. *)
Lemma mux_registry rs d t c r st h :
  ¬ credentials d r → Tokens st !! h = None → Tokens (mux rs d t c r st).1 !! h = None.
Proof.
  intros Hc Hh. unfold mux. destruct (mux_route r) as [| | | |id|id|id| |id| | |id| | | | |]; try done.
  - destruct (login_cases d t c r st) as [(code & msg & [->|[->| ->]])|(? & _)]; done.
  - unfold refresh. destruct (decode_refresh _) as [x|]; [|done].
    destruct (valid _ x (Tokens st)) as [ok tks] eqn:Hv.
    assert (tks !! h = None) as Ht.
    { revert Hv. unfold valid. destruct (Tokens st !! tokenHash x); [|intros; by simplify_eq].
      destruct (_ <? _); intros; simplify_eq; [|done]. rewrite lookup_delete_None. by right. }
    destruct ok; cbn [negb]; [|done]. destruct (VerifyToken _ _ _); [|done..].
    destruct (negb _); [done|]. by destruct (IssueToken _ _).
  - unfold logout. destruct (negb (String.eqb (bearer r) "")), (decode_refresh (Body r)); cbn; try destruct (negb _); cbn;
      unfold revoke; rewrite ?lookup_delete_None; auto.
  - unfold nodeDetail. by destruct (Storage.GetNode _ _).
  - unfold nodeStatus. destruct (decode_status _); [|done]. destruct (_ && _); [done|].
    by destruct (Storage.UpdateNodeStatus _ _ _ _).
  - unfold deleteNode. by destruct (Storage.DeleteNode _ _).
  - unfold listPorts. by destruct (String.eqb _ _).
  - unfold addPort. destruct (decode_rule _); [|done]. by destruct (Storage.SetPortRule _ _ _).
  - unfold deletePort. by destruct (Storage.DeletePortRule _ _).
  - unfold statsOverview. by destruct (Storage.ListNodes _ _).
Qed.

Lemma chain_registry rs cfg d t r st h :
  ¬ credentials (handler_deps cfg d) r → Tokens st !! h = None →
  Tokens (ServeHTTP rs cfg d t None r st).1 !! h = None.
Proof.
  intros Hc Hh. destruct (ServeHTTP rs cfg d t None r st) as [st' resp] eqn:Hs. cbn.
  destruct (chain_cases _ _ _ _ _ _ _ _ Hs) as [(_ & -> & _)|(c & st1 & st2 & resp1 & _ & _ & Ht & Hm & _ & -> & _)]; [done|].
  rewrite <- Ht in Hh. pose proof (mux_registry rs _ t c r st1 h Hc Hh) as Hk. by rewrite Hm in Hk.
Qed.

(** A refresh of a token that is not in the registry gives nothing. *)
Lemma chain_refused rs cfg d t r st x :
  ¬ credentials (handler_deps cfg d) r → decode_refresh (Body r) = Some x → Tokens st !! tokenHash x = None →
  tokens_in (Data (ServeHTTP rs cfg d t None r st).2) = [].
Proof.
  intros Hc Hx Hh. destruct (ServeHTTP rs cfg d t None r st) as [st' resp] eqn:Hs. cbn.
  destruct (chain_cases _ _ _ _ _ _ _ _ Hs) as [(_ & _ & Hq & _)|(c & st1 & st2 & resp1 & _ & _ & Ht & Hm & _ & _ & -> & _)];
    [by destruct (Data resp)|].
  destruct (in_dec Route_eq_dec (mux_route r) [RLogin; RRefresh]) as [[E|[E|[]]]|Hn]; unfold mux in Hm.
  - rewrite <- E in Hm. destruct (login_cases (handler_deps cfg d) t c r st1) as [(code & msg & [Hl|[Hl|Hl]])|(? & _)]; [..|done];
      rewrite Hl in Hm; by injection Hm as <- <-.
  - rewrite <- E in Hm. unfold refresh in Hm. rewrite Hx in Hm. unfold valid in Hm. rewrite Ht, Hh in Hm.
    by injection Hm as <- <-.
  - pose proof (mux_no_tokens rs (handler_deps cfg d) t c r st1) as Hq. unfold mux in Hq. rewrite Hm in Hq. apply Hq;
      intros E; apply Hn; rewrite E; cbn; auto.
Qed.

(** Serving one request after the other. *)
Definition serve_all (rs : Z) (cfg : Config) (d : Deps) (reqs : list (Times * Request)) (st : State S) : State S :=
  foldl (λ st tr, (ServeHTTP rs cfg d tr.1 None tr.2 st).1) st reqs.

Lemma serve_all_registry rs cfg d reqs st h :
  (∀ tr, tr ∈ reqs → ¬ credentials (handler_deps cfg d) tr.2) → Tokens st !! h = None →
  Tokens (serve_all rs cfg d reqs st) !! h = None.
Proof.
  revert st. induction reqs as [|tr reqs IH]; intros st Hc Hh; [done|]. cbn. apply IH; [set_solver|].
  apply chain_registry; [apply Hc; set_solver|done].
Qed.

(** The answer of a logout is nobody else's. *)
Lemma logout_answer rs cfg d t r st st' resp :
  ServeHTTP rs cfg d t None r st = (st', resp) → Data resp = POk →
  ∃ st1, Tokens st1 = Tokens st ∧ Tokens st' = Tokens (logout t None r st1).1.
Proof.
  intros Hs HD. destruct (chain_cases _ _ _ _ _ _ _ _ Hs) as
    [(_ & _ & Hq & _)|(c & st1 & st2 & resp1 & _ & _ & Ht & Hm & _ & -> & HD1 & _)]; [by rewrite HD in Hq|].
  exists st1. split; [done|]. rewrite HD in HD1. unfold mux in Hm.
  destruct (mux_route r) as [| | | |id|id|id| |id| | |id| | | | |].
  3: by injection Hm as <- <-.
  1:{ destruct (login_cases (handler_deps cfg d) t c r st1) as [(code & msg & [Hl|[Hl|Hl]])|(_ & a & rf & n & Hl & _)];
        rewrite Hl in Hm; by injection Hm as <- <-. }
  1:{ destruct (refresh_cases (handler_deps cfg d) t c r st1) as [_ [Hq|(x & c0 & a & n & _ & _ & _ & _ & _ & Hr)]];
        rewrite Hm in *; cbn in *; [by rewrite <- HD1 in Hq|by rewrite Hr in HD1]. }
  all: exfalso; revert Hm HD1.
  all: unfold listNodes, nodeDetail, nodeStatus, deleteNode, listRooms, roomMembers, listPorts, addPort, deletePort,
         listServers, statsOverview, answer.
  all: repeat case_match; intros; by simplify_eq/=.
Qed.

(** ** The limiter *)

(** After its first use the limiter is the token bucket of the port-scan defence. *)
Definition bucket_of (l : tokenBucketLimiter) : PortScan.tokenBucket :=
  PortScan.mkBucket (rate l) (burst l) (tokens l) (last l).
Definition limiter_of (b : PortScan.tokenBucket) : tokenBucketLimiter :=
  mkLimiter (PortScan.rate b) (PortScan.burst b) (PortScan.tokens b) (PortScan.last b).

Lemma Allow_take now l :
  last l ≠ 0 → Allow now l = let '(ok, b) := PortScan.take now (bucket_of l) in (ok, limiter_of b).
Proof.
  intros Hl. unfold Allow, time_is_zero, PortScan.take. destruct (Z.eqb_spec (last l) 0); [done|]. cbn.
  by destruct (flt _ (f_of_int 1)).
Qed.

Lemma Allow_first now l : last l = 0 → Allow now l = Allow now (mkLimiter (rate l) (burst l) (tokens l) now).
Proof. intros Hl. unfold Allow, time_is_zero. rewrite Hl. cbn. by destruct (Z.eqb_spec now 0) as [->|]. Qed.

(** The limiter of one address on the login path, with [k] permits left at [T]. *)
Definition login_limiter (k T : Z) : tokenBucketLimiter :=
  mkLimiter (fdiv (f_of_int 5) (f_of_int 60)) (f_of_int 5) (f_of_int k) T.

Lemma login_Allow k T :
  0 <= k <= 5 → Allow T (login_limiter k T) = if k <? 1 then (false, login_limiter k T) else (true, login_limiter (k - 1) T).
Proof.
  intros Hk. unfold Allow, login_limiter. cbn [rate burst tokens last].
  assert ((if time_is_zero T then T else T) = T) as -> by (by destruct (time_is_zero T)).
  assert (time_sub T T = 0) as -> by (unfold time_sub, max_duration; lia).
  assert (fmul (dur_seconds 0) (fdiv (f_of_int 5) (f_of_int 60)) = f_of_int 0) as -> by (by vm_compute).
  rewrite fadd_int by lia. rewrite Z.add_0_r, flt_int by lia. destruct (Z.ltb_spec 5 k); [lia|].
  rewrite flt_int by lia. destruct (Z.ltb_spec k 1); [done|]. by rewrite fsub_int by lia.
Qed.

Definition login_key (ip : string) : string := "ip:" +:+ ip.

(** At most [k] permits at [T]: no limiter yet, or one with [k] permits. *)
Definition permits (k T : Z) (ip : string) (st : State S) : Prop :=
  ipLimits st !! login_key ip = Some (login_limiter k T) ∨ (ipLimits st !! login_key ip = None ∧ k = 5).

Lemma permits_spend k T ip st :
  0 <= k <= 5 → permits k T ip st →
  ∃ m, spend T (login_key ip) 5 5 (ipLimits st) = (negb (k <? 1), m) ∧
    m !! login_key ip = Some (login_limiter (if k <? 1 then k else k - 1) T).
Proof.
  intros Hk Hp. unfold spend, keyedLimiter.
  assert (Allow T (match ipLimits st !! login_key ip with Some l => l | None => newTokenBucketLimiter 5 5 end) =
    Allow T (login_limiter k T)) as ->.
  { destruct Hp as [-> |[-> ->]]; [done|]. rewrite (Allow_first T (newTokenBucketLimiter 5 5)) by done. done. }
  rewrite login_Allow by done. destruct (k <? 1); cbn; eexists; (split; [done|]); apply lookup_insert_eq.
Qed.

Lemma mux_limits rs d t c r st : ipLimits (mux rs d t c r st).1 = ipLimits st.
Proof.
  unfold mux. destruct (mux_route r); try done;
    unfold login, refresh, logout, nodeDetail, nodeStatus, deleteNode, listPorts, addPort, deletePort, statsOverview, answer;
    repeat case_match; done.
Qed.

(** An answer to a login whose password was looked at. *)
Definition guess (p : payload) : bool :=
  match p with
  | PError _ (Text m) => String.eqb m "invalid credentials"
  | PSession _ _ _ => true
  | _ => false
  end.

Lemma login_step rs cfg d t r st k T ip :
  LoginRatePerMin cfg = 5 → Method r ≠ "OPTIONS" → Path r = login_path → clientIP r = ip → t_limit t = T →
  0 <= k <= 5 → permits k T ip st →
  let '(st', resp) := ServeHTTP rs cfg d t None r st in
  if k <? 1 then permits k T ip st' ∧ guess (Data resp) = false else permits (k - 1) T ip st'.
Proof.
  intros Hrate Hopt Hpath Hip HT Hk Hp. unfold ServeHTTP, CORSMiddleware, AuthMiddleware, RateLimitMiddleware.
  destruct (String.eqb_spec (Method r) "OPTIONS"); [done|].
  assert (isPublicPath [login_path; refresh_path] (Path r) = true) as -> by (by rewrite Hpath).
  rewrite Hpath, String.eqb_refl, Hip, HT, Hrate. fold (login_key ip).
  destruct (permits_spend k T ip st Hk Hp) as (m & -> & Hm). destruct (k <? 1); cbn [negb].
  - split; [by left|done].
  - unfold AuditMiddleware.
    pose proof (mux_limits rs (handler_deps cfg d) t None r (mkState (store st) (Tokens st) m (userLimits st) (audit st))) as Hl.
    destruct (mux _ _ _ _ _ _) as [st2 resp]. left. cbn in *. by rewrite Hl.
Qed.

(** The answers to requests served one after the other. *)
Fixpoint answers (rs : Z) (cfg : Config) (d : Deps) (reqs : list (Times * Request)) (st : State S) : list Response :=
  match reqs with
  | [] => []
  | (t, r) :: reqs => let '(st', resp) := ServeHTTP rs cfg d t None r st in resp :: answers rs cfg d reqs st'
  end.

Lemma login_guesses rs cfg d reqs k T ip st :
  LoginRatePerMin cfg = 5 →
  (∀ t r, (t, r) ∈ reqs → Method r ≠ "OPTIONS" ∧ Path r = login_path ∧ clientIP r = ip ∧ t_limit t = T) →
  0 <= k <= 5 → permits k T ip st →
  Z.of_nat (length (List.filter (λ resp, guess (Data resp)) (answers rs cfg d reqs st))) <= k.
Proof.
  intros Hrate. revert k st. induction reqs as [|[t r] reqs IH]; intros k st Hall Hk Hp; cbn [answers]; [cbn; lia|].
  destruct (Hall t r ltac:(by left)) as (Ho & Hpa & Hi & Ht).
  pose proof (login_step rs cfg d t r st k T ip Hrate Ho Hpa Hi Ht Hk Hp) as Hs.
  destruct (ServeHTTP rs cfg d t None r st) as [st' resp]. cbn [List.filter].
  assert (∀ t r, (t, r) ∈ reqs → Method r ≠ "OPTIONS" ∧ Path r = login_path ∧ clientIP r = ip ∧ t_limit t = T) as Hall'
    by (intros t' r' Hin; apply Hall; by right).
  destruct (Z.ltb_spec k 1).
  - destruct Hs as [Hp' ->]. by apply IH.
  - specialize (IH (k - 1) st' Hall' ltac:(lia) Hs). destruct (guess _); cbn [length]; lia.
Qed.

(** ** Histories *)

(** A request that was handled, with the states around it. *)
Record event := mkEvent {
  ev_t : Times;
  ev_r : Request;
  ev_before : State S;
  ev_after : State S;
  ev_resp : Response;
}.

Definition signed_part (token : string) : option (list byte * list byte) :=
  match split_on dot [] (bytes_of token) with [p0; p1; _] => Some (p0, p1) | _ => None end.

(** The token's signature is the MAC of its signed part. *)
Definition mac_ok (secret : list byte) (token : string) : Prop :=
  ∃ p0 p1 p2, split_on dot [] (bytes_of token) = [p0; p1; p2] ∧
    b64_decode p2 = Some (hmacSHA256 secret (p0 ++ [dot] ++ p1)).

(** The tokens of a request. *)
Definition presents (r : Request) (token : string) : Prop :=
  bearer r = token ∨ decode_refresh (Body r) = Some token.

(** Nobody forges a MAC: what carries a valid one was signed by the server before. *)
Definition unforged (secret : list byte) (evs : list event) (r : Request) : Prop :=
  ∀ x, presents r x → mac_ok secret x →
    ∃ e y, e ∈ evs ∧ y ∈ tokens_in (Data (ev_resp e)) ∧ signed_part y = signed_part x.

Inductive history (rs : Z) (cfg : Config) (d : Deps) : list event → State S → Prop :=
| history_start st : history rs cfg d [] st
| history_next evs st t r st' resp :
    history rs cfg d evs st → unforged (cSecret cfg) evs r → ServeHTTP rs cfg d t None r st = (st', resp) →
    history rs cfg d (evs ++ [mkEvent t r st st' resp]) st'.

(** The claims of an accepted token that shares its signed part with an issued one. *)
Lemma same_claims secret c x y now c' :
  IssueToken secret c = Ret y → claims_ok c → signed_part y = signed_part x → VerifyToken secret x now = Ret c' →
  c' = c ∧ now < Exp c.
Proof.
  intros (_ & He & body & Hm & Hy)%IssueToken_inv (b & Hb & Hu) Hs (p0 & p1 & p2 & Hx & _ & Hc & _ & _ & Hexp)%VerifyToken_inv.
  unfold signed_part in Hs. rewrite Hy, Hx in Hs. injection Hs as <- <-.
  unfold claims_in in Hc. rewrite b64_decode_encode in Hc. cbn in Hc.
  rewrite Hm in Hb. injection Hb as ->. rewrite Hu in Hc. injection Hc as <-. split; [done|]. lia.
Qed.

Lemma VerifyToken_mac secret x now c : VerifyToken secret x now = Ret c → mac_ok secret x.
Proof. intros (p0 & p1 & p2 & Hx & Hp & _)%VerifyToken_inv. by exists p0, p1, p2. Qed.

(** [e'] handled a login with the administrator's credentials at most [ttl] before [now]. *)
Definition login_within (d : Deps) (now ttl : Z) (e' : event) : Prop :=
  credentials d (ev_r e') ∧ time_unix now < time_unix (t_issue (ev_t e') + ttl).

(** A session that justifies acting at [now] after the events [evs]: a login within the
    lifetime of access tokens, or a refresh within it that came within the lifetime of
    refresh tokens of a login. *)
Definition session (d : Deps) (evs : list event) (now : Z) : Prop :=
  ∃ evs1 e evs2, evs = evs1 ++ e :: evs2 ∧ time_unix now < time_unix (t_issue (ev_t e) + AccessTTL d) ∧
    (credentials d (ev_r e) ∨ ∃ e', e' ∈ evs1 ∧ login_within d (t_verify (ev_t e)) (RefreshTTL d) e').

(** What is known of a token handed out at [e], after [evs1]. *)
Definition provenance (d : Deps) (evs1 : list event) (e : event) (y : string) : Prop :=
  ∃ c, IssueToken (Secret d) c = Ret y ∧ Sub c = AdminUser d ∧ Role c = "admin" ∧
    ((Typ c = "refresh" ∧ Exp c = time_unix (t_issue (ev_t e) + RefreshTTL d) ∧ credentials d (ev_r e)) ∨
     (Typ c = "access" ∧ Exp c = time_unix (t_issue (ev_t e) + AccessTTL d) ∧
      (credentials d (ev_r e) ∨ ∃ e', e' ∈ evs1 ∧ login_within d (t_verify (ev_t e)) (RefreshTTL d) e'))).

Section History.
Context (rs : Z) (cfg : Config) (d0 : Deps).
Let d : Deps := handler_deps cfg d0.
Hypothesis Hsecret : Secret d = cSecret cfg.
Hypothesis Hjson : ∀ iat exp typ, claims_ok (mkClaims (AdminUser d) "admin" iat exp typ).

Lemma claims_ok_admin c : Sub c = AdminUser d → Role c = "admin" → claims_ok c.
Proof. destruct c. cbn. intros -> ->. apply Hjson. Qed.

Lemma history_provenance evs st :
  history rs cfg d0 evs st →
  ∀ evs1 e evs2, evs = evs1 ++ e :: evs2 → ∀ y, y ∈ tokens_in (Data (ev_resp e)) → provenance d evs1 e y.
Proof.
  induction 1 as [|evs st t r st' resp Hh IH Hu Hs]; intros evs1 e evs2 Hevs y Hy; [by destruct evs1|].
  destruct evs2 as [|e2 evs2 _] using rev_ind.
  2:{ rewrite app_comm_cons, app_assoc in Hevs. apply app_inj_tail in Hevs as [-> _]. by eapply IH. }
  apply app_inj_tail in Hevs as [<- <-]. cbn [ev_resp] in Hy.
  destruct (chain_cases _ _ _ _ _ _ _ _ Hs) as [(_ & _ & Hq & _)|(c & st1 & st2 & resp1 & _ & _ & _ & Hm & _ & _ & HD & _)].
  { destruct (Data resp); try done; by apply elem_of_nil in Hy. }
  rewrite HD in Hy. destruct (mux_tokens _ _ _ _ _ _ _ _ _ Hm Hy) as
    [(Hc & typ & ttl & Htyp & Hi)|(x & c0 & Hd & Hv & Ht & Hi)].
  - fold d in Hc, Htyp, Hi. eexists. split; [exact Hi|]. cbn. split_and!; [done..|].
    destruct Htyp as [[-> ->]|[-> ->]]; [right|left]; auto.
  - fold d in Hv, Hi. eexists. split; [exact Hi|]. cbn.
    destruct (Hu x (or_intror Hd)) as (e0 & y0 & He0 & Hy0 & Hsig).
    { rewrite <- Hsecret. by eapply VerifyToken_mac. }
    apply list_elem_of_split in He0 as (evs1 & evs2 & Hsplit).
    destruct (IH _ _ _ Hsplit _ Hy0) as (c1 & Hi1 & Hsub & Hrole & Hkind).
    destruct (same_claims _ _ _ _ _ _ Hi1 (claims_ok_admin c1 Hsub Hrole) Hsig Hv) as [-> Hexp].
    split_and!; [done..|]. right. split_and!; [done..|]. right. exists e0.
    destruct Hkind as [(_ & He & Hcred)|(Hacc & _)]; [|congruence]. split; [set_solver|]. split; [done|]. rewrite He in Hexp. exact Hexp.
Qed.

(** An accepted access token is the mark of a session. *)
Lemma accepted_session evs st r now c :
  history rs cfg d0 evs st → unforged (cSecret cfg) evs r →
  VerifyToken (cSecret cfg) (bearer r) (time_unix now) = Ret c → Typ c = "access" → session d evs now.
Proof.
  intros Hh Hu Hv Ht. destruct (Hu (bearer r) (or_introl eq_refl)) as (e0 & y0 & He0 & Hy0 & Hsig).
  { by eapply VerifyToken_mac. }
  apply list_elem_of_split in He0 as (evs1 & evs2 & ->).
  destruct (history_provenance _ _ Hh _ _ _ eq_refl _ Hy0) as (c1 & Hi1 & Hsub & Hrole & Hkind).
  rewrite Hsecret in Hi1. destruct (same_claims _ _ _ _ _ _ Hi1 (claims_ok_admin c1 Hsub Hrole) Hsig Hv) as [-> Hexp].
  destruct Hkind as [(Href & _)|(_ & He & Hk)]; [congruence|].
  exists evs1, e0, evs2. split; [done|]. split; [by rewrite <- He|done].
Qed.
End History.
End Chain.
End ApiFacts.

Module ApiProperties.
Import Jwt JwtFacts Api ApiFacts.

#[local] Opaque hmacSHA256.

(** ** Instances to evaluate with *)

(** A codec for all claims: their code number in binary. *)
Fixpoint bits_of (p : positive) : list byte :=
  match p with xH => [] | xO p => x30 :: bits_of p | xI p => x31 :: bits_of p end.
Fixpoint of_bits (l : list byte) : positive :=
  match l with [] => xH | b :: l => if bool_decide (b = x30) then xO (of_bits l) else xI (of_bits l) end.

Lemma of_bits_of p : of_bits (bits_of p) = p.
Proof. induction p as [p IH|p IH|]; cbn; [f_equal; exact IH..|done]. Qed.

Definition claims_tuple (c : Claims) : string * string * Z * Z * string := (Sub c, Role c, Iat c, Exp c, Typ c).
Definition tuple_claims (t : string * string * Z * Z * string) : Claims :=
  let '(s, r, i, e, y) := t in mkClaims s r i e y.

#[local] Instance number_json : ClaimsJson := {|
  json_marshal c := Some (bits_of (encode (claims_tuple c)));
  json_unmarshal b := tuple_claims <$> decode (of_bits b);
|}.

Lemma number_json_ok c : claims_ok c.
Proof.
  eexists. split; [reflexivity|]. cbn. rewrite of_bits_of, decode_encode. by destruct c.
Qed.

(** Bodies: "L" and a password, "R" and a token. *)
#[local] Instance sample_bodies : RequestJson := {|
  decode_login b := match b with x4c :: pw => Some ("admin", string_of pw) | _ => None end;
  decode_refresh b := match b with x52 :: token => Some (string_of token) | _ => None end;
  decode_status _ := None;
  decode_rule _ := None;
|}.

#[local] Instance plain_bcrypt : Bcrypt := {|
  bcrypt_generate pw _ := Some pw;
  bcrypt_compare hash pw := bool_decide (hash = pw);
|}.

#[local] Existing Instance ascii_only.
#[local] Existing Instance Storage.noop_Store.

Definition sample_cfg : Config := NewServer (mkConfig "" "" "" "" "*" [x01; x02] 0 0 0 0).
Definition sample_deps : Deps := mkDeps [] "admin" (bytes_of "pw") 0 0 None.
Definition sample_state : State Storage.noopStore := mkState Storage.mkNoop ∅ ∅ ∅ (NewMemAuditLog 1024).
Definition sample_clock (t : Z) : Times := mkTimes t t t t t t t.
Definition noon : Z := (62135596800 + 43200) * Second.

Definition login_request : Request :=
  mkRequest "POST" ["api"; "v1"; "auth"; "login"] true "" "10.0.0.9:5000" "" (x4c :: bytes_of "pw").
Definition servers_request (token : string) : Request :=
  mkRequest "GET" ["api"; "v1"; "servers"] true ("Bearer " +:+ token) "10.0.0.9:5000" "" [].

Definition after_login : State Storage.noopStore * Response :=
  ServeHTTP 307 sample_cfg sample_deps (sample_clock noon) None login_request sample_state.
Definition access_token : string := match Data after_login.2 with PSession a _ _ => a | _ => "" end.

(** ** Properties *)

(** C10: Acting through the API takes a live session.  After any history of requests in which
    no signature is forged, a request that changes the store or is answered with anything
    about the mesh carries a bearer token that verifies as an unexpired access token, and
    before it the server handled a login with the administrator's user name and password
    within the lifetime of access tokens, or a refresh within that time which itself came
    within the lifetime of refresh tokens of such a login.  (The handlers and the gate use the
    same secret, and the administrator's claims survive JSON.) *)
Theorem session_required `{GoUnicode} `{ClaimsJson} `{RequestJson} `{Bcrypt} {S : Type} `{Storage.Store S}
    (rs : Z) (cfg : Config) (d0 : Deps) (d := handler_deps cfg d0) (evs : list (@event S)) (st st' : State S)
    (t : Times) (r : Request) (resp : Response)
    (Hsecret : Secret d = cSecret cfg)
    (Hjson : ∀ iat exp typ, claims_ok (mkClaims (AdminUser d) "admin" iat exp typ))
    (Hh : history rs cfg d0 evs st) (Hu : unforged (cSecret cfg) evs r)
    (Hs : ServeHTTP rs cfg d0 t None r st = (st', resp))
    (Hact : store st' ≠ store st ∨ privileged (Data resp) = true) :
  (∃ claims, VerifyToken (cSecret cfg) (bearer r) (time_unix (t_auth t)) = Ret claims ∧ Typ claims = "access") ∧
  session d evs (t_auth t).
Proof.
  destruct (chain_cases _ _ _ _ _ _ _ _ Hs) as
    [(Hst & _ & Hq & _)|(c & st1 & st2 & resp1 & Hadm & Hs1 & _ & Hm & Hs2 & _ & HD & _)].
  { destruct Hact as [?|Hp]; [done|]. by destruct (Data resp). }
  destruct c as [claims|].
  - destruct Hadm as (Hb & Hv & Ht). split; [by exists claims|]. by eapply accepted_session.
  - cbn in Hadm. destruct (public_mux _ _ _ _ _ _ _ _ (public_routes _ Hadm) Hm) as [Hst Hp].
    exfalso. destruct Hact as [Hne|Hpr]; [apply Hne; congruence|congruence].
Qed.

Lemma session_required_witness :
  privileged (Data (ServeHTTP 307 sample_cfg sample_deps (sample_clock (noon + 5 * Second)) None
                      (servers_request access_token) after_login.1).2) = true ∧
  session (handler_deps sample_cfg sample_deps)
    [mkEvent (sample_clock noon) login_request sample_state after_login.1 after_login.2] (noon + 5 * Second).
Proof.
  assert (privileged (Data (ServeHTTP 307 sample_cfg sample_deps (sample_clock (noon + 5 * Second)) None
    (servers_request access_token) after_login.1).2) = true) as Hp by (vm_compute; reflexivity).
  split; [exact Hp|].
  destruct (ServeHTTP 307 sample_cfg sample_deps (sample_clock (noon + 5 * Second)) None
    (servers_request access_token) after_login.1) as [st' resp] eqn:Hs.
  refine (proj2 (session_required 307 sample_cfg sample_deps _ after_login.1 st' (sample_clock (noon + 5 * Second))
    (servers_request access_token) resp eq_refl _ _ _ Hs (or_intror Hp))).
  - intros. apply number_json_ok.
  - apply (history_next _ _ _ [] sample_state _ _ _ _ (history_start _ _ _ sample_state)); [|by destruct after_login eqn:E].
    intros x [<-|Hx] (p0 & p1 & p2 & Hp3 & _); [by vm_compute in Hp3|done].
  - intros x [<-|Hx] _; [|done].
    exists (mkEvent (sample_clock noon) login_request sample_state after_login.1 after_login.2), access_token.
    split; [by left|]. split; [|vm_compute; reflexivity].
    assert (∃ rf n, Data after_login.2 = PSession access_token rf n) as (rf & n & E) by (by eexists _, _; vm_compute).
    cbn [ev_resp]. rewrite E. by left.
Defined.

(** Logging out ends the session's refreshes.  Once a logout that carried a refresh token
    was answered, a request with that token gets no tokens any more, whatever requests come
    in between, as long as none of them is a login with the administrator's credentials. *)
Theorem logout_revokes `{GoUnicode} `{ClaimsJson} `{RequestJson} `{Bcrypt} {S : Type} `{Storage.Store S}
    (rs : Z) (cfg : Config) (d : Deps) (t t' : Times) (r r' : Request) (x : string) (st st' : State S) (resp : Response)
    (reqs : list (Times * Request))
    (Hs : ServeHTTP rs cfg d t None r st = (st', resp)) (Hok : Data resp = POk)
    (Hx : decode_refresh (Body r) = Some x) (Hne : x ≠ "")
    (Hx' : decode_refresh (Body r') = Some x)
    (Hno : ∀ tr, tr ∈ (t', r') :: reqs → ¬ credentials (handler_deps cfg d) tr.2) :
  tokens_in (Data (ServeHTTP rs cfg d t' None r' (serve_all rs cfg d reqs st')).2) = [].
Proof.
  destruct (logout_answer _ _ _ _ _ _ _ _ Hs Hok) as (st1 & Ht & Ht').
  apply (chain_refused rs cfg d t' r' _ x); [apply (Hno (t', r')); by left|done|].
  apply serve_all_registry; [intros tr Htr; apply Hno; by right|]. rewrite Ht'. unfold logout. rewrite Hx.
  destruct (String.eqb_spec x ""); [done|]. cbn. apply lookup_delete_eq.
Qed.

Definition refresh_token : string := match Data after_login.2 with PSession _ r _ => r | _ => "" end.
Definition logout_request : Request :=
  mkRequest "POST" ["api"; "v1"; "auth"; "logout"] true ("Bearer " +:+ access_token) "10.0.0.9:5000" ""
    (x52 :: bytes_of refresh_token).
Definition refresh_request : Request :=
  mkRequest "POST" ["api"; "v1"; "auth"; "refresh"] true "" "10.0.0.9:5000" "" (x52 :: bytes_of refresh_token).
Definition later : Times := sample_clock (noon + 5 * Second).

Lemma logout_revokes_witness :
  tokens_in (Data (ServeHTTP 307 sample_cfg sample_deps later None refresh_request after_login.1).2) ≠ [] ∧
  ∃ st', (ServeHTTP 307 sample_cfg sample_deps later None logout_request after_login.1).1 = st' ∧
    tokens_in (Data (ServeHTTP 307 sample_cfg sample_deps later None refresh_request
                       (serve_all 307 sample_cfg sample_deps [] st')).2) = [].
Proof.
  split; [by vm_compute|].
  assert (Data (ServeHTTP 307 sample_cfg sample_deps later None logout_request after_login.1).2 = POk) as Hok
    by (vm_compute; reflexivity).
  assert (decode_refresh (Body logout_request) = Some refresh_token) as Hx
    by (unfold logout_request; cbn [Body decode_refresh sample_bodies]; by rewrite string_of_bytes_of).
  assert (refresh_token ≠ "") as Hne by (by vm_compute).
  destruct (ServeHTTP 307 sample_cfg sample_deps later None logout_request after_login.1) as [st' resp] eqn:Hs.
  exists st'. split; [reflexivity|].
  apply (logout_revokes 307 sample_cfg sample_deps later later logout_request refresh_request refresh_token
    after_login.1 st' resp [] Hs Hok Hx Hne Hx).
  intros tr ->%list_elem_of_singleton (pw & Hd & _). done.
Defined.

(** Guessing the administrator's password is limited.  With the default login rate, of any
    number of requests to the login path that arrive from one address at one instant, on a
    server that saw no login from it, at most five have their password looked at; the others
    are turned away before that. *)
Theorem login_guesses_limited `{GoUnicode} `{ClaimsJson} `{RequestJson} `{Bcrypt} {S : Type} `{Storage.Store S}
    (rs : Z) (cfg : Config) (d : Deps) (reqs : list (Times * Request)) (T : Z) (ip : string) (st : State S)
    (Hrate : LoginRatePerMin cfg = loginRatePerMin) (Hnew : ipLimits st !! login_key ip = None)
    (Hreqs : ∀ t r, (t, r) ∈ reqs → Method r ≠ "OPTIONS" ∧ Path r = login_path ∧ clientIP r = ip ∧ t_limit t = T) :
  (length (List.filter (λ resp, guess (Data resp)) (answers rs cfg d reqs st)) ≤ 5)%nat.
Proof.
  assert (permits 5 T ip st) as Hp by (right; done).
  pose proof (login_guesses rs cfg d reqs 5 T ip st Hrate Hreqs ltac:(lia) Hp). lia.
Qed.

Lemma login_guesses_limited_witness :
  let reqs := replicate 7 (sample_clock noon, mkRequest "POST" ["api"; "v1"; "auth"; "login"] true "" "[::1]:9" "" [x4c; x41]) in
  length (List.filter (λ resp, guess (Data resp)) (answers 307 sample_cfg sample_deps reqs sample_state)) = 5%nat ∧
  (length (List.filter (λ resp, guess (Data resp)) (answers 307 sample_cfg sample_deps reqs sample_state)) ≤ 5)%nat.
Proof.
  intros reqs. split; [vm_compute; reflexivity|].
  apply (login_guesses_limited 307 sample_cfg sample_deps reqs noon "::1" sample_state); [reflexivity..|].
  intros t r [Hin _]%elem_of_replicate. by injection Hin as -> ->.
Defined.

(** Within a minute more logins pass than the rate: the bucket starts full and refills. *)
Lemma login_rate_first_minute :
  let times := replicate 5 noon ++ [noon + 12 * Second; noon + 24 * Second; noon + 36 * Second; noon + 48 * Second] in
  foldl (λ '(n, l) t, let '(ok, l) := Allow t l in (if ok then Datatypes.S n else n, l)) (0%nat, newTokenBucketLimiter 5 5) times
  = (9%nat, login_limiter 0 (noon + 48 * Second)).
Proof. vm_compute. reflexivity. Qed.

(** ** The API on the SQL store *)

Section OnSQL.
Context `{GoUnicode} `{ClaimsJson} `{RequestJson} `{Bcrypt} `{Storage.Engine}.
Implicit Types st : State Storage.SQLStore.

(** Of all routes only the deletion of a node releases its identifier. *)
Lemma mux_bound rs d t c r st id key :
  StorageFacts.bound (store st) id = Some key → mux_route r ≠ RDeleteNode id →
  StorageFacts.bound (store (mux rs d t c r st).1) id = Some key.
Proof.
  intros Hb Hr. unfold mux. destruct (mux_route r) as [| | | |nid|nid|nid| |nid| | |nid| | | | |]; try done.
  - destruct (login_cases d t c r st) as [(code & msg & [->|[->| ->]])|(_ & a & rf & n & -> & _)]; done.
  - destruct (refresh_cases d t c r st) as [-> _]. done.
  - unfold logout. by destruct (negb (String.eqb (bearer r) "")), (decode_refresh (Body r)); cbn; try destruct (negb _).
  - unfold nodeDetail. by destruct (Storage.GetNode _ _).
  - unfold nodeStatus. destruct (decode_status _) as [status|]; [|done]. destruct (_ && _); [done|].
    pose proof (StorageFacts.apply_bound (StorageFacts.OpStatus (t_store t) nid status) (store st) id key) as Hk.
    cbn [StorageFacts.apply] in Hk. cbn [Storage.UpdateNodeStatus Storage.SQL_Store].
    destruct (Storage.UpdateNodeStatus_sql _ _ _ _). by apply Hk.
  - pose proof (StorageFacts.apply_bound (StorageFacts.OpDelete nid) (store st) id key) as Hk.
    unfold deleteNode. cbn [StorageFacts.apply] in Hk. cbn [Storage.DeleteNode Storage.SQL_Store].
    destruct (Storage.DeleteNode_sql _ _). apply Hk; congruence.
  - unfold listPorts. by destruct (String.eqb _ _).
  - unfold addPort. destruct (decode_rule _) as [rule|]; [|done].
    pose proof (StorageFacts.apply_bound (StorageFacts.OpSetRule (t_store t) rule) (store st) id key) as Hk.
    cbn [StorageFacts.apply] in Hk. cbn [Storage.SetPortRule Storage.SQL_Store].
    destruct (Storage.SetPortRule_sql _ _ _). by apply Hk.
  - pose proof (StorageFacts.apply_bound (StorageFacts.OpDeleteRule nid) (store st) id key) as Hk.
    unfold deletePort. cbn [StorageFacts.apply] in Hk. cbn [Storage.DeletePortRule Storage.SQL_Store].
    destruct (Storage.DeletePortRule_sql _ _). by apply Hk.
  - unfold statsOverview. by destruct (Storage.ListNodes _ _).
Qed.

(** C14: Through the API a node's identity can only be released by an authorised deletion.  On
    the SQL store, a request after which an identifier is no longer bound to the key it was
    bound to is the deletion of that node, and carries a token that verifies as an
    unexpired access token under the server's secret. *)
Theorem api_keeps_bindings (rs : Z) (cfg : Config) (d : Deps) (t : Times) (r : Request) st st' (resp : Response)
    (id : string) (key : list byte)
    (Hs : ServeHTTP rs cfg d t None r st = (st', resp))
    (Hbefore : StorageFacts.bound (store st) id = Some key)
    (Hafter : StorageFacts.bound (store st') id ≠ Some key) :
  mux_route r = RDeleteNode id ∧
  ∃ claims, VerifyToken (cSecret cfg) (bearer r) (time_unix (t_auth t)) = Ret claims ∧ Typ claims = "access".
Proof.
  destruct (chain_cases _ _ _ _ _ _ _ _ Hs) as
    [(Hst & _ & _)|(c & st1 & st2 & resp1 & Hadm & Hs1 & _ & Hm & Hs2 & _)]; [congruence|].
  destruct (decide (mux_route r = RDeleteNode id)) as [Hr|Hr].
  - split; [done|]. destruct c as [claims|]; [destruct Hadm as (_ & ? & ?); by exists claims|].
    destruct (public_routes _ Hadm) as [E|[E|[E|[E|[]]]]]; congruence.
  - exfalso. apply Hafter. rewrite Hs2. rewrite <- Hs1 in Hbefore.
    pose proof (mux_bound rs (handler_deps cfg d) t c r st1 id key Hbefore Hr) as Hk. by rewrite Hm in Hk.
Qed.
End OnSQL.

Definition sql_state : State Storage.SQLStore :=
  mkState (Storage.RegisterNode (Store := Storage.SQL_Store (H := StorageProperties.engine_on Storage.empty_tables))
             1 1 StorageProperties.sample_node StorageProperties.sample_store).1
    (Tokens after_login.1) ∅ ∅ (NewMemAuditLog 1024).
Definition delete_request : Request :=
  mkRequest "DELETE" ["api"; "v1"; "nodes"; "n1"] true ("Bearer " +:+ access_token) "10.0.0.9:5000" "" [].

Lemma api_keeps_bindings_witness :
  mux_route delete_request = RDeleteNode "n1" ∧
  ∃ claims, VerifyToken (cSecret sample_cfg) (bearer delete_request) (time_unix (noon + 5 * Second)) = Ret claims ∧
    Typ claims = "access".
Proof.
  set (E := StorageProperties.engine_on Storage.empty_tables).
  destruct (ServeHTTP (H3 := Storage.SQL_Store (H := E)) 307 sample_cfg sample_deps later None delete_request sql_state)
    as [st' resp] eqn:Hs.
  apply (api_keeps_bindings (H3 := E) 307 sample_cfg sample_deps later delete_request sql_state st' resp "n1" [x01] Hs).
  - vm_compute. reflexivity.
  - replace st' with (ServeHTTP (H3 := Storage.SQL_Store (H := E)) 307 sample_cfg sample_deps later None delete_request
      sql_state).1 by (by rewrite Hs). by vm_compute.
Defined.

(** ** The audit trail *)

Lemma mux_audit `{GoUnicode} `{ClaimsJson} `{RequestJson} `{Bcrypt} {S : Type} `{Storage.Store S} rs d t c r (st : State S) :
  audit (mux rs d t c r st).1 = audit st.
Proof.
  unfold mux. destruct (mux_route r); try done;
    unfold login, refresh, logout, nodeDetail, nodeStatus, deleteNode, listPorts, addPort, deletePort, statsOverview, answer;
    repeat case_match; done.
Qed.

(** The log keeps the newest entries, as many as its bound. *)
Lemma Record_last e m :
  0 < max m → Z.of_nat (length (entries m)) <= max m →
  Z.of_nat (length (entries (Record_ e m))) <= max m ∧ max (Record_ e m) = max m ∧
  ∃ old, entries m = old ++ removelast (entries (Record_ e m)) ∧ List.last (entries (Record_ e m)) e = e ∧
    (Z.of_nat (length (entries m)) < max m → old = []).
Proof.
  intros Hm Hl. unfold Record_. rewrite length_app. cbn [length].
  destruct (Z.ltb_spec 0 (max m)); [|lia]. cbn [andb].
  destruct (Z.ltb_spec (max m) (Z.of_nat (length (entries m) + 1))) as [Hfull|Hroom]; cbn [entries max].
  - replace (length (entries m) + 1 - Z.to_nat (max m))%nat with 1%nat by lia.
    destruct (entries m) as [|x es] eqn:E; [cbn in *; lia|]. change (drop 1 ((x :: es) ++ [e])) with (es ++ [e]).
    rewrite length_app. cbn [length] in *.
    split_and!; [lia|done|]. exists [x]. rewrite removelast_last, last_last. split_and!; [done..|lia].
  - rewrite length_app. cbn [length]. split_and!; [lia|done|]. exists []. rewrite removelast_last, last_last. done.
Qed.

(** The audit trail.  A request that reaches a handler leaves exactly one entry, with its
    method, path, peer, the token's subject and the status it is answered with, and one that
    the chain turns away (preflight, no valid token, rate limit) leaves none; the log never
    exceeds its bound and gives up only its oldest entry. *)
Theorem audit_trail `{GoUnicode} `{ClaimsJson} `{RequestJson} `{Bcrypt} {S : Type} `{Storage.Store S}
    (rs : Z) (cfg : Config) (d : Deps) (t : Times) (r : Request) (st st' : State S) (resp : Response)
    (Hs : ServeHTTP rs cfg d t None r st = (st', resp))
    (Hmax : 0 < max (audit st)) (Hlen : Z.of_nat (length (entries (audit st))) <= max (audit st)) :
  (audit st' = audit st ∧ quiet (Data resp) = true) ∨
  ∃ c e, admitted cfg t r c ∧ e = entry_of t c r (Status resp) ∧
    audit st' = Record_ e (audit st) ∧ Z.of_nat (length (entries (audit st'))) <= max (audit st') ∧
    ∃ old, entries (audit st) = old ++ removelast (entries (audit st')) ∧ List.last (entries (audit st')) e = e ∧
      (Z.of_nat (length (entries (audit st))) < max (audit st) → old = []).
Proof.
  destruct (chain_cases _ _ _ _ _ _ _ _ Hs) as
    [(_ & _ & Hq & Ha)|(c & st1 & st2 & resp1 & Hadm & _ & _ & Hm & _ & _ & _ & _ & Ha1 & Ha2)]; [by left|].
  right. exists c, (entry_of t c r (Status resp)). split; [done|]. split; [done|].
  pose proof (mux_audit rs (handler_deps cfg d) t c r st1) as Hk. rewrite Hm in Hk. cbn in Hk.
  rewrite Hk, Ha1 in Ha2. split; [done|]. rewrite Ha2.
  destruct (Record_last (entry_of t c r (Status resp)) _ Hmax Hlen) as (Hl & -> & Hold). done.
Qed.

Lemma audit_trail_witness :
  length (entries (audit after_login.1)) = 1%nat ∧
  ((audit after_login.1 = audit sample_state ∧ quiet (Data after_login.2) = true) ∨
   ∃ e, audit after_login.1 = Record_ e (audit sample_state)).
Proof.
  split; [vm_compute; reflexivity|]. destruct after_login as [st' resp] eqn:E.
  destruct (audit_trail 307 sample_cfg sample_deps (sample_clock noon) login_request sample_state st' resp E) as
    [?|(c & e & _ & _ & ? & _)]; [done|done|by left|right; by exists e].
Defined.
End ApiProperties.
