(* ===== verification/Crypto.v ===== *)
(** * Certificates and the handshake ([internal/crypto]: keys.go, cert.go, ca.go)

    Signed certificate bodies, the chain from the offline root through the intermediate
    authority to a node, the online authority with its trust-on-first-use mode, and the
    state machine around the Noise IK handshake.  Ed25519 and the Noise library are
    parameters; so are the key pairs that key generation delivers and the clock. *)

From S2P Require Import Prelude GoLib MeshTypes.

Open Scope Z_scope.

(** [crypto/ed25519] on byte slices: signing with a private key of 64 bytes, verification. *)
Class Signatures := {
  sig_sign : list byte → list byte → list byte;
  sig_verify : list byte → list byte → list byte → bool;
}.

Module Crypto.

(** ** Keys (keys.go) *)

Record KeyPair := mkPair {
  Public : list byte;
  Private : list byte;
}.

Inductive crypto_error :=
| ErrPrivateKeySize (n : nat)
| ErrNoSignature
| ErrBadSignature
| ErrCANoSignature
| ErrCABadSignature
| ErrNilCert
| ErrWrongRoot
| ErrCANotYet
| ErrCAExpired
| ErrWrongCA
| ErrExpired
| ErrGenerate
| ErrNoCAKey.

Definition PrivateKeySize : nat := 64.

(** 64-bit unsigned. *)
Definition u64 (z : Z) : Z := z mod 2 ^ 64.

(** [gen] is the key pair that the library delivers. *)
Definition GenerateKeyPair (gen : option (list byte * list byte)) : outcome crypto_error KeyPair :=
  match gen with
  | None => Fail ErrGenerate
  | Some (pub, priv) => Ret (mkPair pub priv)
  end.

Definition RoleClient : string := "client".
Definition RoleBootstrap : string := "bootstrap".
Definition RoleRoot : string := "root".

Record Cert := mkCert {
  NodeID_ : string;
  PubKey : vec byte 32;
  Role : string;
  Expiry : Z;
  Signer : vec byte 32;
  Signature : list byte;
}.

(** [c.Role[0]] panics on an empty role. *)
Definition Cert_Bytes (c : Cert) : outcome crypto_error (list byte) :=
  match bytes_of (Role c) with
  | [] => Panic
  | r0 :: _ => Ret (bytes_of (NodeID_ c) ++ PubKey c ++ [r0] ++ be_put 8 (Expiry c) ++ Signer c)
  end.

Definition pub32 (pub : list byte) : vec byte 32 := arr_copy 32 pub.

(** The [Signer] field: the public key if it has 32 bytes, else zeros. *)
Definition signer_of (kp : KeyPair) : vec byte 32 :=
  if (length (Public kp) =? 32)%nat then pub32 (Public kp) else pub32 [].

(** ** The certificate of the intermediate authority (ca.go) *)

Definition CAValidity : Z := 365 * 24 * 60 * Minute.
Definition CertValidity : Z := 90 * 24 * 60 * Minute.
Definition RenewWindow : Z := 30 * 24 * 60 * Minute.

Record CACert := mkCA {
  CAKey : vec byte 32;
  NotBefore : Z;
  NotAfter : Z;
  caSigner : vec byte 32;
  caSignature : list byte;
}.

Definition CACert_Bytes (c : CACert) : list byte :=
  [xca] ++ CAKey c ++ be_put 8 (NotBefore c) ++ be_put 8 (NotAfter c) ++ caSigner c.

Section Sign.
Context `{Signatures}.

Definition Sign (kp : KeyPair) (message : list byte) : outcome crypto_error (list byte) :=
  if negb (length (Private kp) =? PrivateKeySize)%nat then Fail (ErrPrivateKeySize (length (Private kp)))
  else Ret (sig_sign (Private kp) message).

Definition Verify (pub message sig : list byte) : bool := sig_verify pub message sig.

Definition SignCert (rootKP : KeyPair) (nodeID : string) (pub : vec byte 32) (role : string) (expiry : Z) :
    outcome crypto_error Cert :=
  let c := mkCert nodeID pub role expiry (signer_of rootKP) [] in
  match Cert_Bytes c with
  | Ret b =>
      match Sign rootKP b with
      | Ret sig => Ret (mkCert nodeID pub role expiry (signer_of rootKP) sig)
      | Fail e => Fail e
      | Panic => Panic
      end
  | Fail e => Fail e
  | Panic => Panic
  end.

Definition VerifyCert (c : Cert) : outcome crypto_error () :=
  if (length (Signature c) =? 0)%nat then Fail ErrNoSignature
  else match Cert_Bytes c with
       | Ret b => if negb (Verify (Signer c) b (Signature c)) then Fail ErrBadSignature else Ret ()
       | Fail e => Fail e
       | Panic => Panic
       end.

(** [now] is the clock in Unix seconds. *)
Definition SignCACert (now : Z) (rootKP : KeyPair) (caPub : vec byte 32) (notBefore notAfter : Z) :
    outcome crypto_error CACert :=
  let notBefore := if notBefore =? 0 then u64 now else notBefore in
  let notAfter := if notAfter =? 0 then u64 (notBefore + CAValidity / Second) else notAfter in
  let c := mkCA caPub notBefore notAfter (signer_of rootKP) [] in
  match Sign rootKP (CACert_Bytes c) with
  | Ret sig => Ret (mkCA caPub notBefore notAfter (signer_of rootKP) sig)
  | Fail e => Fail e
  | Panic => Panic
  end.

Definition CACert_Verify (c : CACert) : outcome crypto_error () :=
  if (length (caSignature c) =? 0)%nat then Fail ErrCANoSignature
  else if negb (Verify (caSigner c) (CACert_Bytes c) (caSignature c)) then Fail ErrCABadSignature
  else Ret ().

Definition ChainVerify (rootPub : vec byte 32) (ca : option CACert) (cert : option Cert) (timeNow : Z) :
    outcome crypto_error () :=
  match ca, cert with
  | Some ca, Some cert =>
      if negb (bool_decide (caSigner ca = rootPub)) then Fail ErrWrongRoot
      else match CACert_Verify ca with
           | Ret _ =>
               if timeNow <? NotBefore ca then Fail ErrCANotYet
               else if NotAfter ca <=? timeNow then Fail ErrCAExpired
               else if negb (bool_decide (Signer cert = CAKey ca)) then Fail ErrWrongCA
               else match VerifyCert cert with
                    | Ret _ => if negb (Expiry cert =? 0) && (Expiry cert <=? timeNow) then Fail ErrExpired else Ret ()
                    | e => e
                    end
           | e => e
           end
  | _, _ => Fail ErrNilCert
  end.

Definition ShouldRenewCA (ca : option CACert) (timeNow : Z) : bool :=
  match ca with
  | None => true
  | Some ca => NotAfter ca <=? u64 (timeNow + RenewWindow / Second)
  end.

(** ** The online authority (cert.go); [knownPubs] lists the keys of the Go map *)

Record CertAuth := mkAuth {
  rootPub : vec byte 32;
  caKP : option KeyPair;
  caCert : option CACert;
  tofu : bool;
  knownPubs : list (vec byte 32);
}.

(** [gen1] and [gen2] are what the first and the second key generation deliver; with a root
    key only the second is asked for. *)
Definition NewCertAuth (now : Z) (gen1 gen2 : option KeyPair) (rootKP : option KeyPair) (tofu : bool) :
    outcome crypto_error CertAuth :=
  let root := match rootKP with Some kp => Some kp | None => gen1 end in
  match root with
  | None => Fail ErrGenerate
  | Some kp =>
      match (match rootKP with Some _ => gen1 | None => gen2 end) with
      | None => Fail ErrGenerate
      | Some cakp =>
          match SignCACert now kp (pub32 (Public cakp)) 0 0 with
          | Ret cert => Ret (mkAuth (pub32 (Public kp)) (Some cakp) (Some cert) tofu [])
          | Fail e => Fail e
          | Panic => Panic
          end
      end
  end.

Definition SignNodeCert (nodeID : string) (pub : vec byte 32) (role : string) (expiry : Z) (ca : CertAuth) :
    outcome crypto_error Cert :=
  match caKP ca with
  | None => Fail ErrNoCAKey
  | Some kp => SignCert kp nodeID pub role expiry
  end.

Definition VerifyNodeCert (now : Z) (cert : option Cert) (ca : CertAuth) : CertAuth * outcome crypto_error () :=
  match cert with
  | None => (ca, Fail ErrNilCert)
  | Some c =>
      if (length (Signature c) =? 0)%nat && tofu ca then
        if bool_decide (PubKey c ∈ knownPubs ca) then (ca, Ret ())
        else (mkAuth (rootPub ca) (caKP ca) (caCert ca) (tofu ca) (PubKey c :: knownPubs ca), Ret ())
      else (ca, ChainVerify (rootPub ca) (caCert ca) (Some c) (u64 now))
  end.
End Sign.

(** ** The Noise IK handshake (keys.go) *)

(** The library: Diffie-Hellman, handshake states and cipher states.  A handshake call returns
    the new state and, if it succeeds, the message or payload with the two cipher states once
    the handshake is over. *)
Class NoiseLib := {
  HandshakeState : Type;
  CipherState : Type;
  DH : list byte → list byte → option (list byte);
  NewHandshakeState : bool → list byte → list byte → list byte → list byte → option HandshakeState;
  WriteMessage : HandshakeState → HandshakeState * option (list byte * option CipherState * option CipherState);
  ReadMessage : list byte → HandshakeState → HandshakeState * option (list byte * option CipherState * option CipherState);
  cs_Encrypt : list byte → CipherState → CipherState * option (list byte);
  cs_Decrypt : list byte → CipherState → CipherState * option (list byte);
}.

Inductive noise_error :=
| ErrInitiateResponder
| ErrRespondInitiator
| ErrFinalizeResponder
| ErrNotInitiated
| ErrNewState
| ErrWrite
| ErrRead
| ErrNotCompleted
| ErrNoSendCipher
| ErrNoRecvCipher
| ErrCipher.

Section Noise.
Context `{NoiseLib}.

Record NoiseIK := mkNoise {
  localStatic : vec byte 32;
  localPub : vec byte 32;
  remoteStatic : vec byte 32;
  isInitiator : bool;
  hs : option HandshakeState;
  sendCipher : option CipherState;
  recvCipher : option CipherState;
  completed : bool;
}.

Definition basepoint : list byte := x09 :: replicate 31 x00.

Definition deriveX25519Public (priv : vec byte 32) : vec byte 32 :=
  match DH priv basepoint with
  | None => arr_copy 32 []
  | Some pub => arr_copy 32 pub
  end.

Definition NewNoiseIKInitiator (localPriv remotePub : vec byte 32) : NoiseIK :=
  mkNoise localPriv (deriveX25519Public localPriv) remotePub true None None None false.

Definition NewNoiseIKResponder (localPriv : vec byte 32) : NoiseIK :=
  mkNoise localPriv (deriveX25519Public localPriv) (arr_copy 32 []) false None None None false.

Definition set_hs (h : HandshakeState) (n : NoiseIK) : NoiseIK :=
  mkNoise (localStatic n) (localPub n) (remoteStatic n) (isInitiator n) (Some h) (sendCipher n) (recvCipher n) (completed n).

Definition set_ciphers (s r : CipherState) (n : NoiseIK) : NoiseIK :=
  mkNoise (localStatic n) (localPub n) (remoteStatic n) (isInitiator n) (hs n) (Some s) (Some r) true.

Definition Initiate (prologue : list byte) (n : NoiseIK) : NoiseIK * outcome noise_error (list byte) :=
  if negb (isInitiator n) then (n, Fail ErrInitiateResponder)
  else match NewHandshakeState true prologue (localStatic n) (localPub n) (remoteStatic n) with
       | None => (n, Fail ErrNewState)
       | Some h =>
           let '(h, r) := WriteMessage h in
           let n := set_hs h n in
           match r with
           | None => (n, Fail ErrWrite)
           | Some (out, _, _) => (n, Ret out)
           end
       end.

Definition Respond (message : list byte) (n : NoiseIK) : NoiseIK * outcome noise_error (list byte) :=
  if isInitiator n then (n, Fail ErrRespondInitiator)
  else
    let start := match hs n with
                 | Some h => Some h
                 | None => NewHandshakeState false [] (localStatic n) (localPub n) []
                 end in
    match start with
    | None => (n, Fail ErrNewState)
    | Some h =>
        let '(h, r) := ReadMessage message h in
        match r with
        | None => (set_hs h n, Fail ErrRead)
        | Some (_, rs, rr) =>
            let '(h, w) := WriteMessage h in
            let n := set_hs h n in
            match w with
            | None => (n, Fail ErrWrite)
            | Some (out, ws, wr) =>
                match ws, wr, rs, rr with
                | Some s, Some r, _, _ => (set_ciphers s r n, Ret out)
                | _, _, Some s, Some r => (set_ciphers s r n, Ret out)
                | _, _, _, _ => (n, Ret out)
                end
            end
        end
    end.

Definition Finalize (message : list byte) (n : NoiseIK) : NoiseIK * outcome noise_error () :=
  if negb (isInitiator n) then (n, Fail ErrFinalizeResponder)
  else match hs n with
       | None => (n, Fail ErrNotInitiated)
       | Some h =>
           let '(h, r) := ReadMessage message h in
           let n := set_hs h n in
           match r with
           | None => (n, Fail ErrRead)
           | Some (_, Some s, Some r) => (set_ciphers s r n, Ret ())
           | Some _ => (n, Ret ())
           end
       end.

Definition Split (n : NoiseIK) : outcome noise_error (option CipherState * option CipherState) :=
  if negb (completed n) then Fail ErrNotCompleted else Ret (sendCipher n, recvCipher n).

Definition Encrypt (plaintext : list byte) (n : NoiseIK) : NoiseIK * outcome noise_error (list byte) :=
  match sendCipher n with
  | None => (n, Fail ErrNoSendCipher)
  | Some c =>
      let '(c, r) := cs_Encrypt plaintext c in
      (mkNoise (localStatic n) (localPub n) (remoteStatic n) (isInitiator n) (hs n) (Some c) (recvCipher n) (completed n),
       match r with Some b => Ret b | None => Fail ErrCipher end)
  end.

Definition Decrypt (ciphertext : list byte) (n : NoiseIK) : NoiseIK * outcome noise_error (list byte) :=
  match recvCipher n with
  | None => (n, Fail ErrNoRecvCipher)
  | Some c =>
      let '(c, r) := cs_Decrypt ciphertext c in
      (mkNoise (localStatic n) (localPub n) (remoteStatic n) (isInitiator n) (hs n) (sendCipher n) (Some c) (completed n),
       match r with Some b => Ret b | None => Fail ErrCipher end)
  end.

Definition IsCompleted (n : NoiseIK) : bool := completed n.
Definition LocalPubKey (n : NoiseIK) : vec byte 32 := localPub n.
Definition RemoteStatic (n : NoiseIK) : vec byte 32 := remoteStatic n.
End Noise.
End Crypto.

Module CryptoFacts.
Import Crypto.

(** ** Signed bodies determine the certificate *)









Lemma length_Cert_Bytes c b : Cert_Bytes c = Ret b → length b = (String.length (NodeID_ c) + 73)%nat.
Proof.
  unfold Cert_Bytes. destruct (bytes_of (Role c)) as [|r rs]; [done|]. intros <-%Ret_inj.
  by rewrite !length_app, !length_vec_to_list, length_be_put, length_bytes_of.
Qed.

Lemma length_CACert_Bytes c : length (CACert_Bytes c) = 81%nat.
Proof. unfold CACert_Bytes. by rewrite !length_app, !length_vec_to_list, !length_be_put. Qed.

(** A body signed as an authority's certificate is never that of a node whose identifier has
    not exactly eight bytes; valid identifiers have thirty-two. *)
Lemma bodies_disjoint ca c : String.length (NodeID_ c) ≠ 8%nat → Cert_Bytes c ≠ Ret (CACert_Bytes ca).
Proof. intros Hl H%length_Cert_Bytes. rewrite length_CACert_Bytes in H. lia. Qed.

Lemma Cert_Bytes_ret c : Role c ≠ "" → ∃ b, Cert_Bytes c = Ret b.
Proof.
  unfold Cert_Bytes. intros Hr. destruct (bytes_of (Role c)) eqn:E; [|eauto].
  destruct Hr. by apply bytes_of_inj.
Qed.

Section Chain.
Context `{Signatures}.

(** A key pair as [crypto/ed25519] generates it. *)
Record key_ok (kp : KeyPair) : Prop := {
  key_public : length (Public kp) = 32%nat;
  key_private : length (Private kp) = PrivateKeySize;
  key_verifies : ∀ m, sig_verify (Public kp) m (sig_sign (Private kp) m) = true;
  key_signs : ∀ m, sig_sign (Private kp) m ≠ [];
}.

(** Everything the chain checks before it looks at the node's signature. *)
Definition ca_accepted (root : vec byte 32) (ca : CACert) (t : Z) : Prop :=
  caSigner ca = root ∧ caSignature ca ≠ [] ∧ sig_verify root (CACert_Bytes ca) (caSignature ca) = true ∧
  NotBefore ca <= t < NotAfter ca.

Lemma length_nil_eqb {A} (l : list A) : (length l =? 0)%nat = bool_decide (l = []).
Proof. destruct l; [done|]. by rewrite bool_decide_eq_false_2. Qed.

Lemma CACert_Verify_ret ca u :
  CACert_Verify ca = Ret u ↔ caSignature ca ≠ [] ∧ sig_verify (caSigner ca) (CACert_Bytes ca) (caSignature ca) = true.
Proof.
  unfold CACert_Verify, Verify. rewrite length_nil_eqb. destruct u.
  case_bool_decide; [naive_solver|]. destruct (sig_verify _ _ _); cbn; naive_solver.
Qed.

Lemma CACert_Verify_no_panic ca : CACert_Verify ca ≠ Panic.
Proof. unfold CACert_Verify. destruct (_ =? _)%nat; [done|]. by destruct (negb _). Qed.

Lemma VerifyCert_ret c u :
  VerifyCert c = Ret u ↔ Signature c ≠ [] ∧ ∃ b, Cert_Bytes c = Ret b ∧ sig_verify (Signer c) b (Signature c) = true.
Proof.
  unfold VerifyCert, Verify. rewrite length_nil_eqb. destruct u.
  case_bool_decide; [naive_solver|]. destruct (Cert_Bytes c) as [b| |]; [|naive_solver..].
  destruct (sig_verify _ _ _) eqn:E; cbn; [naive_solver|].
  split; [done|]. intros (_ & b' & [= <-] & ?). congruence.
Qed.

Lemma VerifyCert_panic c : VerifyCert c = Panic ↔ Signature c ≠ [] ∧ Role c = "".
Proof.
  unfold VerifyCert. rewrite length_nil_eqb. case_bool_decide; [naive_solver|].
  unfold Cert_Bytes. destruct (bytes_of (Role c)) eqn:E.
  - split; [|done]. intros _. split; [done|]. by apply bytes_of_inj.
  - split; [by destruct (negb _)|]. intros [_ Hr]. by rewrite Hr in E.
Qed.

(** The chain, once the authority's certificate is accepted. *)
Definition leaf_verify (ca : CACert) (c : Cert) (t : Z) : outcome crypto_error () :=
  if negb (bool_decide (Signer c = CAKey ca)) then Fail ErrWrongCA
  else match VerifyCert c with
       | Ret _ => if negb (Expiry c =? 0) && (Expiry c <=? t) then Fail ErrExpired else Ret ()
       | e => e
       end.

Lemma ChainVerify_cases root ca c t :
  (ca_accepted root ca t ∧ ChainVerify root (Some ca) (Some c) t = leaf_verify ca c t) ∨
  (¬ ca_accepted root ca t ∧ ∃ e, ChainVerify root (Some ca) (Some c) t = Fail e).
Proof.
  unfold ChainVerify, ca_accepted. case_bool_decide as Hr; cbn; [|right; split; [naive_solver|eauto]].
  destruct (CACert_Verify ca) as [u|e|] eqn:E.
  - apply CACert_Verify_ret in E as [? E]. rewrite Hr in E.
    destruct (Z.ltb_spec t (NotBefore ca)); [right; split; [lia|eauto]|].
    destruct (Z.leb_spec (NotAfter ca) t); [right; split; [lia|eauto]|].
    left. done.
  - right. split; [|eauto]. intros (_ & ? & Hv & _).
    rewrite (proj2 (CACert_Verify_ret ca ())) in E; [done|]. by rewrite Hr.
  - by apply CACert_Verify_no_panic in E.
Qed.

Lemma leaf_verify_ret ca c t :
  leaf_verify ca c t = Ret () ↔
  Signer c = CAKey ca ∧ VerifyCert c = Ret () ∧ (Expiry c = 0 ∨ t < Expiry c).
Proof.
  unfold leaf_verify. case_bool_decide; cbn; [|naive_solver].
  destruct (VerifyCert c) as [[]| |]; [|naive_solver..].
  destruct (Z.eqb_spec (Expiry c) 0), (Z.leb_spec (Expiry c) t); cbn; split; try done; intros; try lia; auto.
Qed.

Lemma leaf_verify_panic ca c t : leaf_verify ca c t = Panic ↔ Signer c = CAKey ca ∧ VerifyCert c = Panic.
Proof.
  unfold leaf_verify. case_bool_decide; cbn; [|naive_solver].
  destruct (VerifyCert c); [|naive_solver..]. destruct (_ && _); naive_solver.
Qed.

Lemma ChainVerify_ret root ca c t :
  ChainVerify root (Some ca) (Some c) t = Ret () ↔ ca_accepted root ca t ∧ leaf_verify ca c t = Ret ().
Proof. destruct (ChainVerify_cases root ca c t) as [[? ->]|[? [? ->]]]; naive_solver. Qed.

(** ** Issuing *)

Lemma signer_of_ok kp : key_ok kp → signer_of kp = pub32 (Public kp).
Proof. intros [H1 _ _ _]. unfold signer_of. by rewrite H1. Qed.

Lemma pub32_ok kp : key_ok kp → vec_to_list (pub32 (Public kp)) = Public kp.
Proof. intros [H1 _ _ _]. by apply arr_copy_exact. Qed.

Lemma Sign_ok kp m : key_ok kp → Sign kp m = Ret (sig_sign (Private kp) m).
Proof. intros [_ H2 _ _]. unfold Sign. by rewrite H2. Qed.

Lemma SignCert_ok kp id pub role expiry :
  key_ok kp → role ≠ "" →
  ∃ c, SignCert kp id pub role expiry = Ret c ∧ VerifyCert c = Ret () ∧
    NodeID_ c = id ∧ PubKey c = pub ∧ Role c = role ∧ Expiry c = expiry ∧ Signer c = pub32 (Public kp).
Proof.
  intros Hk Hr. unfold SignCert.
  destruct (Cert_Bytes_ret (mkCert id pub role expiry (signer_of kp) [])) as [b Eb]; [done|].
  rewrite Eb, Sign_ok by done. eexists. split; [done|].
  rewrite signer_of_ok in * by done. split; [|done].
  apply VerifyCert_ret. cbn [Signature Signer]. rewrite pub32_ok by done.
  split; [by apply key_signs|]. exists b. split; [done|]. by apply key_verifies.
Qed.

Lemma SignCACert_ok now kp capub nb na :
  key_ok kp →
  ∃ ca, SignCACert now kp capub nb na = Ret ca ∧ CACert_Verify ca = Ret () ∧
    CAKey ca = capub ∧ caSigner ca = pub32 (Public kp) ∧
    NotBefore ca = (if nb =? 0 then u64 now else nb) ∧
    NotAfter ca = (if na =? 0 then u64 (NotBefore ca + CAValidity / Second) else na).
Proof.
  intros Hk. unfold SignCACert. rewrite Sign_ok by done. eexists. split; [done|].
  rewrite signer_of_ok by done. split; [|done].
  apply CACert_Verify_ret. cbn [caSignature caSigner]. rewrite pub32_ok by done.
  split; [by apply key_signs|]. by apply key_verifies.
Qed.

Lemma NewCertAuth_ok now g1 g2 root tofu rk ck :
  match root with Some kp => kp = rk ∧ g1 = Some ck | None => g1 = Some rk ∧ g2 = Some ck end →
  key_ok rk → key_ok ck →
  ∃ ca cert, NewCertAuth now g1 g2 root tofu = Ret ca ∧ rootPub ca = pub32 (Public rk) ∧ caKP ca = Some ck ∧
    caCert ca = Some cert ∧ CACert_Verify cert = Ret () ∧ CAKey cert = pub32 (Public ck) ∧
    caSigner cert = rootPub ca ∧ NotBefore cert = u64 now ∧ NotAfter cert = u64 (u64 now + CAValidity / Second).
Proof.
  intros Hg Hr Hc. unfold NewCertAuth.
  destruct (SignCACert_ok now rk (pub32 (Public ck)) 0 0 Hr) as (cert & E & Hv & Hk & Hs & Hb & Ha).
  destruct root as [kp|]; destruct Hg as [-> ->]; rewrite E; eexists _, cert; cbn; split_and!; try done;
    rewrite Ha, Hb; done.
Qed.

End Chain.
End CryptoFacts.

Module NoiseFacts.
Import Crypto.

Section Noise.
Context `{NoiseLib}.

(** The calls that change a handshake. *)
Inductive call :=
| CInitiate (prologue : list byte)
| CRespond (message : list byte)
| CFinalize (message : list byte)
| CEncrypt (plaintext : list byte)
| CDecrypt (ciphertext : list byte).

Definition apply (c : call) (n : NoiseIK) : NoiseIK :=
  match c with
  | CInitiate p => (Initiate p n).1
  | CRespond m => (Respond m n).1
  | CFinalize m => (Finalize m n).1
  | CEncrypt p => (Encrypt p n).1
  | CDecrypt c => (Decrypt c n).1
  end.

Definition run (cs : list call) (n : NoiseIK) : NoiseIK := foldl (λ n c, apply c n) n cs.

(** Completed and both cipher states present, or neither. *)
Definition coherent (n : NoiseIK) : Prop :=
  (completed n = true ∧ is_Some (hs n) ∧ is_Some (sendCipher n) ∧ is_Some (recvCipher n)) ∨
  (completed n = false ∧ sendCipher n = None ∧ recvCipher n = None).

Definition static_of (n : NoiseIK) : vec byte 32 * vec byte 32 * vec byte 32 * bool :=
  (localStatic n, localPub n, remoteStatic n, isInitiator n).

Lemma coherent_set_hs h n : coherent n → coherent (set_hs h n).
Proof. unfold coherent. cbn. naive_solver. Qed.

Lemma coherent_set_ciphers h s r n : coherent (set_ciphers s r (set_hs h n)).
Proof. left. cbn. eauto. Qed.

#[local] Hint Resolve coherent_set_hs coherent_set_ciphers : core.

Lemma apply_coherent c n : coherent n → coherent (apply c n).
Proof.
  intros Hn. destruct c; cbn.
  - unfold Initiate. destruct (negb _); [done|]. destruct (NewHandshakeState _ _ _ _ _); [|done].
    destruct (WriteMessage _) as [h' [[[??]?]|]]; cbn; auto.
  - unfold Respond. destruct (isInitiator n); [done|]. destruct (match hs n with Some _ => _ | None => _ end); [|done].
    destruct (ReadMessage _ _) as [h' [[[? rs] rr]|]]; [|cbn; auto].
    destruct (WriteMessage h') as [h'' [[[? ws] wr]|]]; [|cbn; auto].
    destruct ws, wr, rs, rr; cbn; auto.
  - unfold Finalize. destruct (negb _); [done|]. destruct (hs n); [|done].
    destruct (ReadMessage _ _) as [h' [[[? [rs|]] [rr|]]|]]; cbn; auto.
  - unfold Encrypt. destruct (sendCipher n) eqn:E; [|done]. destruct (cs_Encrypt _ _); cbn.
    destruct Hn as [(?&?&?&?)|(?&?&?)]; [left; cbn; eauto|congruence].
  - unfold Decrypt. destruct (recvCipher n) eqn:E; [|done]. destruct (cs_Decrypt _ _); cbn.
    destruct Hn as [(?&?&?&?)|(?&?&?)]; [left; cbn; eauto|congruence].
Qed.

Lemma apply_static c n : static_of (apply c n) = static_of n.
Proof.
  destruct c; cbn.
  - unfold Initiate. destruct (negb _); [done|]. destruct (NewHandshakeState _ _ _ _ _); [|done].
    by destruct (WriteMessage _) as [h' [[[??]?]|]].
  - unfold Respond. destruct (isInitiator n); [done|]. destruct (match hs n with Some _ => _ | None => _ end); [|done].
    destruct (ReadMessage _ _) as [h' [[[? rs] rr]|]]; [|done].
    destruct (WriteMessage h') as [h'' [[[? ws] wr]|]]; [|done].
    by destruct ws, wr, rs, rr.
  - unfold Finalize. destruct (negb _); [done|]. destruct (hs n); [|done].
    by destruct (ReadMessage _ _) as [h' [[[? [rs|]] [rr|]]|]].
  - unfold Encrypt. destruct (sendCipher n); [|done]. by destruct (cs_Encrypt _ _).
  - unfold Decrypt. destruct (recvCipher n); [|done]. by destruct (cs_Decrypt _ _).
Qed.

Lemma run_coherent cs n : coherent n → coherent (run cs n) ∧ static_of (run cs n) = static_of n.
Proof.
  revert n. induction cs as [|c cs IH]; intros n Hn; [done|].
  destruct (IH (apply c n)) as [? E]; [by apply apply_coherent|]. split; [done|].
  rewrite <- (apply_static c n). exact E.
Qed.

(** What the Noise framework documents of an IK run of two messages with equal prologues: each
    side derives the same two cipher states and the library returns them in the same order. *)
Class NoiseLaws := {
  noise_public : ∀ priv : vec byte 32, ∃ pub : vec byte 32, DH priv basepoint = Some (vec_to_list pub);
  noise_IK : ∀ prologue si pi sr pr, DH si basepoint = Some pi → DH sr basepoint = Some pr →
    ∃ h0 h1 h2 g0 g1 g2 m1 m2 p1 p2 c1 c2,
      NewHandshakeState true prologue si pi pr = Some h0 ∧ NewHandshakeState false prologue sr pr [] = Some g0 ∧
      WriteMessage h0 = (h1, Some (m1, None, None)) ∧ ReadMessage m1 g0 = (g1, Some (p1, None, None)) ∧
      WriteMessage g1 = (g2, Some (m2, Some c1, Some c2)) ∧ ReadMessage m2 h1 = (h2, Some (p2, Some c1, Some c2));
}.

Lemma derive_public (priv pub : vec byte 32) :
  DH priv basepoint = Some (vec_to_list pub) → deriveX25519Public priv = pub.
Proof. unfold deriveX25519Public. intros ->. apply arr_copy_id. Qed.

(** With an empty prologue the two sides complete in one exchange.  Both then take the
    library's first cipher state for sending and its second for receiving. *)
Lemma noise_handshake `{!NoiseLaws} (si sr : vec byte 32) :
  ∃ i1 m1 r1 m2 i2,
    Initiate [] (NewNoiseIKInitiator si (deriveX25519Public sr)) = (i1, Ret m1) ∧
    Respond m1 (NewNoiseIKResponder sr) = (r1, Ret m2) ∧ Finalize m2 i1 = (i2, Ret ()) ∧
    completed i2 = true ∧ completed r1 = true ∧ Split i2 = Split r1.
Proof.
  destruct (noise_public si) as [pi Ei], (noise_public sr) as [pr Er].
  destruct (noise_IK [] si pi sr pr Ei Er) as
    (h0 & h1 & h2 & g0 & g1 & g2 & m1 & m2 & p1 & p2 & c1 & c2 & E1 & E2 & E3 & E4 & E5 & E6).
  rewrite (derive_public sr pr Er). unfold NewNoiseIKInitiator, NewNoiseIKResponder.
  rewrite (derive_public si pi Ei), (derive_public sr pr Er).
  unfold Initiate. cbn [isInitiator localStatic localPub remoteStatic negb]. rewrite E1, E3.
  eexists _, m1, _, m2, _. split; [done|].
  unfold Respond. cbn [isInitiator localStatic localPub hs]. rewrite E2, E4, E5. split; [done|].
  unfold Finalize. cbn [isInitiator negb hs set_hs]. rewrite E6. done.
Qed.
End Noise.
End NoiseFacts.

Module CryptoProperties.
Import Crypto CryptoFacts NoiseFacts.

Section Properties.
Context `{Signatures}.


(** C27: A freshly created authority issues certificates that it accepts in exactly the right
    window: for every identifier, key, non-empty role and expiry the authority signs, and
    its verification at any later clock succeeds precisely while its own certificate is valid (one
    year from creation) and the node certificate has not expired (zero means never). *)
Theorem issued_certificates_verify (now : Z) (g1 g2 root : option KeyPair) (tofu : bool) (rk ck : KeyPair)
    (Hg : match root with Some kp => kp = rk ∧ g1 = Some ck | None => g1 = Some rk ∧ g2 = Some ck end)
    (Hr : key_ok rk) (Hc : key_ok ck) (Hnow : 0 <= now < 2 ^ 63) :
  ∃ auth, NewCertAuth now g1 g2 root tofu = Ret auth ∧
    ∀ id pub role expiry, role ≠ "" → ∃ c, SignNodeCert id pub role expiry auth = Ret c ∧
      NodeID_ c = id ∧ PubKey c = pub ∧ Role c = role ∧
      ∀ t, 0 <= t < 2 ^ 63 →
        VerifyNodeCert t (Some c) auth = (auth, Ret ()) ↔
        now <= t < now + CAValidity / Second ∧ (expiry = 0 ∨ t < expiry).
Proof.
  destruct (NewCertAuth_ok now g1 g2 root tofu rk ck Hg Hr Hc) as
    (auth & cert & E & Ep & Ek & Ec & Hv & Hk & Hs & Hb & Ha).
  exists auth. split; [done|]. intros id pub role expiry Hrole.
  destruct (SignCert_ok ck id pub role expiry Hc Hrole) as (c & E' & Hl & Hid & Hpub & Hro & He & Hsig).
  exists c. unfold SignNodeCert. rewrite Ek. split_and!; try done. intros t Ht.
  unfold VerifyNodeCert. pose proof (proj1 (VerifyCert_ret c ()) Hl) as [Hns _].
  rewrite length_nil_eqb, bool_decide_eq_false_2 by done. cbn [andb]. rewrite Ec.
  assert (Hu : ∀ z, 0 <= z < 2 ^ 64 → u64 z = z) by (intros; by apply Z.mod_small).
  assert (CAValidity / Second < 2 ^ 62 ∧ 0 <= CAValidity / Second) as [??] by (split; vm_compute; congruence).
  rewrite (Hu now) in Ha, Hb by lia. rewrite Hu in Ha by lia. rewrite (Hu t) by lia.
  transitivity (ChainVerify (rootPub auth) (Some cert) (Some c) t = Ret ()); [split; [by intros [= ?]|by intros ->]|].
  rewrite ChainVerify_ret, leaf_verify_ret, He, Hsig, Hk. unfold ca_accepted.
  apply CACert_Verify_ret in Hv. rewrite Hs in Hv. rewrite Hb, Ha, Hs. destruct Hv. split.
  - intros [(_ & _ & _ & ?) (_ & _ & ?)]. done.
  - intros [[??] ?]. split_and!; done || lia.
Qed.

(** Exactly one malformed certificate crashes the verifier: verification of a chain panics if
    and only if the authority's certificate is accepted, the node certificate names the
    authority's key as signer, carries some signature (valid or not), and has an empty role,
    whose first byte the body takes. *)
Theorem ChainVerify_panics (root : vec byte 32) (ca : option CACert) (c : option Cert) (now : Z) :
  ChainVerify root ca c now = Panic ↔
  ∃ ca' c', ca = Some ca' ∧ c = Some c' ∧ ca_accepted root ca' now ∧
    Signer c' = CAKey ca' ∧ Signature c' ≠ [] ∧ Role c' = "".
Proof.
  destruct ca as [ca|], c as [c|]; try (split; [done|naive_solver]).
  destruct (ChainVerify_cases root ca c now) as [[Ha ->]|[Hn [e ->]]].
  - rewrite leaf_verify_panic, VerifyCert_panic. split; [intros (? & ? & ?); by exists ca, c|naive_solver].
  - split; [done|]. intros (ca' & c' & [= <-] & _ & ? & _). by destruct Hn.
Qed.

(** Trust on first use never refuses an unsigned certificate: the identifier it
    claims is not compared with the one remembered for the key. *)
Lemma tofu_accepts now c auth :
  tofu auth = true → Signature c = [] → (VerifyNodeCert now (Some c) auth).2 = Ret ().
Proof. intros Ht Hs. unfold VerifyNodeCert. rewrite Ht, Hs. cbn. by case_bool_decide. Qed.
End Properties.

Section Noise.
Context `{NoiseLib}.

(** After any sequence of calls a handshake is either complete, with a handshake state and both
    cipher states, or incomplete, and then [Split], [Encrypt] and [Decrypt] all return their
    errors; its keys and its side never change. *)
Theorem noise_states (cs : list call) (n n' : NoiseIK)
    (Hn : (∃ priv peer, n = NewNoiseIKInitiator priv peer) ∨ (∃ priv, n = NewNoiseIKResponder priv))
    (E : run cs n = n') :
  static_of n' = static_of n ∧
  ((completed n' = true ∧ ∃ s r, is_Some (hs n') ∧ Split n' = Ret (Some s, Some r)) ∨
   (Split n' = Fail ErrNotCompleted ∧ ∀ m, Encrypt m n' = (n', Fail ErrNoSendCipher) ∧ Decrypt m n' = (n', Fail ErrNoRecvCipher))).
Proof.
  subst n'. destruct (run_coherent cs n) as [Hc ->]; [right; naive_solver|]. split; [done|].
  unfold Split, Encrypt, Decrypt. destruct Hc as [(-> & ? & [s ->] & [r ->])|(-> & -> & ->)]; [left; eauto|by right].
Qed.
End Noise.

(** ** Concrete instances *)

(** Signatures that are the public half of the key followed by the message. *)
#[local] Instance toy_sig : Signatures := {|
  sig_sign priv m := drop 32 priv ++ m;
  sig_verify pub m sig := bool_decide (sig = pub ++ m);
|}.


Definition toy_pair (b : byte) : KeyPair := mkPair (replicate 32 b) (replicate 64 b).

Lemma toy_pair_ok b : key_ok (toy_pair b).
Proof. split; try done. intros m. by apply bool_decide_eq_true. Qed.

Definition sample_ca : CACert :=
  let k b := arr_copy 32 (replicate 32 b) in
  let c := mkCA (k x02) 100 200 (k x01) [] in
  mkCA (k x02) 100 200 (k x01) (replicate 32 x01 ++ CACert_Bytes c).

Definition sample_body : list byte :=
  bytes_of "node" ++ replicate 32 x07 ++ [x63] ++ be_put 8 150 ++ replicate 32 x02.

Definition sample_cert : Cert :=
  mkCert "node" (arr_copy 32 (replicate 32 x07)) RoleClient 150 (arr_copy 32 (replicate 32 x02)) (replicate 32 x02 ++ sample_body).




Lemma issued_certificates_verify_witness :
  ∃ auth, NewCertAuth 1000 (Some (toy_pair x01)) (Some (toy_pair x02)) None false = Ret auth.
Proof.
  destruct (issued_certificates_verify 1000 (Some (toy_pair x01)) (Some (toy_pair x02)) None false (toy_pair x01) (toy_pair x02))
    as (auth & E & _); [done|apply toy_pair_ok|apply toy_pair_ok|lia|]. exists auth. exact E.
Defined.

(** The panic is reachable with a signature that does not verify. *)
Example empty_role_panics :
  let c := mkCert "node" (arr_copy 32 []) "" 0 (arr_copy 32 (replicate 32 x02)) [x00] in
  ChainVerify (arr_copy 32 (replicate 32 x01)) (Some sample_ca) (Some c) 120 = Panic.
Proof. vm_compute. reflexivity. Qed.

(** Two different roles, one signature. *)
Example role_prefix_signed :
  let c := mkCert "node" (arr_copy 32 (replicate 32 x07)) "cluster-admin" 150 (arr_copy 32 (replicate 32 x02)) (Signature sample_cert) in
  VerifyCert sample_cert = Ret () ∧ VerifyCert c = Ret ().
Proof. vm_compute. split; reflexivity. Qed.

(** A Noise library whose states count the messages of a run. *)
#[local] Instance toy_noise : NoiseLib := {|
  HandshakeState := bool * nat;
  CipherState := bool;
  DH priv _ := Some (take 32 priv);
  NewHandshakeState side _ _ _ _ := Some (side, 0%nat);
  WriteMessage h := match h with
                    | (true, O) => ((true, 1%nat), Some ([x01], None, None))
                    | (false, 1%nat) => ((false, 2%nat), Some ([x02], Some true, Some false))
                    | _ => (h, None)
                    end;
  ReadMessage m h := match h with
                     | (false, O) => ((false, 1%nat), Some ([], None, None))
                     | (true, 1%nat) => ((true, 2%nat), Some ([], Some true, Some false))
                     | _ => (h, None)
                     end;
  cs_Encrypt m c := (c, Some m);
  cs_Decrypt m c := (c, Some m);
|}.

#[local] Instance toy_noise_laws : NoiseLaws.
Proof.
  split.
  - intros priv. exists priv. cbn [DH toy_noise]. by rewrite take_ge by (by rewrite length_vec_to_list).
  - intros pro si pi sr pr _ _. cbn. repeat eexists.
Qed.

Lemma noise_states_witness :
  let n := NewNoiseIKInitiator (arr_copy 32 []) (arr_copy 32 []) in
  static_of (run [CInitiate []; CFinalize [x02]] n) = static_of n ∧ completed (run [CInitiate []; CFinalize [x02]] n) = true.
Proof.
  split; [|reflexivity].
  apply (noise_states [CInitiate []; CFinalize [x02]] (NewNoiseIKInitiator (arr_copy 32 []) (arr_copy 32 []))
    (run [CInitiate []; CFinalize [x02]] (NewNoiseIKInitiator (arr_copy 32 []) (arr_copy 32 []))));
    [left; by eexists _, _|reflexivity].
Defined.
End CryptoProperties.
