(* ===== verification/Identity.v ===== *)
(** * Node identity ([internal/identity]: identity.go, fingerprint.go, machineid_*.go)

    The machine fingerprint, the node identifier derived from it, and the key file: [Generate],
    [Save], [Load] and the start-up pattern [LoadOrGenerate].  The machine (its platform, files,
    host name, and the faults of its file system), the random keys and X25519 are
    parameters. *)

From S2P Require Import Prelude GoLib Sha256 DhtKey MeshTypes GoStrings.

Open Scope Z_scope.

Module Identity.

Inductive Platform := Linux | Darwin | Windows.

Definition GOOS (p : Platform) : string :=
  match p with Linux => "linux" | Darwin => "darwin" | Windows => "windows" end.

(** What the operating system answers. *)
Record Machine := mkMachine {
  platform : Platform;
  GOARCH : string;
  hostname : option string;
  (** a read, a stat or a write that fails for another reason than a missing file *)
  read_fault : string → bool;
  stat_fault : string → bool;
  write_fault : string → option (list byte);
  (** the capacity of the slice that [os.ReadFile] returns beyond its length *)
  read_spare : string → nat;
  (** the output of the [ioreg] command, the [MachineGuid] registry value *)
  ioreg : option (list byte);
  MachineGuid : option string;
}.

(** [ecdh.X25519]: the public key of a private key, or an error. *)
Class X25519 := { ecdh_public : list byte → option (list byte) }.

Record NodeIdentity := mkIdentity {
  ID : NodeID;
  Ed25519Pub : list byte;
  Ed25519Priv : list byte;
  X25519Pub : vec byte 32;
  X25519Priv : vec byte 32;
}.

(** What the random source delivers to one [Generate]. *)
Record Fresh := mkFresh {
  fresh_ed : option (list byte * list byte);
  fresh_x : option (vec byte 32);
}.

Inductive identity_error :=
| ErrEmptyPath
| ErrRead
| ErrTooShort
| ErrVersion (v : byte)
| ErrX25519
| ErrEd25519
| ErrRandom
| ErrFingerprint
| ErrSave.

Abbreviation Files := (gmap string (list byte)).

Section Identity.
Context `{GoUnicode, GoSpace, X25519}.
Variable m : Machine.

Definition machineID_linux (fs : Files) : option string :=
  let read path := if read_fault m path then None else Some (fs !! path) in
  match read "/etc/machine-id" with
  | None => None
  | Some (Some data) => Some (string_of data)
  | Some None =>
      match read "/var/lib/dbus/machine-id" with
      | Some (Some data) => Some (string_of data)
      | _ => None
      end
  end.

(** The loop over the lines of the [ioreg] output. *)
Fixpoint find_uuid (lines : list (list byte)) : option string :=
  match lines with
  | [] => None
  | line :: rest =>
      if contains (bytes_of "IOPlatformUUID") line then
        match index_byte x3d line with
        | None => find_uuid rest
        | Some i =>
            let uuid := trim_by (λ c, bool_decide (c = x22)) (TrimSpace (drop (S i) line)) in
            if (length uuid =? 0)%nat then find_uuid rest else Some (string_of uuid)
        end
      else find_uuid rest
  end.

Definition machineID_darwin : option string :=
  match ioreg m with
  | None => None
  | Some output => find_uuid (split_byte x0a output)
  end.

Definition machineID_windows : option string := MachineGuid m.

Definition machineID (fs : Files) : option string :=
  match platform m with
  | Linux => machineID_linux fs
  | Darwin => machineID_darwin
  | Windows => machineID_windows
  end.

Definition CollectFingerprint (fs : Files) : outcome identity_error (list byte) :=
  let buf := match machineID fs with
             | Some mid => if bool_decide (mid = "") then bytes_of (default "" (hostname m)) else bytes_of mid
             | None => bytes_of (default "" (hostname m))
             end in
  let buf := match hostname m with Some host => buf ++ bytes_of host | None => buf end in
  let buf := buf ++ bytes_of (GOOS (platform m)) in
  let buf := buf ++ bytes_of (GOARCH m) in
  if (length buf =? 0)%nat then Fail ErrFingerprint else Ret buf.

Definition x25519Public (priv : vec byte 32) : outcome identity_error (vec byte 32) :=
  match ecdh_public priv with
  | None => Fail ErrX25519
  | Some pub => Ret (arr_copy 32 pub)
  end.

Definition Generate (f : Fresh) (fs : Files) : outcome identity_error NodeIdentity :=
  match CollectFingerprint fs with
  | Ret fp =>
      let nodeID := NewNodeIDFromFingerprint fp in
      match fresh_ed f with
      | None => Fail ErrEd25519
      | Some (edPub, edPriv) =>
          match fresh_x f with
          | None => Fail ErrRandom
          | Some xPriv =>
              match x25519Public xPriv with
              | Ret xPub => Ret (mkIdentity nodeID edPub edPriv xPub xPriv)
              | Fail e => Fail e
              | Panic => Panic
              end
          end
      end
  | Fail e => Fail e
  | Panic => Panic
  end.

(** [data[65:97]] may reach past the length of the file into the spare capacity, whose bytes
    are zero. *)
Definition Load (path : string) (fs : Files) : outcome identity_error NodeIdentity :=
  if read_fault m path then Fail ErrRead
  else match fs !! path with
  | None => Fail ErrRead
  | Some data =>
      if (length data <? 1 + 64)%nat then Fail ErrTooShort
      else match data with
      | [] => Panic
      | v :: rest =>
          if negb (bool_decide (v = x01)) then Fail (ErrVersion v)
          else
            let edPriv := take 64 rest in
            let edPub := drop 32 edPriv in
            if (length data + read_spare m path <? 1 + 64 + 32)%nat then Panic
            else
              let xPriv := arr_copy 32 (take 32 (drop 64 rest ++ replicate (read_spare m path) x00)) in
              match x25519Public xPriv with
              | Ret xPub =>
                  match CollectFingerprint fs with
                  | Ret fp => Ret (mkIdentity (NewNodeIDFromFingerprint fp) edPub edPriv xPub xPriv)
                  | Fail e => Fail e
                  | Panic => Panic
                  end
              | Fail e => Fail e
              | Panic => Panic
              end
      end
  end.

(** A write that fails leaves what [write_fault] says in the file. *)
Definition Save (path : string) (id : NodeIdentity) (fs : Files) : Files * outcome identity_error () :=
  let buf := [x01] ++ Ed25519Priv id ++ X25519Priv id in
  match write_fault m path with
  | None => (<[path := buf]> fs, Ret ())
  | Some remains => (<[path := remains]> fs, Fail ErrSave)
  end.

Definition LoadOrGenerate (f : Fresh) (path : string) (fs : Files) : Files * outcome identity_error NodeIdentity :=
  if bool_decide (path = "") then (fs, Fail ErrEmptyPath)
  else if negb (stat_fault m path) && bool_decide (is_Some (fs !! path)) then (fs, Load path fs)
  else match Generate f fs with
       | Ret id =>
           let '(fs, r) := Save path id fs in
           (fs, match r with Ret _ => Ret id | Fail e => Fail e | Panic => Panic end)
       | Fail e => (fs, Fail e)
       | Panic => (fs, Panic)
       end.

(** *** Text forms *)

(** [hex.EncodeToString], and the verb "x" of a byte slice. *)
Definition hex_text (l : list byte) : string := string_of (l ≫= hex_pair).

(** [FingerprintHex] of [Identity]: of the machine, whatever the identity; an error leaves the digest of
    nothing. *)
Definition FingerprintHex (id : NodeIdentity) (fs : Files) : string :=
  let fp := match CollectFingerprint fs with Ret fp => fp | _ => [] end in
  hex_text (take 16 (Sum256 fp)).

(** [FingerprintHex] of [types.NodeIdentity]. *)
Definition NodeIdentity_FingerprintHex (id : NodeIdentity) : string := hex_text (Sum256 (X25519Pub id)).

Definition OSInfo : string := GOOS (platform m) +:+ "/" +:+ GOARCH m.
End Identity.
End Identity.

Module IdentityFacts.
Import Identity.

Definition machine_id_paths : list string := ["/etc/machine-id"; "/var/lib/dbus/machine-id"].

(** Keys as [crypto/ed25519] generates them: 64 bytes, the public key the second half. *)
Definition fresh_ok (f : Fresh) : Prop :=
  ∀ pub priv, fresh_ed f = Some (pub, priv) → length priv = 64%nat ∧ pub = drop 32 priv.

Section Facts.
Context `{GoUnicode, GoSpace, X25519}.
Variable m : Machine.

Lemma CollectFingerprint_total fs : ∃ fp, CollectFingerprint m fs = Ret fp ∧ fp ≠ [].
Proof.
  unfold CollectFingerprint.
  match goal with |- context [length ?b] => set (buf := b) end.
  assert (buf ≠ []) as Hb.
  { subst buf. intros [[_ E]%app_eq_nil _]%app_eq_nil. by destruct (platform m). }
  exists buf. destruct buf; [done|]. by split.
Qed.

(** The fingerprint depends on the machine-id files only. *)
Lemma CollectFingerprint_frame fs fs' :
  (∀ p, p ∈ machine_id_paths → fs' !! p = fs !! p) → CollectFingerprint m fs' = CollectFingerprint m fs.
Proof.
  intros Hf. unfold CollectFingerprint. replace (machineID m fs') with (machineID m fs); [done|].
  unfold machineID, machineID_linux. destruct (platform m); [|done..].
  rewrite !Hf by (unfold machine_id_paths; set_solver). done.
Qed.

Lemma CollectFingerprint_insert path data fs :
  path ∉ machine_id_paths → CollectFingerprint m (<[path := data]> fs) = CollectFingerprint m fs.
Proof. intros Hp. apply CollectFingerprint_frame. intros p Hin. apply lookup_insert_ne. by intros ->. Qed.

Lemma Generate_ret f fs id :
  Generate m f fs = Ret id →
  ∃ fp, CollectFingerprint m fs = Ret fp ∧ ID id = NewNodeIDFromFingerprint fp ∧
    fresh_ed f = Some (Ed25519Pub id, Ed25519Priv id) ∧ x25519Public (X25519Priv id) = Ret (X25519Pub id).
Proof.
  unfold Generate. destruct (CollectFingerprint m fs) as [fp| |]; [|done..].
  destruct (fresh_ed f) as [[pub priv]|]; [|done]. destruct (fresh_x f) as [x|]; [|done].
  destruct (x25519Public x) as [xp| |] eqn:E; [|done..]. intros [= <-]. by exists fp.
Qed.

(** A saved identity is read back. *)
Lemma Load_saved path id fs fp :
  read_fault m path = false → path ∉ machine_id_paths →
  length (Ed25519Priv id) = 64%nat → Ed25519Pub id = drop 32 (Ed25519Priv id) →
  x25519Public (X25519Priv id) = Ret (X25519Pub id) →
  CollectFingerprint m fs = Ret fp → ID id = NewNodeIDFromFingerprint fp →
  Load m path (<[path := [x01] ++ Ed25519Priv id ++ X25519Priv id]> fs) = Ret id.
Proof.
  intros Hr Hp Hl Hpub Hx Hfp Hid. unfold Load. rewrite Hr, lookup_insert_eq, CollectFingerprint_insert, Hfp by done.
  assert (length ([x01] ++ Ed25519Priv id ++ X25519Priv id) = 97%nat) as E.
  { rewrite !length_app, length_vec_to_list, Hl. done. }
  rewrite E. cbn [app]. rewrite (proj2 (Nat.ltb_ge _ _)) by lia. rewrite bool_decide_eq_true_2 by done. cbn [negb].
  rewrite (proj2 (Nat.ltb_ge _ _)) by lia.
  rewrite (take_app_length' _ _ 64), (drop_app_length' _ _ 64) by done.
  rewrite take_app_length' by (by rewrite length_vec_to_list).
  rewrite arr_copy_id, Hx, <- Hpub, <- Hid. by destruct id.
Qed.

Lemma arr_copy_padded n l k : (length l + k >= n)%nat → (length l <= n)%nat →
  arr_copy n (take n (l ++ replicate k x00)) = arr_copy n l.
Proof.
  intros Hk Hl. apply vec_to_list_inj2. rewrite !arr_copy_list, take_take, Nat.min_id.
  rewrite length_take, length_app, length_replicate, Nat.min_l, Nat.sub_diag by lia.
  rewrite app_nil_r, (take_ge l), take_app_ge, take_replicate, Nat.min_l by lia. done.
Qed.

(** A file cut after the first key never gives the error for a short file: it is accepted with
    a Noise key padded with zeros, or the slice expression panics. *)
Lemma Load_truncated path fs rest :
  read_fault m path = false → fs !! path = Some (x01 :: rest) → (64 <= length rest <= 96)%nat →
  (length rest + read_spare m path < 96)%nat ∧ Load m path fs = Panic ∨
  (96 <= length rest + read_spare m path)%nat ∧
    (∀ xPub, x25519Public (arr_copy 32 (drop 64 rest)) = Ret xPub →
      ∃ id, Load m path fs = Ret id ∧ X25519Priv id = arr_copy 32 (drop 64 rest) ∧ Ed25519Priv id = take 64 rest).
Proof.
  intros Hr Hf Hl. unfold Load. rewrite Hr, Hf. cbn [length].
  rewrite (proj2 (Nat.ltb_ge _ _)) by lia. rewrite bool_decide_eq_true_2 by done. cbn [negb].
  destruct (Nat.ltb_spec (S (length rest) + read_spare m path) (1 + 64 + 32)); [left; split; [lia|done]|].
  right. split; [lia|]. intros xPub Hx.
  rewrite arr_copy_padded by (rewrite length_drop; lia). rewrite Hx.
  destruct (CollectFingerprint_total fs) as (fp & -> & _). by eexists.
Qed.
End Facts.
End IdentityFacts.

Module IdentityProperties.
Import Identity IdentityFacts.

(** C35: A node keeps its identity across restarts: once [LoadOrGenerate] has returned an identity,
    fresh or loaded, every later call on the files it left, whatever random keys it would be
    offered, returns the same identifier and keys and leaves the files alone, on the same
    machine, unless the path is a machine-id file or the file system refuses to stat or read it. *)
Theorem identity_stable `{GoUnicode, GoSpace, X25519} (m : Machine) (f f' : Fresh) (path : string)
    (fs fs' : Files) (id : NodeIdentity)
    (Hpath : path ∉ machine_id_paths) (Hread : read_fault m path = false) (Hstat : stat_fault m path = false)
    (Hfresh : fresh_ok f)
    (Hrun : LoadOrGenerate m f path fs = (fs', Ret id)) :
  LoadOrGenerate m f' path fs' = (fs', Ret id).
Proof.
  revert Hrun. unfold LoadOrGenerate at 1. case_bool_decide as Hp; [done|]. rewrite Hstat. cbn [negb andb].
  case_bool_decide as Hs.
  - intros [= <- E]. unfold LoadOrGenerate. rewrite bool_decide_eq_false_2, Hstat, bool_decide_eq_true_2 by done.
    cbn [negb andb]. by rewrite E.
  - destruct (Generate m f fs) as [id'| |] eqn:E; [|done..]. unfold Save.
    destruct (write_fault m path); [done|]. intros [= <- ->].
    unfold LoadOrGenerate. rewrite bool_decide_eq_false_2, Hstat by done.
    rewrite bool_decide_eq_true_2 by (rewrite lookup_insert_eq; eauto). cbn [negb andb].
    apply Generate_ret in E as (fp & Hfp & Hid & Hed & Hx). destruct (Hfresh _ _ Hed).
    by rewrite (Load_saved m path id fs fp).
Qed.

#[local] Instance toy_x25519 : X25519 := {| ecdh_public := λ priv, Some priv |}.

Definition sample_machine : Machine :=
  mkMachine Linux "amd64" (Some "host") (λ _, false) (λ _, false) (λ _, None) (λ _, 415%nat) None None.

Definition sample_fresh : Fresh :=
  mkFresh (Some (replicate 32 x05, replicate 64 x05)) (Some (arr_copy 32 [x09])).

Definition sample_files : Files := {["/etc/machine-id" := bytes_of "4fa1"]}.

Definition sample_run : Files * outcome identity_error NodeIdentity :=
  LoadOrGenerate (H := ascii_only) (H0 := ascii_space) sample_machine sample_fresh "identity.key" sample_files.

Definition sample_identity : NodeIdentity :=
  match sample_run.2 with Ret id => id | _ => mkIdentity "" [] [] (arr_copy 32 []) (arr_copy 32 []) end.

Lemma identity_stable_witness :
  LoadOrGenerate (H := ascii_only) (H0 := ascii_space) sample_machine (mkFresh None None) "identity.key" sample_run.1
  = (sample_run.1, Ret sample_identity).
Proof.
  apply (identity_stable (H := ascii_only) (H0 := ascii_space) sample_machine sample_fresh (mkFresh None None) "identity.key" sample_files sample_run.1 sample_identity).
  - vm_compute. intros Hin. repeat (inversion Hin as [|? ? ? Hin']; clear Hin; rename Hin' into Hin; subst).
  - reflexivity.
  - reflexivity.
  - intros pub priv E. cbn in E. injection E as <- <-. split; reflexivity.
  - vm_compute. reflexivity.
Defined.

(** A key file of 65 bytes: the Noise key is all zeros. *)
Example truncated_key_accepted :
  match Load (H := ascii_only) (H0 := ascii_space) sample_machine "identity.key"
          {["identity.key" := x01 :: replicate 64 x05]} with
  | Ret id => vec_to_list (X25519Priv id) = replicate 32 x00
  | _ => False
  end.
Proof. vm_compute. reflexivity. Qed.

(** The line of the [ioreg] output that names the platform. *)
Example find_uuid_example :
  find_uuid (H0 := ascii_space) [bytes_of "  +-o Root"; bytes_of "  " ++ [x22] ++ bytes_of "IOPlatformUUID" ++ [x22] ++ bytes_of " = " ++ [x22] ++ bytes_of "A1B2" ++ [x22]]
  = Some "A1B2".
Proof. vm_compute. reflexivity. Qed.
End IdentityProperties.
