(* ===== verification/Config.v ===== *)
(** * Configuration ([internal/config]: config.go, client_config.go, server_config.go)

    The INI reader, the typed getters with their fall-backs, the client's and the
    server's configuration with defaults and validation, and the splitting of
    [host:port].  A file is what [os.Open] and reading it deliver. *)

From S2P Require Import Prelude GoLib NetParse GoStrings.
Import NetParse.

Open Scope Z_scope.

Module Config.

(** An opened file: the bytes read, and whether reading ended in an error. *)
Record File := mkFile {
  contents : list byte;
  io_error : bool;
}.

Inductive config_error :=
| ErrOpen
| ErrScan
| ErrNoBootstrap
| ErrMTU (n : Z)
| ErrPolicy (s : string)
| ErrLogLevel (s : string)
| ErrPort (n : Z)
| ErrAPIPort (n : Z)
| ErrDatabase (s : string)
| ErrIPv6 (s : string)
| ErrMissingPort (s : string)
| ErrBadPort (s : string).

Abbreviation INI := (gmap string (gmap string string)).

Definition bracket_open : byte := x5b.
Definition bracket_close : byte := x5d.
Definition equals : byte := x3d.
Definition comma : byte := x2c.

Section Config.
Context `{GoUnicode, GoSpace}.

(** ** config.go *)

(** [result[section][key] = val], creating the section. *)
Definition ini_put (section key val : string) (m : INI) : INI :=
  <[section := <[key := val]> (default ∅ (m !! section))]> m.

(** One iteration of the loop of [LoadINI]. *)
Definition ini_line (st : string * INI) (text : list byte) : string * INI :=
  let '(section, result) := st in
  let line := TrimSpace text in
  if bool_decide (line = []) || has_prefix [x3b] line || has_prefix [x23] line then (section, result)
  else if has_prefix [bracket_open] line && has_suffix [bracket_close] line then
    let section := string_of (TrimSpace (take (length line - 2) (drop 1 line))) in
    (section, match result !! section with Some _ => result | None => <[section := ∅]> result end)
  else match index_byte equals line with
       | None => (section, result)
       | Some idx =>
           let key := string_of (TrimSpace (take idx line)) in
           let val := string_of (TrimSpace (drop (S idx) line)) in
           (section, ini_put section key val result)
       end.

Definition LoadINI (f : option File) : INI * option config_error :=
  match f with
  | None => (∅, Some ErrOpen)
  | Some f =>
      let '(lines, fit) := scan_lines (contents f) in
      ((foldl ini_line ("", ∅) lines).2, if fit && negb (io_error f) then None else Some ErrScan)
  end.

(** The value of a key, if it is there and not empty. *)
Definition ini_value (m : INI) (section key : string) : option string :=
  match m !! section with
  | Some s => match s !! key with
              | Some v => if bool_decide (v = "") then None else Some v
              | None => None
              end
  | None => None
  end.

Definition GetString (m : INI) (section key fallback : string) : string :=
  match ini_value m section key with Some v => v | None => fallback end.

Definition GetInt (m : INI) (section key : string) (fallback : Z) : Z :=
  match ini_value m section key with
  | Some v => match Atoi (bytes_of v) with Some n => n | None => fallback end
  | None => fallback
  end.

Definition parseBool (s : string) : bool :=
  let v := ToLower (string_of (TrimSpace (bytes_of s))) in
  bool_decide (v = "true") || bool_decide (v = "1") || bool_decide (v = "yes") || bool_decide (v = "on").

Definition GetBool (m : INI) (section key : string) (fallback : bool) : bool :=
  match ini_value m section key with Some v => parseBool v | None => fallback end.

Definition GetStringSlice (m : INI) (section key : string) (fallback : list string) : list string :=
  match ini_value m section key with
  | Some v => string_of <$> filter (λ p, p ≠ []) (TrimSpace <$> split_byte comma (bytes_of v))
  | None => fallback
  end.

(** ** client_config.go *)

Record ClientConfig := mkClient {
  Bootstrap : list string;
  ListenPort : Z;
  cNodeID : string;
  AutoJoin : string;
  RoomKey : string;
  StunServers : list string;
  StunTimeout : Z;
  PredictSamples : Z;
  StunIPv6 : bool;
  PredictWindow : Z;
  PredictParallel : Z;
  TurnEnabled : bool;
  TurnAddr : string;
  TunnelMTU : Z;
  KCPWindow : Z;
  AllowUnreliableFallback : bool;
  cNetworkCIDR : string;
  PortControlPolicy : string;
  PortControlDB : string;
  KeyFile : string;
  cLogLevel : string;
  cLogFile : string;
}.

Definition DefaultClientConfig : ClientConfig := {|
  Bootstrap := [];
  ListenPort := 0;
  cNodeID := "";
  AutoJoin := "";
  RoomKey := "";
  StunServers := ["stun.l.google.com:19302"; "stun1.l.google.com:19302"; "stun2.l.google.com:19302"; "stun.cloudflare.com:3478"];
  StunTimeout := 3000;
  PredictSamples := 8;
  StunIPv6 := true;
  PredictWindow := 64;
  PredictParallel := 256;
  TurnEnabled := false;
  TurnAddr := "";
  TunnelMTU := 1280;
  KCPWindow := 256;
  AllowUnreliableFallback := false;
  cNetworkCIDR := "fd00:9bd8::/64";
  PortControlPolicy := "deny";
  PortControlDB := "portcontrol.db";
  KeyFile := "identity.key";
  cLogLevel := "info";
  cLogFile := "";
|}.

Definition LoadClientConfig (f : option File) : outcome config_error ClientConfig :=
  let cfg := DefaultClientConfig in
  match LoadINI f with
  | (_, Some e) => Fail e
  | (m, None) => Ret {|
      Bootstrap := GetStringSlice m "client" "bootstrap" (Bootstrap cfg);
      ListenPort := GetInt m "client" "listen_port" (ListenPort cfg);
      cNodeID := GetString m "client" "node_id" (cNodeID cfg);
      AutoJoin := GetString m "room" "auto_join" (AutoJoin cfg);
      RoomKey := GetString m "room" "room_key" (RoomKey cfg);
      StunServers := GetStringSlice m "stun" "servers" (StunServers cfg);
      StunTimeout := GetInt m "stun" "timeout_ms" (StunTimeout cfg);
      PredictSamples := GetInt m "stun" "predict_samples" (PredictSamples cfg);
      StunIPv6 := GetBool m "stun" "ipv6" (StunIPv6 cfg);
      PredictWindow := GetInt m "holepunch" "predict_window" (PredictWindow cfg);
      PredictParallel := GetInt m "holepunch" "predict_parallel" (PredictParallel cfg);
      TurnEnabled := GetBool m "holepunch" "turn" (TurnEnabled cfg);
      TurnAddr := GetString m "holepunch" "turn_addr" (TurnAddr cfg);
      TunnelMTU := GetInt m "tunnel" "mtu" (TunnelMTU cfg);
      KCPWindow := GetInt m "tunnel" "kcp_window" (KCPWindow cfg);
      AllowUnreliableFallback := GetBool m "tunnel" "allow_unreliable_fallback" (AllowUnreliableFallback cfg);
      cNetworkCIDR := GetString m "network" "cidr" (cNetworkCIDR cfg);
      PortControlPolicy := GetString m "portcontrol" "default_policy" (PortControlPolicy cfg);
      PortControlDB := GetString m "portcontrol" "db_file" (PortControlDB cfg);
      KeyFile := GetString m "identity" "key_file" (KeyFile cfg);
      cLogLevel := GetString m "log" "level" (cLogLevel cfg);
      cLogFile := GetString m "log" "file" (cLogFile cfg);
    |}
  end.

Definition log_level_ok (s : string) : bool := bool_decide (s ∈ ["debug"; "info"; "warn"; "error"]).

Definition ClientConfig_Validate (c : ClientConfig) : outcome config_error () :=
  if (length (Bootstrap c) =? 0)%nat then Fail ErrNoBootstrap
  else if TunnelMTU c <? 576 then Fail (ErrMTU (TunnelMTU c))
  else if negb (bool_decide (PortControlPolicy c ∈ ["deny"; "allow"])) then Fail (ErrPolicy (PortControlPolicy c))
  else if negb (log_level_ok (cLogLevel c)) then Fail (ErrLogLevel (cLogLevel c))
  else Ret ().

(** ** server_config.go *)

Record ServerConfig := mkServer {
  Host : string;
  Port : Z;
  MeshPeers : list string;
  APIEnabled : bool;
  APIHost : string;
  APIPort : Z;
  APICertFile : string;
  APIKeyFile : string;
  APIClientCAFile : string;
  JWTSecret : string;
  TokenTTLHours : Z;
  AdminUser : string;
  AdminPassword : string;
  DatabaseType : string;
  DatabaseDSN : string;
  MaxOpenConns : Z;
  MaxIdleConns : Z;
  NetworkCIDR : string;
  RootKeyFile : string;
  TrustOnFirstUse : bool;
  NodeTimeout : string;
  LogLevel : string;
  LogFile : string;
}.

Definition DefaultServerConfig : ServerConfig := {|
  Host := "0.0.0.0";
  Port := 29683;
  MeshPeers := [];
  APIEnabled := true;
  APIHost := "127.0.0.1";
  APIPort := 29684;
  APICertFile := "";
  APIKeyFile := "";
  APIClientCAFile := "";
  JWTSecret := "";
  TokenTTLHours := 24;
  AdminUser := "admin";
  AdminPassword := "";
  DatabaseType := "sqlite";
  DatabaseDSN := "data/gop2pmesh.db";
  MaxOpenConns := 50;
  MaxIdleConns := 10;
  NetworkCIDR := "fd00:9bd8::/64";
  RootKeyFile := "root.key";
  TrustOnFirstUse := false;
  NodeTimeout := "90s";
  LogLevel := "info";
  LogFile := "";
|}.

Definition LoadServerConfig (f : option File) : outcome config_error ServerConfig :=
  let cfg := DefaultServerConfig in
  match LoadINI f with
  | (_, Some e) => Fail e
  | (m, None) => Ret {|
      Host := GetString m "server" "host" (Host cfg);
      Port := GetInt m "server" "port" (Port cfg);
      MeshPeers := GetStringSlice m "server" "mesh_peers" (MeshPeers cfg);
      APIEnabled := GetBool m "api" "enabled" (APIEnabled cfg);
      APIHost := GetString m "api" "host" (APIHost cfg);
      APIPort := GetInt m "api" "port" (APIPort cfg);
      APICertFile := GetString m "api" "cert_file" (APICertFile cfg);
      APIKeyFile := GetString m "api" "key_file" (APIKeyFile cfg);
      APIClientCAFile := GetString m "api" "client_ca_file" (APIClientCAFile cfg);
      JWTSecret := GetString m "api" "jwt_secret" (JWTSecret cfg);
      TokenTTLHours := GetInt m "api" "token_ttl_hours" (TokenTTLHours cfg);
      AdminUser := GetString m "api" "admin_user" (AdminUser cfg);
      AdminPassword := GetString m "api" "admin_password" (AdminPassword cfg);
      DatabaseType := GetString m "database" "type" (DatabaseType cfg);
      DatabaseDSN := GetString m "database" "dsn" (DatabaseDSN cfg);
      MaxOpenConns := GetInt m "database" "max_open_conns" (MaxOpenConns cfg);
      MaxIdleConns := GetInt m "database" "max_idle_conns" (MaxIdleConns cfg);
      NetworkCIDR := GetString m "network" "cidr" (NetworkCIDR cfg);
      RootKeyFile := GetString m "security" "root_key_file" (RootKeyFile cfg);
      TrustOnFirstUse := GetBool m "security" "trust_on_first_use" (TrustOnFirstUse cfg);
      NodeTimeout := GetString m "security" "node_timeout" (NodeTimeout cfg);
      LogLevel := GetString m "log" "level" (LogLevel cfg);
      LogFile := GetString m "log" "file" (LogFile cfg);
    |}
  end.

Definition port_ok (p : Z) : bool := (1 <=? p) && (p <=? 65535).

Definition ServerConfig_Validate (c : ServerConfig) : outcome config_error () :=
  if negb (port_ok (Port c)) then Fail (ErrPort (Port c))
  else if negb (port_ok (APIPort c)) then Fail (ErrAPIPort (APIPort c))
  else if negb (bool_decide (DatabaseType c ∈ ["sqlite"; "mysql"; "postgresql"; "mongodb"])) then Fail (ErrDatabase (DatabaseType c))
  else if negb (log_level_ok (LogLevel c)) then Fail (ErrLogLevel (LogLevel c))
  else Ret ().

Definition HostPort (c : ServerConfig) : string := Host c +:+ ":" +:+ pretty (Port c).
Definition APIHostPort (c : ServerConfig) : string := APIHost c +:+ ":" +:+ pretty (APIPort c).

Definition ToServerOptions (c : ServerConfig) : list string :=
  ["host=" +:+ Host c; "port=" +:+ pretty (Port c); "api_host=" +:+ APIHost c; "api_port=" +:+ pretty (APIPort c);
   "db_type=" +:+ DatabaseType c; "db_dsn=" +:+ DatabaseDSN c; "log_level=" +:+ LogLevel c].

Definition ParseHostPort (addr : string) : outcome config_error (string * Z) :=
  let b := bytes_of addr in
  if has_prefix [bracket_open] b then
    match last_index bracket_close b with
    | None => Fail (ErrIPv6 addr)
    | Some i =>
        let host := take (i - 1) (drop 1 b) in
        let rest := drop (S i) b in
        if negb (has_prefix [x3a] rest) then Fail (ErrMissingPort addr)
        else match Atoi (drop 1 rest) with
             | None => Fail (ErrBadPort addr)
             | Some port => Ret (string_of host, port)
             end
    end
  else
    match last_index x3a b with
    | None => Fail (ErrMissingPort addr)
    | Some i =>
        match Atoi (drop (S i) b) with
        | None => Fail (ErrBadPort addr)
        | Some port => Ret (string_of (take i b), port)
        end
    end.
End Config.
End Config.

Module ConfigFacts.
Import Config.

(** ** INI documents *)

Inductive item :=
| Header (section : string)
| Entry (key value : string)
| Remark_ (text : list byte)
| Blank.

Definition item_line (i : item) : list byte :=
  match i with
  | Header s => [bracket_open] ++ bytes_of s ++ [bracket_close]
  | Entry k v => bytes_of k ++ [equals] ++ bytes_of v
  | Remark_ t => [x3b] ++ t
  | Blank => []
  end.

Definition render (doc : list item) : list byte := doc ≫= (λ i, item_line i ++ [x0a]).

(** ASCII without line breaks. *)
Definition clean_byte (b : byte) : bool := (bZ b <? 128) && negb (bZ b =? 10) && negb (bZ b =? 13).
Definition clean (l : list byte) : Prop := Forall (λ b, clean_byte b = true) l.

Definition plain (s : string) : Prop := clean (bytes_of s) ∧ trimmed is_ascii_space (bytes_of s).

Definition key_start_ok (k : list byte) : Prop :=
  match k with [] => False | c :: _ => c ∉ [x3b; x23; bracket_open] end.

Definition item_ok (i : item) : Prop :=
  Z.of_nat (length (item_line i)) < MaxScanTokenSize ∧
  match i with
  | Header s => plain s
  | Entry k v => plain k ∧ plain v ∧ key_start_ok (bytes_of k) ∧ equals ∉ bytes_of k
  | Remark_ t => clean t
  | Blank => True
  end.

(** Every assignment of a document with the section it stands in. *)
Fixpoint assignments (section : string) (doc : list item) : list (string * string * string) :=
  match doc with
  | [] => []
  | Header s :: doc => assignments s doc
  | Entry k v :: doc => (section, k, v) :: assignments section doc
  | (Remark_ _ | Blank) :: doc => assignments section doc
  end.

(** The value a document gives a key: that of its last assignment. *)
Definition assigned (doc : list item) (section key : string) : option string :=
  last (snd <$> filter (λ a, a.1 = (section, key)) (assignments "" doc)).

Definition ini_get (m : INI) (section key : string) : option string := m !! section ≫= (λ s, s !! key).

(** ** Lines *)

Lemma plain_check s :
  forallb clean_byte (bytes_of s) && bool_decide (trim_by is_ascii_space (bytes_of s) = bytes_of s) = true → plain s.
Proof.
  intros [Hc Ht%bool_decide_eq_true]%andb_true_iff. split.
  - apply Forall_forall. intros b Hb%list_elem_of_In. rewrite forallb_forall in Hc. auto.
  - destruct (trim_by_spec is_ascii_space (bytes_of s)) as (_ & _ & _ & _ & _ & H). by rewrite Ht in H.
Qed.

Lemma raw_lines_joined ls : Forall (λ l, x0a ∉ l) ls → raw_lines (ls ≫= (λ l, l ++ [x0a])) = ls.
Proof.
  intros Hls. unfold raw_lines.
  assert (split_byte x0a (ls ≫= (λ l, l ++ [x0a])) = ls ++ [[]]) as ->.
  { induction Hls as [|l ls Hl Hls IH]; [done|]. cbn [mbind list_bind].
    rewrite <- app_assoc. cbn [app]. rewrite split_byte_app by done. cbn. by f_equal. }
  rewrite last_snoc, length_app, Nat.add_sub. by rewrite take_app_length.
Qed.

Lemma drop_cr_id l : x0d ∉ l → drop_cr l = l.
Proof.
  intros Hl. unfold drop_cr, trim_suffix. destruct (has_suffix [x0d] l) eqn:E; [|done].
  apply has_suffix_true in E. destruct Hl. rewrite E. apply elem_of_app. right. by apply list_elem_of_singleton.
Qed.

Lemma scan_fit_clean ls :
  Forall (λ l, Z.of_nat (length l) < MaxScanTokenSize ∧ x0d ∉ l) ls → scan_fit ls = (ls, true).
Proof.
  induction 1 as [|l ls [Hl Hr] _ IH]; cbn; [done|]. rewrite (proj2 (Z.ltb_lt _ _)) by done.
  by rewrite IH, drop_cr_id.
Qed.

Lemma scan_lines_joined ls :
  Forall (λ l, Z.of_nat (length l) < MaxScanTokenSize ∧ (x0a ∉ l) ∧ (x0d ∉ l)) ls →
  scan_lines (ls ≫= (λ l, l ++ [x0a])) = (ls, true).
Proof.
  intros Hls. unfold scan_lines. rewrite raw_lines_joined by (eapply Forall_impl; [exact Hls|naive_solver]).
  apply scan_fit_clean. eapply Forall_impl; [exact Hls|naive_solver].
Qed.

Lemma clean_no_break l : clean l → (x0a ∉ l) ∧ (x0d ∉ l).
Proof. unfold clean. rewrite Forall_forall. intros Hl. split; intros E%Hl; by vm_compute in E. Qed.

Lemma clean_ascii l : clean l → ascii_bytes l = true.
Proof.
  unfold clean, ascii_bytes, clean_byte. intros Hl. apply forallb_forall. intros b Hb%list_elem_of_In.
  rewrite Forall_forall in Hl. specialize (Hl b Hb). by destruct (bZ b <? 128).
Qed.

Lemma clean_item i : item_ok i → clean (item_line i).
Proof.
  unfold clean. intros [_ Hi]. destruct i as [s|k v|t|]; cbn [item_line]; rewrite ?Forall_app, ?Forall_singleton.
  - split_and!; [done|apply Hi|done].
  - destruct Hi as (Hk & Hv & _). split_and!; [apply Hk|done|apply Hv].
  - by split.
  - constructor.
Qed.

(** ** Trimming of rendered lines *)

Lemma TrimSpace_clean `{GoSpace} l : clean l → TrimSpace l = trim_by is_ascii_space l.
Proof. intros Hl. unfold TrimSpace. by rewrite clean_ascii. Qed.

Lemma TrimSpace_id `{GoSpace} l : clean l → trimmed is_ascii_space l → TrimSpace l = l.
Proof. intros. rewrite TrimSpace_clean by done. by apply trim_by_id. Qed.

Lemma snoc_inj {A} (l r : list A) x y : l ++ [x] = r ++ [y] → l = r ∧ x = y.
Proof. apply app_inj_tail. Qed.

Lemma trimmed_bracket p a m b : p a = false → p b = false → trimmed p ([a] ++ m ++ [b]).
Proof.
  intros Ha Hb. split.
  - intros c r [= <- _]. done.
  - intros c r E. rewrite app_assoc in E. by apply snoc_inj in E as [_ <-].
Qed.

Lemma trimmed_middle p k c v : k ≠ [] → trimmed p k → p c = false → trimmed p v → trimmed p (k ++ [c] ++ v).
Proof.
  intros Hne [Hk _] Hc [_ Hv]. split.
  - intros d r E. destruct k as [|e k]; [done|]. injection E as <- _. by apply (Hk e k).
  - intros d r E. destruct v as [|x v _] using rev_ind; [by apply snoc_inj in E as [_ <-]|].
    rewrite !app_assoc in E. apply snoc_inj in E as [_ <-]. by apply (Hv x v).
Qed.

Lemma trimmed_remark t : ∃ r, trim_by is_ascii_space ([x3b] ++ t) = x3b :: r.
Proof.
  destruct (trim_by_spec is_ascii_space ([x3b] ++ t)) as (a & b & E & Ha & Hb & _).
  destruct a as [|c a]; [|injection E as <- _; by apply Forall_cons in Ha as [Ha _]].
  destruct (trim_by is_ascii_space ([x3b] ++ t)) as [|c r]; [|injection E as <- _; by exists r].
  cbn in E. rewrite <- E in Hb. by apply Forall_cons in Hb as [Hb _].
Qed.

Lemma index_byte_app c l r : c ∉ l → index_byte c (l ++ c :: r) = Some (length l).
Proof.
  unfold index_byte. induction l as [|d l IH]; intros Hl; cbn; [by rewrite bool_decide_eq_true_2|].
  apply not_elem_of_cons in Hl as [Hd Hl]. rewrite bool_decide_eq_false_2 by congruence. by rewrite IH.
Qed.

(** ** One line *)

Definition item_step (st : string * INI) (i : item) : string * INI :=
  match i with
  | Header s => (s, match st.2 !! s with Some _ => st.2 | None => <[s := ∅]> st.2 end)
  | Entry k v => (st.1, ini_put st.1 k v st.2)
  | Remark_ _ | Blank => st
  end.

Lemma has_prefix_cons c d l : has_prefix [c] (d :: l) = bool_decide (d = c).
Proof. unfold has_prefix. cbn. apply bool_decide_ext. rewrite take_0. split; congruence. Qed.

Lemma ini_line_item `{GoSpace} st i : item_ok i → ini_line st (item_line i) = item_step st i.
Proof.
  intros Hi. destruct st as [sec m]. unfold ini_line. pose proof (clean_item i Hi) as Hc. destruct Hi as [_ Hi].
  destruct i as [s|k v|t|]; cbn [item_step fst snd].
  - destruct Hi as [Hs Ht]. rewrite TrimSpace_id by (try done; by apply trimmed_bracket). cbn [item_line].
    rewrite app_assoc, has_suffix_app, <- app_assoc. cbn [app]. rewrite !has_prefix_cons.
    rewrite bool_decide_eq_false_2 by done.
    do 2 rewrite bool_decide_eq_false_2 by (by vm_compute). rewrite bool_decide_eq_true_2 by done. cbn [orb andb drop].
    replace (take _ (drop 0 _)) with (bytes_of s).
    { rewrite TrimSpace_id by done. by rewrite string_of_bytes_of. }
    rewrite drop_0. cbn [length]. rewrite length_app. cbn [length].
    replace (S (length (bytes_of s) + 1) - 2)%nat with (length (bytes_of s)) by lia. by rewrite take_app_length.
  - destruct Hi as ([Hk Htk] & [Hv Htv] & Hs & He).
    rewrite TrimSpace_id; [|done|apply trimmed_middle; try done; by intros E; rewrite E in Hs].
    cbn [item_line app]. rewrite index_byte_app by done.
    destruct (bytes_of k) as [|c k'] eqn:Ek; [done|]. cbn [app]. rewrite !has_prefix_cons.
    rewrite bool_decide_eq_false_2 by done. cbn [key_start_ok] in Hs. rewrite !not_elem_of_cons in Hs.
    destruct Hs as (? & ? & ? & _). rewrite !bool_decide_eq_false_2 by done. cbn [orb andb].
    rewrite !app_comm_cons, take_app_length. change (equals :: bytes_of v) with ([equals] ++ bytes_of v).
    rewrite app_assoc, drop_app_length' by (rewrite length_app; cbn; lia).
    rewrite !TrimSpace_id by done. by rewrite <- Ek, !string_of_bytes_of.
  - rewrite TrimSpace_clean by done. cbn [item_line]. destruct (trimmed_remark t) as [r ->].
    by rewrite !has_prefix_cons, bool_decide_eq_false_2, (bool_decide_eq_true_2 (x3b = x3b)) by done.
  - rewrite TrimSpace_id by (done || (split; [done|by intros c []])). done.
Qed.

Lemma ini_lines `{GoSpace} st doc :
  Forall item_ok doc → foldl ini_line st (item_line <$> doc) = foldl item_step st doc.
Proof.
  intros Hd. revert st. induction Hd as [|i doc Hi _ IH]; intros st; [done|]. cbn. by rewrite ini_line_item, IH.
Qed.

(** ** Lookup *)

Lemma ini_get_put m s k v s' k' :
  ini_get (ini_put s k v m) s' k' = if bool_decide ((s, k) = (s', k')) then Some v else ini_get m s' k'.
Proof.
  unfold ini_get, ini_put. case_bool_decide as E.
  - injection E as <- <-. rewrite lookup_insert_eq. cbn. apply lookup_insert_eq.
  - destruct (decide (s = s')) as [<-|Hs]; [|by rewrite lookup_insert_ne].
    rewrite lookup_insert_eq. cbn. rewrite lookup_insert_ne by congruence.
    by destruct (m !! s).
Qed.

Lemma ini_get_header m s s' k :
  ini_get (match m !! s with Some _ => m | None => <[s := ∅]> m end) s' k = ini_get m s' k.
Proof.
  destruct (m !! s) eqn:E; [done|]. unfold ini_get.
  destruct (decide (s = s')) as [<-|Hs]; [|by rewrite lookup_insert_ne]. by rewrite lookup_insert_eq, E.
Qed.

Lemma item_steps_get doc sec m s k :
  ini_get (foldl item_step (sec, m) doc).2 s k =
  match last (snd <$> filter (λ a, a.1 = (s, k)) (assignments sec doc)) with
  | Some v => Some v
  | None => ini_get m s k
  end.
Proof.
  revert sec m. induction doc as [|i doc IH]; intros sec m; [done|].
  destruct i as [s'|k' v'|t|]; cbn [foldl item_step assignments fst snd]; rewrite IH; try done.
  - by rewrite ini_get_header.
  - rewrite ini_get_put, filter_cons. cbn [fst]. case_decide as E.
    + rewrite bool_decide_eq_true_2 by done. cbn [fmap list_fmap snd]. rewrite last_cons.
      by destruct (last _).
    + by rewrite bool_decide_eq_false_2.
Qed.

(** ** Host and port *)

Lemma drop_app_cons {A} (l : list A) c r : drop (S (length l)) (l ++ c :: r) = r.
Proof. induction l as [|d l IH]; [by destruct r|]. exact IH. Qed.

Lemma pretty_no_byte (z : Z) (c : byte) :
  is_digit c = false → c ≠ x2d → c ∉ bytes_of (pretty z).
Proof.
  intros Hc Hm.
  assert (∀ l a r, digits_value a l = Some r → c ∉ l) as Hd.
  { induction l as [|d l IH]; intros a r E; [apply not_elem_of_nil|]. cbn in E. destruct (is_digit d) eqn:Ed; [|done].
    apply not_elem_of_cons. split; [congruence|]. eauto. }
  assert (∀ n : N, c ∉ bytes_of (pretty n)) as Hn by (intros n; eapply Hd, pretty_N_digits).
  destruct z as [|p|p].
  - apply (Hn 0%N).
  - apply (Hn (N.pos p)).
  - change (bytes_of (pretty (Z.neg p))) with (x2d :: bytes_of (pretty (N.pos p))).
    apply not_elem_of_cons. split; [done|apply Hn].
Qed.
End ConfigFacts.

Module ConfigProperties.
Import Config ConfigFacts.

Section Properties.
Context `{GoSpace}.

(** Writing a configuration and reading it gives what was written: for every document of
    section headers, assignments, comments and blank lines in clean ASCII whose lines
    fit the scanner's buffer, [LoadINI] succeeds, and for each section and key it holds
    the value of the document's last assignment, or nothing if there is none. *)
Theorem ini_roundtrip (doc : list item) (Hdoc : Forall item_ok doc) :
  ∃ m, LoadINI (Some (mkFile (render doc) false)) = (m, None) ∧
    ∀ section key, ini_get m section key = assigned doc section key.
Proof.
  unfold LoadINI. cbn [contents io_error].
  assert (render doc = (item_line <$> doc) ≫= (λ l, l ++ [x0a])) as ->.
  { unfold render. clear. induction doc as [|i doc IH]; [done|]. cbn. by rewrite IH. }
  rewrite scan_lines_joined.
  2:{ apply Forall_fmap. eapply Forall_impl; [exact Hdoc|]. intros i Hi. cbn.
      split; [apply Hi|]. apply clean_no_break. by apply clean_item. }
  eexists. split; [done|]. intros section key. rewrite ini_lines by done. rewrite item_steps_get.
  unfold assigned. by destruct (last _).
Qed.

(** Host and port are split as they were joined: [ParseHostPort] inverts [HostPort] for every
    host that does not start with a bracket, inverts the bracketed form for every host, and any
    64-bit port; every port it returns is a 64-bit integer. *)
Theorem host_port_roundtrip (c : ServerConfig) (Hport : int64 (Port c) = true) :
  (has_prefix [bracket_open] (bytes_of (Host c)) = false → ParseHostPort (HostPort c) = Ret (Host c, Port c)) ∧
  ParseHostPort ("[" +:+ Host c +:+ "]:" +:+ pretty (Port c)) = Ret (Host c, Port c) ∧
  ∀ addr host port, ParseHostPort addr = Ret (host, port) → int64 port = true.
Proof.
  assert (∀ l z, Atoi l = Some z → int64 z = true) as Ha.
  { intros l z. unfold Atoi. destruct (match l with [] => _ | _ :: _ => _ end) as [y|]; [|done].
    destruct (int64 y) eqn:E; [|done]. by intros [= <-]. }
  split_and!.
  - intros Hh. unfold ParseHostPort, HostPort. rewrite !bytes_of_app.
    change (bytes_of ":") with [x3a]. cbn [app].
    replace (has_prefix _ _) with false.
    2:{ destruct (bytes_of (Host c)) as [|d r]; cbn [app]; [done|]. by rewrite has_prefix_cons in *. }
    rewrite last_index_app by (apply pretty_no_byte; [by vm_compute|done]).
    rewrite drop_app_cons, Atoi_pretty, take_app_length by done. by rewrite string_of_bytes_of.
  - unfold ParseHostPort. rewrite !bytes_of_app.
    change (bytes_of "[") with [x5b]. change (bytes_of "]:") with [x5d; x3a]. cbn [app].
    rewrite has_prefix_cons, bool_decide_eq_true_2 by done.
    rewrite app_comm_cons, last_index_app.
    2:{ apply not_elem_of_cons. split; [done|]. apply pretty_no_byte; [by vm_compute|done]. }
    rewrite drop_app_cons, has_prefix_cons, bool_decide_eq_true_2 by done. cbn [negb drop].
    rewrite drop_0, Atoi_pretty by done. cbn [length app drop]. rewrite ?drop_0, Nat.sub_succ, Nat.sub_0_r, take_app_length.
    by rewrite string_of_bytes_of.
  - intros addr host port. unfold ParseHostPort.
    destruct (has_prefix _ (bytes_of addr)).
    + destruct (last_index _ _); [|done]. destruct (negb _); [done|].
      destruct (Atoi _) eqn:E; [|done]. intros [= _ <-]. by eapply Ha.
    + destruct (last_index _ _); [|done]. destruct (Atoi _) eqn:E; [|done]. intros [= _ <-]. by eapply Ha.
Qed.

(** An IPv6 host is printed without brackets, and no dialer or listener splits the result: a
    server given its address as [[::1]:29683] cannot listen. *)
Lemma HostPort_ipv6 (c : ServerConfig) :
  has_prefix [bracket_open] (bytes_of (Host c)) = false → x3a ∈ bytes_of (Host c) → SplitHostPort (HostPort c) = None.
Proof.
  intros Hh Hc. unfold SplitHostPort, HostPort. rewrite !bytes_of_app. change (bytes_of ":") with [x3a]. cbn [app].
  rewrite last_index_app by (apply pretty_no_byte; [by vm_compute|done]).
  destruct (bytes_of (Host c)) as [|d r]; [by apply not_elem_of_nil in Hc|].
  rewrite has_prefix_cons in Hh. unfold bracket_open in Hh. cbn [app]. rewrite Hh. cbn [app length take]. rewrite take_app_length. by rewrite bool_decide_eq_true_2.
Qed.

(** The default server configuration is valid; the default client names no server and is not. *)
Lemma default_configs :
  ServerConfig_Validate DefaultServerConfig = Ret () ∧ ClientConfig_Validate DefaultClientConfig = Fail ErrNoBootstrap.
Proof. by vm_compute. Qed.
End Properties.

Lemma sample_entry k v :
  Z.of_nat (length (item_line (Entry k v))) < MaxScanTokenSize →
  forallb (λ s, forallb clean_byte (bytes_of s) && bool_decide (trim_by is_ascii_space (bytes_of s) = bytes_of s)) [k; v] = true →
  key_start_ok (bytes_of k) → equals ∉ bytes_of k → item_ok (Entry k v).
Proof. cbn [forallb]. rewrite !andb_true_iff. intros ? (? & ? & _) ? ?. split; [done|]. split_and!; by try apply plain_check; rewrite ?andb_true_iff. Qed.

Definition sample_doc : list item :=
  [Remark_ (bytes_of " server"); Header "server"; Entry "port" "1"; Blank; Entry "port" "4000"; Header "log"; Entry "level" "debug"].

Lemma ini_roundtrip_witness :
  ∃ m, LoadINI (H0 := ascii_space) (Some (mkFile (render sample_doc) false)) = (m, None) ∧
    ini_get m "server" "port" = Some "4000".
Proof.
  destruct (ini_roundtrip (H := ascii_space) sample_doc) as (m & E & Hm).
  - unfold sample_doc. rewrite !Forall_cons. split_and!.
    + split; [reflexivity|]. by repeat constructor.
    + split; [reflexivity|]. apply plain_check. reflexivity.
    + apply sample_entry; [reflexivity|reflexivity|by apply (bool_decide_unpack _)|by apply (bool_decide_unpack _)].
    + split; [reflexivity|done].
    + apply sample_entry; [reflexivity|reflexivity|by apply (bool_decide_unpack _)|by apply (bool_decide_unpack _)].
    + split; [reflexivity|]. apply plain_check. reflexivity.
    + apply sample_entry; [reflexivity|reflexivity|by apply (bool_decide_unpack _)|by apply (bool_decide_unpack _)].
    + constructor.
  - exists m. split; [exact E|]. rewrite (Hm "server" "port"). reflexivity.
Defined.

Lemma host_port_roundtrip_witness :
  ParseHostPort (HostPort DefaultServerConfig) = Ret ("0.0.0.0", 29683).
Proof. exact (proj1 (host_port_roundtrip DefaultServerConfig eq_refl) eq_refl). Defined.

(** A misspelt boolean is read as false, also where the default is true. *)
Example misspelt_bool :
  GetBool (H := ascii_only) (H0 := ascii_space) {["stun" := {["ipv6" := "enabled"]}]} "stun" "ipv6" true = false.
Proof. vm_compute. reflexivity. Qed.
End ConfigProperties.
