(* ===== verification/ServerPkg.v ===== *)
(** * The server package ([pkg/server]: server.go, options.go)

    Options, validation, construction over the store and the certificate authority, and the
    life cycle of a server.  The store and the authority are those of Storage.v and Crypto.v;
    whether a listen succeeds is a parameter. *)

From S2P Require Import Prelude GoLib MeshTypes Storage Crypto Config.

Open Scope Z_scope.

Module ServerPkg.

Record Config := mkConfig {
  Host : string;
  Port : Z;
  APIHost : string;
  APIPort : Z;
  APICertFile : string;
  APIKeyFile : string;
  JWTSecret : string;
  AdminUser : string;
  AdminPass : string;
  DatabaseType : string;
  DatabaseDSN : string;
  LogLevel : string;
  LogFile : string;
}.

Definition DefaultConfig : Config :=
  mkConfig "0.0.0.0" 29683 "127.0.0.1" 29684 "" "" "" "admin" "" "sqlite" "data/gop2pmesh.db" "info" "".

Inductive Option_ :=
| WithHost (host : string)
| WithPort (port : Z)
| WithAPIHost (host : string)
| WithAPIPort (port : Z)
| WithAPICertFile (path : string)
| WithAPIKeyFile (path : string)
| WithAdminCredentials (user pass : string)
| WithDatabase (dbType dsn : string)
| WithLogLevel (level : string)
| WithLogFile (path : string).

Definition apply_option (c : Config) (o : Option_) : Config :=
  let '(mkConfig h p ah ap cf kf jwt u pw dt dsn ll lf) := c in
  match o with
  | WithHost h => mkConfig h p ah ap cf kf jwt u pw dt dsn ll lf
  | WithPort p => mkConfig h p ah ap cf kf jwt u pw dt dsn ll lf
  | WithAPIHost ah => mkConfig h p ah ap cf kf jwt u pw dt dsn ll lf
  | WithAPIPort ap => mkConfig h p ah ap cf kf jwt u pw dt dsn ll lf
  | WithAPICertFile cf => mkConfig h p ah ap cf kf jwt u pw dt dsn ll lf
  | WithAPIKeyFile kf => mkConfig h p ah ap cf kf jwt u pw dt dsn ll lf
  | WithAdminCredentials u pw => mkConfig h p ah ap cf kf jwt u pw dt dsn ll lf
  | WithDatabase dt dsn => mkConfig h p ah ap cf kf jwt u pw dt dsn ll lf
  | WithLogLevel ll => mkConfig h p ah ap cf kf jwt u pw dt dsn ll lf
  | WithLogFile lf => mkConfig h p ah ap cf kf jwt u pw dt dsn ll lf
  end.

Inductive server_error :=
| ErrPort (n : Z)
| ErrAPIPort (n : Z)
| ErrDatabase (s : string)
| ErrStore (e : Storage.store_error)
| ErrCertAuth (e : Crypto.crypto_error)
| ErrAlreadyStarted
| ErrListen (addr : string).

Definition Validate (c : Config) : outcome server_error () :=
  if negb (Config.port_ok (Port c)) then Fail (ErrPort (Port c))
  else if negb (Config.port_ok (APIPort c)) then Fail (ErrAPIPort (APIPort c))
  else if negb (bool_decide (DatabaseType c ∈ ["sqlite"; "mysql"; "postgresql"; "mongodb"])) then Fail (ErrDatabase (DatabaseType c))
  else Ret ().

(** A bootstrap server: its address, and whether its listener field is set. *)
Record BootServer := mkBoot {
  addr : string;
  listener : bool;
}.

Section Server.
Context `{Storage.Engine, Signatures}.

(** A server with what it holds of the process: contexts are numbered, [cancelled] are those
    cancelled, [waiters] the goroutines the wait group counts, each by the context it waits for,
    [listening] the open listeners, [closes] the number of times a store was closed. *)
Record Server := mkServer {
  cfg : Config;
  started : bool;
  cancel : option nat;
  store : Storage.StoreValue;
  bootSrv : option BootServer;
  certAuth : Crypto.CertAuth;
  contexts : nat;
  cancelled : list nat;
  waiters : list nat;
  listening : list string;
  closes : nat;
}.

(** The scripts [m1], [m2], [m3] are embedded in the store; [now], [gen1] and [gen2] are the clock
    and the key pairs for the authority. *)
Definition New (m1 m2 m3 : string) (now : Z) (gen1 gen2 : option Crypto.KeyPair) (opts : list Option_) :
    outcome server_error Server :=
  let cfg := foldl apply_option DefaultConfig opts in
  match Validate cfg with
  | Ret _ =>
      match Storage.NewStore m1 m2 m3 (Storage.mkDbConfig (DatabaseType cfg) (DatabaseDSN cfg) 50 10) with
      | (_, Some e) => Fail (ErrStore e)
      | (store, None) =>
          match Crypto.NewCertAuth now gen1 gen2 None false with
          | Ret ca =>
              let bootAddr := Host cfg +:+ ":" +:+ pretty (Port cfg) in
              Ret (mkServer cfg false None store (Some (mkBoot bootAddr false)) ca 0 [] [] [] 0)
          | Fail e => Fail (ErrCertAuth e)
          | Panic => Panic
          end
      end
  | Fail e => Fail e
  | Panic => Panic
  end.

(** [Start] up to the unlock. *)
Definition start_locked (s : Server) : Server * outcome server_error () :=
  if started s then (s, Fail ErrAlreadyStarted)
  else (mkServer (cfg s) true (cancel s) (store s) (bootSrv s) (certAuth s) (contexts s) (cancelled s) (waiters s)
          (listening s) (closes s), Ret ()).

(** The rest of it runs without the lock, in three parts: the context; the bootstrap server, where [listen]
    says whether the address can be bound; the counted goroutine. *)
Definition start_cancel (s : Server) : Server * nat :=
  let ctx := contexts s in
  (mkServer (cfg s) (started s) (Some ctx) (store s) (bootSrv s) (certAuth s) (S ctx) (cancelled s) (waiters s)
     (listening s) (closes s), ctx).

Definition start_boot (listen : string → bool) (s : Server) : Server * outcome server_error () :=
  match bootSrv s with
  | None => (s, Panic)
  | Some b =>
      if negb (listen (addr b)) then (s, Fail (ErrListen (addr b)))
      else (mkServer (cfg s) (started s) (cancel s) (store s) (Some (mkBoot (addr b) true)) (certAuth s) (contexts s)
              (cancelled s) (waiters s) (addr b :: listening s) (closes s), Ret ())
  end.

Definition start_tail (ctx : nat) (s : Server) : Server :=
  mkServer (cfg s) (started s) (cancel s) (store s) (bootSrv s) (certAuth s) (contexts s) (cancelled s) (ctx :: waiters s)
    (listening s) (closes s).

Definition start_serve (listen : string → bool) (ctx : nat) (s : Server) : Server * outcome server_error () :=
  match start_boot listen s with
  | (s, Ret _) => (start_tail ctx s, Ret ())
  | r => r
  end.

Definition start_rest (listen : string → bool) (s : Server) : Server * outcome server_error () :=
  let '(s, ctx) := start_cancel s in start_serve listen ctx s.

Definition Start (listen : string → bool) (s : Server) : Server * outcome server_error () :=
  match start_locked s with
  | (s, Ret _) => start_rest listen s
  | (s, e) => (s, e)
  end.

(** [bootstrap.Server.Stop] closes its listener, if it has one. *)
Definition boot_stop (b : BootServer) (l : list string) : list string :=
  if listener b then filter (λ a, a ≠ addr b) l else l.

(** The boolean says whether the final [wg.Wait] returns: every counted goroutine waits for a
    cancelled context. *)
Definition Stop (s : Server) : Server * bool :=
  let s' := mkServer (cfg s) false None Storage.NilStore None (certAuth s) (contexts s) (cancelled s) (waiters s)
              (listening s) (closes s) in
  let has_store := match store s with Storage.NilStore => false | _ => true end in
  let has_boot := match bootSrv s with None => false | Some _ => true end in
  if negb (started s) && negb has_store && negb has_boot then (s', true)
  else
    let cancelled' := match cancel s with Some c => c :: cancelled s | None => cancelled s end in
    let listening' := match bootSrv s with Some b => boot_stop b (listening s) | None => listening s end in
    let closes' := if has_store then S (closes s) else closes s in
    if forallb (λ w, bool_decide (w ∈ cancelled')) (waiters s)
    then (mkServer (cfg s) false None Storage.NilStore None (certAuth s) (contexts s) cancelled' [] listening' closes', true)
    else (mkServer (cfg s) false None Storage.NilStore None (certAuth s) (contexts s) cancelled' (waiters s) listening' closes', false).
End Server.
End ServerPkg.

Module ServerPkgFacts.

(** ** The life cycle of a server *)

Section Server.
Context `{Storage.Engine, Signatures}.
Import ServerPkg.



(** A server from [New] that was never stopped, and one that was. *)
Definition live (s : Server) : Prop :=
  store s ≠ Storage.NilStore ∧ closes s = 0%nat ∧ cancelled s = [] ∧
  ∃ b, bootSrv s = Some b ∧
    (waiters s = [] ∧ listening s = [] ∧ listener b = false ∨
     started s = true ∧ listener b = true ∧ listening s = [addr b] ∧ ∃ c, cancel s = Some c ∧ (waiters s = [c] ∨ waiters s = [])).

Definition stopped (s : Server) : Prop :=
  store s = Storage.NilStore ∧ bootSrv s = None ∧ closes s = 1%nat ∧ listening s = [] ∧ waiters s = [].

Lemma New_live m1 m2 m3 now g1 g2 opts s :
  New m1 m2 m3 now g1 g2 opts = Ret s → live s ∧ started s = false.
Proof.
  unfold New. destruct (Validate _) as [[]| |] eqn:Ev; [|done..].
  destruct (Storage.NewStore _ _ _ _) as [st [e|]] eqn:Es; [done|].
  destruct (Crypto.NewCertAuth _ _ _ _ _); [|done..]. intros [= <-]. split; [|done].
  assert (st ≠ Storage.NilStore) as Hst.
  { revert Es. unfold Storage.NewStore. repeat case_match; intros; simplify_eq; done. }
  split_and!; try done. eexists. split; [done|]. by left.
Qed.



Lemma boot_stop_own b : boot_stop (mkBoot b true) [b] = [].
Proof. unfold boot_stop. cbn [listener addr]. rewrite filter_cons_False by (by intros []). done. Qed.

Lemma Stop_live s : live s → ∃ s', Stop s = (s', true) ∧ stopped s' ∧ started s' = false ∧
  match cancel s with Some c => c ∈ cancelled s' | None => True end.
Proof.
  intros (Hst & Hc & Hx & b & Hb & Hw). unfold Stop. rewrite Hb, Hx.
  replace (match store s with Storage.NilStore => false | _ => true end) with true by (by destruct (store s)).
  cbn [negb]. rewrite andb_false_r. cbn [andb].
  destruct Hw as [(Hw & Hl & Hn)|(_ & Hn & Hl & c & Hca & Hw)].
  - rewrite Hw. cbn [forallb]. eexists. split; [done|].
    unfold boot_stop. rewrite Hn, Hl, Hc. split; [done|]. split; [done|].
    cbn. destruct (cancel s); [by apply list_elem_of_singleton|done].
  - rewrite Hca. assert (forallb (λ w, bool_decide (w ∈ [c])) (waiters s) = true) as ->.
    { destruct Hw as [-> | ->]; [|done]. cbn. by rewrite bool_decide_eq_true_2 by (by apply list_elem_of_singleton). }
    eexists. split; [done|]. destruct b as [a l]. cbn in Hn. subst l. rewrite Hl. cbn [addr]. rewrite boot_stop_own, Hc.
    split; [done|]. split; [done|]. by apply list_elem_of_singleton.
Qed.


End Server.
End ServerPkgFacts.

Module ServerPkgProperties.
Import ServerPkgFacts.

Section Server.
Context `{Storage.Engine, Signatures}.
Import ServerPkg.


(** A stop that overtakes a start crashes the program: on any new server, if [Stop] runs between the
    unlock inside [Start] and the rest of it, the rest dereferences the detached bootstrap
    server and panics; so does any [Start] after a [Stop]. *)
Theorem stop_during_start (m1 m2 m3 : string) (now : Z) (g1 g2 : option Crypto.KeyPair) (opts : list Option_)
    (s : Server) (listen : string → bool) (Hnew : New m1 m2 m3 now g1 g2 opts = Ret s) :
  (start_rest listen (Stop (start_locked s).1).1).2 = Panic ∧ (Start listen (Stop s).1).2 = Panic.
Proof.
  apply New_live in Hnew as [Hl Hs].
  assert (∀ s, stopped s → (start_rest listen s).2 = Panic) as Hp.
  { intros s0 (_ & Hb & _). unfold start_rest, start_serve, start_boot. cbn [bootSrv start_cancel]. by rewrite Hb. }
  split.
  - apply Hp. unfold start_locked. rewrite Hs. cbn [fst].
    assert (live (mkServer (cfg s) true (cancel s) (store s) (bootSrv s) (certAuth s) (contexts s) (cancelled s) (waiters s) (listening s) (closes s))) as Hl'.
    { destruct Hl as (? & ? & ? & b & ? & Hw). split_and!; try done. exists b. split; [done|].
      destruct Hw as [?|(? & _)]; [by left|congruence]. }
    by apply Stop_live in Hl' as (s' & -> & ? & _).
  - apply Stop_live in Hl as (s' & -> & Hs' & Hst & _). cbn [fst]. unfold Start, start_locked. rewrite Hst.
    apply Hp. destruct Hs' as (? & ? & ? & ? & ?). by split_and!.
Qed.

(** A [Start] that cannot bind its address leaves the server marked as started: it cannot be
    started again. *)
Lemma failed_start_sticks m1 m2 m3 now g1 g2 opts s listen listen' :
  New m1 m2 m3 now g1 g2 opts = Ret s → (∀ a, listen a = false) →
  is_ret (Start listen s).2 = false ∧ (Start listen' (Start listen s).1).2 = Fail ErrAlreadyStarted.
Proof.
  intros [(_ & _ & _ & b & Hb & _) Hs]%New_live Hl. unfold Start at 1 3, start_locked. rewrite Hs.
  unfold start_rest, start_serve, start_boot. cbn [bootSrv start_cancel]. rewrite Hb, Hl. cbn. split; [done|]. done.
Qed.

(** MongoDB passes validation, is listed as supported, and never gives a server. *)
Lemma mongodb_never_starts m1 m2 m3 now g1 g2 dsn :
  New m1 m2 m3 now g1 g2 [WithDatabase "mongodb" dsn] = Fail (ErrStore Storage.ErrMongo).
Proof. done. Qed.
End Server.

#[local] Instance sample_signatures : Signatures := CryptoProperties.toy_sig.
#[local] Instance sample_database : Storage.Engine := StorageProperties.engine_on Storage.empty_tables.

Definition new_sample : outcome ServerPkg.server_error ServerPkg.Server :=
  ServerPkg.New "init" "" "" 1000 (Some (CryptoProperties.toy_pair x01)) (Some (CryptoProperties.toy_pair x02))
    [ServerPkg.WithPort 4000].


Lemma stop_during_start_witness :
  ∃ s, new_sample = Ret s ∧ (ServerPkg.Start (λ _, true) (ServerPkg.Stop s).1).2 = Panic.
Proof.
  destruct new_sample as [s| |] eqn:E; [|exfalso; vm_compute in E; discriminate E..].
  exists s. split; [reflexivity|]. apply (stop_during_start _ _ _ _ _ _ _ s (λ _, true) E).
Defined.
End ServerPkgProperties.
