(* ===== verification/ClientPkg.v ===== *)
(** * The client package ([pkg/client]: client.go, options.go)

    Options, validation and the life cycle of a client. *)

From S2P Require Import Prelude GoLib.

Open Scope Z_scope.

Module ClientPkg.

Record Config := mkConfig {
  Bootstrap : list string;
  ListenPort : Z;
  RoomID : string;
  RoomKey : string;
  StunServers : list string;
  HolepunchWindow : Z;
  HolepunchParallel : Z;
  TurnEnabled : bool;
  TurnAddr : string;
  TunnelMTU : Z;
  KCPWindow : Z;
  AllowUnreliableFallback : bool;
  NetworkCIDR : string;
  PortControlPolicy : string;
  PortControlDB : string;
  LogLevel : string;
  LogFile : string;
}.

Definition DefaultConfig : Config := {|
  Bootstrap := [];
  ListenPort := 0;
  RoomID := "";
  RoomKey := "";
  StunServers := ["stun.l.google.com:19302"; "stun1.l.google.com:19302"; "stun.cloudflare.com:3478"];
  HolepunchWindow := 64;
  HolepunchParallel := 256;
  TurnEnabled := false;
  TurnAddr := "";
  TunnelMTU := 1280;
  KCPWindow := 256;
  AllowUnreliableFallback := false;
  NetworkCIDR := "fd00:9bd8::/64";
  PortControlPolicy := "deny";
  PortControlDB := "portcontrol.db";
  LogLevel := "info";
  LogFile := "";
|}.

Inductive Option_ :=
| WithBootstrap (addrs : list string)
| WithListenPort (port : Z)
| WithRoom (roomID key : string)
| WithSTUNServers (servers : list string)
| WithHolepunchParams (window parallel : Z)
| WithTurn (addr : string)
| WithTunnelMTU (mtu : Z)
| WithAllowUnreliableFallback (allow : bool)
| WithPortControlPolicy (policy : string)
| WithLogLevel (level : string)
| WithLogFile (path : string).

Definition apply_option (c : Config) (o : Option_) : Config :=
  let '(mkConfig bs lp ri rk ss hw hp te ta mtu kcp uf cidr pol db ll lf) := c in
  match o with
  | WithBootstrap bs => mkConfig bs lp ri rk ss hw hp te ta mtu kcp uf cidr pol db ll lf
  | WithListenPort lp => mkConfig bs lp ri rk ss hw hp te ta mtu kcp uf cidr pol db ll lf
  | WithRoom ri rk => mkConfig bs lp ri rk ss hw hp te ta mtu kcp uf cidr pol db ll lf
  | WithSTUNServers ss => mkConfig bs lp ri rk ss hw hp te ta mtu kcp uf cidr pol db ll lf
  | WithHolepunchParams hw hp => mkConfig bs lp ri rk ss hw hp te ta mtu kcp uf cidr pol db ll lf
  | WithTurn ta => mkConfig bs lp ri rk ss hw hp (negb (bool_decide (ta = ""))) ta mtu kcp uf cidr pol db ll lf
  | WithTunnelMTU mtu => mkConfig bs lp ri rk ss hw hp te ta mtu kcp uf cidr pol db ll lf
  | WithAllowUnreliableFallback uf => mkConfig bs lp ri rk ss hw hp te ta mtu kcp uf cidr pol db ll lf
  | WithPortControlPolicy pol => mkConfig bs lp ri rk ss hw hp te ta mtu kcp uf cidr pol db ll lf
  | WithLogLevel ll => mkConfig bs lp ri rk ss hw hp te ta mtu kcp uf cidr pol db ll lf
  | WithLogFile lf => mkConfig bs lp ri rk ss hw hp te ta mtu kcp uf cidr pol db ll lf
  end.

Inductive client_error :=
| ErrNoBootstrap
| ErrMTU (n : Z)
| ErrPolicy (s : string)
| ErrAlreadyStarted.

Definition Validate (c : Config) : outcome client_error () :=
  if (length (Bootstrap c) =? 0)%nat then Fail ErrNoBootstrap
  else if TunnelMTU c <? 576 then Fail (ErrMTU (TunnelMTU c))
  else if negb (bool_decide (PortControlPolicy c ∈ ["deny"; "allow"])) then Fail (ErrPolicy (PortControlPolicy c))
  else Ret ().

(** As for the server, with contexts numbered. *)
Record Client := mkClient {
  cfg : Config;
  started : bool;
  cancel : option nat;
  contexts : nat;
  cancelled : list nat;
  waiters : list nat;
}.

Definition New (opts : list Option_) : outcome client_error Client :=
  let cfg := foldl apply_option DefaultConfig opts in
  match Validate cfg with
  | Ret _ => Ret (mkClient cfg false None 0 [] [])
  | Fail e => Fail e
  | Panic => Panic
  end.

(** [Start]: the part under the lock, then, without it, the context and the counted goroutine. *)
Definition start_locked (c : Client) : Client * outcome client_error () :=
  if started c then (c, Fail ErrAlreadyStarted)
  else (mkClient (cfg c) true (cancel c) (contexts c) (cancelled c) (waiters c), Ret ()).

Definition start_cancel (c : Client) : Client * nat :=
  (mkClient (cfg c) (started c) (Some (contexts c)) (S (contexts c)) (cancelled c) (waiters c), contexts c).

Definition start_tail (ctx : nat) (c : Client) : Client :=
  mkClient (cfg c) (started c) (cancel c) (contexts c) (cancelled c) (ctx :: waiters c).

Definition Start (c : Client) : Client * outcome client_error () :=
  match start_locked c with
  | (c, Ret _) => let '(c, ctx) := start_cancel c in (start_tail ctx c, Ret ())
  | r => r
  end.

(** The boolean says whether [wg.Wait] returns. *)
Definition Stop (c : Client) : Client * bool :=
  if negb (started c) then (c, true)
  else
    let cancelled' := match cancel c with Some x => x :: cancelled c | None => cancelled c end in
    if forallb (λ w, bool_decide (w ∈ cancelled')) (waiters c)
    then (mkClient (cfg c) false (cancel c) (contexts c) cancelled' [], true)
    else (mkClient (cfg c) false (cancel c) (contexts c) cancelled' (waiters c), false).
End ClientPkg.

Module ClientPkgFacts.

(** ** The life cycle of a client *)

Definition client_coherent (c : ClientPkg.Client) : Prop :=
  (ClientPkg.started c = false → ClientPkg.waiters c = []) ∧
  (ClientPkg.started c = true → ∃ x, ClientPkg.cancel c = Some x ∧ ClientPkg.waiters c = [x]).

Lemma run_client calls c :
  client_coherent c →
  client_coherent (foldl (λ c (start : bool), if start then (ClientPkg.Start c).1 else (ClientPkg.Stop c).1) c calls).
Proof.
  revert c. induction calls as [|b calls IH]; intros c Hc; [done|]. cbn. apply IH. destruct Hc as [Hf Ht].
  destruct b.
  - unfold ClientPkg.Start, ClientPkg.start_locked. destruct (ClientPkg.started c) eqn:E; [split; cbn [fst]; rewrite E; done || (intros _; by apply Ht)|].
    split; [done|]. intros _. eexists. split; [done|]. cbn. by rewrite Hf.
  - unfold ClientPkg.Stop. destruct (ClientPkg.started c) eqn:E; cbn [negb]; [|split; cbn [fst]; rewrite E; done || (intros _; by apply Hf)].
    destruct (Ht eq_refl) as (x & -> & ->). cbn [forallb]. rewrite bool_decide_eq_true_2 by (by apply elem_of_cons; left).
    by split.
Qed.
End ClientPkgFacts.

Module ClientPkgProperties.
Import ClientPkgFacts.

(** A client can be stopped and started again at will: after any calls one after the other, [Stop]
    returns, leaves no goroutine behind, and the next [Start] succeeds. *)
Theorem client_restartable (opts : list ClientPkg.Option_) (c : ClientPkg.Client) (calls : list bool)
    (Hnew : ClientPkg.New opts = Ret c) :
  let c' := foldl (λ c (start : bool), if start then (ClientPkg.Start c).1 else (ClientPkg.Stop c).1) c calls in
  ∃ c'', ClientPkg.Stop c' = (c'', true) ∧ ClientPkg.waiters c'' = [] ∧ ClientPkg.started c'' = false ∧
    (ClientPkg.Start c'').2 = Ret ().
Proof.
  intros c'. assert (client_coherent c') as (Hf & Ht).
  { apply run_client. revert Hnew. unfold ClientPkg.New. destruct (ClientPkg.Validate _); [|done..]. by intros [= <-]. }
  unfold ClientPkg.Stop. destruct (ClientPkg.started c') eqn:E; cbn [negb].
  - destruct (Ht eq_refl) as (x & -> & ->). cbn [forallb]. rewrite bool_decide_eq_true_2 by (by apply elem_of_cons; left).
    cbn. eexists. split_and!; try done.
  - exists c'. split_and!; [done|by apply Hf|done|]. unfold ClientPkg.Start, ClientPkg.start_locked. by rewrite E.
Qed.

(** A [Stop] that overtakes a [Start] between its unlock and its context finds nothing to cancel; the goroutine
    that [Start] then leaves is never cancelled, and the [Stop] after the next [Start] waits for ever. *)
Lemma stop_overtakes_start opts c :
  ClientPkg.New opts = Ret c →
  let c1 := (ClientPkg.Stop (ClientPkg.start_locked c).1).1 in
  let c2 := ClientPkg.start_tail (ClientPkg.start_cancel c1).2 (ClientPkg.start_cancel c1).1 in
  ClientPkg.started c2 = false ∧ ClientPkg.waiters c2 = [0%nat] ∧ ClientPkg.cancelled c2 = [] ∧
  (ClientPkg.Stop (ClientPkg.Start c2).1).2 = false.
Proof. unfold ClientPkg.New. destruct (ClientPkg.Validate _); [|done..]. by intros [= <-]. Qed.

Definition sample_client : list ClientPkg.Option_ := [ClientPkg.WithBootstrap ["203.0.113.10:29683"]].

Lemma client_restartable_witness :
  ∃ c c', ClientPkg.New sample_client = Ret c ∧ ClientPkg.Stop (ClientPkg.Start c).1 = (c', true).
Proof.
  assert (ClientPkg.New sample_client = Ret (ClientPkg.mkClient (foldl ClientPkg.apply_option ClientPkg.DefaultConfig sample_client) false None 0 [] [])) as E
    by reflexivity.
  eexists _. destruct (client_restartable sample_client _ [true] E) as (c' & Hc & _). exists c'. split; [exact E|exact Hc].
Defined.
End ClientPkgProperties.
