(* ===== verification/Commands.v ===== *)
(** * The programs ([cmd/server/main.go], [cmd/client/main.go])

    How the two programs build the options of their package from a configuration file and the
    flags, and the client's own string functions. *)

From S2P Require Import Prelude GoLib NetParse GoStrings Storage Crypto Config ServerPkg ClientPkg.

Open Scope Z_scope.

Module Commands.

(** The flags that reach the configuration. *)
Record ServerFlags := mkServerFlags {
  f_host : string;
  f_port : Z;
  f_dbType : string;
  f_dbDSN : string;
  f_logLevel : string;
}.

Record ClientFlags := mkClientFlags {
  f_bootstrap : string;
  f_listen : Z;
  f_room : string;
  f_roomKey : string;
  f_clientLog : string;
}.

(** [if s != "" then s else old]. *)
Definition or_str (s old : string) : string := if bool_decide (s = "") then old else s.

(** *** The client's own string functions, on bytes *)

(** The loop of [indexOf] from position [i], with [n] positions left. *)
Fixpoint index_loop (n i : nat) (s sub : list byte) : option nat :=
  match n with
  | O => None
  | S n => if bool_decide (take (length sub) (drop i s) = sub) then Some i else index_loop n (S i) s sub
  end.

Definition indexOf (s sub : list byte) : option nat :=
  if (length sub <=? length s)%nat then index_loop (S (length s - length sub)) 0 s sub else None.

(** The loop of [split]; [None] when the fuel runs out. *)
Fixpoint split_loop (fuel : nat) (s sep : list byte) : option (list (list byte)) :=
  match fuel with
  | O => None
  | S fuel =>
      match indexOf s sep with
      | None => Some [s]
      | Some i => cons (take i s) <$> split_loop fuel (drop (i + length sep) s) sep
      end
  end.

Definition split (s sep : list byte) : option (list (list byte)) := split_loop (S (length s)) s sep.

Definition is_blank (c : byte) : bool := bool_decide (c = x20) || bool_decide (c = x09).

(** The two loops of [trim]. *)
Definition trim (s : list byte) : list byte := trim_by is_blank s.

Definition splitComma (s : string) : option (list string) :=
  match split (bytes_of s) [Config.comma] with
  | None => None
  | Some parts => Some (string_of <$> filter (λ p, p ≠ []) (trim <$> parts))
  end.

Section Main.
Context `{GoUnicode, GoSpace}.

(** [f] is [None] if the configuration file does not exist; otherwise what opening it
    delivers.  A file that cannot be loaded leaves the configuration nil. *)
Definition server_config (f : option (option Config.File)) (fl : ServerFlags) :
    outcome Config.config_error Config.ServerConfig :=
  let cfg := match f with
             | None => Some Config.DefaultServerConfig
             | Some f => match Config.LoadServerConfig f with Ret c => Some c | _ => None end
             end in
  match cfg with
  | None => Panic
  | Some (Config.mkServer h p mp ae ah ap cf kf ca jwt ttl u pw dt dsn mo mi cidr rk tofu nt ll lf) =>
      let '(h, p) := if bool_decide (f_host fl = "") then (h, p)
                     else match Config.ParseHostPort (f_host fl) with Ret (h', p') => (h', p') | _ => (h, p) end in
      let p := if f_port fl =? 0 then p else f_port fl in
      let dt := or_str (f_dbType fl) dt in
      let dsn := or_str (f_dbDSN fl) dsn in
      let ll := or_str (f_logLevel fl) ll in
      let cfg := Config.mkServer h p mp ae ah ap cf kf ca jwt ttl u pw dt dsn mo mi cidr rk tofu nt ll lf in
      match Config.ServerConfig_Validate cfg with
      | Ret _ => Ret cfg
      | Fail e => Fail e
      | Panic => Panic
      end
  end.

Definition server_options (c : Config.ServerConfig) : list ServerPkg.Option_ :=
  [ServerPkg.WithHost (Config.Host c); ServerPkg.WithPort (Config.Port c);
   ServerPkg.WithAPIHost (Config.APIHost c); ServerPkg.WithAPIPort (Config.APIPort c);
   ServerPkg.WithDatabase (Config.DatabaseType c) (Config.DatabaseDSN c);
   ServerPkg.WithAdminCredentials (Config.AdminUser c) (Config.AdminPassword c);
   ServerPkg.WithLogLevel (Config.LogLevel c)]
  ++ (if bool_decide (Config.APICertFile c = "") then [] else [ServerPkg.WithAPICertFile (Config.APICertFile c)])
  ++ (if bool_decide (Config.APIKeyFile c = "") then [] else [ServerPkg.WithAPIKeyFile (Config.APIKeyFile c)])
  ++ (if bool_decide (Config.LogFile c = "") then [] else [ServerPkg.WithLogFile (Config.LogFile c)]).

Definition client_config (f : option (option Config.File)) (fl : ClientFlags) :
    outcome Config.config_error Config.ClientConfig :=
  let cfg := match f with
             | None => Some Config.DefaultClientConfig
             | Some f => match Config.LoadClientConfig f with Ret c => Some c | _ => None end
             end in
  match cfg with
  | None => Panic
  | Some (Config.mkClient bs lp nid aj rk ss st ps s6 pw pp te ta mtu kcp uf cidr pol db kf ll lf) =>
      let bs := if bool_decide (f_bootstrap fl = "") then bs else default [] (splitComma (f_bootstrap fl)) in
      let lp := if 0 <=? f_listen fl then f_listen fl else lp in
      let aj := or_str (f_room fl) aj in
      let rk := or_str (f_roomKey fl) rk in
      let ll := or_str (f_clientLog fl) ll in
      let cfg := Config.mkClient bs lp nid aj rk ss st ps s6 pw pp te ta mtu kcp uf cidr pol db kf ll lf in
      match Config.ClientConfig_Validate cfg with
      | Ret _ => Ret cfg
      | Fail e => Fail e
      | Panic => Panic
      end
  end.

Definition client_options (c : Config.ClientConfig) : list ClientPkg.Option_ :=
  [ClientPkg.WithBootstrap (Config.Bootstrap c); ClientPkg.WithListenPort (Config.ListenPort c);
   ClientPkg.WithSTUNServers (Config.StunServers c);
   ClientPkg.WithHolepunchParams (Config.PredictWindow c) (Config.PredictParallel c);
   ClientPkg.WithTunnelMTU (Config.TunnelMTU c);
   ClientPkg.WithAllowUnreliableFallback (Config.AllowUnreliableFallback c);
   ClientPkg.WithPortControlPolicy (Config.PortControlPolicy c); ClientPkg.WithLogLevel (Config.cLogLevel c)]
  ++ (if bool_decide (Config.AutoJoin c = "") then [] else [ClientPkg.WithRoom (Config.AutoJoin c) (Config.RoomKey c)])
  ++ (if Config.TurnEnabled c then [ClientPkg.WithTurn (Config.TurnAddr c)] else [])
  ++ (if bool_decide (Config.cLogFile c = "") then [] else [ClientPkg.WithLogFile (Config.cLogFile c)]).
End Main.
End Commands.

Module CommandsFacts.

(** ** Options *)

Lemma server_options_apply c :
  foldl ServerPkg.apply_option ServerPkg.DefaultConfig (Commands.server_options c) =
  ServerPkg.mkConfig (Config.Host c) (Config.Port c) (Config.APIHost c) (Config.APIPort c) (Config.APICertFile c)
    (Config.APIKeyFile c) "" (Config.AdminUser c) (Config.AdminPassword c) (Config.DatabaseType c) (Config.DatabaseDSN c)
    (Config.LogLevel c) (Config.LogFile c).
Proof.
  unfold Commands.server_options. rewrite !foldl_app.
  destruct (bool_decide (Config.APICertFile c = "")) eqn:E1, (bool_decide (Config.APIKeyFile c = "")) eqn:E2,
    (bool_decide (Config.LogFile c = "")) eqn:E3; reflect_tests; cbn; congruence.
Qed.

Lemma server_validate_twice c :
  Config.ServerConfig_Validate c = Ret () →
  ServerPkg.Validate (foldl ServerPkg.apply_option ServerPkg.DefaultConfig (Commands.server_options c)) = Ret ().
Proof.
  rewrite server_options_apply. unfold Config.ServerConfig_Validate, ServerPkg.Validate. cbn.
  destruct (negb (Config.port_ok (Config.Port c))); [done|]. destruct (negb (Config.port_ok (Config.APIPort c))); [done|].
  by destruct (negb (bool_decide (Config.DatabaseType c ∈ _))).
Qed.

Lemma client_options_apply c :
  let p := foldl ClientPkg.apply_option ClientPkg.DefaultConfig (Commands.client_options c) in
  ClientPkg.Bootstrap p = Config.Bootstrap c ∧ ClientPkg.ListenPort p = Config.ListenPort c ∧
  ClientPkg.StunServers p = Config.StunServers c ∧
  (ClientPkg.HolepunchWindow p, ClientPkg.HolepunchParallel p) = (Config.PredictWindow c, Config.PredictParallel c) ∧
  (ClientPkg.RoomID p, ClientPkg.RoomKey p) =
    (Config.AutoJoin c, if bool_decide (Config.AutoJoin c = "") then "" else Config.RoomKey c) ∧
  (ClientPkg.TurnEnabled p, ClientPkg.TurnAddr p) =
    (if Config.TurnEnabled c then (negb (bool_decide (Config.TurnAddr c = "")), Config.TurnAddr c) else (false, "")) ∧
  ClientPkg.TunnelMTU p = Config.TunnelMTU c ∧ ClientPkg.AllowUnreliableFallback p = Config.AllowUnreliableFallback c ∧
  ClientPkg.PortControlPolicy p = Config.PortControlPolicy c ∧ ClientPkg.LogLevel p = Config.cLogLevel c ∧
  ClientPkg.LogFile p = Config.cLogFile c ∧
  (ClientPkg.KCPWindow p, ClientPkg.NetworkCIDR p, ClientPkg.PortControlDB p) = (256, "fd00:9bd8::/64", "portcontrol.db").
Proof.
  unfold Commands.client_options. rewrite !foldl_app.
  destruct (bool_decide (Config.AutoJoin c = "")) eqn:E1, (Config.TurnEnabled c) eqn:E2,
    (bool_decide (Config.cLogFile c = "")) eqn:E3; reflect_tests; cbn; split_and!; congruence.
Qed.

(** ** The client's string functions *)

Import Commands.

Lemma index_loop_shift n i s sub c :
  index_loop n (S i) (c :: s) sub = S <$> index_loop n i s sub.
Proof. revert i. induction n as [|n IH]; intros i; cbn; [done|]. case_bool_decide; [done|]. apply IH. Qed.

Lemma indexOf_single s c : indexOf s [c] = index_byte c s.
Proof.
  unfold index_byte. induction s as [|d s IH]; [done|].
  unfold indexOf in *. cbn [length]. rewrite (proj2 (Nat.leb_le _ _)) by lia.
  replace (S (length s) - 1)%nat with (length s) by lia. cbn [index_loop find_index length drop take].
  rewrite take_0. case_bool_decide as E; case_bool_decide as E'; try congruence; try done.
  destruct s as [|e s]; [done|]. cbn [length] in *. rewrite (proj2 (Nat.leb_le _ _)) in IH by lia.
  replace (S (length s) - 1)%nat with (length s) in IH by lia.
  rewrite index_loop_shift. by rewrite IH.
Qed.

Lemma index_byte_Some c l i :
  index_byte c l = Some i → l = take i l ++ c :: drop (S i) l ∧ (c ∉ take i l) ∧ (i < length l)%nat.
Proof.
  revert i. induction l as [|d l IH]; intros i; [done|]. unfold index_byte. cbn.
  case_bool_decide as E.
  - intros [= <-]. subst. cbn. rewrite drop_0. split_and!; [done|apply not_elem_of_nil|lia].
  - fold (index_byte c l). destruct (index_byte c l) as [j|]; cbn; [|done]. intros [= <-].
    destruct (IH j eq_refl) as (E1 & E2 & E3). cbn. split_and!; [by f_equal|by apply not_elem_of_cons|lia].
Qed.

Lemma index_byte_None c l : index_byte c l = None → c ∉ l.
Proof.
  induction l as [|d l IH]; [intros _; apply not_elem_of_nil|]. unfold index_byte. cbn. case_bool_decide; [done|].
  fold (index_byte c l). destruct (index_byte c l); [done|]. intros _. apply not_elem_of_cons. split; [congruence|by apply IH].
Qed.

(** The loop terminates on every string and is [strings.Split]. *)
Lemma split_is_Split s c : split s [c] = Some (split_byte c s).
Proof.
  unfold split. remember (S (length s)) as fuel eqn:Hf. assert (length s < fuel)%nat as Hl by lia. clear Hf.
  revert s Hl. induction fuel as [|fuel IH]; intros s Hl; [lia|]. cbn [split_loop]. rewrite indexOf_single.
  destruct (index_byte c s) as [i|] eqn:E.
  - apply index_byte_Some in E as (E1 & E2 & E3). rewrite IH by (rewrite length_drop; cbn; lia).
    cbn [length]. rewrite Nat.add_1_r. rewrite E1 at 3. rewrite split_byte_app by done. done.
  - apply index_byte_None in E. by rewrite split_byte_single.
Qed.
End CommandsFacts.

Module CommandsProperties.
Import CommandsFacts.

(** The configuration a program starts from: the defaults, or the file's. *)
Definition server_base `{GoUnicode, GoSpace} (f : option (option Config.File)) (base : Config.ServerConfig) : Prop :=
  match f with
  | None => base = Config.DefaultServerConfig
  | Some f => Config.LoadServerConfig f = Ret base
  end.

(** What the server runs with: if the program gets through its configuration then, with [base]
    the defaults or the loaded file, the options it passes produce a package configuration
    that passes validation again, in which the port flag wins over the host flag, that over
    [base]; the database and log flags win over [base]; everything else is from [base], except the
    signing secret of the API, which stays empty whatever the file says. *)
Theorem effective_server_config `{GoUnicode, GoSpace} (f : option (option Config.File)) (fl : Commands.ServerFlags)
    (c : Config.ServerConfig) (Hc : Commands.server_config f fl = Ret c) :
  ∃ base, server_base f base ∧
    let p := foldl ServerPkg.apply_option ServerPkg.DefaultConfig (Commands.server_options c) in
    let '(h, port) := match Config.ParseHostPort (Commands.f_host fl) with
                      | Ret hp => hp
                      | _ => (Config.Host base, Config.Port base)
                      end in
    ServerPkg.Validate p = Ret () ∧
    ServerPkg.Host p = h ∧ ServerPkg.Port p = (if Commands.f_port fl =? 0 then port else Commands.f_port fl) ∧
    ServerPkg.DatabaseType p = Commands.or_str (Commands.f_dbType fl) (Config.DatabaseType base) ∧
    ServerPkg.DatabaseDSN p = Commands.or_str (Commands.f_dbDSN fl) (Config.DatabaseDSN base) ∧
    ServerPkg.LogLevel p = Commands.or_str (Commands.f_logLevel fl) (Config.LogLevel base) ∧
    (ServerPkg.APIHost p, ServerPkg.APIPort p, ServerPkg.APICertFile p, ServerPkg.APIKeyFile p) =
      (Config.APIHost base, Config.APIPort base, Config.APICertFile base, Config.APIKeyFile base) ∧
    (ServerPkg.AdminUser p, ServerPkg.AdminPass p, ServerPkg.LogFile p) =
      (Config.AdminUser base, Config.AdminPassword base, Config.LogFile base) ∧
    ServerPkg.JWTSecret p = "".
Proof.
  revert Hc. unfold Commands.server_config.
  match goal with |- context [match ?m with Some _ => _ | None => Panic end] => destruct m as [base|] eqn:Eb end; [|done].
  assert (server_base f base) as Hbase.
  { unfold server_base. destruct f as [f|]; [|by injection Eb]. destruct (Config.LoadServerConfig f); by simplify_eq. }
  clear Eb. intros Hc. exists base. split; [done|]. cbv zeta.
  assert (Config.ServerConfig_Validate c = Ret ()) as Hv.
  { revert Hc. destruct base, (bool_decide (Commands.f_host fl = "")), (Config.ParseHostPort (Commands.f_host fl)) as [[??]| |];
      cbv zeta; (destruct (Config.ServerConfig_Validate _) as [[]| |] eqn:Ev; [|done..]); by intros [= <-]. }
  pose proof (server_validate_twice c Hv) as Hv2. rewrite server_options_apply in *. clear Hv. revert Hc.
  destruct base. cbn [Config.Host Config.Port].
  destruct (bool_decide (Commands.f_host fl = "")) eqn:Eh.
  - reflect_tests. rewrite Eh. change (Config.ParseHostPort "") with (@Fail Config.config_error (string * Z) (Config.ErrMissingPort "")).
    cbv zeta iota. destruct (Config.ServerConfig_Validate _); [|done..]. by intros <-%Ret_inj.
  - destruct (Config.ParseHostPort (Commands.f_host fl)) as [[??]| |]; cbv zeta iota;
      (destruct (Config.ServerConfig_Validate _); [|done..]); by intros <-%Ret_inj.
Qed.

Definition sample_flags : Commands.ServerFlags := Commands.mkServerFlags "10.0.0.1:4000" 0 "" "" "debug".

Definition sample_server_config : Config.ServerConfig :=
  match Commands.server_config (H := ascii_only) (H0 := ascii_space) None sample_flags with
  | Ret c => c
  | _ => Config.DefaultServerConfig
  end.

Lemma effective_server_config_witness :
  Commands.server_config (H := ascii_only) (H0 := ascii_space) None sample_flags = Ret sample_server_config ∧
  ∃ base, server_base (H := ascii_only) (H0 := ascii_space) None base.
Proof.
  assert (Commands.server_config (H := ascii_only) (H0 := ascii_space) None sample_flags = Ret sample_server_config) as E
    by (vm_compute; reflexivity).
  split; [exact E|].
  destruct (effective_server_config (H := ascii_only) (H0 := ascii_space) None sample_flags sample_server_config E) as (b & Hb & _).
  exists b. exact Hb.
Defined.

(** A configuration file that exists but cannot be loaded crashes the program. *)
Lemma unreadable_config_panics `{GoUnicode, GoSpace} f fl e :
  Config.LoadServerConfig f = Fail e → Commands.server_config (Some f) fl = Panic.
Proof. intros E. unfold Commands.server_config. by rewrite E. Qed.

(** The client program splits its list of servers as the library would: its own search, split
    and trim loops terminate on every string and give the comma-separated fields, blanks
    trimmed and empty fields left out. *)
Theorem splitComma_spec (s : string) :
  Commands.splitComma s =
  Some (string_of <$> filter (λ p, p ≠ []) (trim_by Commands.is_blank <$> split_byte Config.comma (bytes_of s))).
Proof. unfold Commands.splitComma. by rewrite split_is_Split. Qed.
End CommandsProperties.
