(* ===== verification/SqlScan.v ===== *)
(** * The SQL scanner ([scripts/sqlscan/main.go])

    The checker that looks for SQL built by formatting or concatenation: its two rules on a
    syntax tree, the walk over a directory, the sorted report and the exit status.  The trees
    are what [go/parser] delivers ([None] if a file does not parse); of its node types those the
    checker inspects are kept, the others only as their children. *)

From S2P Require Import Prelude GoLib GoStrings.

Open Scope Z_scope.

Module SqlScan.

Inductive LitKind := STRING | OtherLit.
Inductive Op := ADD | OtherOp.

(** The line is that of the node's position. *)
Inductive Node :=
| CallExpr (line : Z) (fn : Node) (args : list Node)
| BinaryExpr (line : Z) (op : Op) (x y : Node)
| BasicLit (kind : LitKind) (value : list byte)
| SelectorExpr (x : Node) (sel : string)
| Ident (name : string)
| OtherNode (children : list Node).

Inductive Rule := SQL_CONCAT | SQL_INTERP.

Record finding := mkFinding {
  rule : Rule;
  file : string;
  line : Z;
  what : string;
}.

Definition finding_String (f : finding) : string :=
  file f +:+ ":" +:+ pretty (line f) +:+ ": " +:+ match rule f with SQL_CONCAT => "SQL_CONCAT" | SQL_INTERP => "SQL_INTERP" end
    +:+ ": " +:+ what f.

Definition isFmtSprintf (fn : Node) : bool :=
  match fn with
  | SelectorExpr (Ident pkg) sel => bool_decide (pkg = "fmt") && bool_decide (sel = "Sprintf")
  | _ => false
  end.

Definition dquote : byte := x22.
Definition squote : byte := x27.

Definition unquote (s : list byte) : list byte :=
  match s, last s with
  | c :: _, Some d =>
      if (2 <=? length s)%nat && ((bool_decide (c = dquote) && bool_decide (d = dquote)) || (bool_decide (c = squote) && bool_decide (d = squote)))
      then take (length s - 2) (drop 1 s)
      else s
  | _, _ => s
  end.

Definition sql_keywords : list string :=
  ["SELECT "; "INSERT "; "UPDATE "; "DELETE "; "CREATE "; "DROP "; "ALTER "; "ORDER BY"; "FROM "; "WHERE "].

Definition isSQL (upper : list byte) : bool := existsb (λ kw, contains (bytes_of kw) upper) sql_keywords.

Definition verbs : list string := ["%S"; "%V"; "%Q"; "%D"; "%X"; "%T"; "%P"; "%G"; "%F"; "%C"; "%B"].

Definition hasPlaceholder (upper : list byte) : bool := existsb (λ v, contains (bytes_of v) upper) verbs.

Section Scan.
Context `{GoUnicode, SliceSort}.

Definition upper (s : list byte) : list byte := bytes_of (ToUpper (string_of (unquote s))).

Definition isSQLString (e : Node) : bool :=
  match e with
  | BasicLit STRING v => isSQL (upper v)
  | _ => false
  end.

Definition check (path : string) (n : Node) : list finding :=
  match n with
  | CallExpr l fn args =>
      if isFmtSprintf fn then
        match args with
        | BasicLit STRING v :: _ =>
            if negb (isSQL (upper v)) then []
            else if hasPlaceholder (upper v) then
              [mkFinding SQL_INTERP path l "user value interpolated into SQL text via format verb; use parameter binding so identifiers cannot leak in"]
            else [mkFinding SQL_CONCAT path l "fmt.Sprintf used to build SQL; use parameter binding instead"]
        | _ => []
        end
      else []
  | BinaryExpr l ADD x _ =>
      if isSQLString x then [mkFinding SQL_CONCAT path l "string concatenation used to build SQL; use parameter binding instead"]
      else []
  | _ => []
  end.

(** [ast.Inspect]: the node, then its children in order. *)
Fixpoint inspect (path : string) (n : Node) : list finding :=
  check path n ++
  match n with
  | CallExpr _ fn args => inspect path fn ++ (args ≫= inspect path)
  | BinaryExpr _ _ x y => inspect path x ++ inspect path y
  | SelectorExpr x _ => inspect path x
  | OtherNode children => children ≫= inspect path
  | BasicLit _ _ | Ident _ => []
  end.

Definition scanFile (path : string) (tree : option Node) : list finding :=
  match tree with
  | None => []
  | Some n => inspect path n
  end.

(** What the walk meets at a path. *)
Inductive Entry :=
| WalkError
| Directory
| Source (tree : option Node).

Definition selected (path : string) : bool :=
  has_suffix (bytes_of ".go") (bytes_of path) && negb (contains (bytes_of "sqlscan") (bytes_of path)).

(** The walk; [None] is the error of an entry that could not be visited. *)
Fixpoint walk (entries : list (string * Entry)) (out : list finding) : option (list finding) :=
  match entries with
  | [] => Some out
  | (_, WalkError) :: _ => None
  | (_, Directory) :: rest => walk rest out
  | (path, Source tree) :: rest =>
      if selected path then walk rest (out ++ scanFile path tree) else walk rest out
  end.

Definition finding_less (a b : finding) : bool :=
  if bool_decide (file a = file b) then line a <? line b else str_less (file a) (file b).

Definition scan (entries : list (string * Entry)) : option (list finding) :=
  sort_slice finding_less <$> walk entries [].

(** The roots named on the command line, each with what the walk meets. *)
Fixpoint scan_roots (roots : list (list (string * Entry))) (all : list finding) : option (list finding) :=
  match roots with
  | [] => Some all
  | r :: rest => match scan r with None => None | Some f => scan_roots rest (all ++ f) end
  end.

(** The report and the exit status of [scan] with its roots. *)
Definition main_scan (roots : list (list (string * Entry))) : list finding * Z :=
  match scan_roots roots [] with
  | None => ([], 1)
  | Some all => (all, if (0 <? length all)%nat then 1 else 0)
  end.
End Scan.
End SqlScan.

Module SqlScanFacts.
Import SqlScan.

Definition children (n : Node) : list Node :=
  match n with
  | CallExpr _ fn args => fn :: args
  | BinaryExpr _ _ x y => [x; y]
  | SelectorExpr x _ => [x]
  | OtherNode cs => cs
  | BasicLit _ _ | Ident _ => []
  end.

(** [n] occurs in the tree. *)
Inductive subnode (n : Node) : Node → Prop :=
| subnode_here : subnode n n
| subnode_below t c : c ∈ children t → subnode n c → subnode n t.

Lemma Node_children_ind (P : Node → Prop) : (∀ n, Forall P (children n) → P n) → ∀ n, P n.
Proof.
  intros Hs. fix IH 1. intros n. apply Hs. destruct n as [l fn args|l op x y|k v|x sel|name|cs]; cbn.
  - constructor; [apply IH|]. induction args; constructor; [apply IH|done].
  - repeat constructor; apply IH.
  - constructor.
  - repeat constructor; apply IH.
  - constructor.
  - induction cs; constructor; [apply IH|done].
Qed.

Section Facts.
Context `{GoUnicode}.

Lemma inspect_eq path n : inspect path n = check path n ++ (children n ≫= inspect path).
Proof.
  destruct n as [l fn args|l op x y|k v|x sel|name|cs]; cbn [inspect children]; f_equal; try done.
  - cbn. by rewrite app_nil_r.
  - cbn. by rewrite app_nil_r.
Qed.

Lemma inspect_spec path t f : f ∈ inspect path t ↔ ∃ n, subnode n t ∧ f ∈ check path n.
Proof.
  split.
  - induction t as [t IH] using Node_children_ind. rewrite inspect_eq, elem_of_app.
    intros [Hf|Hf]; [exists t; by split; [constructor|]|].
    apply list_elem_of_bind in Hf as (c & Hf & Hc). rewrite Forall_forall in IH.
    destruct (IH c Hc Hf) as (n & Hn & Hk). exists n. split; [|done]. by eapply subnode_below.
  - intros (n & Hn & Hf). induction Hn as [|t c Hc Hn IH]; rewrite inspect_eq, elem_of_app; [by left|].
    right. apply list_elem_of_bind. eauto.
Qed.

Lemma walk_spec entries out :
  match walk entries out with
  | None => ∃ p, (p, WalkError) ∈ entries
  | Some r => (∀ p, (p, WalkError) ∉ entries) ∧
      ∀ f, f ∈ r ↔ f ∈ out ∨ ∃ path tree n, (path, Source (Some tree)) ∈ entries ∧ selected path = true ∧ subnode n tree ∧ f ∈ check path n
  end.
Proof.
  revert out. induction entries as [|[path e] entries IH]; intros out; cbn [walk].
  { split; [intros p; apply not_elem_of_nil|]. intros f. split; [by left|].
    intros [?|(? & ? & ? & []%not_elem_of_nil & _)]; done. }
  assert (∀ p e', (p, e') ∈ (path, e) :: entries ↔ (p = path ∧ e' = e) ∨ (p, e') ∈ entries) as Hin.
  { intros p e'. rewrite elem_of_cons. split; (intros [?|?]; [left; naive_solver|by right]). }
  destruct e as [| |tree].
  - exists path. by apply Hin; left.
  - specialize (IH out). destruct (walk entries out) as [r|]; [|destruct IH as [p ?]; exists p; by apply Hin; right].
    destruct IH as [Hw Hr]. split; [intros p [[_ ?]|?]%Hin; [done|by apply (Hw p)]|].
    intros f. rewrite Hr. split; intros [?|(q & tr & n & Hq & ?)]; [by left| |by left|].
    + right. exists q, tr, n. split; [by apply Hin; right|done].
    + apply Hin in Hq as [[_ ?]|Hq]; [done|]. right. by exists q, tr, n.
  - set (out' := if selected path then out ++ scanFile path tree else out).
    replace (if selected path then walk entries (out ++ scanFile path tree) else walk entries out) with (walk entries out')
      by (subst out'; by destruct (selected path)).
    specialize (IH out'). destruct (walk entries out') as [r|]; [|destruct IH as [p ?]; exists p; by apply Hin; right].
    destruct IH as [Hw Hr]. split; [intros p [[_ ?]|?]%Hin; [done|by apply (Hw p)]|].
    intros f. rewrite Hr. unfold out'. split.
    + intros [Hf|(q & tr & n & Hq & ?)]; [|right; exists q, tr, n; split; [by apply Hin; right|done]].
      destruct (selected path) eqn:Es; [|by left]. apply elem_of_app in Hf as [?|Hf]; [by left|].
      destruct tree as [t|]; [|by apply not_elem_of_nil in Hf]. apply inspect_spec in Hf as (n & ? & ?).
      right. exists path, t, n. split; [by apply Hin; left|done].
    + intros [Hf|(q & tr & n & Hq & Hs & ? & ?)]; [left; destruct (selected path); [apply elem_of_app|]; auto|].
      apply Hin in Hq as [[-> [= <-]]|Hq]; [|right; by exists q, tr, n].
      left. rewrite Hs. apply elem_of_app. right. apply inspect_spec. eauto.
Qed.

End Facts.

#[export] Instance finding_less_strict_weak : StrictWeak finding_less.
Proof.
  apply (strict_weak_ext (lex (λ a b, str_less (file a) (file b)) (λ a b, line a <? line b))).
  - intros a b. unfold finding_less, lex. case_bool_decide as E.
    + unfold str_less. by rewrite E, !sw_irrefl.
    + destruct (str_less (file a) (file b)) eqn:E1; [done|]. destruct (str_less (file b) (file a)) eqn:E2; [done|].
      destruct E. by apply str_less_total.
  - apply lex_strict_weak; [|apply rank_strict_weak]. split; intros; unfold str_less in *.
    + apply sw_irrefl.
    + by eapply sw_trans.
    + by apply sw_cotrans.
Qed.

Section Scan.
Context `{GoUnicode, SliceSort}.

Lemma scan_spec entries :
  match scan entries with
  | None => ∃ p, (p, WalkError) ∈ entries
  | Some r => (∀ p, (p, WalkError) ∉ entries) ∧ StronglySorted (not_after finding_less) r ∧
      ∀ f, f ∈ r ↔ ∃ path tree n, (path, Source (Some tree)) ∈ entries ∧ selected path = true ∧ subnode n tree ∧ f ∈ check path n
  end.
Proof.
  unfold scan. pose proof (walk_spec entries []) as Hw. destruct (walk entries []) as [r|]; cbn; [|done].
  destruct Hw as [Hn Hr]. split_and!; [done|apply sort_slice_sorted, finding_less_strict_weak|].
  intros f. rewrite sort_slice_perm, Hr. split; [|by right]. by intros [[]%not_elem_of_nil|?].
Qed.

Lemma list_nil_intro {A} (l : list A) : (∀ x, x ∉ l) → l = [].
Proof. destruct l as [|x l]; [done|]. intros Hl. destruct (Hl x). by apply elem_of_cons; left. Qed.

(** A root that can be walked and in which nothing is flagged. *)
Definition clean_root (root : list (string * Entry)) : Prop :=
  (∀ p, (p, WalkError) ∉ root) ∧
  ∀ path tree n, (path, Source (Some tree)) ∈ root → selected path = true → subnode n tree → check path n = [].

Lemma scan_clean root : scan root = Some [] ↔ clean_root root.
Proof.
  pose proof (scan_spec root) as Hs. destruct (scan root) as [r|].
  - destruct Hs as (Hn & _ & Hr). split.
    + intros [= ->]. split; [done|]. intros path tree n H1 H2 H3. apply list_nil_intro. intros f Hf.
      apply (not_elem_of_nil f), Hr. by exists path, tree, n.
    + intros [_ Hc]. f_equal. apply list_nil_intro. intros f (path & tree & n & H1 & H2 & H3 & Hf)%Hr.
      rewrite (Hc path tree n) in Hf by done. by apply not_elem_of_nil in Hf.
  - split; [done|]. destruct Hs as [p Hp]. intros [Hn _]. by destruct (Hn p).
Qed.

Lemma scan_roots_clean roots all : scan_roots roots all = Some [] ↔ all = [] ∧ Forall clean_root roots.
Proof.
  revert all. induction roots as [|r roots IH]; intros all; cbn.
  - split; [intros [= ->]; by split|by intros [-> _]].
  - rewrite Forall_cons, <- scan_clean. destruct (scan r) as [f|]; [|split; [done|by intros (_ & ? & _)]].
    rewrite IH. split.
    + intros [[-> ->]%app_eq_nil ?]. done.
    + intros (-> & [= ->] & ?). done.
Qed.
End Scan.
End SqlScanFacts.

Module SqlScanProperties.
Import SqlScan SqlScanFacts.

Section Properties.
Context `{GoUnicode, SliceSort}.

(** The scanner passes exactly the clean trees: it exits with status zero if and only if every root
    can be walked completely and no node of any parsed, selected source file under it is one
    that the rules flag (a formatting call or a concatenation whose text is SQL); otherwise it
    exits with one. *)
Theorem scanner_verdict (roots : list (list (string * Entry))) :
  (main_scan roots).2 = 0 ∧ Forall clean_root roots ∨ (main_scan roots).2 = 1 ∧ ¬ Forall clean_root roots.
Proof.
  pose proof (scan_roots_clean roots []) as Hc. unfold main_scan.
  destruct (scan_roots roots []) as [[|f all]|]; cbn.
  - left. split; [done|]. by apply Hc.
  - right. split; [done|]. intros Hf. discriminate (proj2 Hc (conj eq_refl Hf)).
  - right. split; [done|]. intros Hf. discriminate (proj2 Hc (conj eq_refl Hf)).
Qed.
End Properties.

(** The two rules, and what escapes them: a right operand, and a keyword followed by a tab. *)
Example sqlscan_rules :
  let lit s := BasicLit STRING (x22 :: bytes_of s ++ [x22]) in
  let sprintf args := CallExpr 3 (SelectorExpr (Ident "fmt") "Sprintf") args in
  let flagged n := rule <$> inspect (H := ascii_only) "a.go" n in
  (flagged (sprintf [lit "select * from %s"; Ident "t"]), flagged (OtherNode [sprintf [lit "DELETE FROM t"]]),
   flagged (BinaryExpr 4 ADD (BinaryExpr 4 ADD (lit "SELECT a FROM t WHERE id=") (Ident "id")) (lit ";")),
   flagged (BinaryExpr 5 ADD (Ident "prefix") (lit "WHERE id=")),
   flagged (BinaryExpr 6 ADD (BasicLit STRING (x60 :: bytes_of "SELECT" ++ [x09; x61; x60])) (Ident "x")),
   flagged (sprintf [lit "hello %s"]))
  = ([SQL_INTERP], [SQL_CONCAT], [SQL_CONCAT], [], [], []).
Proof. vm_compute. reflexivity. Qed.
End SqlScanProperties.
