(* ===== verification/HostSystem.v ===== *)
(** * The host system ([internal/tun]: tun_linux.go, config_linux.go; [internal/portcontrol]: firewall_linux.go)

    What the Linux build asks of the host: the request that creates a TUN device and the name it
    gets back, reading, writing and closing the device, the [ip] commands that configure it, and the [iptables] commands of the
    firewall gate.  Commands and the [ioctl] are answered by an oracle that may depend on
    everything run before; what is modelled is which commands are run, in which order, and what
    the functions make of the answers. *)

From S2P Require Import Prelude GoLib.

Open Scope Z_scope.

Module HostSystem.

Abbreviation Command := (list string).

(** Given the commands run so far and the next, whether it succeeds and what it prints. *)
Abbreviation Oracle := (list Command → Command → bool * list byte).

Inductive host_error :=
| ErrCommand (c : Command)
| ErrNotInstalled
| ErrNoPermission
| ErrOpenTun
| ErrIoctl
| ErrFileClosed
| ErrEOF
| ErrFileWrite.

(** ** The TUN device (tun_linux.go) *)

Record Config := mkConfig {
  Name : string;
  IPv6 : string;
  IPv4 : string;
  MTU : Z;
}.

(** The open files of the process, each with the packets waiting to be read from it, and the packets
    written so far with the file they were written to. *)
Record Kernel := mkKernel {
  files : gmap nat (list (list byte));
  written : list (nat * list byte);
}.

Record LinuxTUN := mkTUN {
  f : nat;
  name : string;
  mtu : Z;
}.

(** The first two bytes of the request are the flags, the other sixteen the name. *)
Definition ifr_request (cfgName : string) : vec byte 18 :=
  arr_copy 18 ([x01; x10] ++ (if (0 <? String.length cfgName)%nat && (String.length cfgName <? 16)%nat then bytes_of cfgName else [])).

(** The loop that looks for the end of the name. *)
Definition ifr_name (ifr : vec byte 18) : string :=
  let b := drop 2 (vec_to_list ifr) in
  match find_index (λ c, bool_decide (c = x00)) b with
  | None => ""
  | Some i => string_of (take i b)
  end.

Definition set_file (fd : nat) (q : list (list byte)) (k : Kernel) : Kernel := mkKernel (<[fd := q]> (files k)) (written k).
Definition close_file (fd : nat) (k : Kernel) : Kernel := mkKernel (delete fd (files k)) (written k).

(** [opens] says whether the device file can be opened, under a number not in use; [ioctl] is the request
    as the kernel leaves it, or its error. *)
Definition Create (opens : bool) (ioctl : vec byte 18 → option (vec byte 18)) (cfg : Config) (k : Kernel) :
    Kernel * outcome host_error LinuxTUN :=
  if negb opens then (k, Fail ErrOpenTun)
  else
    let fd := fresh (dom (files k)) in
    let k := set_file fd [] k in
    match ioctl (ifr_request (Name cfg)) with
    | None => (close_file fd k, Fail ErrIoctl)
    | Some ifr =>
        let n := ifr_name ifr in
        (k, Ret (mkTUN fd (if String.eqb n "" then "tun0" else n) (if MTU cfg <=? 0 then 1280 else MTU cfg)))
    end.

(** [Read] into a buffer of [plen] bytes: the kernel gives one packet, cut to the buffer; [None] where it
    waits for one.  An empty read is the end of the file for [os.File]. *)
Definition TUN_Read (plen : nat) (t : LinuxTUN) (k : Kernel) : option (Kernel * outcome host_error (list byte)) :=
  match files k !! f t with
  | None => Some (k, Fail ErrFileClosed)
  | Some q =>
      if (plen =? 0)%nat then Some (k, Ret [])
      else match q with
           | [] => None
           | pkt :: q => Some (set_file (f t) q k, if (length pkt =? 0)%nat then Fail ErrEOF else Ret (take plen pkt))
           end
  end.

(** [accepts] says whether the kernel takes the packet. *)
Definition TUN_Write (accepts : list byte → bool) (p : list byte) (t : LinuxTUN) (k : Kernel) : Kernel * outcome host_error nat :=
  match files k !! f t with
  | None => (k, Fail ErrFileClosed)
  | Some _ =>
      if accepts p then (mkKernel (files k) (written k ++ [(f t, p)]), Ret (length p)) else (k, Fail ErrFileWrite)
  end.

Definition TUN_Close (t : LinuxTUN) (k : Kernel) : Kernel * outcome host_error () :=
  match files k !! f t with
  | None => (k, Fail ErrFileClosed)
  | Some _ => (close_file (f t) k, Ret ())
  end.

Definition TUN_Name (t : LinuxTUN) : string := name t.
Definition TUN_MTU (t : LinuxTUN) : Z := mtu t.

Section Commands.
Variable oracle : Oracle.

(** Commands one after the other, up to the first that fails. *)
Fixpoint run_all (log : list Command) (cs : list Command) : list Command * outcome host_error () :=
  match cs with
  | [] => (log, Ret ())
  | c :: cs => if (oracle log c).1 then run_all (log ++ [c]) cs else (log ++ [c], Fail (ErrCommand c))
  end.

(** ** Addresses and routes (config_linux.go) *)

Definition ConfigureAddress (name ipv6 ipv4 : string) : list Command * outcome host_error () :=
  run_all [] ((if String.eqb ipv6 "" then [] else [["ip"; "-6"; "addr"; "add"; ipv6; "dev"; name]]) ++
              (if String.eqb ipv4 "" then [] else [["ip"; "addr"; "add"; ipv4; "dev"; name]]) ++
              [["ip"; "link"; "set"; "up"; "dev"; name]]).

Definition ConfigureRoute (name subnet : string) : list Command * outcome host_error () :=
  if String.eqb subnet "" then ([], Ret ())
  else run_all [] [["ip"; "-6"; "route"; "add"; subnet; "dev"; name]].

(** ** The firewall gate (firewall_linux.go) *)

Definition meshChain : string := "GOP2PMESH".

(** [installed]: the lookup of the program. *)
Definition DenyAllInbound (installed : bool) : list Command * outcome host_error () :=
  if negb installed then ([], Fail ErrNotInstalled)
  else
    let create := ["iptables"; "-N"; meshChain] in
    let '(ok, out) := oracle [] create in
    if ok then ([create], Ret ())
    else if negb (contains (bytes_of "Chain already exists") out)
    then ([create; ["iptables"; "-F"; meshChain]], Ret ())
    else ([create], Ret ()).

Definition port_rule (verb protocol : string) (virtualPort : Z) : Command :=
  ["iptables"; verb; meshChain; "-p"; protocol; "--dport"; pretty virtualPort; "-j"; "ACCEPT"].

Definition AllowPort (protocol : string) (virtualPort : Z) : list Command * outcome host_error () :=
  run_all [] [port_rule "-A" protocol virtualPort].

Definition RemovePort (protocol : string) (virtualPort : Z) : list Command * outcome host_error () :=
  run_all [] [port_rule "-D" protocol virtualPort].
End Commands.

(** [mode] is the permission bits of the device file, if it exists. *)
Definition PrivilegeCheck (installed : bool) (mode : option Z) : outcome host_error () :=
  if negb installed then Fail ErrNotInstalled
  else match mode with
       | None => Fail ErrNoPermission
       | Some m => if Z.land m 146 =? 0 then Fail ErrNoPermission else Ret ()
       end.
End HostSystem.

Module HostSystemProperties.
Import HostSystem.

(** What is run is a prefix of the plan; all of it exactly on success. *)
Lemma run_all_prefix oracle log cs :
  ∃ done, (run_all oracle log cs).1 = log ++ done ∧ done `prefix_of` cs ∧
    match (run_all oracle log cs).2 with
    | Ret _ => done = cs
    | Fail (ErrCommand c) => last done = Some c
    | _ => False
    end.
Proof.
  revert log. induction cs as [|c cs IH]; intros log; cbn [run_all].
  - exists []. cbn. by rewrite app_nil_r.
  - destruct (oracle log c).1.
    + destruct (IH (log ++ [c])) as (d & -> & Hp & Hr). exists (c :: d). rewrite <- app_assoc.
      split_and!; [done|by apply prefix_cons|].
      destruct ((run_all oracle (log ++ [c]) cs).2) as [|[]|]; try done; [congruence|].
      rewrite last_cons. by rewrite Hr.
    + exists [c]. split_and!; [done|by exists cs|done].
Qed.

(** An interface is brought up only after its addresses are on it: the commands run are a prefix
    of IPv6, IPv4, link; all of them on success, and if the link command was run then every address
    given was added before it. *)
Theorem configured_before_up (oracle : Oracle) (dev ipv6 ipv4 : string) :
  let up := ["ip"; "link"; "set"; "up"; "dev"; dev] in
  let addrs := (if String.eqb ipv6 "" then [] else [["ip"; "-6"; "addr"; "add"; ipv6; "dev"; dev]]) ++
               (if String.eqb ipv4 "" then [] else [["ip"; "addr"; "add"; ipv4; "dev"; dev]]) in
  let '(log, r) := ConfigureAddress oracle dev ipv6 ipv4 in
  log `prefix_of` addrs ++ [up] ∧ (r = Ret () → log = addrs ++ [up]) ∧ (up ∈ log → log = addrs ++ [up]).
Proof.
  intros up addrs. unfold ConfigureAddress. rewrite app_assoc. fold addrs. fold up.
  destruct (run_all_prefix oracle [] (addrs ++ [up])) as (d & E & Hp & Hr).
  destruct (run_all oracle [] (addrs ++ [up])) as [log r]. cbn in E, Hr. subst log.
  split_and!; [done|by intros ->|]. intros Hin. destruct Hp as [k Hk]. destruct k as [|x k _] using rev_ind; [by rewrite app_nil_r in Hk|].
  rewrite app_assoc in Hk. apply app_inj_tail in Hk as [Hk _]. assert (up ∈ addrs) as Ha by (rewrite Hk; apply elem_of_app; by left).
  exfalso. revert Ha. unfold addrs, up. destruct (String.eqb ipv6 ""), (String.eqb ipv4 ""); cbn;
    rewrite ?elem_of_cons, ?elem_of_nil; naive_solver.
Qed.

(** The gate denies nothing: whatever the host answers, the commands it runs only
    create or flush its own chain, and a chain that already exists keeps its rules. *)
Theorem gate_denies_nothing (oracle : Oracle) (installed : bool) :
  let '(log, r) := DenyAllInbound oracle installed in
  Forall (λ c, c = ["iptables"; "-N"; meshChain] ∨ c = ["iptables"; "-F"; meshChain]) log ∧
  (contains (bytes_of "Chain already exists") (oracle [] ["iptables"; "-N"; meshChain]).2 = true →
   ["iptables"; "-F"; meshChain] ∉ log).
Proof.
  unfold DenyAllInbound. destruct installed; cbn [negb]; [|split; [constructor|intros _; apply not_elem_of_nil]].
  destruct (oracle [] _) as [ok out]. cbn [snd].
  destruct ok; [split; [by repeat constructor; left|intros _; by rewrite list_elem_of_singleton]|].
  destruct (contains _ out); cbn [negb]; (split; [repeat constructor; auto|]); [|done].
  intros _. by rewrite list_elem_of_singleton.
Qed.

(** Removing a port deletes exactly the rule that allowing it appended. *)
Lemma remove_matches_allow protocol port : drop 2 (port_rule "-D" protocol port) = drop 2 (port_rule "-A" protocol port).
Proof. done. Qed.

(** A kernel that grants the requested name gives it back: every name of 1 to 15 bytes without a
    zero byte is the name of the device; the MTU is positive. *)
Theorem tun_name (cfg : Config) (k : Kernel) (Hlen : (0 < String.length (Name cfg) < 16)%nat) (Hz : x00 ∉ bytes_of (Name cfg)) :
  (Create true Some cfg k).2 =
    Ret (mkTUN (fresh (dom (files k))) (Name cfg) (if MTU cfg <=? 0 then 1280 else MTU cfg)).
Proof.
  unfold Create. cbn [negb snd].
  assert (ifr_name (ifr_request (Name cfg)) = Name cfg) as ->.
  { unfold ifr_name, ifr_request. rewrite !(proj2 (Nat.ltb_lt _ _)) by lia. cbn [andb].
    rewrite arr_copy_list. rewrite <- length_bytes_of in Hlen.
    rewrite take_ge by (rewrite length_app; cbn; lia). rewrite <- app_assoc.
    change (drop 2 ([x01; x10] ++ ?l)) with l. rewrite length_app.
    replace (18 - (length [x01; x10] + length (bytes_of (Name cfg))))%nat with (S (15 - length (bytes_of (Name cfg)))) by (cbn; lia).
    cbn [replicate drop app].
    assert (∀ l r, x00 ∉ l → find_index (λ c, bool_decide (c = x00)) (l ++ x00 :: r) = Some (length l)) as Hf.
    { induction l as [|c l IH]; intros r Hl; cbn; [done|]. apply not_elem_of_cons in Hl as [Hc Hl].
      rewrite bool_decide_eq_false_2 by congruence. by rewrite IH. }
    rewrite Hf by done. rewrite take_app_length. apply string_of_bytes_of. }
  destruct (String.eqb_spec (Name cfg) "") as [E|]; [|done]. rewrite E in Hlen. cbn in Hlen. lia.
Qed.

(** A device that cannot be created leaves no open file behind, one that can has its own. *)
Lemma Create_files opens ioctl cfg k :
  match Create opens ioctl cfg k with
  | (k', Ret t) => files k !! f t = None ∧ files k' = <[f t := []]> (files k)
  | (k', _) => k' = k
  end.
Proof.
  unfold Create. destruct opens; cbn [negb]; [|done].
  assert (files k !! fresh (dom (files k)) = None) as Hf by (apply not_elem_of_dom, is_fresh).
  destruct (ioctl _); [done|]. destruct k as [fs w]. unfold close_file, set_file. cbn [files written] in *.
  by rewrite delete_insert_id.
Qed.
End HostSystemProperties.
