(* ===== verification/Programs.v ===== *)
(** * The programs from start to exit ([cmd/server/main.go], [cmd/client/main.go],
    [internal/sysutil], [internal/tun] outside Linux, [newLogger])

    The two [main] functions as a whole: service flags, configuration, construction, and the
    race between the goroutine that starts the package and the signal that stops it. *)

From S2P Require Import Prelude GoLib NetParse GoStrings Storage Crypto Config ServerPkg ClientPkg Commands HostSystem.

Open Scope Z_scope.

(** ** Service installation and privileges ([internal/sysutil]) *)

Module Sysutil.

Inductive Platform := Linux | Darwin | Windows | OtherPlatform.

Inductive sys_error :=
| ErrInstall (p : Platform)
| ErrUninstall (p : Platform)
| notImplemented.

(** [DefaultInstaller] is the installer of the platform the program is built for. *)
Definition Install (p : Platform) (name execPath : string) : outcome sys_error () :=
  match p with OtherPlatform => Fail notImplemented | _ => Fail (ErrInstall p) end.

Definition Uninstall (p : Platform) (name : string) : outcome sys_error () :=
  match p with OtherPlatform => Fail notImplemented | _ => Fail (ErrUninstall p) end.

Definition DetectPrivileges : bool * option sys_error := (false, Some notImplemented).

Definition detectPrivileges (p : Platform) : bool * option sys_error :=
  match p with OtherPlatform => (false, Some notImplemented) | _ => (false, None) end.
End Sysutil.

(** ** TUN devices by platform, and their configuration outside Linux ([internal/tun]) *)

Module OtherTun.
Import Sysutil.

Inductive tun_error := ErrNotImplemented (p : Platform) | ErrUnsupported | ErrConfigure.

(** One function per build: on Linux it is [Create] of the device. *)
Definition createPlatform (p : Platform) (opens : bool) (ioctl : vec byte 18 → option (vec byte 18)) (cfg : HostSystem.Config)
    (k : HostSystem.Kernel) : HostSystem.Kernel * outcome (HostSystem.host_error + tun_error) HostSystem.LinuxTUN :=
  match p with
  | Linux =>
      match HostSystem.Create opens ioctl cfg k with
      | (k, Ret t) => (k, Ret t)
      | (k, Fail e) => (k, Fail (inl e))
      | (k, Panic) => (k, Panic)
      end
  | Darwin | Windows => (k, Fail (inr (ErrNotImplemented p)))
  | OtherPlatform => (k, Fail (inr ErrUnsupported))
  end.

Definition ConfigureAddress (name ipv6 ipv4 : string) : outcome tun_error () := Fail ErrConfigure.
Definition ConfigureRoute (name subnet : string) : outcome tun_error () := Fail ErrConfigure.
Definition PrivilegeCheck : outcome tun_error () := Ret ().
End OtherTun.

Module Programs.
Import Sysutil.

(** ** Logging *)

Inductive Level := LevelDebug | LevelInfo | LevelWarn | LevelError.

(** The level of the handler; it writes to the standard output. *)
Definition newLogger (level file : string) : Level :=
  if String.eqb level "debug" then LevelDebug
  else if String.eqb level "warn" then LevelWarn
  else if String.eqb level "error" then LevelError
  else LevelInfo.

(** [pkg/client] has its own copy. *)
Definition client_newLogger (level file : string) : Level :=
  if String.eqb level "debug" then LevelDebug
  else if String.eqb level "warn" then LevelWarn
  else if String.eqb level "error" then LevelError
  else LevelInfo.

(** ** How a program ends *)

(** An exit code; a panic; [Stop] that does not return; or still serving. *)
Inductive Exit := ExitCode (n : Z) | Crash | Hang | Serving.

(** Where [Start] stands when a signal falls into it: its lock released; its context created; its listener
    bound.  The client has no listener, and the last two are one. *)
Inductive point := AfterUnlock | AfterCancel | AfterListen.

(** When the signal reaches the [select], relative to the goroutine that runs [Start]: never; after
    [Start], where an error and the signal may both be ready and either is chosen; before [Start] or
    inside it, where [Stop] runs in between and the goroutine may or may not get to run on before the
    process ends. *)
Inductive schedule :=
| NoSignal
| SignalAfter (error_first : bool)
| SignalBefore (resumes : bool)
| SignalInside (at_ : point) (resumes : bool).

Record Args (F : Type) := mkArgs {
  a_exec : string;
  a_install : bool;
  a_uninstall : bool;
  a_file : option (option Config.File);
  a_flags : F;
}.
Arguments mkArgs {F}.
Arguments a_exec {F}.
Arguments a_install {F}.
Arguments a_uninstall {F}.
Arguments a_file {F}.
Arguments a_flags {F}.

(** The service flags, handled before anything else. *)
Definition service_exit {F} (p : Platform) (name : string) (a : Args F) : option Exit :=
  if a_install a then Some (match Install p name (a_exec a) with Ret _ => ExitCode 0 | _ => ExitCode 1 end)
  else if a_uninstall a then Some (match Uninstall p name with Ret _ => ExitCode 0 | _ => ExitCode 1 end)
  else None.

Section Server.
Context `{Storage.Engine, Signatures, GoUnicode, GoSpace}.
Variables (m1 m2 m3 : string) (now : Z) (gen1 gen2 : option Crypto.KeyPair).

(** [main] up to the server: an exit, or the server with its configuration. *)
Definition server_setup (p : Platform) (a : Args Commands.ServerFlags) : Exit + (Config.ServerConfig * ServerPkg.Server) :=
  match service_exit p "gop2pmesh-server" a with
  | Some e => inl e
  | None =>
      match Commands.server_config (a_file a) (a_flags a) with
      | Panic => inl Crash
      | Fail _ => inl (ExitCode 1)
      | Ret cfg =>
          match ServerPkg.New m1 m2 m3 now gen1 gen2 (Commands.server_options cfg) with
          | Panic => inl Crash
          | Fail _ => inl (ExitCode 1)
          | Ret srv => inr (cfg, srv)
          end
      end
  end.





End Server.

Section Client.
Context `{GoUnicode, GoSpace}.

Definition client_setup (p : Platform) (a : Args Commands.ClientFlags) : Exit + (Config.ClientConfig * ClientPkg.Client) :=
  match service_exit p "gop2pmesh-client" a with
  | Some e => inl e
  | None =>
      match Commands.client_config (a_file a) (a_flags a) with
      | Panic => inl Crash
      | Fail _ => inl (ExitCode 1)
      | Ret cfg =>
          match ClientPkg.New (Commands.client_options cfg) with
          | Panic => inl Crash
          | Fail _ => inl (ExitCode 1)
          | Ret cli => inr (cfg, cli)
          end
      end
  end.

Definition client_finish (c : ClientPkg.Client) : ClientPkg.Client * Exit :=
  let '(c, returns) := ClientPkg.Stop c in (c, if returns then ExitCode 0 else Hang).

Definition client_inside (at_ : point) (c : ClientPkg.Client) : ClientPkg.Client * (ClientPkg.Client → ClientPkg.Client) :=
  match at_ with
  | AfterUnlock => (c, λ c, let '(c, ctx) := ClientPkg.start_cancel c in ClientPkg.start_tail ctx c)
  | AfterCancel | AfterListen => let '(c, ctx) := ClientPkg.start_cancel c in (c, ClientPkg.start_tail ctx)
  end.

Definition client_run (sch : schedule) (c : ClientPkg.Client) : ClientPkg.Client * Exit :=
  match sch with
  | NoSignal =>
      match ClientPkg.Start c with
      | (c, Ret _) => (c, Serving)
      | (c, Fail _) => (c, ExitCode 1)
      | (c, Panic) => (c, Crash)
      end
  | SignalAfter error_first =>
      match ClientPkg.Start c with
      | (c, Ret _) => client_finish c
      | (c, Fail _) => if error_first then (c, ExitCode 1) else client_finish c
      | (c, Panic) => (c, Crash)
      end
  | SignalBefore resumes =>
      let '(c, e) := client_finish c in
      if resumes then match ClientPkg.Start c with (c, Panic) => (c, Crash) | (c, _) => (c, e) end else (c, e)
  | SignalInside at_ resumes =>
      match ClientPkg.start_locked c with
      | (c, Ret _) =>
          let '(c, rest) := client_inside at_ c in
          let '(c, e) := client_finish c in (if resumes then rest c else c, e)
      | (c, _) => client_finish c
      end
  end.

Definition client_main (p : Platform) (sch : schedule) (a : Args Commands.ClientFlags) : option ClientPkg.Client * Exit :=
  match client_setup p a with
  | inl e => (None, e)
  | inr (_, c) => let '(c, e) := client_run sch c in (Some c, e)
  end.
End Client.
End Programs.

Module ProgramsProperties.
Import Sysutil Programs ServerPkgFacts.

(** The log file has no effect. *)
Lemma log_file_ignored level f f' : newLogger level f = newLogger level f'.
Proof. done. Qed.


Section Server.
Context `{Storage.Engine, Signatures, GoUnicode, GoSpace}.
Variables (m1 m2 m3 : string) (now : Z) (gen1 gen2 : option Crypto.KeyPair).











End Server.

(** The client program exits with code 0 on every signal, wherever it falls. *)
Lemma client_program `{GoUnicode, GoSpace} p a sch cfg c :
  client_setup p a = inr (cfg, c) →
  (client_main p sch a).2 = match sch with NoSignal => Serving | _ => ExitCode 0 end.
Proof.
  intros Hset. unfold client_main. rewrite Hset. unfold client_setup in Hset.
  assert (ClientPkg.New (Commands.client_options cfg) = Ret c) as Hn.
  { repeat case_match; by simplify_eq. }
  unfold ClientPkg.New in Hn. destruct (ClientPkg.Validate _); [|done..]. injection Hn as <-.
  destruct sch as [|[]|[]|[] []]; unfold client_run, ClientPkg.Start, client_finish, ClientPkg.Stop; cbn;
    rewrite ?bool_decide_eq_true_2 by (by apply list_elem_of_singleton); done.
Qed.

(** ** A run of the server program *)

#[local] Instance sample_signatures : Signatures := CryptoProperties.toy_sig.
#[local] Instance sample_database : Storage.Engine := StorageProperties.engine_on Storage.empty_tables.

Definition sample_args : Args Commands.ServerFlags :=
  mkArgs "gop2pmesh-server" false false None (Commands.mkServerFlags "10.0.0.1:4000" 0 "" "" "").

(** The arguments lead to a server. *)
Lemma sample_setup :
  is_Some (match server_setup (H1 := ascii_only) (H2 := ascii_space) "init" "" "" 1000 (Some (CryptoProperties.toy_pair x01))
    (Some (CryptoProperties.toy_pair x02)) Linux sample_args with inr x => Some (Config.Port x.1) | inl _ => None end).
Proof. vm_compute. by eexists. Qed.
End ProgramsProperties.
