(* ===== verification/BootServer.v ===== *)
(** * The running control-plane server ([internal/bootstrap/server.go])

    The goroutines of a bootstrap server and their interleavings: the accept loop, one handler
    per connection from its start to its deferred clean-up, and the steps of a shutdown.  An
    event is one atomic action of one goroutine; which events happen, and in which order, is up
    to the scheduler and the network.  What a handler does with a message is [handleMessage] of
    Bootstrap.v. *)

From stdpp Require Import relations.
From S2P Require Import Prelude GoLib Sha256 MeshTypes Protocol Bootstrap Crypto.

Open Scope Z_scope.

Module BootServer.

(** Where a handler goroutine stands: started; at the top of its loop; in [Decode]; returned from
    the loop, before the deferred deletion; before the deferred close; ended. *)
Inductive Stage := Spawned | Looping | Reading | Leaving | Closing | Gone.

(** The accept loop: not running, at its top, in [Accept], returned. *)
Inductive Accepting := NotStarted | AtTop | InAccept | Returned.

#[export] Instance Stage_eq_dec : EqDecision Stage.
Proof. solve_decision. Defined.
#[export] Instance Accepting_eq_dec : EqDecision Accepting.
Proof. solve_decision. Defined.

Record Handler := mkHandler {
  h_addr : string;
  h_stage : Stage;
  h_closed : bool;
  h_conn : clientConn;
}.

(** [clients] maps a remote address to the handler whose connection is stored there; [stopped]
    records that [Stop] has emptied it. *)
Record State := mkState {
  addrFn : option (string → option (string * string * string));
  listening : bool;
  accepting : Accepting;
  cancelled : bool;
  stopped : bool;
  clients : gmap string nat;
  handlers : list Handler;
}.

Definition NewServer : State := mkState None false NotStarted false false ∅ [].

Definition SetAddrResolver (fn : string → option (string * string * string)) (s : State) : State :=
  mkState (Some fn) (listening s) (accepting s) (cancelled s) (stopped s) (clients s) (handlers s).

Definition set_accepting (a : Accepting) (s : State) : State :=
  mkState (addrFn s) (listening s) a (cancelled s) (stopped s) (clients s) (handlers s).
Definition set_clients (c : gmap string nat) (s : State) : State :=
  mkState (addrFn s) (listening s) (accepting s) (cancelled s) (stopped s) c (handlers s).
Definition set_handler (id : nat) (h : Handler) (s : State) : State :=
  mkState (addrFn s) (listening s) (accepting s) (cancelled s) (stopped s) (clients s) (<[id := h]> (handlers s)).
Definition set_stage (st : Stage) (h : Handler) : Handler := mkHandler (h_addr h) st (h_closed h) (h_conn h).
Definition set_closed (h : Handler) : Handler := mkHandler (h_addr h) (h_stage h) true (h_conn h).

Definition ClientCount (s : State) : nat := size (clients s).

(** ** [Start] *)

Inductive start_error := ErrListen.

Definition Start (listen_ok : bool) (s : State) : State * outcome start_error () :=
  if negb listen_ok then (s, Fail ErrListen)
  else (mkState (addrFn s) true AtTop (cancelled s) (stopped s) (clients s) (handlers s), Ret ()).

(** ** The accept loop *)

(** The check at the top of the loop. *)
Definition accept_check (s : State) : option State :=
  match accepting s with
  | AtTop => Some (set_accepting (if cancelled s then Returned else InAccept) s)
  | _ => None
  end.

(** [Accept] returns a connection. *)
Definition accept_conn (remoteAddr : string) (s : State) : option State :=
  match accepting s with
  | InAccept =>
      if listening s
      then Some (mkState (addrFn s) (listening s) AtTop (cancelled s) (stopped s) (clients s)
                   (handlers s ++ [mkHandler remoteAddr Spawned false new_conn]))
      else None
  | _ => None
  end.

(** [Accept] returns an error. *)
Definition accept_error (s : State) : option State :=
  match accepting s with
  | InAccept => Some (set_accepting (if cancelled s then Returned else AtTop) s)
  | _ => None
  end.

(** ** A handler *)

Section Handler.
Context `{Json} `{Ed25519}.

Definition at_stage (st : Stage) (id : nat) (s : State) : option Handler :=
  match handlers s !! id with
  | Some h => if bool_decide (h_stage h = st) then Some h else None
  | None => None
  end.

(** The registration at the head of [handleConn]. *)
Definition conn_register (id : nat) (s : State) : option State :=
  h ← at_stage Spawned id s;
  Some (set_handler id (set_stage Looping h) (set_clients (<[h_addr h := id]> (clients s)) s)).

(** The check at the top of the message loop. *)
Definition conn_check (id : nat) (s : State) : option State :=
  h ← at_stage Looping id s;
  Some (set_handler id (set_stage (if cancelled s then Leaving else Reading) h) s).

(** [Decode] delivers a message, which is handled; it may come from the buffer of a connection
    that is closed already. *)
Definition conn_message (e : env) (t : MessageType) (body : list byte) (id : nat) (s : State) : option State :=
  h ← at_stage Reading id s;
  let '(cc, r) := handleMessage (addrFn s) e t body (h_conn h) in
  Some (set_handler id (mkHandler (h_addr h) (if is_ret r then Looping else Leaving) (h_closed h) cc) s).

(** [Decode] fails: end of stream, a bad frame, the deadline, a closed connection. *)
Definition conn_read_error (id : nat) (s : State) : option State :=
  h ← at_stage Reading id s;
  Some (set_handler id (set_stage Leaving h) s).

(** The deferred calls, last first. *)
Definition conn_unregister (id : nat) (s : State) : option State :=
  h ← at_stage Leaving id s;
  Some (set_handler id (set_stage Closing h) (set_clients (delete (h_addr h) (clients s)) s)).

Definition conn_close (id : nat) (s : State) : option State :=
  h ← at_stage Closing id s;
  Some (set_handler id (set_stage Gone (set_closed h)) s).

(** ** Shutdown *)

Definition cancel (s : State) : State :=
  mkState (addrFn s) (listening s) (accepting s) true (stopped s) (clients s) (handlers s).

(** [Stop] under its lock: every stored connection is closed and the table emptied. *)
Definition stop_clients (s : State) : State :=
  mkState (addrFn s) (listening s) (accepting s) (cancelled s) true ∅
    (imap (λ id h, if bool_decide (id ∈ (map_img (clients s) : gset nat)) then set_closed h else h) (handlers s)).

(** The rest of [Stop]. *)
Definition stop_listener (s : State) : State :=
  mkState (addrFn s) false (accepting s) (cancelled s) (stopped s) (clients s) (handlers s).

(** ** Runs *)

Inductive event :=
| EAcceptCheck
| EAcceptConn (remoteAddr : string)
| EAcceptError
| ERegister (id : nat)
| ECheck (id : nat)
| EMessage (id : nat) (e : env) (t : MessageType) (body : list byte)
| EReadError (id : nat)
| EUnregister (id : nat)
| EClose (id : nat)
| ECancel
| EStopClients
| EStopListener.

Definition step (ev : event) (s : State) : option State :=
  match ev with
  | EAcceptCheck => accept_check s
  | EAcceptConn a => accept_conn a s
  | EAcceptError => accept_error s
  | ERegister id => conn_register id s
  | ECheck id => conn_check id s
  | EMessage id e t b => conn_message e t b id s
  | EReadError id => conn_read_error id s
  | EUnregister id => conn_unregister id s
  | EClose id => conn_close id s
  | ECancel => Some (cancel s)
  | EStopClients => Some (stop_clients s)
  | EStopListener => Some (stop_listener s)
  end.


(** No connection the server has not closed has this remote address. *)
Definition fresh_addr (a : string) (s : State) : bool :=
  forallb (λ h, h_closed h || negb (String.eqb (h_addr h) a)) (handlers s).

(** The condition under which an event is one of a run: the server's package cancels the context
    before [Stop], and a client connects from an address that no unfinished connection has.  TCP
    keeps the addresses of established connections apart; it does not when a peer resets its
    connection and reuses the port before the old handler has ended (see [reused_address]). *)
Definition allowed (ev : event) (s : State) : bool :=
  match ev with
  | EStopClients => cancelled s
  | EAcceptConn a => fresh_addr a s
  | _ => true
  end.

Definition server_step (s s' : State) : Prop :=
  ∃ ev, step ev s = Some s' ∧ allowed ev s = true.

Definition reachable (fn : option (string → option (string * string * string))) (s : State) : Prop :=
  ∃ s0, Start true (match fn with Some f => SetAddrResolver f NewServer | None => NewServer end) = (s0, Ret ()) ∧
    rtc server_step s0 s.
End Handler.

(** ** Noise sessions *)

Section Sessions.
Context `{Crypto.NoiseLib}.

Record NoiseHandshakeSession := mkSession {
  Initiator : option Crypto.NoiseIK;
  Responder : option Crypto.NoiseIK;
}.

Definition NewInitiatorSession (localPriv remotePub : vec byte 32) : NoiseHandshakeSession :=
  mkSession (Some (Crypto.NewNoiseIKInitiator localPriv remotePub)) None.

Definition NewResponderSession (localPriv : vec byte 32) : NoiseHandshakeSession :=
  mkSession None (Some (Crypto.NewNoiseIKResponder localPriv)).
End Sessions.
End BootServer.

Module BootServerFacts.
Import BootServer.

Section Facts.
Context `{Json} `{Ed25519}.

(** The handler's entry is, or was, in the table. *)
Definition registered (st : Stage) : bool :=
  match st with Looping | Reading | Leaving => true | _ => false end.

(** What the connection sent was sent by messages handled from a fresh connection on. *)
Definition sent_ok fn (h : Handler) : Prop :=
  (∃ cc, rtc (conn_step fn) new_conn cc ∧ sent (h_conn h) = sent cc) ∧
  (h_stage h = Spawned ∨ h_stage h = Looping ∨ h_stage h = Reading → rtc (conn_step fn) new_conn (h_conn h)).

Record inv (s : State) : Prop := mkInv {
  i_clients a id : clients s !! a = Some id →
    ∃ h, handlers s !! id = Some h ∧ h_addr h = a ∧ registered (h_stage h) = true;
  i_exact id h : stopped s = false → handlers s !! id = Some h → registered (h_stage h) = true →
    clients s !! h_addr h = Some id;
  i_open id h : stopped s = false → handlers s !! id = Some h → h_closed h = true → h_stage h = Gone;
  i_unique i j h h' : stopped s = false → handlers s !! i = Some h → handlers s !! j = Some h' →
    h_closed h = false → h_closed h' = false → h_addr h = h_addr h' → i = j;
  i_stopped id h : stopped s = true → handlers s !! id = Some h → h_stage h = Reading → h_closed h = true;
  i_cancelled : stopped s = true → cancelled s = true;
  i_accepting : accepting s ≠ NotStarted;
  i_gone id h : handlers s !! id = Some h → h_stage h = Gone → h_closed h = true;
  i_sent id h : handlers s !! id = Some h → sent_ok (addrFn s) h;
}.

Lemma at_stage_Some st id s h : at_stage st id s = Some h ↔ handlers s !! id = Some h ∧ h_stage h = st.
Proof. unfold at_stage. destruct (handlers s !! id) as [h'|]; [case_bool_decide|]; naive_solver. Qed.

Lemma set_handler_Some id h s j k :
  handlers (set_handler id h s) !! j = Some k →
  (j = id ∧ k = h) ∨ (j ≠ id ∧ handlers s !! j = Some k).
Proof.
  cbn. intros E. destruct (decide (j = id)) as [->|Hne].
  - apply list_lookup_insert_Some in E. naive_solver.
  - rewrite list_lookup_insert_ne in E by done. auto.
Qed.

Lemma set_handler_eq id h h0 s : handlers s !! id = Some h0 → handlers (set_handler id h s) !! id = Some h.
Proof. intros E%lookup_lt_Some. cbn. by apply list_lookup_insert_eq. Qed.

Lemma set_handler_ne id h s j : j ≠ id → handlers (set_handler id h s) !! j = handlers s !! j.
Proof. intros. cbn. by apply list_lookup_insert_ne. Qed.

(** A handler moves on without touching the table. *)
Lemma inv_advance s id h h' :
  inv s → handlers s !! id = Some h → h_addr h' = h_addr h → h_closed h' = h_closed h →
  registered (h_stage h) = true → registered (h_stage h') = true →
  (h_stage h' = Reading → cancelled s = false) → sent_ok (addrFn s) h' → inv (set_handler id h' s).
Proof.
  intros Hi Hh Ha Hc Hr Hr' Hread Hsent. split.
  - intros a j E. destruct (i_clients _ Hi a j E) as (k & Hk & Hka & Hkr).
    destruct (decide (j = id)) as [->|]; [|rewrite set_handler_ne by done; eauto].
    rewrite (set_handler_eq _ _ h) by done. simplify_eq. eauto.
  - intros j k Hs [[-> ->]|[? E]]%set_handler_Some Hk; cbn [clients set_handler].
    + rewrite Ha. by apply (i_exact _ Hi).
    + by apply (i_exact _ Hi).
  - intros j k Hs [[-> ->]|[? E]]%set_handler_Some Hk; [|by apply (i_open _ Hi j k)].
    rewrite Hc in Hk. rewrite (i_open _ Hi id h) in Hr by done. done.
  - intros i j k k' Hs [[-> ->]|[? E]]%set_handler_Some [[-> ->]|[? E']]%set_handler_Some; try done;
      rewrite ?Ha, ?Hc; by apply (i_unique _ Hi).
  - intros j k Hs [[-> ->]|[? E]]%set_handler_Some Hk; [|by apply (i_stopped _ Hi j k)].
    pose proof (i_cancelled _ Hi Hs). rewrite Hread in * by done. done.
  - apply (i_cancelled _ Hi).
  - apply (i_accepting _ Hi).
  - intros j k [[-> ->]|[? E]]%set_handler_Some Hk; [by rewrite Hk in Hr'|by apply (i_gone _ Hi j k)].
  - intros j k [[-> ->]|[? E]]%set_handler_Some; [done|by apply (i_sent _ Hi j k)].
Qed.

Lemma open_before_stop s id h : inv s → stopped s = false → handlers s !! id = Some h → h_stage h ≠ Gone → h_closed h = false.
Proof. intros Hi Hs Hh Hg. destruct (h_closed h) eqn:E; [|done]. by destruct Hg; apply (i_open _ Hi id h). Qed.

Lemma sent_ok_stage fn h st c : st ≠ Spawned → st ≠ Looping → st ≠ Reading →
  sent_ok fn h → sent_ok fn (mkHandler (h_addr h) st c (h_conn h)).
Proof. intros ??? [Hs _]. split; [done|]. cbn. intros [?|[?|?]]; congruence. Qed.

Lemma sent_ok_early fn h st c : h_stage h = Spawned ∨ h_stage h = Looping ∨ h_stage h = Reading →
  sent_ok fn h → sent_ok fn (mkHandler (h_addr h) st c (h_conn h)).
Proof. intros E [Hs Hr]. split; [done|]. cbn. auto. Qed.

Lemma inv_register s id s' : inv s → conn_register id s = Some s' → inv s'.
Proof.
  intros Hi. unfold conn_register. destruct (at_stage Spawned id s) as [h|] eqn:E; [|done].
  apply at_stage_Some in E as [Hh Hst]. cbn. intros [= <-].
  set (s1 := set_clients _ s). split.
  - intros a j Ej. cbn in Ej. apply lookup_insert_Some in Ej as [[<- <-]|[Hne Ej]].
    + rewrite (set_handler_eq _ _ h) by done. eexists; done.
    + destruct (i_clients _ Hi a j Ej) as (k & Hk & Hka & Hkr).
      rewrite set_handler_ne; [eauto|]. intros ->. by simplify_eq/=; rewrite Hst in Hkr.
  - intros j k Hs [[-> ->]|[Hne Ek]]%set_handler_Some Hk; cbn; [by rewrite lookup_insert_eq|].
    rewrite lookup_insert_ne; [by apply (i_exact _ Hi)|]. intros Ha. destruct Hne. symmetry.
    apply (i_unique _ Hi id j h k); try done; eapply (open_before_stop s); try done; [by rewrite Hst|].
    intros Hg. by rewrite Hg in Hk.
  - intros j k Hs [[-> ->]|[? Ek]]%set_handler_Some Hk; [|by apply (i_open _ Hi j k)].
    cbn in Hk. pose proof (i_open _ Hi id h Hs Hh Hk). congruence.
  - intros i j k k' Hs [[-> ->]|[? E]]%set_handler_Some [[-> ->]|[? E']]%set_handler_Some; try done;
      intros; eapply (i_unique _ Hi); try eassumption; done.
  - intros j k Hs [[-> ->]|[? Ek]]%set_handler_Some Hk; [done|by apply (i_stopped _ Hi j k)].
  - apply (i_cancelled _ Hi).
  - apply (i_accepting _ Hi).
  - intros j k [[-> ->]|[? Ek]]%set_handler_Some Hk; [done|by apply (i_gone _ Hi j k)].
  - intros j k [[-> ->]|[? Ek]]%set_handler_Some; [|by apply (i_sent _ Hi j k)].
    apply sent_ok_early; [by left|]. by apply (i_sent _ Hi id).
Qed.

Lemma inv_unregister s id s' : inv s → conn_unregister id s = Some s' → inv s'.
Proof.
  intros Hi. unfold conn_unregister. destruct (at_stage Leaving id s) as [h|] eqn:E; [|done].
  apply at_stage_Some in E as [Hh Hst]. cbn. intros [= <-].
  set (s1 := set_clients _ s). split.
  - intros a j Ej. cbn in Ej. apply lookup_delete_Some in Ej as [Hne Ej].
    destruct (i_clients _ Hi a j Ej) as (k & Hk & Hka & Hkr).
    rewrite set_handler_ne; [eauto|]. intros ->. by simplify_eq/=.
  - intros j k Hs [[-> ->]|[Hne Ek]]%set_handler_Some Hk; [done|]; cbn.
    rewrite lookup_delete_ne; [by apply (i_exact _ Hi)|]. intros Ha. destruct Hne. symmetry.
    apply (i_unique _ Hi id j h k); try done; eapply (open_before_stop s); try done; [by rewrite Hst|].
    intros Hg. by rewrite Hg in Hk.
  - intros j k Hs [[-> ->]|[? Ek]]%set_handler_Some Hk; [|by apply (i_open _ Hi j k)].
    cbn in Hk. pose proof (i_open _ Hi id h Hs Hh Hk). congruence.
  - intros i j k k' Hs [[-> ->]|[? E]]%set_handler_Some [[-> ->]|[? E']]%set_handler_Some; try done;
      intros; eapply (i_unique _ Hi); try eassumption; done.
  - intros j k Hs [[-> ->]|[? Ek]]%set_handler_Some Hk; [done|by apply (i_stopped _ Hi j k)].
  - apply (i_cancelled _ Hi).
  - apply (i_accepting _ Hi).
  - intros j k [[-> ->]|[? Ek]]%set_handler_Some Hk; [done|by apply (i_gone _ Hi j k)].
  - intros j k [[-> ->]|[? Ek]]%set_handler_Some; [|by apply (i_sent _ Hi j k)].
    apply sent_ok_stage; [done..|]. by apply (i_sent _ Hi id).
Qed.

Lemma inv_close s id s' : inv s → conn_close id s = Some s' → inv s'.
Proof.
  intros Hi. unfold conn_close. destruct (at_stage Closing id s) as [h|] eqn:E; [|done].
  apply at_stage_Some in E as [Hh Hst]. cbn. intros [= <-]. split.
  - intros a j Ej. destruct (i_clients _ Hi a j Ej) as (k & Hk & Hka & Hkr).
    rewrite set_handler_ne; [eauto|]. intros ->. simplify_eq/=. by rewrite Hst in Hkr.
  - intros j k Hs [[-> ->]|[Hne Ek]]%set_handler_Some Hk; [done|]. by apply (i_exact _ Hi).
  - intros j k Hs [[-> ->]|[? Ek]]%set_handler_Some Hk; [done|by apply (i_open _ Hi j k)].
  - intros i j k k' Hs [[-> ->]|[? E]]%set_handler_Some [[-> ->]|[? E']]%set_handler_Some; try done;
      intros; eapply (i_unique _ Hi); try eassumption; done.
  - intros j k Hs [[-> ->]|[? Ek]]%set_handler_Some Hk; [done|by apply (i_stopped _ Hi j k)].
  - apply (i_cancelled _ Hi).
  - apply (i_accepting _ Hi).
  - intros j k [[-> ->]|[? Ek]]%set_handler_Some Hk; [done|by apply (i_gone _ Hi j k)].
  - intros j k [[-> ->]|[? Ek]]%set_handler_Some; [|by apply (i_sent _ Hi j k)].
    apply (sent_ok_stage _ h); [done..|]. by apply (i_sent _ Hi id).
Qed.

Lemma inv_accept_conn a s s' : inv s → fresh_addr a s = true → accept_conn a s = Some s' → inv s'.
Proof.
  intros Hi Hf. unfold accept_conn. destruct (accepting s); try done.
  destruct (listening s); [|done]. intros [= <-].
  assert (∀ j k, handlers s !! j = Some k → h_closed k = false → h_addr k ≠ a) as Hfresh.
  { unfold fresh_addr in Hf. rewrite forallb_forall in Hf. intros j k Hk%list_elem_of_lookup_2%list_elem_of_In Hc <-.
    specialize (Hf _ Hk). rewrite Hc, String.eqb_refl in Hf. done. }
  assert (∀ j k, (handlers s ++ [mkHandler a Spawned false new_conn]) !! j = Some k →
    handlers s !! j = Some k ∨ (j = length (handlers s) ∧ k = mkHandler a Spawned false new_conn)) as Happ.
  { intros j k [?|[Hl Hj]]%lookup_app_Some; [by left|right].
    apply list_lookup_singleton_Some in Hj as [? <-]. split; [lia|done]. }
  split; cbn.
  - intros b j (k & Hk & Hka)%(i_clients _ Hi). exists k. split; [|done]. by apply lookup_app_l_Some.
  - intros j k Hs [?|[-> ->]]%Happ; [by apply (i_exact _ Hi)|done].
  - intros j k Hs [?|[-> ->]]%Happ; [by apply (i_open _ Hi j)|done].
  - intros i j k k' Hs [Hk|[-> ->]]%Happ [Hk'|[-> ->]]%Happ Hc Hc' Ha; try done.
    + by apply (i_unique _ Hi i j k k').
    + by destruct (Hfresh _ _ Hk).
    + by destruct (Hfresh _ _ Hk').
  - intros j k Hs [?|[-> ->]]%Happ; [by apply (i_stopped _ Hi j)|done].
  - apply (i_cancelled _ Hi).
  - done.
  - intros j k [?|[-> ->]]%Happ; [by apply (i_gone _ Hi j)|done].
  - intros j k [?|[-> ->]]%Happ; [by apply (i_sent _ Hi j)|].
    split; [exists new_conn; split; [constructor|done]|constructor].
Qed.

Lemma inv_stop s : inv s → cancelled s = true → inv (stop_clients s).
Proof.
  intros Hi Hc.
  assert (∀ j k, handlers (stop_clients s) !! j = Some k → ∃ h, handlers s !! j = Some h ∧ h_stage k = h_stage h ∧
    h_conn k = h_conn h ∧ (h_closed h = true ∨ j ∈ (map_img (clients s) : gset nat) → h_closed k = true)) as Hk.
  { intros j k. cbn. rewrite list_lookup_imap. destruct (handlers s !! j) as [h|]; [|done]. cbn.
    intros [= <-]. exists h. case_bool_decide; cbn; naive_solver. }
  split; try done; [|apply (i_accepting _ Hi)|..].
  - intros j k _ (h & Hh & Hst & _ & Hcl)%Hk Hr. apply Hcl. rewrite Hst in Hr.
    destruct (stopped s) eqn:Hs; [left; by apply (i_stopped _ Hi j)|right].
    apply elem_of_map_img. exists (h_addr h). apply (i_exact _ Hi j); [done..|]. by rewrite Hr.
  - intros j k (h & Hh & Hst & _ & Hcl)%Hk Hr. apply Hcl. left. rewrite Hst in Hr. by apply (i_gone _ Hi j).
  - intros j k (h & Hh & Hst & Hcc & _)%Hk. destruct (i_sent _ Hi j h Hh) as [Hs Hr].
    split; [by rewrite Hcc|by rewrite Hst, Hcc].
Qed.

Lemma inv_accepting a s : a ≠ NotStarted → inv s → inv (set_accepting a s).
Proof. intros Ha []. by split. Qed.

Lemma handleMessage_sent_ok fn e t b h st c :
  sent_ok fn h → h_stage h = Reading → st = Looping ∨ st = Leaving →
  let '(cc, r) := handleMessage fn e t b (h_conn h) in
  (st = Looping → r = Ret ()) → sent_ok fn (mkHandler (h_addr h) st c cc).
Proof.
  intros [Hs Hr] Hst Hcase. destruct (handleMessage fn e t b (h_conn h)) as [cc r] eqn:Hm. intros Hret.
  specialize (Hr ltac:(auto)). assert (r = Ret () ∨ r ≠ Ret ()) as [->|Hne] by (destruct r as [[]| |]; [by left|by right..]).
  - assert (rtc (conn_step fn) new_conn cc) as Hcc.
    { eapply rtc_r; [exact Hr|]. by exists e, t, b. }
    split; [by exists cc|done].
  - split; [exists (h_conn h); split; [done|]; by apply (handleMessage_fail _ _ _ _ _ _ _ Hm)|].
    cbn. intros Hd. destruct Hne, Hcase as [->| ->]; [by apply Hret|]. destruct Hd as [?|[?|?]]; done.
Qed.

Lemma boot_inv_step s s' : inv s → server_step s s' → inv s'.
Proof.
  intros Hi (ev & Hev & Hstop). destruct ev; cbn in Hev.
  - unfold accept_check in Hev. destruct (accepting s); simplify_eq. apply inv_accepting; [|done]. by destruct (cancelled s).
  - by eapply inv_accept_conn.
  - unfold accept_error in Hev. destruct (accepting s); simplify_eq. apply inv_accepting; [|done]. by destruct (cancelled s).
  - by eapply inv_register.
  - unfold conn_check in Hev. destruct (at_stage _ _ _) as [h|] eqn:E; [|done]. simplify_eq/=.
    apply at_stage_Some in E as [Hh Hst]. eapply inv_advance; try done; cbn.
    + by rewrite Hst.
    + by destruct (cancelled s).
    + by destruct (cancelled s).
    + apply sent_ok_early; [auto|]. by apply (i_sent _ Hi id).
  - unfold conn_message in Hev. destruct (at_stage _ _ _) as [h|] eqn:E; [|done]. cbn in Hev.
    apply at_stage_Some in E as [Hh Hst].
    pose proof (λ st, handleMessage_sent_ok (addrFn s) e t body h st (h_closed h) (i_sent _ Hi id h Hh) Hst) as Hok.
    destruct (handleMessage _ _ _ _ _) as [cc r]. simplify_eq/=.
    eapply inv_advance; try done; cbn; [by rewrite Hst|by destruct r|by destruct r|].
    apply Hok; destruct r as [[]| |]; auto; done.
  - unfold conn_read_error in Hev. destruct (at_stage _ _ _) as [h|] eqn:E; [|done]. simplify_eq/=.
    apply at_stage_Some in E as [Hh Hst]. eapply inv_advance; try done; cbn; [by rewrite Hst|].
    apply sent_ok_stage; [done..|]. by apply (i_sent _ Hi id).
  - by eapply inv_unregister.
  - by eapply inv_close.
  - simplify_eq. destruct Hi. by split.
  - simplify_eq. apply inv_stop; auto.
  - simplify_eq. destruct Hi. by split.
Qed.

Lemma boot_inv_reachable fn s : reachable fn s → inv s.
Proof.
  intros (s0 & E & Hr). assert (inv s0) as Hi.
  { unfold Start in E. destruct fn; simplify_eq/=; split; cbn; intros; by try done; simplify_map_eq. }
  clear E. induction Hr; [done|]. eauto using boot_inv_step.
Qed.

Lemma step_addrFn s s' : server_step s s' → addrFn s' = addrFn s.
Proof.
  intros (ev & Hev & _). destruct ev; cbn in Hev;
    unfold accept_check, accept_conn, accept_error, conn_register, conn_check, conn_message, conn_read_error,
      conn_unregister, conn_close in Hev;
    repeat first [progress simplify_eq/= | case_match
      | match goal with _ : context [at_stage ?a ?b ?c] |- _ => destruct (at_stage a b c) end]; done.
Qed.

(** ** Shutdown *)









(** The handlers whose entry is in the table. *)
Definition live (s : State) (id : nat) : bool :=
  match handlers s !! id with Some h => registered (h_stage h) | None => false end.

Lemma live_lookup s id : live s id = true ↔ ∃ h, handlers s !! id = Some h ∧ registered (h_stage h) = true.
Proof. unfold live. destruct (handlers s !! id); naive_solver. Qed.

Lemma client_ids s : inv s → stopped s = false →
  (map_to_list (clients s)).*2 ≡ₚ filter (λ id, live s id = true) (seq 0 (length (handlers s))).
Proof.
  intros Hi Hs. apply NoDup_Permutation.
  - apply NoDup_fmap_2_strong; [|apply NoDup_map_to_list].
    intros [a i] [b j] Ha%elem_of_map_to_list Hb%elem_of_map_to_list E. cbn in E. subst j.
    destruct (i_clients _ Hi _ _ Ha) as (h & Hh & <- & _), (i_clients _ Hi _ _ Hb) as (h' & Hh' & <- & _).
    by simplify_eq.
  - apply NoDup_filter, NoDup_seq.
  - intros id. rewrite list_elem_of_fmap, list_elem_of_filter, elem_of_seq, live_lookup. split.
    + intros ([a j] & -> & Hm%elem_of_map_to_list). destruct (i_clients _ Hi _ _ Hm) as (h & Hh & _ & Hr).
      split; [eauto|]. apply lookup_lt_Some in Hh. cbn. lia.
    + intros ((h & Hh & Hr) & _). exists (h_addr h, id). split; [done|].
      apply elem_of_map_to_list. by apply (i_exact _ Hi).
Qed.

Lemma reachable_addrFn fn s : reachable fn s → addrFn s = fn.
Proof.
  intros (s0 & E & Hr). assert (addrFn s0 = fn) as <-.
  { unfold Start in E. destruct fn; by simplify_eq/=. }
  clear E. induction Hr as [|x y z Hxy _ IH]; [done|]. rewrite IH. by apply step_addrFn.
Qed.
End Facts.
End BootServerFacts.

Module BootServerProperties.
Import BootServer BootServerFacts.

Section Properties.
Context `{Json} `{Ed25519}.

(** C9: Under every interleaving of the accept loop, the handlers and the caller, and until
    [Stop], as long as no client connects from the address of a connection not closed yet, the table of connections is exact: it holds a handler under its remote address from
    the registration to the deferred deletion and nothing else, so [ClientCount] counts the
    handlers in their message loops; and no connection, whatever the others do, is sent more
    AUTH_OK than challenges. *)
Theorem connection_table fn (s : State) (Hr : reachable fn s) (Hs : stopped s = false) :
  (∀ a id, clients s !! a = Some id ↔
     ∃ h, handlers s !! id = Some h ∧ h_addr h = a ∧ registered (h_stage h) = true) ∧
  ClientCount s = length (filter (λ id, live s id = true) (seq 0 (length (handlers s)))) ∧
  (∀ id h k, handlers s !! id = Some h →
     (auth_oks (take k (sent (h_conn h))) ≤ challenges (take k (sent (h_conn h))))%nat).
Proof.
  pose proof (boot_inv_reachable _ _ Hr) as Hi. split_and!.
  - intros a id. split; [apply (i_clients _ Hi)|]. intros (h & Hh & <- & Hreg). by apply (i_exact _ Hi).
  - unfold ClientCount. rewrite <-(client_ids s Hi Hs), length_fmap. symmetry. apply length_map_to_list.
  - intros id h k Hh. destruct (i_sent _ Hi id h Hh) as [(cc & Hcc & ->) _].
    exact (co_prefix _ (reachable_conn_ok _ _ Hcc) k).
Qed.


(** The server package installs no resolver; then every AUTH_OK of every connection carries empty
    addresses. *)
Lemma no_resolver_no_address (s : State) (id : nat) (h : Handler) (ok : AuthOK) :
  reachable None s → handlers s !! id = Some h → PAuthOK ok ∈ sent (h_conn h) → ok = mkAuthOK "" "" "" [].
Proof.
  intros Hr Hh. destruct (i_sent _ (boot_inv_reachable _ _ Hr) id h Hh) as [(cc & Hcc & ->) _].
  rewrite (reachable_addrFn _ _ Hr) in Hcc. clear -Hcc.
  revert cc Hcc. apply (rtc_ind_r (λ cc, PAuthOK ok ∈ sent cc → ok = mkAuthOK "" "" "" [])); [by intros ?%not_elem_of_nil|].
  intros y z _ (e & t & b & Hm) IH. apply handleMessage_ret in Hm
    as [->|[(hello & n & _ & _ & _ & _ & ->)|(auth & ok' & _ & _ & _ & Hrep & ->)]]; cbn; [done|..];
    intros [?|E%list_elem_of_singleton]%elem_of_app; try by apply IH.
  injection E as ->. exact Hrep.
Qed.

(** [Stop] without the cancellation leaves the accept loop running on the closed listener: it
    comes back to the same state after each failed [Accept], with no delay in between. *)
Lemma stop_alone_spins (s : State) :
  cancelled s = false → listening s = false → accepting s = AtTop →
  ∃ s', step EAcceptCheck s = Some s' ∧ step EAcceptError s' = Some s ∧
    ∀ a, step (EAcceptConn a) s' = None.
Proof.
  intros Hc Hl Ha. exists (set_accepting InAccept s). unfold step, accept_check, accept_error, accept_conn.
  rewrite Ha, Hc. cbn. rewrite Hc, Hl. split_and!; [done| |done]. rewrite <-Ha. by destruct s.
Qed.
End Properties.

(** The two sides of a session derive the same pair of cipher states. *)
Lemma session_handshake `{NoiseFacts.NoiseLaws} (si sr : vec byte 32) :
  ∃ ini res, Initiator (NewInitiatorSession si (Crypto.deriveX25519Public sr)) = Some ini ∧
    Responder (NewResponderSession sr) = Some res ∧
    ∃ i1 m1 r1 m2 i2, Crypto.Initiate [] ini = (i1, Ret m1) ∧ Crypto.Respond m1 res = (r1, Ret m2) ∧
      Crypto.Finalize m2 i1 = (i2, Ret ()) ∧ Crypto.Split i2 = Crypto.Split r1.
Proof.
  eexists _, _. split_and!; [done..|].
  destruct (NoiseFacts.noise_handshake si sr) as (i1 & m1 & r1 & m2 & i2 & ? & ? & ? & _ & _ & ?).
  by exists i1, m1, r1, m2, i2.
Qed.

(** ** A run: two clients, one of them registers; then the server shuts down *)

Definition run_events : list event :=
  [EAcceptCheck; EAcceptConn "10.0.0.1:5000"; EAcceptCheck; ERegister 0; EAcceptConn "10.0.0.2:6000"; ECheck 0;
   ERegister 1; EMessage 0 run_env MsgHello [x01]; ECheck 0; EMessage 0 run_env MsgAuth [x03]; ECheck 1].

Definition stop_events : list event := [ECancel; EStopClients; EStopListener].

Fixpoint run_all (evs : list event) (s : State) : option State :=
  match evs with
  | [] => Some s
  | ev :: evs => match @step run_json toy_ed ev s with Some s' => run_all evs s' | None => None end
  end.

Definition run_start : State := (Start true (SetAddrResolver run_fn NewServer)).1.
Definition run_served : State := default run_start (run_all run_events run_start).

Fixpoint disciplined (evs : list event) (s : State) : bool :=
  match evs with
  | [] => true
  | ev :: evs =>
      match @step run_json toy_ed ev s with
      | Some s' => allowed ev s && disciplined evs s'
      | None => false
      end
  end.

Lemma boot_run_all_reachable evs s s' :
  run_all evs s = Some s' → disciplined evs s = true → rtc (@server_step run_json toy_ed) s s'.
Proof.
  revert s. induction evs as [|ev evs IH]; intros s E D; cbn in *; [by simplify_eq|].
  destruct (step ev s) as [s1|] eqn:Hs; [|done]. apply andb_true_iff in D as [D1 D2].
  eapply rtc_l; [|by apply IH]. by exists ev.
Qed.

(** A client resets its connection and connects again from the same port before the handler of the
    first connection has ended: the new handler takes over the entry, and the clean-up of the old
    one, which deletes by address, removes it.  The server then counts no client while one is being
    served, and a shutdown leaves that connection open. *)
Definition reuse_events : list event :=
  [EAcceptCheck; EAcceptConn "10.0.0.1:5000"; ERegister 0; ECheck 0; EAcceptCheck; EAcceptConn "10.0.0.1:5000";
   ERegister 1; ECheck 1; EReadError 0; EUnregister 0; EClose 0].

Lemma reused_address :
  ∃ s, run_all reuse_events run_start = Some s ∧ ClientCount s = 0%nat ∧ live s 1 = true ∧
    ∃ s' h, run_all stop_events s = Some s' ∧ handlers s' !! 1%nat = Some h ∧
      h_stage h = Reading ∧ h_closed h = false.
Proof.
  eexists. split_and!; [vm_compute; reflexivity..|]. eexists _, _. split_and!; vm_compute; reflexivity.
Qed.

Lemma run_served_reachable : @reachable run_json toy_ed (Some run_fn) run_served.
Proof. exists run_start. split; [done|]. apply (boot_run_all_reachable run_events); vm_compute; reflexivity. Qed.


Lemma connection_table_witness :
  clients run_served !! "10.0.0.2:6000" = Some 1%nat ∧ ClientCount run_served = 2%nat ∧
  (auth_oks (take 2 (sent (h_conn (nth 0 (handlers run_served) (mkHandler "" Gone true new_conn))))) ≤ 1)%nat.
Proof.
  destruct (@connection_table run_json toy_ed (Some run_fn) run_served run_served_reachable eq_refl) as (Ht & Hsz & Ha).
  split_and!.
  - apply Ht. eexists. split_and!; [vm_compute; reflexivity..].
  - rewrite Hsz. vm_compute. reflexivity.
  - etrans; [apply (Ha 0%nat); vm_compute; reflexivity|]. vm_compute. lia.
Defined.

End BootServerProperties.
