(* ===== verification/DnsProxy.v ===== *)
(** * The running DNS proxy ([internal/dns/proxy.go], [NewResolver] of resolver.go)

    The socket, the query loop with its one buffer, and the goroutine it starts for each
    datagram.  An event is one action of the loop, of a goroutine or of the caller; their order
    is free.  What a goroutine does with its datagram is [handle] of Dns.v. *)

From stdpp Require Import relations.
From S2P Require Import Prelude GoLib NetAddr NetParse GoStrings Dns.

Open Scope Z_scope.

Module DnsProxy.
Import Dns.

(** The query loop: before its context check, in [ReadFromUDP], returned; [Idle] before [Serve]. *)
Inductive Loop := Idle | AtTop | InRead | Returned.

#[export] Instance Loop_eq_dec : EqDecision Loop.
Proof. solve_decision. Defined.

Inductive proxy_error := ErrResolveAddr | ErrListen | ErrNotStarted | ErrSocketClosed.

(** [conn] is the socket, if any, and whether it is open.  [pending] are the goroutines that still
    run, each with the peer and its copy of the datagram; [received], [replies], [unsent] and
    [upstream] record what went over the wire. *)
Record Proxy := mkProxy {
  conn : option bool;
  closed : bool;
  cancelled : bool;
  loop : Loop;
  buf : list byte;
  pending : list (string * list byte);
  received : list (string * list byte);
  replies : list (string * list byte);
  unsent : list (string * list byte);
  upstream : list string;
}.

Definition NewProxy : Proxy := mkProxy None false false Idle [] [] [] [] [] [].

(** [None] where the address does not resolve, [Some false] where the bind fails. *)
Definition Start (bind : option bool) (p : Proxy) : Proxy * outcome proxy_error () :=
  match bind with
  | None => (p, Fail ErrResolveAddr)
  | Some false => (p, Fail ErrListen)
  | Some true =>
      (mkProxy (Some true) (closed p) (cancelled p) (loop p) (buf p) (pending p) (received p) (replies p) (unsent p)
         (upstream p), Ret ())
  end.

Definition set_loop (l : Loop) (p : Proxy) : Proxy :=
  mkProxy (conn p) (closed p) (cancelled p) l (buf p) (pending p) (received p) (replies p) (unsent p) (upstream p).

Definition buf_size : nat := 1500.

(** The head of [Serve], up to its loop. *)
Definition Serve (p : Proxy) : Proxy * option proxy_error :=
  match conn p with
  | None => (p, Some ErrNotStarted)
  | Some _ =>
      (mkProxy (conn p) (closed p) (cancelled p) AtTop (replicate buf_size x00) (pending p) (received p) (replies p)
         (unsent p) (upstream p), None)
  end.

Definition serve_check (p : Proxy) : option Proxy :=
  match loop p with
  | AtTop => Some (set_loop (if cancelled p then Returned else InRead) p)
  | _ => None
  end.

(** A datagram arrives: its first bytes go over the front of the buffer, and the goroutine gets a
    copy of them. *)
Definition serve_read (peer : string) (d : list byte) (p : Proxy) : option Proxy :=
  match loop p, conn p with
  | InRead, Some true =>
      let n := Nat.min (length d) (length (buf p)) in
      let buf := take n d ++ drop n (buf p) in
      Some (mkProxy (conn p) (closed p) (cancelled p) AtTop buf (pending p ++ [(peer, take n buf)])
              (received p ++ [(peer, d)]) (replies p) (unsent p) (upstream p))
  | _, _ => None
  end.

Definition isClosed (p : Proxy) : bool := closed p.

Definition serve_read_error (p : Proxy) : option Proxy :=
  match loop p with
  | InRead => Some (set_loop (if isClosed p then Returned else AtTop) p)
  | _ => None
  end.

(** [Close]: the flag under the lock, then the socket. *)
Definition close_flag (p : Proxy) : Proxy :=
  mkProxy (conn p) true (cancelled p) (loop p) (buf p) (pending p) (received p) (replies p) (unsent p) (upstream p).

Definition close_socket (p : Proxy) : Proxy * outcome proxy_error () :=
  match conn p with
  | None => (p, Ret ())
  | Some false => (p, Fail ErrSocketClosed)
  | Some true =>
      (mkProxy (Some false) (closed p) (cancelled p) (loop p) (buf p) (pending p) (received p) (replies p) (unsent p)
         (upstream p), Ret ())
  end.

Definition Close (p : Proxy) : Proxy * outcome proxy_error () := close_socket (close_flag p).

Section Run.
Context `{GoUnicode} `{DnsEnv} (fuel : nat).

(** The goroutine of the [i]-th pending datagram ends; [ok] is the fate of its write, which a
    closed socket refuses. *)
Definition run_handle (i : nat) (ok : bool) (p : Proxy) : option Proxy :=
  match pending p !! i with
  | None => None
  | Some (peer, pkt) =>
      match handle fuel pkt with
      | None => None
      | Some (ups, r) =>
          let rest := delete i (pending p) in
          let sent := ok && bool_decide (conn p = Some true) in
          let out := match r with None => [] | Some b => [(peer, b)] end in
          Some (mkProxy (conn p) (closed p) (cancelled p) (loop p) (buf p) rest (received p)
                  (if sent then replies p ++ out else replies p) (if sent then unsent p else unsent p ++ out)
                  (upstream p ++ ups))
      end
  end.

Inductive event :=
| ECheck
| ERead (peer : string) (d : list byte)
| EReadError
| EHandle (i : nat) (ok : bool)
| ECancel
| ECloseFlag
| ECloseSocket.

Definition step (ev : event) (p : Proxy) : option Proxy :=
  match ev with
  | ECheck => serve_check p
  | ERead peer d => serve_read peer d p
  | EReadError => serve_read_error p
  | EHandle i ok => run_handle i ok p
  | ECancel => Some (mkProxy (conn p) (closed p) true (loop p) (buf p) (pending p) (received p) (replies p) (unsent p) (upstream p))
  | ECloseFlag => Some (close_flag p)
  | ECloseSocket => Some (close_socket p).1
  end.

Definition own (ev : event) : bool :=
  match ev with ECancel | ECloseFlag | ECloseSocket => false | _ => true end.

(** The states of a proxy that was bound and is served. *)
Definition reachable (p : Proxy) : Prop :=
  ∃ p0 p1, Start (Some true) NewProxy = (p0, Ret ()) ∧ Serve p0 = (p1, None) ∧
    rtc (λ p p', ∃ ev, step ev p = Some p') p1 p.
End Run.
End DnsProxy.

Module DnsProxyFacts.
Import Dns DnsProxy.

Section Facts.
Context `{GoUnicode} `{DnsEnv} (fuel : nat).

(** What is due for a datagram handed to a goroutine: nothing or one reply to its peer. *)
Definition due (x : string * list byte) : list (string * list byte) :=
  match handle fuel x.2 with Some (_, Some b) => [(x.1, b)] | _ => [] end.

Definition due_upstream (x : string * list byte) : list string :=
  match handle fuel x.2 with Some (ups, _) => ups | None => [] end.

(** A datagram as the loop reads it. *)
Definition clipped (x : string * list byte) : string * list byte := (x.1, take buf_size x.2).

Record inv (p : Proxy) : Prop := mkInv {
  i_buf : length (buf p) = buf_size;
  i_conn : is_Some (conn p);
  i_loop : loop p ≠ Idle;
  i_returned : loop p = Returned → cancelled p = true ∨ closed p = true;
  i_replies : (received p) ≫= (λ x, due (clipped x)) ≡ₚ replies p ++ unsent p ++ (pending p ≫= due);
  i_upstream : (received p) ≫= (λ x, due_upstream (clipped x)) ≡ₚ upstream p ++ (pending p ≫= due_upstream);
}.

Lemma read_copy (d buf : list byte) :
  length buf = buf_size →
  let n := Nat.min (length d) (length buf) in
  take n (take n d ++ drop n buf) = take buf_size d ∧ length (take n d ++ drop n buf) = buf_size.
Proof.
  intros Hb n. assert (length (take n d) = n) as Hn by (rewrite length_take; lia). split.
  - rewrite <- Hn at 1. rewrite take_app_length. unfold n. rewrite Hb.
    destruct (Nat.le_ge_cases (length d) buf_size); [rewrite Nat.min_l by done; by rewrite !take_ge|by rewrite Nat.min_r].
  - rewrite length_app, length_drop, Hn. lia.
Qed.

Lemma pending_bind {A} (f : string * list byte → list A) (l : list (string * list byte)) i x :
  l !! i = Some x → l ≫= f ≡ₚ f x ++ (delete i l ≫= f).
Proof.
  intros E. rewrite <- (take_drop_middle l i x E) at 1. rewrite delete_take_drop, !bind_app, bind_cons.
  rewrite !app_assoc. f_equiv. apply Permutation_app_comm.
Qed.

Lemma proxy_inv_step ev p p' : inv p → step fuel ev p = Some p' → inv p'.
Proof.
  intros [Hb Hc Hl Hret Hr Hu] Hev. destruct ev; cbn in Hev.
  - unfold serve_check in Hev. destruct (loop p); simplify_eq. split; try done; cbn; destruct (cancelled p); auto; done.
  - unfold serve_read in Hev. destruct (loop p), (conn p) as [[]|]; try done. simplify_eq.
    destruct (read_copy d (buf p) Hb) as [Hcopy Hlen]. split; cbn [buf conn loop received replies unsent upstream pending]; try done.
    + rewrite !bind_app, Hr. cbn [mbind list_bind]. rewrite !app_nil_r, Hcopy, !app_assoc. done.
    + rewrite !bind_app, Hu. cbn [mbind list_bind]. rewrite !app_nil_r, Hcopy, !app_assoc. done.
  - unfold serve_read_error in Hev. destruct (loop p); simplify_eq. split; try done; cbn; unfold isClosed; destruct (closed p); auto; done.
  - unfold run_handle in Hev. destruct (pending p !! i) as [[peer pkt]|] eqn:Hi; [|done].
    destruct (handle fuel pkt) as [[ups r]|] eqn:Hh; [|done]. simplify_eq. split; cbn; try done.
    + rewrite Hr, (pending_bind due _ _ _ Hi). assert (due (peer, pkt) = match r with None => [] | Some b => [(peer, b)] end) as ->.
      { unfold due. cbn. rewrite Hh. by destruct r. }
      destruct (ok && _); rewrite <- ?app_assoc; [|done]. f_equiv. rewrite !app_assoc. f_equiv. apply Permutation_app_comm.
    + rewrite Hu, (pending_bind due_upstream _ _ _ Hi). unfold due_upstream at 1. cbn. rewrite Hh.
      by rewrite app_assoc.
  - simplify_eq. split; try done. by left.
  - simplify_eq. split; try done. by right.
  - simplify_eq. unfold close_socket. by destruct (conn p) as [[]|] eqn:E.
Qed.

Lemma proxy_inv_reachable p : reachable fuel p → inv p.
Proof.
  intros (p0 & p1 & E0 & E1 & Hr). cbn in E0. simplify_eq. cbn in E1. simplify_eq.
  assert (∀ a b, rtc (λ p p', ∃ ev, step fuel ev p = Some p') a b → inv a → inv b) as Hi.
  { induction 1 as [|x y z [ev Hev] _ IH]; [done|]. eauto using proxy_inv_step. }
  apply (Hi _ _ Hr). split; cbn [buf conn loop received replies unsent upstream pending]; done.
Qed.

(** The steps left once the socket is closed. *)
Definition work (p : Proxy) : nat :=
  (length (pending p) + match loop p with AtTop => 2 | InRead => 1 | _ => 0 end)%nat.

Lemma closed_step_works ev p p' :
  closed p = true → conn p = Some false → own ev = true → step fuel ev p = Some p' → (work p' < work p)%nat.
Proof.
  intros Hcl Hco Ho Hev. destruct ev; try done; cbn in Hev; unfold work.
  - unfold serve_check in Hev. destruct (loop p); simplify_eq; cbn. destruct (cancelled p); lia.
  - unfold serve_read in Hev. rewrite Hco in Hev. by destruct (loop p).
  - unfold serve_read_error, isClosed in Hev. rewrite Hcl in Hev. destruct (loop p); simplify_eq; cbn. lia.
  - unfold run_handle in Hev. destruct (pending p !! i) as [[peer pkt]|] eqn:Hi; [|done].
    destruct (handle fuel pkt) as [[ups r]|]; [|done]. simplify_eq. cbn. rewrite length_delete by done.
    apply lookup_lt_Some in Hi. lia.
Qed.
End Facts.
End DnsProxyFacts.

Module DnsProxyProperties.
Import Dns DnsProxy DnsProxyFacts.

Section Properties.
Context `{GoUnicode} `{DnsEnv}.

(** C31: The running proxy answers each datagram once.  However the query loop, the goroutines and
    the caller interleave, what was written to the socket, what a failed write lost and what the
    running goroutines still owe are together, as a multiset, exactly the replies due to the
    datagrams received, each cut to 1,500 bytes and each reply addressed to its own sender, although
    the loop reads every datagram into one buffer; likewise for the upstream queries.  The loop
    returns only on a cancelled context or after [Close]; and after [Close] no datagram is read and
    the loop and the goroutines have finitely many steps left. *)
Theorem proxy_serves (fuel : nat) (p : Proxy) (Hr : reachable fuel p) :
  (received p) ≫= (λ x, due fuel (x.1, take buf_size x.2)) ≡ₚ replies p ++ unsent p ++ (pending p ≫= due fuel) ∧
  (received p) ≫= (λ x, due_upstream fuel (x.1, take buf_size x.2)) ≡ₚ upstream p ++ (pending p ≫= due_upstream fuel) ∧
  (loop p = Returned → cancelled p = true ∨ closed p = true) ∧
  (closed p = true → conn p = Some false →
     ∀ ev p', own ev = true → step fuel ev p = Some p' → received p' = received p ∧ (work p' < work p)%nat).
Proof.
  destruct (proxy_inv_reachable fuel p Hr) as [Hb Hc Hl Hret Hre Hu]. split_and!; [done..|].
  intros Hcl Hco ev p' Ho Hev. split; [|by apply (closed_step_works fuel ev)].
  destruct ev; try done; cbn in Hev; unfold serve_check, serve_read, serve_read_error, run_handle in Hev;
    rewrite ?Hco in Hev; repeat (case_match; simplify_eq/=; try done).
Qed.

(** A cancelled context alone does not end a loop that waits for a datagram. *)
Lemma cancel_waits (fuel : nat) (p : Proxy) :
  loop p = InRead → ∃ p', step fuel ECancel p = Some p' ∧ loop p' = InRead ∧ step fuel ECheck p' = None.
Proof. intros Hl. eexists. split; [reflexivity|]. cbn. unfold serve_check. cbn. by rewrite Hl. Qed.
End Properties.

(** ** A run: two queries for one name, the second answered first *)

Definition run_env : DnsEnv := {|
  Lookup := λ label, if String.eqb label "n1" then Some ("", "10.0.0.1") else None;
  LookupIP := λ _, inr "no upstream";
  Quote := λ s, s;
|}.

Definition query_bytes (name : string) : list byte :=
  [x12; x34; x01; x00; x00; x01; x00; x00; x00; x00; x00; x00] ++ encodeName name ++ [x00; x01; x00; x01].

Definition run_events : list event :=
  [ECheck; ERead "127.0.0.1:4000" (query_bytes "n1.xiaolangze"); ECheck; ERead "127.0.0.1:4001" (query_bytes "go.dev");
   EHandle 1 true; EHandle 0 true; ECloseFlag; ECloseSocket; ECheck; EReadError].

Fixpoint run_all (evs : list event) (p : Proxy) : option Proxy :=
  match evs with
  | [] => Some p
  | ev :: evs => match @step ascii_only run_env 40 ev p with Some p' => run_all evs p' | None => None end
  end.

Definition run_start : Proxy := (Serve (Start (Some true) NewProxy).1).1.
Definition run_end : Proxy := default run_start (run_all run_events run_start).

Lemma run_all_rtc evs p p' :
  run_all evs p = Some p' → rtc (λ p p', ∃ ev, @step ascii_only run_env 40 ev p = Some p') p p'.
Proof.
  revert p. induction evs as [|ev evs IH]; intros p E; cbn in *; [by simplify_eq|].
  destruct (step 40 ev p) as [p1|] eqn:Hs; [|done]. eapply rtc_l; [|by apply IH]. by exists ev.
Qed.

Lemma run_end_reachable : @reachable ascii_only run_env 40 run_end.
Proof.
  exists (Start (Some true) NewProxy).1, run_start. split_and!; [done..|].
  apply (run_all_rtc run_events). vm_compute. reflexivity.
Qed.

Lemma proxy_serves_witness :
  loop run_end = Returned ∧ (replies run_end).*1 = ["127.0.0.1:4001"; "127.0.0.1:4000"] ∧ upstream run_end = ["go.dev"] ∧
  (cancelled run_end = true ∨ closed run_end = true).
Proof.
  split_and!; [vm_compute; reflexivity..|].
  apply (@proxy_serves ascii_only run_env 40 run_end run_end_reachable). vm_compute. reflexivity.
Defined.
End DnsProxyProperties.
