(* ===== verification/HostNets.v ===== *)
(** * The host's own networks ([internal/portcontrol/rules.go], [NewForwarder] of forward.go)

    [DefaultLocalNets] turns the interface list into prefixes, by way of the standard library's
    masks and addresses; the startup check of PortControl.v compares them with the mesh subnet.
    The interface list is what the system reports. *)

From S2P Require Import Prelude GoLib DhtKey NetAddr PortControl.

Open Scope Z_scope.

Module HostNets.
Import NetAddr PortControl.

(** ** [net] and [net/netip] *)












(** ** rules.go *)





(** ** forward.go *)

Record Forwarder := mkForwarder {
  controller : Controller;
  Timeout : Z;
}.

Definition NewForwarder (c : Controller) : Forwarder := mkForwarder c (10 * Second).

Definition Forwarder_IsAllowed (virtualPort : Z) (f : Forwarder) : bool := IsAllowed virtualPort (controller f).
End HostNets.

Module HostNetsFacts.
Import NetAddr PortControl HostNets.

(** ** Masks *)






(** ** Prefixes *)







End HostNetsFacts.

Module HostNetsProperties.
Import NetAddr PortControl HostNets HostNetsFacts.



End HostNetsProperties.
