(* ===== verification/ApiServer.v ===== *)
(** * The running API server ([Start], [Stop] of [internal/api/router.go])

    The life of the HTTPS server: its start, the goroutine that waits for the context, [Stop], and
    the requests in flight, in any order.  [http.Server] is modelled by its documentation:
    [Shutdown] closes the listeners being served, and [ServeTLS] returns [ErrServerClosed] at once,
    also when it is called later, when it closes the listener it was given; requests in flight go
    on. *)

From stdpp Require Import relations.
From S2P Require Import Prelude GoLib Jwt Storage Api.

Open Scope Z_scope.

Module ApiServer.

Inductive start_error :=
| ErrTLS (e : Api.tls_error)
| ErrListen (addr : string)
| ErrServe.

(** Where [Start] stands: not called; before [ServeTLS], with the server stored; in it; returned. *)
Inductive Position :=
| NotCalled
| Created
| InServe
| Returned (r : outcome start_error ()).

(** [srv] says that the server field is set, [shut] that it was shut down; [watcher] that the goroutine
    waits for the context; [requests] counts those in flight. *)
Record Server := mkServer {
  pos : Position;
  srv : bool;
  shut : bool;
  ln : option string;
  watcher : bool;
  cancelled : bool;
  requests : nat;
}.

Definition new_server : Server := mkServer NotCalled false false None false false 0.

(** The limits on a connection, in nanoseconds and bytes. *)
Definition ReadHeaderTimeout : Z := 10 * Second.
Definition ReadTimeout : Z := 30 * Second.
Definition WriteTimeout : Z := 30 * Second.
Definition IdleTimeout : Z := 120 * Second.
Definition MaxHeaderBytes : Z := Z.shiftl 1 16.

(** What the machine answers: key pairs, files, certificates in a file, and binding an address. *)
Record Machine := mkMachine {
  load_pair : string → string → bool;
  read_file : string → option (list byte);
  append_certs : list byte → bool;
  listen : string → bool;
}.

(** [Start] up to [ServeTLS]. *)
Definition start_listen (m : Machine) (cfg : Api.Config) (s : Server) : option Server :=
  match pos s with
  | NotCalled =>
      let addr := Api.listen_addr cfg in
      match Api.BuildTLSConfig (load_pair m) (read_file m) (append_certs m)
              (Api.CertFile cfg) (Api.KeyFile cfg) (Api.ClientCAFile cfg) with
      | Ret _ =>
          if listen m addr
          then Some (mkServer Created true (shut s) (Some addr) true (cancelled s) (requests s))
          else Some (mkServer (Returned (Fail (ErrListen addr))) (srv s) (shut s) (ln s) (watcher s) (cancelled s) (requests s))
      | Fail e => Some (mkServer (Returned (Fail (ErrTLS e))) (srv s) (shut s) (ln s) (watcher s) (cancelled s) (requests s))
      | Panic => Some (mkServer (Returned Panic) (srv s) (shut s) (ln s) (watcher s) (cancelled s) (requests s))
      end
  | _ => None
  end.

(** [ServeTLS] is called: it returns at once on a server that was shut down. *)
Definition start_serve (s : Server) : option Server :=
  match pos s with
  | Created =>
      if shut s then Some (mkServer (Returned (Ret ())) (srv s) (shut s) None (watcher s) (cancelled s) (requests s))
      else Some (mkServer InServe (srv s) (shut s) (ln s) (watcher s) (cancelled s) (requests s))
  | _ => None
  end.

(** [ServeTLS] returns: [ErrServerClosed] after a shutdown, or an error of its own, which closes the
    listener. *)
Definition serve_returns (own_error : bool) (s : Server) : option Server :=
  match pos s with
  | InServe =>
      if shut s then Some (mkServer (Returned (Ret ())) (srv s) (shut s) None (watcher s) (cancelled s) (requests s))
      else if own_error then Some (mkServer (Returned (Fail ErrServe)) (srv s) (shut s) None (watcher s) (cancelled s) (requests s))
      else None
  | _ => None
  end.

(** [Shutdown] of the server: a listener that [ServeTLS] has not got yet stays open. *)
Definition shutdown (s : Server) : Server :=
  mkServer (pos s) (srv s) true (match pos s with Created => ln s | _ => None end) (watcher s) (cancelled s) (requests s).

(** The goroutine sees the cancelled context and shuts the server down. *)
Definition watch (s : Server) : option Server :=
  if watcher s && cancelled s
  then let s := shutdown s in
       Some (mkServer (pos s) (srv s) (shut s) (ln s) false (cancelled s) (requests s))
  else None.

Definition Stop (s : Server) : Server := if negb (srv s) then s else shutdown s.

Inductive event :=
| EStart (m : Machine) (cfg : Api.Config)
| EServe
| EServeReturns (own_error : bool)
| EWatch
| EStop
| ECancel
| ERequest
| EAnswered.

Definition step (ev : event) (s : Server) : option Server :=
  match ev with
  | EStart m cfg => start_listen m cfg s
  | EServe => start_serve s
  | EServeReturns e => serve_returns e s
  | EWatch => watch s
  | EStop => Some (Stop s)
  | ECancel => Some (mkServer (pos s) (srv s) (shut s) (ln s) (watcher s) true (requests s))
  | ERequest =>
      match pos s, ln s with
      | InServe, Some _ => Some (mkServer (pos s) (srv s) (shut s) (ln s) (watcher s) (cancelled s) (S (requests s)))
      | _, _ => None
      end
  | EAnswered =>
      match requests s with
      | O => None
      | S n => Some (mkServer (pos s) (srv s) (shut s) (ln s) (watcher s) (cancelled s) n)
      end
  end.

Definition reachable (s : Server) : Prop := rtc (λ s s', ∃ ev, step ev s = Some s') new_server s.
End ApiServer.

Module ApiServerProperties.
Import ApiServer.

Definition serving (s : Server) : bool := match pos s with Created | InServe => true | _ => false end.
Definition opened (s : Server) : bool := match ln s with Some _ => true | None => false end.

Definition inv (s : Server) : bool :=
  implb (shut s) (srv s && (match pos s with Created => true | _ => negb (opened s) end)) && implb (opened s) (serving s && srv s) &&
  implb (match pos s with NotCalled => true | _ => false end) (negb (srv s) && negb (watcher s)) &&
  implb (serving s) (srv s && (match pos s with Created => opened s | _ => shut s || opened s end)) &&
  implb (match pos s with Returned (Ret _) => true | _ => false end) (shut s) &&
  implb (srv s && negb (watcher s)) (cancelled s && shut s) && implb (watcher s) (srv s).

Lemma api_inv_step ev s s' : inv s = true → step ev s = Some s' → inv s' = true.
Proof.
  destruct s as [[| | |[|e|]] [] [] [a|] [] [] n]; (intros E; cbv in E; first [discriminate E|clear E]);
    destruct ev; cbn; unfold start_listen, start_serve, serve_returns, watch, Stop, shutdown; cbn;
    try (intros [= <-]; reflexivity); try discriminate; repeat case_match; intros; simplify_eq; reflexivity.
Qed.

Lemma api_inv_reachable s : reachable s → inv s = true.
Proof.
  unfold reachable. intros Hr.
  assert (∀ a, rtc (λ s s', ∃ ev, step ev s = Some s') a s → inv a = true → inv s = true) as Hi; [|by apply (Hi _ Hr)].
  intros a. induction 1 as [|x y z [ev Hev] _ IH]; [done|]. eauto using api_inv_step.
Qed.

(** The life of the API server, under every interleaving: it listens only while [Start] runs; [Start] returns without an error only
    after a shutdown, with the listener closed; a cancelled context or a [Stop] on a server that was
    created shuts it down, which closes the listener unless [ServeTLS] is still to come; from then
    on no request is accepted, and [Start] returns with the listener closed at its next step. *)
Theorem api_lifecycle (s : Server) (Hr : reachable s) :
  (∀ a, ln s = Some a → pos s = Created ∨ pos s = InServe) ∧
  (pos s = Returned (Ret ()) → shut s = true ∧ ln s = None) ∧
  (srv s = true → shut (Stop s) = true ∧ (pos s ≠ Created → ln (Stop s) = None)) ∧
  (cancelled s = true → srv s = true → shut s = false →
     ∃ s', step EWatch s = Some s' ∧ shut s' = true ∧ (pos s ≠ Created → ln s' = None)) ∧
  (shut s = true → step ERequest s = None ∧
     (pos s = Created ∨ pos s = InServe → ∃ ev s', step ev s = Some s' ∧ pos s' = Returned (Ret ()) ∧ ln s' = None)).
Proof.
  apply api_inv_reachable in Hr. destruct s as [[| | |[[]|e|]] [] [] [a|] [] [] n]; (cbv in Hr; first [discriminate Hr|clear Hr]);
    split_and!; cbn; intros; simplify_eq; auto; try (by eexists);
    try (split; [done|]; intros [?|?]; simplify_eq; first [by exists EServe; eexists|by exists (EServeReturns false); eexists]).
Qed.

(** A [Stop] before [Start] has created the server is lost: it changes nothing. *)
Lemma early_stop_lost s : reachable s → pos s = NotCalled → Stop s = s.
Proof.
  intros Hr%api_inv_reachable Hp. unfold Stop. destruct (srv s) eqn:Es; [|done]. unfold inv in Hr. rewrite Es, Hp in Hr.
  cbn in Hr. by rewrite andb_false_r in Hr.
Qed.

(** [Stop] alone leaves the goroutine waiting for the context. *)
Lemma stop_leaks_watcher s : reachable s → srv s = true → cancelled s = false → watcher (Stop s) = true.
Proof.
  intros Hr%api_inv_reachable Hs Hc. unfold Stop. rewrite Hs. cbn. destruct (watcher s) eqn:Ew; [done|].
  unfold inv in Hr. rewrite Hs, Ew, Hc in Hr. cbn in Hr. by rewrite andb_false_r in Hr.
Qed.
End ApiServerProperties.
