(* ===== verification/ApiSession.v ===== *)
(** * Sessions of the management API ([internal/api])

    The way of an administrator through the whole chain of Api.v: the login, requests with the access token
    it gives, and new access tokens for the refresh token. *)

From S2P Require Import Prelude GoLib GoFloat MeshTypes NetAddr NetParse Storage Jwt Api.

Open Scope Z_scope.

Module ApiSession.
Import Jwt Api.

(** A request to one of the public paths of the authentication handlers. *)
Definition auth_request (name : string) (r : Request) : Prop :=
  Method r ≠ "OPTIONS" ∧ Canonical r = true ∧ Segments r = ["api"; "v1"; "auth"; name].

(** A request that the middleware asks for a token. *)
Definition guarded (r : Request) : Prop :=
  Method r ≠ "OPTIONS" ∧ isPublicPath [login_path; refresh_path] (Path r) = false.

(** The claims of an administrator's access token issued at [now]. *)
Definition admin_claims (d : Deps) (now : Z) : Claims := claims_for d now (AdminUser d) "admin" "access" (AccessTTL d).

Section Session.
Context `{GoUnicode} `{ClaimsJson} `{RequestJson} `{Bcrypt} {S : Type} `{Storage.Store S}.

(** What the chain does for a request that passed the check of its token. *)
Definition as_user (rs : Z) (cfg : Config) (d : Deps) (c : Claims) (t : Times) (r : Request) (st : State S) : State S * Response :=
  let '(st, resp) := RateLimitMiddleware cfg (AuditMiddleware (mux rs (handler_deps cfg d))) t (Some c) r st in
  (st, mkResponse (Status resp) (Data resp) (Some (AllowedOrigin cfg))).

(** The token admits its bearer as the administrator until its expiry and nobody from then on, whatever the
    state of the server. *)
Definition opens (rs : Z) (cfg : Config) (d : Deps) (token : string) (issued : Z) : Prop :=
  ∀ t r st, guarded r → bearer r = token →
    ServeHTTP rs cfg d t None r st =
      if time_unix (issued + AccessTTL (handler_deps cfg d)) <=? time_unix (t_auth t)
      then (st, mkResponse 401 (PError "UNAUTHORIZED" (JwtText ErrExpired)) (Some (AllowedOrigin cfg)))
      else as_user rs cfg d (admin_claims (handler_deps cfg d) issued) t r st.
End Session.
End ApiSession.

Module ApiSessionFacts.
Import Jwt JwtFacts JwtProperties Api ApiFacts ApiSession.

#[local] Opaque hmacSHA256.

Section Session.
Context `{GoUnicode} `{ClaimsJson} `{RequestJson} `{Bcrypt} {S : Type} `{Storage.Store S}.
Context (rs : Z) (cfg : Config) (d0 : Deps).
Let d := handler_deps cfg d0.

(** What the two public handlers need to issue a token. *)
Context (Hsecret : Secret d = cSecret cfg) (Hkey : cSecret cfg ≠ []) (Hadmin : AdminUser d ≠ "").
Context (Hjson : ∀ iat exp typ, claims_ok (mkClaims (AdminUser d) "admin" iat exp typ)).

Lemma issue now typ ttl :
  typ = "access" ∨ typ = "refresh" → 0 < time_unix (now + ttl) →
  ∃ token, IssueToken (Secret d) (claims_for d now (AdminUser d) "admin" typ ttl) = Ret token ∧
    ∀ now', VerifyToken (cSecret cfg) token now' =
      if time_unix (now + ttl) <=? now' then Fail ErrExpired else Ret (claims_for d now (AdminUser d) "admin" typ ttl).
Proof using All.
  intros Htyp Hexp. rewrite Hsecret.
  destruct (proj2 (token_roundtrip (cSecret cfg) (claims_for d now (AdminUser d) "admin" typ ttl) 0 (Hjson _ _ _) Hadmin Htyp)
    Hkey Hexp) as (token & Hi & _).
  exists token. split; [done|]. intros now'.
  destruct (proj2 (token_roundtrip (cSecret cfg) (claims_for d now (AdminUser d) "admin" typ ttl) now' (Hjson _ _ _) Hadmin Htyp)
    Hkey Hexp) as (token' & Hi' & Hv). rewrite Hi in Hi'. apply Ret_inj in Hi' as <-. exact Hv.
Qed.

Lemma issued_not_empty secret c token : IssueToken secret c = Ret token → token ≠ "".
Proof using. by intros (_ & _ & body & _ & Hs)%IssueToken_inv ->. Qed.

(** An access token of the administrator opens the API. *)
Lemma token_opens token now :
  IssueToken (Secret d) (admin_claims d now) = Ret token →
  (∀ now', VerifyToken (cSecret cfg) token now' =
     if time_unix (now + AccessTTL d) <=? now' then Fail ErrExpired else Ret (admin_claims d now)) →
  opens rs cfg d0 token now.
Proof using.
  intros Hi Hv t r st [Hm Hp] Hb. unfold ServeHTTP, CORSMiddleware.
  destruct (String.eqb_spec (Method r) "OPTIONS") as [|_]; [done|].
  unfold AuthMiddleware. rewrite Hp, Hb, Hv. fold d.
  destruct (String.eqb_spec token "") as [->|_]; [by apply issued_not_empty in Hi|].
  by destruct (_ <=? _).
Qed.

(** ** The public handlers through the chain *)

Lemma auth_path name r : auth_request name r → Path r = "/api/v1/auth/" +:+ name.
Proof using.
  intros (_ & _ & Hs). unfold Path. rewrite Hs. cbn [foldr].
  assert (∀ s, s +:+ "" = s) as -> by (induction s as [|c s IH]; [done|]; by rewrite <- IH at 2). done.
Qed.

(** A login with the right credentials that the limiter admits. *)
Lemma login_served t r st password :
  auth_request "login" r → decode_login (Body r) = Some (AdminUser d, password) → password ≠ "" →
  checkPassHash (AdminHash d) password = true →
  (spend (t_limit t) ("ip:" +:+ clientIP r) (LoginRatePerMin cfg) (LoginRatePerMin cfg) (ipLimits st)).1 = true →
  0 < time_unix (t_issue t + AccessTTL d) → 0 < time_unix (t_issue t + RefreshTTL d) →
  ∃ access refresh st', ServeHTTP rs cfg d0 t None r st =
      (st', mkResponse 200 (PSession access refresh (whole_seconds (AccessTTL d))) (Some (AllowedOrigin cfg))) ∧
    store st' = store st ∧ Tokens st' = add (t_registry t) refresh (RefreshTTL d) (Tokens st) ∧
    opens rs cfg d0 access (t_issue t) ∧
    ∀ now', VerifyToken (cSecret cfg) refresh now' =
      if time_unix (t_issue t + RefreshTTL d) <=? now' then Fail ErrExpired
      else Ret (claims_for d (t_issue t) (AdminUser d) "admin" "refresh" (RefreshTTL d)).
Proof using All.
  intros Hr Hbody Hpw Hhash Hlimit Ha Hf. pose proof (auth_path _ _ Hr) as Hpath. destruct Hr as (Hm & Hcan & Hseg).
  destruct (issue (t_issue t) "access" (AccessTTL d) (or_introl eq_refl) Ha) as (access & Hia & Hva).
  destruct (issue (t_issue t) "refresh" (RefreshTTL d) (or_intror eq_refl) Hf) as (refresh & Hif & Hvf).
  unfold ServeHTTP, CORSMiddleware. destruct (String.eqb_spec (Method r) "OPTIONS") as [|_]; [done|].
  unfold AuthMiddleware, RateLimitMiddleware. rewrite Hpath. cbn [isPublicPath existsb].
  change (String.eqb login_path ("/api/v1/auth/" +:+ "login")) with true. cbn [negb andb orb].
  change (String.eqb ("/api/v1/auth/" +:+ "login") login_path) with true. cbn iota.
  destruct (spend _ _ _ _ _) as [ok ips]. cbn in Hlimit. subst ok. cbn [negb].
  unfold AuditMiddleware, mux, mux_route. rewrite Hcan, Hseg. cbn [negb andb String.eqb Ascii.eqb Bool.eqb].
  unfold login. rewrite Hbody. fold d. rewrite (proj2 (String.eqb_neq _ _) Hadmin), (proj2 (String.eqb_neq _ _) Hpw), String.eqb_refl, Hhash.
  cbn [negb orb]. rewrite Hia, Hif. eexists access, refresh, _. split; [reflexivity|]. split_and!; try done.
  by apply token_opens.
Qed.

(** A refresh with a registered token that the limiter admits. *)
Lemma refresh_served t r st token issued e :
  auth_request "refresh" r → decode_refresh (Body r) = Some token →
  Tokens st !! tokenHash token = Some e → t_registry t <= e →
  VerifyToken (cSecret cfg) token (time_unix (t_verify t)) = Ret (claims_for d issued (AdminUser d) "admin" "refresh" (RefreshTTL d)) →
  (spend (t_limit t) ("api-ip:" +:+ clientIP r) (APIUserRatePerMin cfg) (Z.quot (APIUserRatePerMin cfg) 6) (ipLimits st)).1 = true →
  0 < time_unix (t_issue t + AccessTTL d) →
  ∃ access st', ServeHTTP rs cfg d0 t None r st =
      (st', mkResponse 200 (PAccess access (whole_seconds (AccessTTL d))) (Some (AllowedOrigin cfg))) ∧
    store st' = store st ∧ Tokens st' = Tokens st ∧ opens rs cfg d0 access (t_issue t).
Proof using All.
  intros Hr Hbody He Hlive Hv Hlimit Ha. pose proof (auth_path _ _ Hr) as Hpath. destruct Hr as (Hm & Hcan & Hseg).
  destruct (issue (t_issue t) "access" (AccessTTL d) (or_introl eq_refl) Ha) as (access & Hia & Hva).
  unfold ServeHTTP, CORSMiddleware. destruct (String.eqb_spec (Method r) "OPTIONS") as [|_]; [done|].
  unfold AuthMiddleware, RateLimitMiddleware. rewrite Hpath. cbn [isPublicPath existsb].
  change (String.eqb refresh_path ("/api/v1/auth/" +:+ "refresh")) with true. rewrite orb_true_r. cbn [negb andb orb].
  change (String.eqb ("/api/v1/auth/" +:+ "refresh") login_path) with false. cbn iota.
  destruct (spend _ _ _ _ _) as [ok ips]. cbn in Hlimit. subst ok. cbn [negb].
  unfold AuditMiddleware, mux, mux_route. rewrite Hcan, Hseg. cbn [negb andb String.eqb Ascii.eqb Bool.eqb].
  unfold refresh, valid. rewrite Hbody. cbn [Tokens]. rewrite He, (proj2 (Z.ltb_ge _ _) Hlive). cbn [negb].
  fold d. rewrite Hsecret, Hv. cbn [Typ claims_for String.eqb negb Ascii.eqb Bool.eqb Sub Role].
  fold d in Hia. rewrite <- Hsecret, Hia. eexists access, _. split; [reflexivity|]. split_and!; try done. by apply token_opens.
Qed.
End Session.
End ApiSessionFacts.

Module ApiSessionProperties.
Import Jwt Api ApiFacts ApiProperties ApiSession ApiSessionFacts.

(** C11: An administrator can work.  A login with the right user name and password that the limiter admits is
    answered with a session and changes nothing in the store.  Its access token then admits every request
    that carries it as the administrator's, up to the rate limit, exactly until it expires, and whatever
    happened to the server's state in between, a logout included.  Its refresh token, while the registry
    holds it and it has not expired, gives further access tokens with the same rights. *)
Theorem admin_session `{GoUnicode} `{ClaimsJson} `{RequestJson} `{Bcrypt} {S : Type} `{Storage.Store S}
    (rs : Z) (cfg : Config) (d0 : Deps) (d := handler_deps cfg d0) (t : Times) (r : Request) (st : State S) (password : string)
    (Hsecret : Secret d = cSecret cfg) (Hkey : cSecret cfg ≠ []) (Hadmin : AdminUser d ≠ "")
    (Hjson : ∀ iat exp typ, claims_ok (mkClaims (AdminUser d) "admin" iat exp typ))
    (Hr : auth_request "login" r) (Hbody : decode_login (Body r) = Some (AdminUser d, password)) (Hpw : password ≠ "")
    (Hhash : checkPassHash (AdminHash d) password = true)
    (Hlimit : (spend (t_limit t) ("ip:" +:+ clientIP r) (LoginRatePerMin cfg) (LoginRatePerMin cfg) (ipLimits st)).1 = true)
    (Ha : 0 < time_unix (t_issue t + AccessTTL d)) (Hf : 0 < time_unix (t_issue t + RefreshTTL d)) :
  ∃ access refresh st', ServeHTTP rs cfg d0 t None r st =
      (st', mkResponse 200 (PSession access refresh (whole_seconds (AccessTTL d))) (Some (AllowedOrigin cfg))) ∧
    store st' = store st ∧ opens (S := S) rs cfg d0 access (t_issue t) ∧
    ∀ t2 r2 (st2 : State S), auth_request "refresh" r2 → decode_refresh (Body r2) = Some refresh →
      Tokens st2 !! tokenHash refresh = Tokens st' !! tokenHash refresh →
      t_registry t2 <= t_registry t + RefreshTTL d → time_unix (t_verify t2) < time_unix (t_issue t + RefreshTTL d) →
      (spend (t_limit t2) ("api-ip:" +:+ clientIP r2) (APIUserRatePerMin cfg) (Z.quot (APIUserRatePerMin cfg) 6) (ipLimits st2)).1 = true →
      0 < time_unix (t_issue t2 + AccessTTL d) →
      ∃ access2 st3, ServeHTTP rs cfg d0 t2 None r2 st2 =
          (st3, mkResponse 200 (PAccess access2 (whole_seconds (AccessTTL d))) (Some (AllowedOrigin cfg))) ∧
        store st3 = store st2 ∧ opens (S := S) rs cfg d0 access2 (t_issue t2).
Proof.
  destruct (login_served rs cfg d0 Hsecret Hkey Hadmin Hjson t r st password Hr Hbody Hpw Hhash Hlimit Ha Hf)
    as (access & refresh & st' & Hs & Hst & Htok & Hopen & Hv).
  exists access, refresh, st'. split_and!; [exact Hs|exact Hst|exact Hopen|]. intros t2 r2 st2 Hr2 Hb2 Htok2 Hlive Hexp Hlim2 Ha2.
  rewrite Htok in Htok2. unfold add in Htok2. rewrite lookup_insert_eq in Htok2.
  destruct (refresh_served rs cfg d0 Hsecret Hkey Hadmin Hjson t2 r2 st2 refresh (t_issue t) (t_registry t + RefreshTTL d)
    Hr2 Hb2 Htok2 Hlive) as (access2 & st3 & Hs2 & Hst2 & _ & Hopen2); [|exact Hlim2|exact Ha2|].
  { rewrite Hv. fold d. by rewrite (proj2 (Z.leb_gt _ _) Hexp). }
  by exists access2, st3.
Qed.

#[local] Existing Instance number_json.
#[local] Existing Instance sample_bodies.
#[local] Existing Instance plain_bcrypt.
#[local] Existing Instance ascii_only.
#[local] Existing Instance Storage.noop_Store.

(** The state after the session was logged out. *)
Definition after_logout : State Storage.noopStore :=
  (ServeHTTP 307 sample_cfg sample_deps later None logout_request after_login.1).1.

Lemma admin_session_witness :
  ServeHTTP 307 sample_cfg sample_deps later None (servers_request access_token) after_logout =
    as_user 307 sample_cfg sample_deps (admin_claims (handler_deps sample_cfg sample_deps) noon) later
      (servers_request access_token) after_logout.
Proof.
  destruct (admin_session 307 sample_cfg sample_deps (sample_clock noon) login_request sample_state "pw")
    as (access & refresh & st' & Hs & _ & Hopen & _).
  - reflexivity.
  - done.
  - done.
  - intros. apply number_json_ok.
  - by vm_compute.
  - reflexivity.
  - done.
  - vm_compute. reflexivity.
  - vm_compute. reflexivity.
  - by vm_compute.
  - by vm_compute.
  - assert (access = access_token) as ->.
    { unfold access_token, after_login. by rewrite Hs. }
    unfold opens in Hopen. specialize (Hopen later (servers_request access_token) after_logout).
    assert (guarded (servers_request access_token)) as Hg by (split; [done|vm_compute; reflexivity]).
    assert (bearer (servers_request access_token) = access_token) as Hb by (vm_compute; reflexivity).
    specialize (Hopen Hg Hb). cbn [t_issue sample_clock] in Hopen.
    assert ((time_unix (noon + AccessTTL (handler_deps sample_cfg sample_deps)) <=? time_unix (t_auth later)) = false) as Hlive
      by (vm_compute; reflexivity).
    rewrite Hlive in Hopen. exact Hopen.
Defined.
End ApiSessionProperties.
