(* ===== verification/TunnelPair.v ===== *)
(** * Two connected tunnels and their locks ([internal/tunnel/tunnel.go])

    [Read], [Write] and [Close] of a tunnel each hold its one mutex from beginning to end, [Read] also
    while it waits for the peer.  Here two tunnels are the ends of one connection and any number of
    goroutines call them; an event is a goroutine that gets the mutex, or one that finishes its call.
    Also the liveness timer and the accessors. *)

From stdpp Require Import relations.
From S2P Require Import Prelude GoLib Tunnel.

Open Scope Z_scope.

Module TunnelPair.
Import Tunnel.

(** ** The calls *)

Inductive op :=
| ORead (plen : nat)
| OWrite (p : list byte)
| OClose.

(** A goroutine: the end it works on, its calls still to come, and whether it is inside the first of
    them, that is, holds the mutex of its end. *)
Record Thread := mkThread {
  side : bool;
  ops : list op;
  holds : bool;
}.

(** The two ends, by [true] and [false]; the holder of each mutex. *)
Record Pair := mkPair {
  tun : bool → Tunnel;
  mu : bool → option nat;
  threads : list Thread;
}.

Definition set {A} (b : bool) (x : A) (f : bool → A) : bool → A := λ c, if Bool.eqb b c then x else f c.

(** The stream has ended: this end or the other has closed the connection. *)
Definition ended (x : bool) (s : Pair) : bool :=
  conn_closed (conn (tun s x)) || conn_closed (conn (tun s (negb x))).

Section Run.
Context `{AEAD}.

(** [Read] returns: the tunnel is closed, a whole frame or a header with an excessive length has
    arrived, or the stream has ended. *)
Definition can_return (x : bool) (s : Pair) : bool :=
  let t := tun s x in
  let r := rx (conn t) in
  closed t || ended x s ||
  ((10 <=? length r)%nat &&
   let clen := be_get (drop 8 (take 10 r)) in
   ((clen >? mtu t + Z.of_nat Overhead) || (10 + Z.to_nat clen <=? length r)%nat)).

(** What was written at one end arrives at the other. *)
Definition deliver (x : bool) (t : Tunnel) (s : Pair) : bool → Tunnel :=
  let peer := tun s (negb x) in
  set x (set_tx [] t) (set (negb x) (set_rx (rx (conn peer) ++ tx (conn t)) peer) (tun s)).

(** The call of the goroutine that holds the mutex, if it can finish; [fault] is the fate of a write. *)
Definition perform (o : op) (fault : option nat) (x : bool) (s : Pair) : option (bool → Tunnel) :=
  match o with
  | ORead plen => if can_return x s then Some (set x (Read plen (tun s x)).1 (tun s)) else None
  | OWrite p => Some (deliver x (Write fault p (tun s x)).1 s)
  | OClose => Some (set x (Close (tun s x)) (tun s))
  end.

Inductive event :=
| ELock (i : nat)
| EFinish (i : nat) (fault : option nat).

Definition step (ev : event) (s : Pair) : option Pair :=
  match ev with
  | ELock i =>
      match threads s !! i with
      | Some (mkThread x (o :: os) false) =>
          match mu s x with
          | None => Some (mkPair (tun s) (set x (Some i) (mu s)) (<[i := mkThread x (o :: os) true]> (threads s)))
          | Some _ => None
          end
      | _ => None
      end
  | EFinish i fault =>
      match threads s !! i with
      | Some (mkThread x (o :: os) true) =>
          match perform o fault x s with
          | Some tuns => Some (mkPair tuns (set x None (mu s)) (<[i := mkThread x os false]> (threads s)))
          | None => None
          end
      | _ => None
      end
  end.

(** Goroutines that have not started, on two tunnels. *)
Definition start (ta tb : Tunnel) (calls : list (bool * list op)) : Pair :=
  mkPair (λ x, if x then ta else tb) (λ _, None) ((λ c, mkThread c.1 c.2 false) <$> calls).


End Run.

(** ** The liveness timer and the accessors *)

(** When [onDead] is called, if given, for a monitor started at [now].  [reads] are the times of the
    successful reads and [closed_at] the time of the close, if any. *)
Definition FailMonitor (now timeout : Z) (reads : list Z) (closed_at : option Z) (onDead : bool) : option Z :=
  let timeout := if timeout <=? 0 then 15 * Second else timeout in
  if onDead then Some (now + timeout) else None.

Definition Tunnel_Transport (t : Tunnel) : Transport := transport t.
Definition Tunnel_MTU (t : Tunnel) : Z := mtu t.
End TunnelPair.

Module TunnelPairFacts.
Import Tunnel TunnelPair.

Section Facts.
Context `{AEAD}.






End Facts.
End TunnelPairFacts.

Module TunnelPairProperties.
Import Tunnel TunnelPair TunnelPairFacts.

Section Properties.
Context `{AEAD}.

End Properties.

(** ** Two ends that each read and write *)

Definition toy : AEAD := TunnelProperties.toy_aead.
Definition end_ : Tunnel := NewTunnel (mkConn [] [] false) TransportUDP 1280.
Definition duplex : list (bool * list op) :=
  [(true, [ORead 100]); (true, [OWrite [x01]; OClose]); (false, [ORead 100]); (false, [OWrite [x02]; OClose])].

Definition after (evs : list event) : option Pair :=
  foldl (λ s ev, match s with Some s => @step toy ev s | None => None end) (Some (start end_ end_ duplex)) evs.




(** In another order the same calls all finish. *)
Lemma other_order_finishes :
  (λ s, ops <$> threads s) <$> after [ELock 1; EFinish 1 None; ELock 3; EFinish 3 None; ELock 0; EFinish 0 None; ELock 2;
    EFinish 2 None; ELock 1; EFinish 1 None; ELock 3; EFinish 3 None] = Some [[]; []; []; []].
Proof. vm_compute. reflexivity. Qed.

(** The timer fires whatever was read meanwhile, and on a tunnel that was closed. *)
Lemma monitor_ignores_traffic now timeout reads reads' closed closed' :
  FailMonitor now timeout reads closed true = FailMonitor now timeout reads' closed' true ∧
  FailMonitor now 0 [now + 14 * Second] None true = Some (now + 15 * Second).
Proof. done. Qed.
End TunnelPairProperties.
