(* ===== verification/TunnelUdp.v ===== *)
(** * The tunnel on a UDP socket ([internal/tunnel/tunnel.go])

    [TransportSelect] also gives a tunnel over a [*net.UDPConn].  There a call of the connection's
    [Read] takes one datagram and drops what does not fit its buffer, while [Tunnel.Read] asks for
    the ten bytes of the header first.  This file runs [Read] on such a socket. *)

From S2P Require Import Prelude GoLib Tunnel.

Open Scope Z_scope.

Module TunnelUdp.
Import Tunnel.


Section Read.
Context `{AEAD}.



End Read.
End TunnelUdp.

Module TunnelUdpFacts.
Import Tunnel TunnelFacts TunnelUdp.

Section Facts.
Context `{AEAD} `{!AEADLaws}.






End Facts.
End TunnelUdpFacts.

Module TunnelUdpProperties.
Import Tunnel TunnelFacts TunnelUdp TunnelUdpFacts.





Definition udp_end : Tunnel := NewTunnel (mkConn [] [] false) TransportUDP 1280.

(** The socket path of [TransportSelect] is this tunnel. *)
Lemma udp_selected : TransportSelect (Some (UDPConn, mkConn [] [] false)) true 1280 true = Ret udp_end.
Proof. done. Qed.

End TunnelUdpProperties.
