(* ===== verification/DataPlane.v ===== *)
(** * The data plane, end to end ([internal/routing], [internal/tunnel])

    The forwarding loop with a TUN device as its source and tunnels as its sinks: what is read from the
    device, routed by destination and written to a tunnel, and what the peer at the other end of that
    tunnel reads. *)

From S2P Require Import Prelude GoLib NetAddr Routing Tunnel HostSystem.

Open Scope Z_scope.

Module DataPlane.
Import Routing Tunnel.

(** A node's router and its tunnels, by the numbers under which they are wired. *)
Record Plane := mkPlane {
  router : Router;
  tuns : nat → Tunnel;
}.

Definition update (s : nat) (t : Tunnel) (f : nat → Tunnel) : nat → Tunnel :=
  λ k, if (k =? s)%nat then t else f k.

Section Plane.
Context `{AEAD}.

(** One round of the loop: the router writes to the tunnel it picked, if any, and counts by the result. *)
Definition plane_forward (read : option (list byte)) (p : Plane) : Plane :=
  let r := (Forward (λ s pkt, is_ret (Tunnel.Write None pkt (tuns p s)).2) read (router p)).1 in
  mkPlane r
    (foldl (λ f w, update w.1.1 (Tunnel.Write None w.1.2 (f w.1.1)).1 f) (tuns p) (drop (length (trace (router p))) (trace r))).

Definition plane_run (reads : list (option (list byte))) (p : Plane) : Plane :=
  foldl (λ p read, plane_forward read p) p reads.

(** A round of [RunLoop] on a TUN device; [None] where the read waits for a packet. *)
Definition device_round (plen : nat) (dev : HostSystem.LinuxTUN) (st : HostSystem.Kernel * Plane) :
    option (HostSystem.Kernel * Plane) :=
  match HostSystem.TUN_Read plen dev st.1 with
  | None => None
  | Some (k, Ret pkt) => Some (k, plane_forward (Some pkt) st.2)
  | Some (k, _) => Some (k, plane_forward None st.2)
  end.

(** Up to [n] rounds, until one waits. *)
Fixpoint device_rounds (n plen : nat) (dev : HostSystem.LinuxTUN) (st : HostSystem.Kernel * Plane) :
    HostSystem.Kernel * Plane :=
  match n with
  | O => st
  | S n => match device_round plen dev st with Some st => device_rounds n plen dev st | None => st end
  end.

(** [RunLoop] with the device as its source, for [n] rounds before [done] is closed. *)
Definition device_loop (n : nat) (bufSize : Z) (dev : HostSystem.LinuxTUN) (st : HostSystem.Kernel * Plane) :
    HostSystem.Kernel * Plane :=
  device_rounds n (Z.to_nat (if bufSize <=? 0 then 65535 else bufSize)) dev st.
End Plane.
End DataPlane.

Module DataPlaneFacts.
Import Routing RoutingFacts Tunnel TunnelFacts DataPlane.

(** Where a table sends a packet. *)
Definition sink_for (t : PeerTable) (pkt : list byte) : option nat :=
  match extractDstAddr pkt with
  | Ret dst => match Route dst (NewRouter t) with Some e => Sink e | None => None end
  | _ => None
  end.

Lemma Forward_trace_exact ok pkt r :
  trace (Forward ok (Some pkt) r).1 =
  trace r ++ match sink_for (table r) pkt with Some s => [(s, pkt, ok s pkt)] | None => [] end.
Proof.
  unfold Forward, sink_for. destruct pkt as [|b pkt]; [by rewrite app_nil_r|]. cbn [length Nat.eqb].
  destruct (extractDstAddr (b :: pkt)) as [dst| |]; [|by rewrite app_nil_r..].
  change (Route dst (NewRouter (table r))) with (Route dst r).
  destruct (Route dst r) as [e|]; [|by rewrite app_nil_r]. destruct (Sink e) as [s|]; [|by rewrite app_nil_r].
  by destruct (ok s (b :: pkt)).
Qed.

Section Plane.
Context `{AEAD}.

Definition fits (t : Tunnel) (pkt : list byte) : bool := negb (closed t) && negb (Z.of_nat (length pkt) >? mtu t).

Lemma Write_fits pkt t :
  is_ret (Tunnel.Write None pkt t).2 = fits t pkt ∧ closed (Tunnel.Write None pkt t).1 = closed t ∧
  mtu (Tunnel.Write None pkt t).1 = mtu t ∧ (fits t pkt = false → (Tunnel.Write None pkt t).1 = t).
Proof.
  unfold Tunnel.Write, fits. destruct (closed t) eqn:Ec; [done|].
  destruct (Z.of_nat (length pkt) >? mtu t); cbn; by split_and!.
Qed.

(** The packets among [reads] that are written to tunnel [s]. *)
Definition sent_to (tab : PeerTable) (t : Tunnel) (s : nat) (reads : list (option (list byte))) : list (list byte) :=
  filter (λ pkt, sink_for tab pkt = Some s ∧ fits t pkt = true) (omap id reads).

Lemma plane_forward_tun read p s :
  table (router (plane_forward read p)) = table (router p) ∧
  tuns (plane_forward read p) s = write_all (sent_to (table (router p)) (tuns p s) s [read]) (tuns p s).
Proof.
  split; [apply Forward_table|]. unfold plane_forward. cbn [tuns]. destruct read as [pkt|].
  2:{ cbn. by rewrite drop_all. }
  rewrite Forward_trace_exact, drop_app_length. unfold sent_to. cbn [omap list_omap id].
  destruct (sink_for (table (router p)) pkt) as [k|] eqn:Ek; cbn [foldl fst snd].
  - unfold update. destruct (Nat.eqb_spec s k) as [->|Hne].
    + destruct (Write_fits pkt (tuns p k)) as (_ & _ & _ & Hf). rewrite filter_cons, Ek.
      destruct (fits (tuns p k) pkt) eqn:Ef.
      * by rewrite decide_True.
      * rewrite decide_False by (by intros [_ ?]). by apply Hf.
    + rewrite filter_cons, Ek, decide_False; [done|]. intros [? _]. congruence.
  - rewrite filter_cons, Ek, decide_False; [done|]. by intros [? _].
Qed.

Lemma write_all_app a b t : write_all (a ++ b) t = write_all b (write_all a t).
Proof. unfold write_all. by rewrite foldl_app. Qed.

Lemma write_all_fits ps t pkt : fits (write_all ps t) pkt = fits t pkt.
Proof.
  revert t. induction ps as [|p ps IH]; intros t; [done|]. unfold write_all in *. cbn [foldl]. rewrite IH.
  destruct (Write_fits p t) as (_ & Hc & Hm & _). unfold fits. by rewrite Hc, Hm.
Qed.

(** After the loop, each tunnel has been written exactly the packets routed to it that fit. *)
Lemma plane_run_tun reads p s :
  tuns (plane_run reads p) s = write_all (sent_to (table (router p)) (tuns p s) s reads) (tuns p s).
Proof.
  revert p. induction reads as [|read reads IH]; intros p; [done|]. unfold plane_run in *. cbn [foldl]. rewrite IH.
  destruct (plane_forward_tun read p s) as [-> ->].
  assert (sent_to (table (router p)) (tuns p s) s (read :: reads) =
    sent_to (table (router p)) (tuns p s) s [read] ++ sent_to (table (router p)) (tuns p s) s reads) as ->.
  { unfold sent_to. rewrite <- filter_app. f_equal. by destruct read. }
  rewrite write_all_app. f_equal. unfold sent_to. apply list_filter_iff. intros pkt. by rewrite write_all_fits.
Qed.

(** What a read of a packet gives the loop. *)
Definition device_read (plen : nat) (pkt : list byte) : option (list byte) :=
  if (length pkt =? 0)%nat then None else Some (take plen pkt).

Lemma omap_id_fmap {A B} (g : A → option B) (l : list A) : omap id (g <$> l) = omap g l.
Proof. induction l as [|x l IH]; [done|]. cbn. by rewrite <- IH. Qed.

(** The rounds handle the waiting packets in order, each cut to the buffer, and then wait. *)
Lemma device_rounds_run n plen dev k p pkts :
  (0 < plen)%nat → HostSystem.files k !! HostSystem.f dev = Some pkts → (length pkts ≤ n)%nat →
  device_rounds n plen dev (k, p) =
    (HostSystem.set_file (HostSystem.f dev) [] k, plane_run (device_read plen <$> pkts) p).
Proof.
  intros Hpl. assert ((plen =? 0)%nat = false) as Hz by (apply Nat.eqb_neq; lia).
  revert k p pkts. induction n as [|n IH]; intros k p pkts Hk Hn.
  - destruct pkts; [|cbn in Hn; lia]. destruct k as [fs w]. unfold HostSystem.set_file. cbn in *. by rewrite insert_id.
  - cbn [device_rounds]. unfold device_round, HostSystem.TUN_Read. cbn [fst snd]. rewrite Hk, Hz. destruct pkts as [|pkt pkts].
    { destruct k as [fs w]. unfold HostSystem.set_file. cbn in *. by rewrite insert_id. }
    cbn in Hn. unfold device_read. cbn [fmap list_fmap]. unfold plane_run. cbn [foldl].
    assert (∀ p', device_rounds n plen dev (HostSystem.set_file (HostSystem.f dev) pkts k, p') =
      (HostSystem.set_file (HostSystem.f dev) [] k, plane_run (device_read plen <$> pkts) p')) as IH'.
    { intros p'. rewrite (IH _ _ pkts); [|cbn; apply lookup_insert_eq|lia]. f_equal.
      unfold HostSystem.set_file. cbn. by rewrite insert_insert_eq. }
    destruct (length pkt =? 0)%nat; apply IH'.
Qed.

(** On a closed device the loop goes on for ever and does nothing. *)
Lemma closed_device_loop n bufSize dev k p :
  HostSystem.files k !! HostSystem.f dev = None →
  device_loop n bufSize dev (k, p) = (k, p) ∧ device_round (Z.to_nat bufSize) dev (k, p) = Some (k, p).
Proof.
  intros Hk. assert (∀ plen, device_round plen dev (k, p) = Some (k, p)) as Hr.
  { intros plen. unfold device_round, HostSystem.TUN_Read. cbn [fst snd]. rewrite Hk. unfold plane_forward. cbn.
    rewrite drop_all. by destruct p. }
  split; [|apply Hr]. unfold device_loop. induction n as [|n IH]; cbn [device_rounds]; [done|]. by rewrite Hr.
Qed.
End Plane.
End DataPlaneFacts.

Module DataPlaneProperties.
Import NetAddr Routing RoutingFacts RoutingProperties Tunnel TunnelFacts DataPlane DataPlaneFacts.

(** The peer of a tunnel reads what the loop routed to it. *)
Lemma plane_delivers `{AEAD} `{!AEADLaws} (ops : list table_op) (reads : list (option (list byte))) (f : nat → Tunnel)
    (s : nat) (peer : Tunnel) (plen : nat)
    (Hplain : Forall op_plain ops) (Ha : closed (f s) = false) (Hb : closed peer = false)
    (Hw : window_ok (recvWindow peer)) (Hseq : 0 <= sendSeq (f s)) (Hwin : last (recvWindow peer) <= sendSeq (f s))
    (Hcount : sendSeq (f s) + Z.of_nat (length reads) < 2 ^ 64) (Htx : tx (conn (f s)) = [])
    (Hmtu : mtu (f s) <= mtu peer) (Hfield : mtu (f s) + Z.of_nat Overhead < 2 ^ 16) (Hplen : mtu (f s) <= Z.of_nat plen) :
  let ps := filter (λ pkt, sink_for (table_of ops) pkt = Some s ∧ Z.of_nat (length pkt) <= mtu (f s)) (omap id reads) in
  let p := plane_run reads (mkPlane (NewRouter (table_of ops)) f) in
  (read_n (length ps) plen (set_rx (tx (conn (tuns p s))) peer)).2 = (λ pkt, Ret (length pkt, pkt)) <$> ps ∧
  rx (conn (read_n (length ps) plen (set_rx (tx (conn (tuns p s))) peer)).1) = [] ∧
  ∀ pkt, pkt ∈ ps → ∃ a id a6 a4 room, dst_addr pkt = Ret a ∧ OpWire id a6 a4 room s ∈ ops ∧ (a6 = Some a ∨ a4 = Some a).
Proof.
  intros ps p. assert (sent_to (table_of ops) (f s) s reads = ps) as Eps.
  { unfold sent_to, ps. apply list_filter_iff. intros pkt. unfold fits. rewrite Ha. cbn [negb andb].
    destruct (Z.gtb_spec (Z.of_nat (length pkt)) (mtu (f s))); cbn [negb]; split; intros [? ?]; split; (done || lia). }
  assert (Forall (λ pkt, Z.of_nat (length pkt) <= mtu (f s)) ps) as Hps.
  { apply Forall_forall. intros pkt [[_ ?] _]%list_elem_of_filter. done. }
  assert (length ps <= length reads)%nat as Hlen.
  { unfold ps. etrans; [apply length_filter|]. clear. induction reads as [|[x|] l IH]; cbn; lia. }
  unfold p. rewrite plane_run_tun. cbn [router tuns table NewRouter]. rewrite Eps.
  destruct (write_all_spec ps (f s) Ha Hps Hseq ltac:(lia)) as [-> _]. rewrite Htx. cbn [app].
  destruct (read_packets plen (sendSeq (f s)) ps [] (set_rx (packets (sendSeq (f s)) ps) peer)) as [H1 H2];
    [done|done|cbn; by rewrite app_nil_r|done|done|lia| |].
  { eapply Forall_impl; [exact Hps|]. intros pkt Hp. cbn [mtu set_rx]. cbn beta in Hp. split_and!; lia. }
  split_and!; [exact H1|exact H2|]. intros pkt [[Hs _] Hin]%list_elem_of_filter.
  unfold sink_for, extractDstAddr in Hs. destruct (dst_addr pkt) as [a| |] eqn:Ea; cbn in Hs; try done.
  destruct (table_of_inv ops) as [Hok Hwired]. unfold Route, Routing.Get, GetByIPv4 in Hs. cbn [table NewRouter] in Hs.
  assert (∃ e, (byIPv6 (table_of ops) !! Addr_String a = Some e ∨ byIPv4 (table_of ops) !! Addr_String a = Some e) ∧ Sink e = Some s)
    as (e & He & Hsink).
  { destruct (byIPv6 (table_of ops) !! Addr_String a) as [e|] eqn:E6; cbn in Hs; [exists e; auto|].
    destruct (byIPv4 (table_of ops) !! Addr_String a) as [e|] eqn:E4; cbn in Hs; [exists e; auto|done]. }
  destruct (Hwired _ _ He) as (id & a6 & a4 & room & tun & Hop & ->). injection Hsink as ->.
  rewrite Forall_forall in Hplain. destruct (Hplain _ Hop) as [H6 H4]. exists a, id, a6, a4, room. split_and!; [done..|].
  pose proof (dst_addr_plain _ _ Ea) as Hp. destruct He as [He|He]; [left|right].
  - destruct (filed6 _ Hok _ _ He) as [E Hne]. by apply addr_text_inj.
  - destruct (filed4 _ Hok _ _ He) as [E Hne]. by apply addr_text_inj.
Qed.

(** C15: The data plane delivers end to end.  In a node whose table was built by any sequence of wirings and
    removals, the loop takes all packets that wait in the TUN device, in as many rounds as there are packets,
    each cut to the loop's buffer.  Then the peer of tunnel [s], if both ends share the cipher and were in
    step, reads exactly those of the packets that the table sends to [s] and that fit its MTU: unchanged, in
    their order, each once, and nothing else; and each of them is addressed to an address that [s] was
    wired for. *)
Theorem end_to_end `{AEAD} `{!AEADLaws} (ops : list table_op) (k : HostSystem.Kernel) (dev : HostSystem.LinuxTUN)
    (pkts : list (list byte)) (n : nat) (bufSize : Z) (f : nat → Tunnel) (s : nat) (peer : Tunnel) (plen : nat)
    (Hdev : HostSystem.files k !! HostSystem.f dev = Some pkts) (Hn : (length pkts ≤ n)%nat)
    (Hplain : Forall op_plain ops) (Ha : closed (f s) = false) (Hb : closed peer = false)
    (Hw : window_ok (recvWindow peer)) (Hseq : 0 <= sendSeq (f s)) (Hwin : last (recvWindow peer) <= sendSeq (f s))
    (Hcount : sendSeq (f s) + Z.of_nat (length pkts) < 2 ^ 64) (Htx : tx (conn (f s)) = [])
    (Hmtu : mtu (f s) <= mtu peer) (Hfield : mtu (f s) + Z.of_nat Overhead < 2 ^ 16) (Hplen : mtu (f s) <= Z.of_nat plen) :
  let reads := omap (device_read (Z.to_nat (if bufSize <=? 0 then 65535 else bufSize))) pkts in
  let ps := filter (λ pkt, sink_for (table_of ops) pkt = Some s ∧ Z.of_nat (length pkt) <= mtu (f s)) reads in
  let '(k', p) := device_loop n bufSize dev (k, mkPlane (NewRouter (table_of ops)) f) in
  HostSystem.files k' !! HostSystem.f dev = Some [] ∧
  (read_n (length ps) plen (set_rx (tx (conn (tuns p s))) peer)).2 = (λ pkt, Ret (length pkt, pkt)) <$> ps ∧
  rx (conn (read_n (length ps) plen (set_rx (tx (conn (tuns p s))) peer)).1) = [] ∧
  ∀ pkt, pkt ∈ ps → ∃ a id a6 a4 room, dst_addr pkt = Ret a ∧ OpWire id a6 a4 room s ∈ ops ∧ (a6 = Some a ∨ a4 = Some a).
Proof.
  intros reads ps. unfold device_loop. rewrite (device_rounds_run n _ dev k _ pkts) by (done || (destruct (Z.leb_spec bufSize 0); lia)).
  split; [cbn; apply lookup_insert_eq|]. set (l := device_read _ <$> pkts).
  assert (ps = filter (λ pkt, sink_for (table_of ops) pkt = Some s ∧ Z.of_nat (length pkt) <= mtu (f s)) (omap id l)) as ->.
  { unfold ps, reads, l. by rewrite omap_id_fmap. }
  apply plane_delivers; try done. unfold l. by rewrite length_fmap.
Qed.

Definition toy : AEAD := TunnelProperties.toy_aead.
Definition fresh : Tunnel := NewTunnel (mkConn [] [] false) TransportUDP 1280.
Definition stray_packet : list byte := x45 :: replicate 15 x00 ++ [x0a; x00; x00; x01] ++ bytes_of "stray".

Definition tun_device : HostSystem.LinuxTUN := HostSystem.mkTUN 3 "mesh0" 1280.
Definition tun_kernel : HostSystem.Kernel := HostSystem.mkKernel {[3%nat := [sample_packet; []; stray_packet]]} [].

Lemma end_to_end_witness :
  let '(k, p) := @device_loop toy 5 0 tun_device (tun_kernel, mkPlane (NewRouter (table_of sample_ops)) (λ _, fresh)) in
  HostSystem.files k !! 3%nat = Some [] ∧
  (@read_n toy 1 1500 (set_rx (tx (conn (tuns p 7))) fresh)).2 = [Ret (length sample_packet, sample_packet)].
Proof.
  pose proof (@end_to_end toy TunnelProperties.toy_aead_laws sample_ops tun_kernel tun_device [sample_packet; []; stray_packet] 5 0
    (λ _, fresh) 7 fresh 1500) as Hend.
  destruct (@device_loop toy 5 0 tun_device _) as [k p].
  destruct Hend as (H1 & H2 & _); [try (reflexivity || (cbn; done || lia)) ..|split; [exact H1|exact H2]].
  repeat constructor; cbn; naive_solver.
Defined.
End DataPlaneProperties.
