(* ===== verification/MeshRouting.v ===== *)
(** * Derived addresses and routing ([pkg/types], [internal/routing], [internal/room])

    A room in which every node is wired under the addresses derived from its NodeID: which tunnel a
    packet to a derived address takes.  It composes the derivation (MeshTypes.v), the peer table and
    the router (Routing.v) and the check of claimed addresses (Room.v). *)

From S2P Require Import Prelude GoLib Sha256 MeshTypes NetAddr Routing Room DataPlane.

Open Scope Z_scope.

Module MeshRouting.
Import Routing RoutingProperties.

(** [WireTunnel] for a node of a room, given with the number of its tunnel, under its derived addresses. *)
Definition wire_node `{GoUnicode} (k : RoomKey) (room : RoomID) (n : NodeID * nat) : table_op :=
  OpWire n.1 (Some (DeriveIPv6Addr n.1 k)) (Some (DeriveNodeIPv4 n.1 k)) room n.2.

Definition room_table `{GoUnicode} (k : RoomKey) (room : RoomID) (nodes : list (NodeID * nat)) : PeerTable :=
  table_of (wire_node k room <$> nodes).
End MeshRouting.

Module MeshRoutingFacts.
Import NetAddr Routing RoutingFacts RoutingProperties DataPlaneFacts MeshRouting.

#[export] Instance Addr_eq_dec : EqDecision Addr.
Proof. solve_decision. Defined.

Lemma not_NoDup_lookup {A} `{EqDecision A} (l : list A) :
  ¬ NoDup l → ∃ i j x, (i < j)%nat ∧ l !! i = Some x ∧ l !! j = Some x.
Proof.
  induction l as [|x l IH]; intros Hd; [by destruct Hd; constructor|].
  destruct (decide (x ∈ l)) as [(j & Hj)%list_elem_of_lookup_1|Hx].
  - exists 0%nat, (S j), x. split; [lia|done].
  - destruct IH as (i & j & y & Hij & Hi & Hj); [intros Hl; by destruct Hd; constructor|].
    exists (S i), (S j), y. split; [lia|done].
Qed.

(** The last element that passes is not before any other that does. *)
Lemma last_filter_later {A} (P : A → Prop) `{∀ x, Decision (P x)} (l : list A) (j : nat) (m x : A) :
  last (filter P l) = Some x → l !! j = Some m → P m → ∃ c, (j <= c)%nat ∧ l !! c = Some x.
Proof.
  revert j. induction l as [|y l IH] using rev_ind; intros j; [by rewrite lookup_nil|].
  rewrite filter_app. cbn [filter list_filter]. destruct (decide (P y)) as [Hy|Hy].
  - rewrite last_snoc. intros [= ->] Hj _. exists (length l). apply lookup_lt_Some in Hj. rewrite length_app in Hj. cbn in Hj.
    split; [lia|]. by rewrite list_lookup_middle.
  - rewrite app_nil_r. intros Hl Hj Hm. destruct (decide (j < length l)%nat) as [Hlt|Hge].
    + rewrite lookup_app_l in Hj by done. destruct (IH j Hl Hj Hm) as (c & Hc & Hx). exists c. split; [done|].
      by apply lookup_app_l_Some.
    + exfalso. rewrite lookup_app_r in Hj by lia. apply list_lookup_singleton_Some in Hj as [_ ->]. done.
Qed.

Lemma join_colon_nonempty c x y l : join_with c (x :: y :: l) ≠ [].
Proof. cbn. intros E%app_eq_nil. by destruct E. Qed.

Lemma Addr_String_nonempty a : plain a → Addr_String a ≠ "".
Proof.
  intros Ha E%(f_equal bytes_of). unfold Addr_String in E. rewrite bytes_of_string_of in E. change (bytes_of "") with (@nil byte) in E.
  destruct a as [|b|b z]; [done| |].
  - unfold Addr_bytes, string4 in E. pose proof (length_vec_to_list b) as Hl.
    destruct (vec_to_list b) as [|x [|y l]]; try done. by apply join_colon_nonempty in E.
  - unfold Addr_bytes in E. apply app_eq_nil in E as [E _]. destruct (has_prefix _ _); [by cbn in E|].
    unfold string6 in E. destruct (zero_run _) as [s n]. destruct (n =? 0)%nat.
    + by apply join_colon_nonempty in E.
    + apply app_eq_nil in E as [_ E]. by apply app_eq_nil in E as [? _].
Qed.

Section Facts.
Context `{GoUnicode}.

Lemma derived_plain n k : plain (DeriveIPv6Addr n k) ∧ plain (DeriveNodeIPv4 n k).
Proof. done. Qed.

(** The entry the table stores for a node. *)
Definition entry (k : RoomKey) (room : RoomID) (n : NodeID * nat) : PeerEntry :=
  mkEntry (Addr_String (DeriveIPv6Addr n.1 k)) (Addr_String (DeriveNodeIPv4 n.1 k)) n.1 room (Some n.2).

Lemma room_table_snoc k room nodes n :
  room_table k room (nodes ++ [n]) =
  mkPeerTable (<[Addr_String (DeriveIPv6Addr n.1 k) := entry k room n]> (byIPv6 (room_table k room nodes)))
              (<[Addr_String (DeriveNodeIPv4 n.1 k) := entry k room n]> (byIPv4 (room_table k room nodes))).
Proof.
  unfold room_table, table_of. rewrite fmap_app, foldl_app. cbn [fmap list_fmap foldl wire_node apply_op addr_text].
  destruct (derived_plain n.1 k) as [H6%Addr_String_nonempty H4%Addr_String_nonempty].
  unfold WireTunnel, Add. cbn [IPv6 IPv4].
  destruct (String.eqb_spec (Addr_String (DeriveIPv6Addr n.1 k)) ""); [done|].
  by destruct (String.eqb_spec (Addr_String (DeriveNodeIPv4 n.1 k)) "").
Qed.

(** In each of the two maps the last node wired under an address has it. *)
Lemma room_table_lookup k room nodes a :
  plain a →
  byIPv6 (room_table k room nodes) !! Addr_String a =
    entry k room <$> last (filter (λ n, DeriveIPv6Addr n.1 k = a) nodes) ∧
  byIPv4 (room_table k room nodes) !! Addr_String a =
    entry k room <$> last (filter (λ n, DeriveNodeIPv4 n.1 k = a) nodes).
Proof.
  intros Ha. induction nodes as [|n nodes [IH6 IH4]] using rev_ind.
  { unfold room_table, table_of. cbn. by rewrite !lookup_empty. }
  rewrite room_table_snoc. cbn [byIPv6 byIPv4]. rewrite !filter_app. cbn [filter list_filter].
  assert (∀ b, plain b → Addr_String b = Addr_String a ↔ b = a) as Hinj.
  { intros b Hb. split; [by apply Addr_String_inj|by intros ->]. }
  destruct (derived_plain n.1 k) as [H6 H4]. split.
  - destruct (decide (DeriveIPv6Addr n.1 k = a)) as [E|E].
    + rewrite last_snoc. by rewrite E, lookup_insert_eq.
    + rewrite app_nil_r, lookup_insert_ne; [done|]. by rewrite Hinj.
  - destruct (decide (DeriveNodeIPv4 n.1 k = a)) as [E|E].
    + rewrite last_snoc. by rewrite E, lookup_insert_eq.
    + rewrite app_nil_r, lookup_insert_ne; [done|]. by rewrite Hinj.
Qed.

(** Where a packet to [a] goes. *)
Lemma room_sink k room nodes pkt a :
  dst_addr pkt = Ret a →
  sink_for (room_table k room nodes) pkt =
  snd <$> last (filter (λ n, DeriveIPv6Addr n.1 k = a ∨ DeriveNodeIPv4 n.1 k = a) nodes).
Proof.
  intros Ha. pose proof (dst_addr_plain _ _ Ha) as Hp. destruct (room_table_lookup k room nodes a Hp) as [H6 H4].
  unfold sink_for, extractDstAddr. rewrite Ha. cbn [mbind outcome_bind]. unfold Route, Get, GetByIPv4. cbn [table NewRouter].
  rewrite H6, H4. destruct a as [|b|b z]; [done| |].
  - assert (filter (λ n, DeriveIPv6Addr n.1 k = Addr4 b) nodes = []) as ->.
    { clear. induction nodes as [|n l IH]; [done|]. by rewrite filter_cons_False. }
    assert (filter (λ n, DeriveIPv6Addr n.1 k = Addr4 b ∨ DeriveNodeIPv4 n.1 k = Addr4 b) nodes =
      filter (λ n, DeriveNodeIPv4 n.1 k = Addr4 b) nodes) as ->
      by (apply list_filter_iff; intros n; split; [by intros [?|?]|by right]).
    by destruct (last (filter (λ n, DeriveNodeIPv4 n.1 k = Addr4 b) nodes)).
  - assert (filter (λ n, DeriveNodeIPv4 n.1 k = Addr6 b z) nodes = []) as ->.
    { clear. induction nodes as [|n l IH]; [done|]. by rewrite filter_cons_False. }
    assert (filter (λ n, DeriveIPv6Addr n.1 k = Addr6 b z ∨ DeriveNodeIPv4 n.1 k = Addr6 b z) nodes =
      filter (λ n, DeriveIPv6Addr n.1 k = Addr6 b z) nodes) as ->
      by (apply list_filter_iff; intros n; split; [by intros [?|?]|by left]).
    by destruct (last (filter (λ n, DeriveIPv6Addr n.1 k = Addr6 b z) nodes)).
Qed.

(** There are 254 host bytes. *)
Lemma ipv4_among n k : ∃ h, (h < 254)%nat ∧ DeriveNodeIPv4 n k =
  Addr4 (arr_copy 4 (take 3 (vec_to_list (As4 (Base (DeriveRoomSubnet k)))) ++ [Zb (Z.of_nat h + 1)])).
Proof.
  set (d := bZ (nth 6 (vec_to_list (saltedDigest k n)) x00)). pose proof (Z.mod_pos_bound d 254 ltac:(lia)).
  exists (Z.to_nat (d mod 254)). split; [lia|]. unfold DeriveNodeIPv4. by rewrite Z2Nat.id by lia.
Qed.

Lemma ipv4_collision k (nodes : list (NodeID * nat)) :
  (254 < length nodes)%nat →
  ∃ i j n m, (i < j)%nat ∧ nodes !! i = Some n ∧ nodes !! j = Some m ∧ DeriveNodeIPv4 n.1 k = DeriveNodeIPv4 m.1 k.
Proof.
  intros Hlen. destruct (decide (NoDup ((λ n, DeriveNodeIPv4 n.1 k) <$> nodes))) as [Hnd|Hd].
  - exfalso.
    set (all := (λ h, Addr4 (arr_copy 4 (take 3 (vec_to_list (As4 (Base (DeriveRoomSubnet k)))) ++ [Zb (Z.of_nat h + 1)]))) <$> seq 0 254).
    assert ((λ n, DeriveNodeIPv4 n.1 k) <$> nodes ⊆ all) as Hsub.
    { intros a (n & -> & _)%list_elem_of_fmap. destruct (ipv4_among n.1 k) as (h & Hh & ->).
      apply list_elem_of_fmap. exists h. split; [done|]. apply elem_of_seq. lia. }
    apply NoDup_submseteq in Hsub; [|done]. apply submseteq_length in Hsub.
    unfold all in Hsub. rewrite !length_fmap, length_seq in Hsub. lia.
  - apply not_NoDup_lookup in Hd as (i & j & a & Hij & Hi & Hj).
    rewrite list_lookup_fmap in Hi, Hj. destruct (nodes !! i) as [n|] eqn:Ei, (nodes !! j) as [m|] eqn:Ej; try done.
    apply (inj Some) in Hi, Hj. exists i, j, n, m. split_and!; congruence.
Qed.
End Facts.
End MeshRoutingFacts.

Module MeshRoutingProperties.
Import NetAddr Routing RoutingFacts RoutingProperties DataPlaneFacts MeshRouting MeshRoutingFacts.

(** C24: Which tunnel a mesh address leads to.  In a room whose nodes are wired under their derived addresses,
    a packet goes to the tunnel of the last node wired whose derived IPv6 or IPv4 address is its
    destination, and nowhere if there is none.  With more than 254 nodes two of them derive the same
    IPv4 address, each passes the check of claimed addresses for it, and no packet to that address
    reaches the one wired first. *)
Theorem mesh_addressing `{GoUnicode} (k : RoomKey) (room : RoomID) (nodes : list (NodeID * nat)) :
  (∀ pkt a, dst_addr pkt = Ret a →
     sink_for (room_table k room nodes) pkt =
     snd <$> last (filter (λ n, DeriveIPv6Addr n.1 k = a ∨ DeriveNodeIPv4 n.1 k = a) nodes)) ∧
  ((254 < length nodes)%nat → NoDup nodes.*2 →
     ∃ n m, n ∈ nodes ∧ m ∈ nodes ∧ n ≠ m ∧
       Room.VerifyNodeIPv4 n.1 k (Addr_String (DeriveNodeIPv4 m.1 k)) = true ∧
       ∀ pkt, dst_addr pkt = Ret (DeriveNodeIPv4 n.1 k) → sink_for (room_table k room nodes) pkt ≠ Some n.2).
Proof.
  split; [intros pkt a; apply room_sink|]. intros Hlen Hnd.
  destruct (ipv4_collision k nodes Hlen) as (i & j & n & m & Hij & Hi & Hj & E).
  assert (∀ i' j' x y, nodes !! i' = Some x → nodes !! j' = Some y → x.2 = y.2 → i' = j') as Hinj.
  { intros i' j' x y Hx Hy Hxy. apply (NoDup_lookup _ i' j' x.2 Hnd); rewrite list_lookup_fmap; [by rewrite Hx|by rewrite Hy, Hxy]. }
  exists n, m. split_and!.
  - by eapply list_elem_of_lookup_2.
  - by eapply list_elem_of_lookup_2.
  - intros ->. specialize (Hinj i j m m Hi Hj eq_refl). lia.
  - unfold Room.VerifyNodeIPv4. rewrite E. apply String.eqb_refl.
  - intros pkt Hpkt. rewrite (room_sink _ _ _ _ _ Hpkt). intros Hs.
    destruct (last _) as [x|] eqn:Hl; [|done]. apply (inj Some) in Hs.
    destruct (last_filter_later _ nodes j m x Hl Hj) as (c & Hjc & Hc); [right; by rewrite E|].
    specialize (Hinj i c n x Hi Hc ltac:(done)). lia.
Qed.
End MeshRoutingProperties.
